(** * Node lifecycle and link integrity of [aiida/orm/oldnode.py]

    A shallow embedding of [AbstractNode]: the Python objects live in a heap,
    the durable store is a table of rows and a table of links, and every
    method is a computation in a state-and-exception monad in which the
    state survives a raised exception, as the fields of a Python object do. *)

From Stdlib Require Import Ascii String.
From Stdlib Require OrderedTypeEx.
From stdpp Require Import gmap strings list fin_maps relations sorting.

Open Scope string_scope.
Open Scope list_scope.

Set Warnings "-clear-no-such-hyp".

(** ** Exceptions *)

(** The classes of [aiida.common.exceptions] that the node code raises,
    and the Python builtins it raises or lets through. *)
Inductive Exn :=
  | ModificationNotAllowed
  | ValidationError
  | UniquenessError
  | StoringNotAllowed
  | InternalError
  | NotExistent
  | ValueError
  | AttributeError
  | AssertionError
  | MultipleObjectsError
  | RecursionError
  | ReferenceError.

#[global] Instance Exn_eq_dec : EqDecision Exn.
Proof. solve_decision. Defined.

(** ** Values *)

Abbreviation oid := nat.
Abbreviation pk := nat.
Abbreviation loc := nat.
Abbreviation uuid_t := nat.

(** JSON-serializable content.  [JBox] is a boxed scalar wrapper. *)
#[warnings="-register-all"]
Inductive json :=
  | JNull
  | JBool (b : bool)
  | JInt (z : Z)
  | JStr (s : string)
  | JList (l : list json)
  | JDict (d : list (string * json))
  | JBox (j : json).

(** What a Python variable or an attribute slot holds: an immutable value,
    or a reference to a list object.  Only the top-level list of an
    attribute is ever mutated by the node code ([values.append] in
    [_append_to_attr]), so only that level is given object identity. *)
Inductive Value :=
  | Plain (j : json)
  | ListRef (l : loc).

(** [aiida.common.links.LinkType], with the members of the glossary. *)
Inductive LinkType := CREATE | RETURN | INPUT | CALL.

#[global] Instance LinkType_eq_dec : EqDecision LinkType.
Proof. solve_decision. Defined.

(** [links.LinkTriple(node, link_type, link_label)]; the source node is
    referenced, not owned. *)
Record LinkTriple := mkTriple {
  node : oid;
  link_type : LinkType;
  link_label : string
}.

#[global] Instance LinkTriple_eq_dec : EqDecision LinkTriple.
Proof. solve_decision. Defined.

(** Repository content: relative paths with their bytes. *)
Abbreviation Folder := (list (string * string)).

(** Node roles of the link rules. *)
Inductive Role := ProcessRole | DataRole | BaseRole.

#[global] Instance Role_eq_dec : EqDecision Role.
Proof. solve_decision. Defined.

(** The class attributes and subclass hooks that [AbstractNode] reads. *)
Record NodeClass := mkClass {
  plugin_type_string : string;
  _storable : bool;
  _cacheable : bool;
  _updatable_attributes : list string;
  _hash_ignored_attributes : list string;
  role : Role;
  _validate : gmap string json -> bool;
  _is_valid_cache : gmap string json -> bool
}.

(** The Python object of a node. *)
Record NodeObj := mkObj {
  klass : NodeClass;
  uuid : uuid_t;
  _to_be_stored : bool;
  _attrs_cache : gmap string Value;
  _incoming_cache : list LinkTriple;
  id : option pk;
  label : string;
  description : string;
  folder : Folder;
  computer : option uuid_t
}.

(** A row of the durable node table. *)
Record DbNode := mkRow {
  db_uuid : uuid_t;
  db_type : string;
  db_label : string;
  db_description : string;
  db_attributes : gmap string json;
  db_extras : gmap string json;
  db_folder : Folder;
  db_computer : option uuid_t
}.

(** A row of the durable link table. *)
Record DbLink := mkLink {
  l_source : pk;
  l_target : pk;
  l_type : LinkType;
  l_label : string
}.

#[global] Instance DbLink_eq_dec : EqDecision DbLink.
Proof. solve_decision. Defined.

(** [aiida.orm.autogroup.Autogroup], as far as [store] consults it. *)
Record Autogroup := mkAutogroup {
  is_to_be_grouped : string -> bool;
  get_group_name : option string
}.

Record World := mkWorld {
  heap : gmap oid NodeObj;
  lists : gmap loc (list json);
  db_nodes : gmap pk DbNode;
  db_links : list DbLink;
  next_pk : pk;
  next_uuid : uuid_t;
  groups : gmap string (list pk);
  current_autogroup : option Autogroup
}.

Definition set_heap (h : gmap oid NodeObj) (w : World) : World :=
  mkWorld h (lists w) (db_nodes w) (db_links w) (next_pk w) (next_uuid w)
          (groups w) (current_autogroup w).

Definition set_lists (ls : gmap loc (list json)) (w : World) : World :=
  mkWorld (heap w) ls (db_nodes w) (db_links w) (next_pk w) (next_uuid w)
          (groups w) (current_autogroup w).

Definition set_db_nodes (d : gmap pk DbNode) (w : World) : World :=
  mkWorld (heap w) (lists w) d (db_links w) (next_pk w) (next_uuid w)
          (groups w) (current_autogroup w).

Definition set_db_links (ls : list DbLink) (w : World) : World :=
  mkWorld (heap w) (lists w) (db_nodes w) ls (next_pk w) (next_uuid w)
          (groups w) (current_autogroup w).

Definition set_next_pk (p : pk) (w : World) : World :=
  mkWorld (heap w) (lists w) (db_nodes w) (db_links w) p (next_uuid w)
          (groups w) (current_autogroup w).

Definition set_next_uuid (u : uuid_t) (w : World) : World :=
  mkWorld (heap w) (lists w) (db_nodes w) (db_links w) (next_pk w) u
          (groups w) (current_autogroup w).

Definition set_groups (g : gmap string (list pk)) (w : World) : World :=
  mkWorld (heap w) (lists w) (db_nodes w) (db_links w) (next_pk w)
          (next_uuid w) g (current_autogroup w).

(** Field updates of a node object. *)
Definition with_attrs (a : gmap string Value) (n : NodeObj) : NodeObj :=
  mkObj (klass n) (uuid n) (_to_be_stored n) a (_incoming_cache n) (id n)
        (label n) (description n) (folder n) (computer n).

Definition with_incoming (c : list LinkTriple) (n : NodeObj) : NodeObj :=
  mkObj (klass n) (uuid n) (_to_be_stored n) (_attrs_cache n) c (id n)
        (label n) (description n) (folder n) (computer n).

Definition with_label (s : string) (n : NodeObj) : NodeObj :=
  mkObj (klass n) (uuid n) (_to_be_stored n) (_attrs_cache n)
        (_incoming_cache n) (id n) s (description n) (folder n) (computer n).

Definition with_description (s : string) (n : NodeObj) : NodeObj :=
  mkObj (klass n) (uuid n) (_to_be_stored n) (_attrs_cache n)
        (_incoming_cache n) (id n) (label n) s (folder n) (computer n).

Definition with_folder (f : Folder) (n : NodeObj) : NodeObj :=
  mkObj (klass n) (uuid n) (_to_be_stored n) (_attrs_cache n)
        (_incoming_cache n) (id n) (label n) (description n) f (computer n).

Definition mark_stored (p : pk) (n : NodeObj) : NodeObj :=
  mkObj (klass n) (uuid n) false ∅ (_incoming_cache n) (Some p)
        (label n) (description n) (folder n) (computer n).

(** Field updates of a durable row. *)
Definition row_with_attributes (a : gmap string json) (r : DbNode) : DbNode :=
  mkRow (db_uuid r) (db_type r) (db_label r) (db_description r) a
        (db_extras r) (db_folder r) (db_computer r).

Definition row_with_extras (e : gmap string json) (r : DbNode) : DbNode :=
  mkRow (db_uuid r) (db_type r) (db_label r) (db_description r)
        (db_attributes r) e (db_folder r) (db_computer r).

Definition row_with_label (s : string) (r : DbNode) : DbNode :=
  mkRow (db_uuid r) (db_type r) s (db_description r)
        (db_attributes r) (db_extras r) (db_folder r) (db_computer r).

Definition row_with_description (s : string) (r : DbNode) : DbNode :=
  mkRow (db_uuid r) (db_type r) (db_label r) s
        (db_attributes r) (db_extras r) (db_folder r) (db_computer r).

(** ** The monad of node methods *)

Inductive Res (A : Type) :=
  | Ok (a : A)
  | Raise (e : Exn).
Arguments Ok {A} a.
Arguments Raise {A} e.

Definition M (A : Type) : Type := World -> Res A * World.

Definition ret {A} (a : A) : M A := fun w => (Ok a, w).

Definition bind {A B} (m : M A) (k : A -> M B) : M B :=
  fun w => match m w with
           | (Ok a, w') => k a w'
           | (Raise e, w') => (Raise e, w')
           end.

Definition raise {A} (e : Exn) : M A := fun w => (Raise e, w).

Definition gets {A} (f : World -> A) : M A := fun w => (Ok (f w), w).

Definition modify (f : World -> World) : M unit := fun w => (Ok tt, f w).

(** [try: m except e: h] *)
Definition try_except {A} (m : M A) (e : Exn) (h : M A) : M A :=
  fun w => match m w with
           | (Raise e', w') => if decide (e' = e) then h w' else (Raise e', w')
           | r => r
           end.

(** A scoped transaction: the effects of a failed body are rolled back. *)
Definition atomically {A} (m : M A) : M A :=
  fun w => match m w with
           | (Raise e, _) => (Raise e, w)
           | r => r
           end.

#[global] Instance M_ret : MRet M := @ret.
#[global] Instance M_bind : MBind M := fun A B k m => bind m k.

(** [for x in xs: body x] *)
Fixpoint for_each {A} (xs : list A) (body : A -> M unit) : M unit :=
  match xs with
  | [] => ret tt
  | x :: xs' => body x;; for_each xs' body
  end.

Definition get_obj (o : oid) : M NodeObj :=
  fun w => match heap w !! o with
           | Some n => (Ok n, w)
           | None => (Raise ReferenceError, w)
           end.

Definition put_obj (o : oid) (n : NodeObj) : M unit :=
  modify (fun w => set_heap (<[o := n]> (heap w)) w).

(** A new Python object. *)
Definition new_obj (n : NodeObj) : M oid :=
  fun w => let o := fresh (dom (heap w)) in
           (Ok o, set_heap (<[o := n]> (heap w)) w).

(** [self.is_stored] *)
Definition is_stored (n : NodeObj) : bool := negb (_to_be_stored n).

(** Read-only methods are functions of the world. *)
Definition R (A : Type) : Type := World -> Res A.

Definition reading {A} (f : R A) : M A := fun w => (f w, w).

Definition read_obj (o : oid) : R NodeObj :=
  fun w => match heap w !! o with
           | Some n => Ok n
           | None => Raise ReferenceError
           end.

(** The durable row behind a node object; a missing row is what a query
    for a deleted node finds. *)
Definition read_row (o : oid) : R (pk * DbNode) :=
  fun w => match read_obj o w with
           | Ok obj =>
               match id obj with
               | Some p => match db_nodes w !! p with
                           | Some r => Ok (p, r)
                           | None => Raise NotExistent
                           end
               | None => Raise NotExistent
               end
           | Raise e => Raise e
           end.

Definition put_row (p : pk) (r : DbNode) : M unit :=
  modify (fun w => set_db_nodes (<[p := r]> (db_nodes w)) w).

(** ** List objects *)

Definition read_list (l : loc) (w : World) : list json :=
  default [] (lists w !! l).

(** [[...]]: a new list object. *)
Definition new_list (xs : list json) : M loc :=
  fun w => let l := fresh (dom (lists w)) in
           (Ok l, set_lists (<[l := xs]> (lists w)) w).

(** [values.append(x)] on the list object at [l]. *)
Definition list_append (l : loc) (x : json) : M unit :=
  modify (fun w => set_lists (<[l := read_list l w ++ [x]]> (lists w)) w).

(** The content a value denotes in the current store. *)
Definition deref (w : World) (v : Value) : json :=
  match v with
  | Plain j => j
  | ListRef l => JList (read_list l w)
  end.

(** A value read back from durable storage: a list is a new list object. *)
Definition load_value (j : json) : M Value :=
  match j with
  | JList xs => l ← new_list xs; mret (ListRef l)
  | _ => mret (Plain j)
  end.

(** ** Collaborators outside the node class *)

(** What [_get_objects_to_hash] hands to [make_hash]. *)
Record HashObjects := mkHashObjects {
  h_version : string;
  h_attributes : gmap string json;
  h_folder : Folder;
  h_computer : option uuid_t
}.

(** Functions and constants that [oldnode.py] imports: [make_hash] of
    [aiida.common.hashing], [get_use_cache] of [aiida.manage.caching], the
    separator that [validate_attribute_key] forbids, the package version,
    the role table of the link rules, [sql_string_match], the key
    [Sealable.SEALED_KEY] and the plugin loader from type strings to
    classes. *)
Record Env := mkEnv {
  make_hash : HashObjects -> Res string;
  get_use_cache : string -> bool;
  AIIDA_ATTRIBUTE_SEP : ascii;
  version : string;
  role_ok : Role -> Role -> LinkType -> bool;
  sql_string_match : string -> string -> bool;
  SEALED_KEY : string;
  load_class : string -> NodeClass
}.

(** [aiida.common.hashing._HASH_EXTRA_KEY] *)
Definition _HASH_EXTRA_KEY : string := "_aiida_hash".

Fixpoint contains_char (c : ascii) (s : string) : bool :=
  match s with
  | EmptyString => false
  | String c' s' => if decide (c' = c) then true else contains_char c s'
  end.

(** Modelled from the spec: [clean_value] is not in the source file;
    "recursively converts values to a canonical JSON-safe representation and
    resolves any boxed scalar wrapper to its plain value". *)
Fixpoint clean_json (j : json) : json :=
  match j with
  | JList l => JList (map clean_json l)
  | JDict d => JDict (map (fun kv => (kv.1, clean_json kv.2)) d)
  | JBox j' => clean_json j'
  | _ => j
  end.

(** Modelled from the spec: [clean_value] on what a caller passes.  The
    conversion of a sequence builds a new list object, which is why
    [test_append_no_side_effects] finds the caller's list untouched. *)
Definition clean_value (v : Value) : M Value :=
  match v with
  | Plain (JList xs) => l ← new_list (map clean_json xs); mret (ListRef l)
  | Plain j => mret (Plain (clean_json j))
  | ListRef l =>
      xs ← gets (read_list l);
      l' ← new_list (map clean_json xs);
      mret (ListRef l')
  end.

(** A node as a link endpoint: the row of a stored node, the object of an
    unstored one. *)
Abbreviation NodeRef := (oid + pk)%type.

(** A link triple as the link manager returns it. *)
Abbreviation Triple := (NodeRef * LinkType * string)%type.

Inductive Direction := Incoming | Outgoing.

(** ** Breadth-first closure over a link table *)

Section Closure.

Context `{Countable V}.

(** The targets of the edges that leave a set of vertices. *)
Definition successors (E : list (V * V)) (S : gset V) : gset V :=
  list_to_set (snd <$> filter (fun e => e.1 ∈ S) E).

(** One round per loop iteration: the operational set is replaced by the
    vertices it reaches that were not visited before; the loop ends when
    that set is empty. *)
Fixpoint expand (E : list (V * V)) (fuel : nat) (frontier visited : gset V)
    : gset V :=
  match fuel with
  | O => visited
  | S k =>
      let new := successors E frontier ∖ visited in
      if decide (new = ∅) then visited
      else expand E k new (visited ∪ new)
  end.

(** Every productive round visits a new edge target, so one round more
    than there are edges is enough. *)
Definition closure (E : list (V * V)) (roots : gset V) : gset V :=
  expand E (S (length E)) roots roots.

Definition edge (E : list (V * V)) (a b : V) : Prop := (a, b) ∈ E.

End Closure.

Section Node.

Context (env : Env).

(** Modelled from the spec: [validate_attribute_key] of
    [aiida.backends.utils]; "fails with ValidationError if key contains the
    reserved separator". *)
Definition validate_attribute_key (key : string) : M unit :=
  if contains_char (AIIDA_ATTRIBUTE_SEP env) key then raise ValidationError
  else mret tt.

(** ** Attributes *)

(** Modelled from the spec: [_set_db_attr] is abstract in the source, as
    are the other [_db] methods below; they act on the durable row as their
    docstrings say.  "Set the value directly in the DB, without checking if
    it is stored, or using the cache." *)
Definition _set_db_attr (n : oid) (key : string) (value : Value) : M unit :=
  pr ← reading (read_row n);
  j ← gets (fun w => deref w value);
  put_row pr.1 (row_with_attributes (<[key := j]> (db_attributes pr.2)) pr.2).

(** Modelled from the spec: [_get_db_attr], abstract in the source; "raise
    AttributeError: if the attribute does not exist". *)
Definition _get_db_attr (n : oid) (key : string) : M Value :=
  pr ← reading (read_row n);
  match db_attributes pr.2 !! key with
  | Some j => load_value j
  | None => raise AttributeError
  end.

(** Modelled from the spec: [_del_db_attr], abstract in the source;
    "Delete an attribute directly from the DB"; a missing
    key is an AttributeError, as for the cache. *)
Definition _del_db_attr (n : oid) (key : string) : M unit :=
  pr ← reading (read_row n);
  match db_attributes pr.2 !! key with
  | Some _ =>
      put_row pr.1 (row_with_attributes (delete key (db_attributes pr.2)) pr.2)
  | None => raise AttributeError
  end.

Definition _set_attr (n : oid) (key : string) (value : Value)
    (clean stored_check : bool) : M unit :=
  obj ← get_obj n;
  if stored_check && is_stored obj then raise ModificationNotAllowed
  else
    validate_attribute_key key;;
    if _to_be_stored obj then
      v ← (if clean then clean_value value else mret value);
      put_obj n (with_attrs (<[key := v]> (_attrs_cache obj)) obj)
    else
      v ← clean_value value;
      _set_db_attr n key v.

(** [get_attr(key, default)]; [None] is [_NO_DEFAULT]. *)
Definition get_attr (n : oid) (key : string) (default : option Value)
    : M Value :=
  try_except
    (obj ← get_obj n;
     if _to_be_stored obj then
       match _attrs_cache obj !! key with
       | Some v => mret v
       | None => raise AttributeError
       end
     else _get_db_attr n key)
    AttributeError
    (match default with
     | None => raise AttributeError
     | Some d => mret d
     end).

Definition _append_to_attr (n : oid) (key : string) (value : Value)
    (clean : bool) : M unit :=
  validate_attribute_key key;;
  values ← try_except (get_attr n key None) AttributeError
             (l ← new_list []; mret (ListRef l));
  match values with
  | ListRef l =>
      v ← (if clean then clean_value value else mret value);
      x ← gets (fun w => deref w v);
      list_append l x;;
      _set_attr n key values false true
  | Plain _ => raise AttributeError
  end.

Definition _del_attr (n : oid) (key : string) (stored_check : bool)
    : M unit :=
  obj ← get_obj n;
  if stored_check && is_stored obj then raise ModificationNotAllowed
  else if _to_be_stored obj then
    match _attrs_cache obj !! key with
    | Some _ => put_obj n (with_attrs (delete key (_attrs_cache obj)) obj)
    | None => raise AttributeError
    end
  else _del_db_attr n key.

(** [get_attrs()], with every value read through to its content. *)
Definition get_attrs (n : oid) : R (gmap string json) :=
  fun w => match read_obj n w with
           | Ok obj =>
               if _to_be_stored obj then Ok (deref w <$> _attrs_cache obj)
               else match read_row n w with
                    | Ok pr => Ok (db_attributes pr.2)
                    | Raise e => Raise e
                    end
           | Raise e => Raise e
           end.

(** ** Extras *)

(** Modelled from the spec: [_get_db_extra], abstract in the source; "raise
    AttributeError: if the key does not exist". *)
Definition _get_db_extra (n : oid) (key : string) : M Value :=
  pr ← reading (read_row n);
  match db_extras pr.2 !! key with
  | Some j => load_value j
  | None => raise AttributeError
  end.

(** Modelled from the spec: [_set_db_extra], abstract in the source;
    "Store extra directly in the DB, without checks";
    in exclusive mode an existing key is a UniquenessError. *)
Definition _set_db_extra (n : oid) (key : string) (value : Value)
    (exclusive : bool) : M unit :=
  pr ← reading (read_row n);
  j ← gets (fun w => deref w value);
  if exclusive && bool_decide (is_Some (db_extras pr.2 !! key))
  then raise UniquenessError
  else put_row pr.1 (row_with_extras (<[key := j]> (db_extras pr.2)) pr.2).

(** Modelled from the spec: [_db_iterextras], abstract in the source;
    "Iterator over the extras (directly in the DB!)". *)
Fixpoint load_items (kvs : list (string * json)) : M (list (string * Value)) :=
  match kvs with
  | [] => mret []
  | kv :: rest =>
      v ← load_value kv.2;
      vs ← load_items rest;
      mret ((kv.1, v) :: vs)
  end.

Definition _db_iterextras (n : oid) : M (list (string * Value)) :=
  pr ← reading (read_row n);
  load_items (map_to_list (db_extras pr.2)).

Definition set_extra (n : oid) (key : string) (value : Value)
    (exclusive : bool) : M unit :=
  validate_attribute_key key;;
  obj ← get_obj n;
  if _to_be_stored obj then raise ModificationNotAllowed
  else
    v ← clean_value value;
    _set_db_extra n key v exclusive.

(** [get_extra(key, *args)] *)
Definition get_extra (n : oid) (key : string) (args : list Value)
    : M Value :=
  if decide (1 < length args) then raise ValueError
  else
    try_except
      (obj ← get_obj n;
       if negb (is_stored obj) then raise AttributeError
       else _get_db_extra n key)
      AttributeError
      (match args with
       | d :: _ => mret d
       | [] => raise AttributeError
       end).

(** [iterextras()], as the list of the pairs it yields. *)
Definition iterextras (n : oid) : M (list (string * Value)) :=
  obj ← get_obj n;
  if _to_be_stored obj then mret []
  else _db_iterextras n.

(** [get_extras()]: [dict(self.iterextras())] *)
Definition get_extras (n : oid) : M (gmap string Value) :=
  kvs ← iterextras n;
  mret (list_to_map kvs).

(** ** Hashing *)

(** [self.folder] *)
Definition get_folder (n : oid) : R Folder :=
  fun w => match read_obj n w with
           | Ok obj =>
               if negb (is_stored obj) then Ok (folder obj)
               else match read_row n w with
                    | Ok pr => Ok (db_folder pr.2)
                    | Raise e => Raise e
                    end
           | Raise e => Raise e
           end.

(** Modelled from the spec: [get_computer] is abstract in the source; the
    computer of the node, as its identifier. *)
Definition get_computer (n : oid) : R (option uuid_t) :=
  fun w => match read_obj n w with
           | Ok obj =>
               if _to_be_stored obj then Ok (computer obj)
               else match read_row n w with
                    | Ok pr => Ok (db_computer pr.2)
                    | Raise e => Raise e
                    end
           | Raise e => Raise e
           end.

(** The dict comprehension of [_get_objects_to_hash]. *)
Definition hashed_attributes (c : NodeClass) (attrs : gmap string json)
    : gmap string json :=
  filter (fun kv => (kv.1 ∉ _hash_ignored_attributes c)
                    ∧ (kv.1 ∉ _updatable_attributes c)) attrs.

Definition _get_objects_to_hash (n : oid) : R HashObjects :=
  fun w =>
    match read_obj n w, get_computer n w, get_attrs n w, get_folder n w with
    | Ok obj, Ok comp, Ok attrs, Ok fld =>
        Ok (mkHashObjects (version env) (hashed_attributes (klass obj) attrs)
                          fld comp)
    | Raise e, _, _, _ => Raise e
    | _, Raise e, _, _ => Raise e
    | _, _, Raise e, _ => Raise e
    | _, _, _, Raise e => Raise e
    end.

(** [get_hash(ignore_errors)]; [None] is the swallowed failure. *)
Definition get_hash (n : oid) (ignore_errors : bool) : R (option string) :=
  fun w =>
    let r := match _get_objects_to_hash n w with
             | Ok objs => make_hash env objs
             | Raise e => Raise e
             end in
    match r with
    | Ok h => Ok (Some h)
    | Raise e => if ignore_errors then Ok None else Raise e
    end.

(** ** Links *)

Definition vertex (w : World) (o : oid) : NodeRef :=
  match heap w !! o with
  | Some obj => match id obj with
                | Some p => inr p
                | None => inl o
                end
  | None => inl o
  end.

(** The link types that track data provenance (INPUT and CREATE). *)
Definition is_provenance (t : LinkType) : bool :=
  match t with
  | INPUT | CREATE => true
  | RETURN | CALL => false
  end.

Definition stored_edges (w : World) : list (NodeRef * NodeRef) :=
  (fun l => (inr (l_source l), inr (l_target l)))
    <$> filter (fun l => is_provenance (l_type l) = true) (db_links w).

Definition cached_edges_of (w : World) (o : oid) (obj : NodeObj)
    : list (NodeRef * NodeRef) :=
  (fun t => (vertex w (node t), vertex w o))
    <$> filter (fun t => is_provenance (link_type t) = true)
               (_incoming_cache obj).

Definition cached_edges (w : World) : list (NodeRef * NodeRef) :=
  map_to_list (heap w) ≫= (fun kv => cached_edges_of w kv.1 kv.2).

(** The provenance links, stored and cached. *)
Definition prov_edges (w : World) : list (NodeRef * NodeRef) :=
  stored_edges w ++ cached_edges w.

(** Whether a CREATE link into the target exists, stored or cached. *)
Definition has_incoming_create (w : World) (target : oid) (t : NodeObj)
    : bool :=
  existsb (fun tr => bool_decide (link_type tr = CREATE)) (_incoming_cache t)
  || existsb (fun l => bool_decide (l_type l = CREATE
                                    ∧ vertex w target = inr (l_target l)))
             (db_links w).

(** Modelled from the spec: [validate_link] of [aiida.orm.utils.links] is
    not in the source files.  Its three checks are those of
    [add_incoming]: the role table; "fails with a ValueError-class error if
    source is reachable from self via existing stored+cached links of the
    relevant type set"; "a data node may have at most one CREATE-type
    incoming link". *)
Definition validate_link (source target : oid) (lt : LinkType)
    (lbl : string) : R unit :=
  fun w =>
    match read_obj source w, read_obj target w with
    | Ok s, Ok t =>
        if negb (role_ok env (role (klass s)) (role (klass t)) lt)
        then Raise ValueError
        else if is_provenance lt
                && bool_decide (vertex w source
                                ∈ closure (prov_edges w) {[vertex w target]})
        then Raise ValueError
        else if bool_decide (lt = CREATE)
                && bool_decide (role (klass t) = DataRole)
                && has_incoming_create w target t
        then Raise ValueError
        else Ok tt
    | Raise e, _ => Raise e
    | _, Raise e => Raise e
    end.

(** [validate_incoming]; the two [isinstance] checks hold by typing. *)
Definition validate_incoming (self source : oid) (lt : LinkType)
    (lbl : string) : M unit :=
  reading (validate_link source self lt lbl).

(** [validate_outgoing]: only the [isinstance] checks. *)
Definition validate_outgoing (self target : oid) (lt : LinkType)
    (lbl : string) : M unit :=
  mret tt.

(** Modelled from the spec: [_add_dblink_from] is abstract in the source;
    "write the link directly to durable storage; duplicate (source,label)
    fails with a uniqueness error".  Its callers pass stored endpoints. *)
Definition _add_dblink_from (self src : oid) (lt : LinkType) (lbl : string)
    : M unit :=
  t ← get_obj self;
  s ← get_obj src;
  match id t, id s with
  | Some pt, Some ps =>
      ls ← gets db_links;
      if existsb (fun l => bool_decide (l_source l = ps ∧ l_target l = pt
                                        ∧ l_label l = lbl)) ls
      then raise UniquenessError
      else modify (set_db_links (ls ++ [mkLink ps pt lt lbl]))
  | _, _ => raise ModificationNotAllowed
  end.

Definition _add_cachelink_from (self source : oid) (lt : LinkType)
    (lbl : string) : M unit :=
  let link_triple := mkTriple source lt lbl in
  obj ← get_obj self;
  if bool_decide (link_triple ∈ _incoming_cache obj)
  then raise UniquenessError
  else put_obj self (with_incoming (_incoming_cache obj ++ [link_triple]) obj).

Definition add_incoming (self source : oid) (lt : LinkType) (lbl : string)
    : M unit :=
  validate_incoming self source lt lbl;;
  validate_outgoing source self lt lbl;;
  t ← get_obj self;
  s ← get_obj source;
  if is_stored t && is_stored s then _add_dblink_from self source lt lbl
  else _add_cachelink_from self source lt lbl.

(** The query of [get_stored_link_triples] on the link table, for the node
    with the given key. *)
Definition stored_link_triples (self_id : option pk) (lts : list LinkType)
    (link_label_filter : option string) (dir : Direction) (w : World)
    : list (pk * LinkType * string) :=
  let type_ok (l : DbLink) :=
    match lts with
    | [] => true
    | _ => bool_decide (l_type l ∈ lts)
    end in
  let label_ok (l : DbLink) :=
    match link_label_filter with
    | Some pat => if decide (pat = "") then true
                  else sql_string_match env (l_label l) pat
    | None => true
    end in
  let here (l : DbLink) :=
    match dir with
    | Incoming => bool_decide (self_id = Some (l_target l))
    | Outgoing => bool_decide (self_id = Some (l_source l))
    end in
  let other (l : DbLink) : pk :=
    match dir with
    | Incoming => l_source l
    | Outgoing => l_target l
    end in
  (fun l => (other l, l_type l, l_label l))
    <$> filter (fun l => here l && type_ok l && label_ok l = true)
               (db_links w).

Definition as_triple (e : pk * LinkType * string) : Triple :=
  (inr e.1.1, e.1.2, e.2).

Definition get_stored_link_triples (n : oid) (lts : list LinkType)
    (link_label_filter : option string) (dir : Direction) : R (list Triple) :=
  fun w =>
    match read_obj n w with
    | Ok obj =>
        Ok (as_triple
              <$> stored_link_triples (id obj) lts link_label_filter dir w)
    | Raise e => Raise e
    end.

(** The loop of [get_incoming] over the cached triples. *)
Fixpoint merge_cached (w : World) (lts : list LinkType)
    (link_label_filter : option string) (cache : list LinkTriple)
    (link_triples : list Triple) : Res (list Triple) :=
  match cache with
  | [] => Ok link_triples
  | t :: rest =>
      let tr : Triple := (vertex w (node t), link_type t, link_label t) in
      if bool_decide (tr ∈ link_triples) then Raise InternalError
      else
        let wanted :=
          (match lts with
           | [] => true
           | _ => bool_decide (link_type t ∈ lts)
           end)
          && (match link_label_filter with
              | Some pat => sql_string_match env (link_label t) pat
              | None => true
              end) in
        merge_cached w lts link_label_filter rest
          (if wanted then link_triples ++ [tr] else link_triples)
  end.

Definition get_incoming (n : oid) (lts : list LinkType)
    (link_label_filter : option string) : R (list Triple) :=
  fun w =>
    match read_obj n w with
    | Ok obj =>
        let stored :=
          if is_stored obj
          then get_stored_link_triples n lts link_label_filter Incoming w
          else Ok [] in
        match stored with
        | Ok link_triples =>
            merge_cached w lts link_label_filter (_incoming_cache obj)
                         link_triples
        | Raise e => Raise e
        end
    | Raise e => Raise e
    end.

Definition get_outgoing (n : oid) (lts : list LinkType)
    (link_label_filter : option string) : R (list Triple) :=
  get_stored_link_triples n lts link_label_filter Outgoing.

(** ** Storing *)

(** Modelled from the spec: the field updates behind [self.label = ...]
    and [self.description = ...] are abstract in the source; they write the
    row once the node is stored, the unsaved record before. *)
Definition set_label (n : oid) (s : string) : M unit :=
  obj ← get_obj n;
  if _to_be_stored obj then put_obj n (with_label s obj)
  else pr ← reading (read_row n); put_row pr.1 (row_with_label s pr.2).

Definition set_description (n : oid) (s : string) : M unit :=
  obj ← get_obj n;
  if _to_be_stored obj then put_obj n (with_description s obj)
  else pr ← reading (read_row n); put_row pr.1 (row_with_description s pr.2).

(** The loop of [_check_are_parents_stored]. *)
Fixpoint check_sources_stored (w : World) (cache : list LinkTriple)
    : Res unit :=
  match cache with
  | [] => Ok tt
  | link_triple :: rest =>
      match read_obj (node link_triple) w with
      | Ok s => if negb (is_stored s) then Raise ModificationNotAllowed
                else check_sources_stored w rest
      | Raise e => Raise e
      end
  end.

Definition _check_are_parents_stored (n : oid) : R unit :=
  fun w => match read_obj n w with
           | Ok obj => check_sources_stored w (_incoming_cache obj)
           | Raise e => Raise e
           end.

(** [self._validate()], the subclass hook on the attributes. *)
Definition run_validate (n : oid) : R unit :=
  fun w => match read_obj n w, get_attrs n w with
           | Ok obj, Ok attrs =>
               if _validate (klass obj) attrs then Ok tt
               else Raise ValidationError
           | Raise e, _ => Raise e
           | _, Raise e => Raise e
           end.

(** The rows that the query of [_iter_all_same_nodes] returns and that
    pass [_is_valid_cache]. *)
Definition has_hash (r : DbNode) (hash_ : string) : bool :=
  match db_extras r !! _HASH_EXTRA_KEY with
  | Some (JStr s) => bool_decide (s = hash_)
  | _ => false
  end.

Definition same_nodes (c : NodeClass) (hash_ : string) (w : World)
    : list pk :=
  fst <$> filter
    (fun kv => bool_decide (db_type kv.2 = plugin_type_string c)
               && has_hash kv.2 hash_
               && _is_valid_cache c (db_attributes kv.2) = true)
    (map_to_list (db_nodes w)).

(** [_get_same_node()]; a node found by the query is used only through
    reads of its row and is represented by its key. *)
Definition _get_same_node (n : oid) : R (option pk) :=
  fun w =>
    match read_obj n w with
    | Ok obj =>
        if negb (_cacheable (klass obj)) then Ok None
        else match get_hash n true w with
             | Ok (Some hash_) =>
                 if decide (hash_ = "") then Ok None
                 else Ok (head (same_nodes (klass obj) hash_ w))
             | Ok None => Ok None
             | Raise e => Raise e
             end
    | Raise e => Raise e
    end.

Definition row_of (p : pk) : R DbNode :=
  fun w => match db_nodes w !! p with
           | Some r => Ok r
           | None => Raise NotExistent
           end.

(** Modelled from the spec: [_store_cached_input_links] is abstract in the
    source; "every cached incoming link whose source is already persisted is
    flushed to durable storage; any link whose source is still unpersisted
    remains cached", and by its docstring a link that cannot be stored
    leaves all links in the cache. *)
Fixpoint flush_links (n : oid) (cache : list LinkTriple)
    : M (list LinkTriple) :=
  match cache with
  | [] => mret []
  | t :: rest =>
      s ← get_obj (node t);
      if is_stored s then
        _add_dblink_from n (node t) (link_type t) (link_label t);;
        flush_links n rest
      else
        kept ← flush_links n rest;
        mret (t :: kept)
  end.

Definition _store_cached_input_links (n : oid) (with_transaction : bool)
    : M unit :=
  let body :=
    obj ← get_obj n;
    kept ← flush_links n (_incoming_cache obj);
    put_obj n (with_incoming kept obj) in
  if with_transaction then atomically body else body.

(** Modelled from the spec: [_db_store] is abstract in the source; "write
    row/record, move repository content to permanent storage,
    flush cached incoming links whose sources are stored, mark state
    STORED", the record insert and the link flush being one transaction.
    The hash is recorded as the extra that the cache query reads. *)
Definition _db_store (n : oid) (with_transaction : bool) : M unit :=
  let body :=
    obj ← get_obj n;
    attrs ← reading (get_attrs n);
    p ← gets next_pk;
    modify (set_next_pk (S p));;
    put_row p (mkRow (uuid obj) (plugin_type_string (klass obj)) (label obj)
                     (description obj) attrs ∅ (folder obj) (computer obj));;
    put_obj n (mark_stored p obj);;
    _store_cached_input_links n false in
  (if with_transaction then atomically body else body);;
  h ← reading (get_hash n true);
  _set_db_extra n _HASH_EXTRA_KEY
    (match h with
     | Some s => Plain (JStr s)
     | None => Plain JNull
     end) false.

(** The autogrouping block at the end of [store]. *)
Definition autogroup (n : oid) : M unit :=
  ag ← gets current_autogroup;
  match ag with
  | None => mret tt
  | Some a =>
      obj ← get_obj n;
      if is_to_be_grouped a (plugin_type_string (klass obj)) then
        match get_group_name a, id obj with
        | Some group_label, Some p =>
            modify (fun w =>
              set_groups (<[group_label :=
                              default [] (groups w !! group_label) ++ [p]]>
                            (groups w)) w)
        | _, _ => mret tt
        end
      else mret tt
  end.

(** The attribute loop of [_store_from_cache]. *)
Fixpoint copy_attributes (n : oid) (kvs : list (string * json)) : M unit :=
  match kvs with
  | [] => mret tt
  | kv :: rest =>
      (if decide (kv.1 ≠ SEALED_KEY env) then
         v ← load_value kv.2;
         _set_attr n kv.1 v true true
       else mret tt);;
      copy_attributes n rest
  end.

(** [_store_from_cache], with [self.store] passed in. *)
Definition _store_from_cache (store : oid -> option bool -> M unit)
    (n : oid) (cache_node : pk) : M unit :=
  obj ← get_obj n;
  c ← reading (row_of cache_node);
  if decide (plugin_type_string (klass obj) ≠ db_type c)
  then raise AssertionError
  else
    set_label n (db_label c);;
    set_description n (db_description c);;
    copy_attributes n (map_to_list (db_attributes c));;
    obj' ← get_obj n;
    put_obj n (with_folder (db_folder c) obj');;
    returns ← gets (stored_link_triples (Some cache_node) [RETURN] None
                                        Outgoing);
    match returns with
    | _ :: _ => raise ValueError
    | [] =>
        store n (Some false);;
        set_extra n "_aiida_cached_from"
                  (Plain (JInt (Z.of_nat (db_uuid c)))) false
    end.

(** Modelled from the spec: [clone] is not in the source files; the
    cache path "clones and persists E's CREATE-linked output nodes as new
    nodes": a new unstored object with a new identifier and a copy of the
    row's label, description, attributes, folder and computer. *)
Fixpoint load_attributes (kvs : list (string * json))
    : M (gmap string Value) :=
  match kvs with
  | [] => mret ∅
  | kv :: rest =>
      v ← load_value kv.2;
      m ← load_attributes rest;
      mret (<[kv.1 := v]> m)
  end.

Definition clone (p : pk) : M oid :=
  r ← reading (row_of p);
  attrs ← load_attributes (map_to_list (db_attributes r));
  u ← gets next_uuid;
  modify (set_next_uuid (S u));;
  new_obj (mkObj (load_class env (db_type r)) u true attrs [] None
                 (db_label r) (db_description r) (db_folder r)
                 (db_computer r)).

(** [_add_outputs_from_cache], with [new_node.store] passed in. *)
Definition _add_outputs_from_cache (store : oid -> option bool -> M unit)
    (n : oid) (cache_node : pk) : M unit :=
  entries ← gets (stored_link_triples (Some cache_node) [CREATE] None
                                      Outgoing);
  for_each entries (fun entry =>
    new_node ← clone entry.1.1;
    add_incoming new_node n CREATE entry.2;;
    store new_node None).

(** [store(with_transaction, use_cache)].  The fuel is the depth of
    Python's call stack; running out is a RecursionError. *)
Fixpoint store (fuel : nat) (with_transaction : bool) (n : oid)
    (use_cache : option bool) : M unit :=
  match fuel with
  | O => raise RecursionError
  | S fuel' =>
      obj ← get_obj n;
      if negb (_storable (klass obj)) then raise StoringNotAllowed
      else
        reading (run_validate n);;
        if _to_be_stored obj then
          reading (_check_are_parents_stored n);;
          let use_cache :=
            match use_cache with
            | Some b => b
            | None => get_use_cache env (plugin_type_string (klass obj))
            end in
          same_node ← (if use_cache then reading (_get_same_node n)
                       else mret None);
          match same_node with
          | Some c =>
              _store_from_cache (store fuel' with_transaction) n c;;
              _add_outputs_from_cache (store fuel' true) n c
          | None => _db_store n with_transaction
          end;;
          autogroup n
        else mret tt
  end.

(** The first loop of [store_all]. *)
Fixpoint check_grandparents (w : World) (cache : list LinkTriple)
    : Res unit :=
  match cache with
  | [] => Ok tt
  | link_triple :: rest =>
      match _check_are_parents_stored (node link_triple) w with
      | Ok _ => check_grandparents w rest
      | Raise e => Raise e
      end
  end.

(** [_store_input_nodes] *)
Definition _store_input_nodes (fuel : nat) (n : oid) : M unit :=
  obj ← get_obj n;
  if is_stored obj then raise ModificationNotAllowed
  else
    for_each (_incoming_cache obj) (fun link_triple =>
      s ← get_obj (node link_triple);
      if negb (is_stored s) then store fuel false (node link_triple) None
      else mret tt).

(** Modelled from the spec: [_db_store_all] is abstract in the source;
    "Store the node, together with all input links, if cached, and also the
    linked nodes, if they were not stored yet": it "first persists any
    direct unstored cached-link sources", then the node, then the links,
    in one transaction. *)
Definition _db_store_all (fuel : nat) (n : oid) (with_transaction : bool)
    (use_cache : option bool) : M unit :=
  let body :=
    _store_input_nodes fuel n;;
    store fuel false n use_cache;;
    _store_cached_input_links n false in
  if with_transaction then atomically body else body.

Definition store_all (fuel : nat) (n : oid) (with_transaction : bool)
    (use_cache : option bool) : M unit :=
  obj ← get_obj n;
  if is_stored obj then raise ModificationNotAllowed
  else
    reading (fun w => check_grandparents w (_incoming_cache obj));;
    _db_store_all fuel n with_transaction use_cache.

End Node.

(** ** Graph deletion and identifier lookup *)

(** Modelled from the spec: [delete_nodes] of [aiida.utils.delete_nodes] is
    not in the source files.  "INPUT/CREATE-type provenance links are always
    followed forward"; CALL links if [follow_calls], RETURN links if
    [follow_returns]. *)
Definition followed (follow_calls follow_returns : bool) (t : LinkType)
    : bool :=
  match t with
  | CREATE | INPUT => true
  | CALL => follow_calls
  | RETURN => follow_returns
  end.

Definition deletion_edges (follow_calls follow_returns : bool) (w : World)
    : list (pk * pk) :=
  (fun l => (l_source l, l_target l))
    <$> filter (fun l => followed follow_calls follow_returns (l_type l) = true)
               (db_links w).

(** Modelled from the spec: "breadth-first closure expansion from roots",
    with the visited set. *)
Definition deletion_closure (pks : list pk) (follow_calls follow_returns : bool)
    (w : World) : gset pk :=
  closure (deletion_edges follow_calls follow_returns w) (list_to_set pks).

(** Modelled from the spec: the closure is computed first, then every
    member and every link that touches one are removed. *)
Definition delete_nodes (pks : list pk) (follow_calls follow_returns : bool)
    : M unit :=
  modify (fun w =>
    let c := deletion_closure pks follow_calls follow_returns w in
    set_db_links
      (filter (fun l => (l_source l ∉ c) ∧ (l_target l ∉ c)) (db_links w))
      (set_db_nodes (filter (fun kv => kv.1 ∉ c) (db_nodes w)) w)).

(** Modelled from the spec: [load_node] of [aiida.orm.utils] on a full
    identifier; "fails with a not-found error for no match or a
    multiple-match error". *)
Definition load_node (u : uuid_t) : R pk :=
  fun w =>
    match filter (fun kv => db_uuid kv.2 = u) (map_to_list (db_nodes w)) with
    | [] => Raise NotExistent
    | [kv] => Ok kv.1
    | _ => Raise MultipleObjectsError
    end.

(** ** Scenarios *)

(** The classes of the tests: a storable node without restrictions, and a
    calculation with an updatable attribute. *)
Definition PlainNode : NodeClass :=
  mkClass "node.Node." true true [] [] BaseRole (fun _ => true) (fun _ => true).

Definition CalculationClass : NodeClass :=
  mkClass "calculation.Calculation." true true ["process_state"; "sealed"] []
          ProcessRole (fun _ => true) (fun _ => true).

Definition DataClass : NodeClass :=
  mkClass "data.Data." true true [] [] DataRole (fun _ => true) (fun _ => true).

(** The abstract base class: [_storable = False]. *)
Definition AbstractClass : NodeClass :=
  mkClass "" false true [] [] BaseRole (fun _ => true) (fun _ => true).

(** A stand-in digest: the number of hashed attributes, in unary. *)
Definition toy_hash (o : HashObjects) : Res string :=
  Ok (String "h" (String.string_of_list_ascii
                    (replicate (size (h_attributes o)) "x"%char))).

(** The one role rule the spec states: no INPUT link between data nodes. *)
Definition toy_role_ok (s t : Role) (lt : LinkType) : bool :=
  negb (bool_decide (s = DataRole ∧ t = DataRole ∧ lt = INPUT)).

Definition toy_load_class (t : string) : NodeClass :=
  if decide (t = "data.Data.") then DataClass
  else if decide (t = "calculation.Calculation.") then CalculationClass
  else PlainNode.

Definition test_env (use_cache : bool) : Env :=
  mkEnv toy_hash (fun _ => use_cache) "."%char "1.0.0a4" toy_role_ok
        String.eqb "_sealed" toy_load_class.

Definition empty_world : World :=
  mkWorld ∅ ∅ ∅ [] 1 1 ∅ None.

(** [Node()]: a new unstored object of the class. *)
Definition new_node (c : NodeClass) : M oid :=
  u ← gets next_uuid;
  modify (set_next_uuid (S u));;
  new_obj (mkObj c u true ∅ [] None "" "" [] None).

(** The final world of a run, and its outcome. *)
Definition run {A} (m : M A) (w : World) : World := (m w).2.
Definition outcome {A} (m : M A) (w : World) : Res A := (m w).1.

(** ** Auxiliary functions of the statements *)

(** What [clean_value] returns and the store it leaves. *)
Definition after_clean (v : Value) (w : World) : Value * World :=
  match v with
  | Plain (JList xs) =>
      let l := fresh (dom (lists w)) in
      (ListRef l, set_lists (<[l := map clean_json xs]> (lists w)) w)
  | Plain j => (Plain (clean_json j), w)
  | ListRef l0 =>
      let l := fresh (dom (lists w)) in
      (ListRef l,
       set_lists (<[l := map clean_json (read_list l0 w)]> (lists w)) w)
  end.

(** The content of a cleaned value. *)
Definition cleaned (w : World) (v : Value) : json :=
  match v with
  | Plain (JList xs) => JList (map clean_json xs)
  | Plain j => clean_json j
  | ListRef l => JList (map clean_json (read_list l w))
  end.

(** The attributes of [test_attribute_mutability]. *)
Definition mutability_attrs : gmap string json :=
  <["bool" := JBool true]> (<["integer" := JInt 123]> ∅).

(** [a = Node(); a._set_attr('bool', True); a._set_attr('integer', 123);
    a.store()] *)
Definition stored_node_program (env : Env) : M oid :=
  a ← new_node PlainNode;
  _set_attr env a "bool" (Plain (JBool true)) true true;;
  _set_attr env a "integer" (Plain (JInt 123)) true true;;
  store env 3 true a None;;
  mret a.

(** The object and the row that program leaves. *)
Definition stored_obj : NodeObj :=
  mkObj PlainNode 1 false ∅ [] (Some 1) "" "" [] None.

Definition stored_row : DbNode :=
  mkRow 1 "node.Node." "" "" mutability_attrs
        {[ _HASH_EXTRA_KEY := JStr "hxx" ]} [] None.

Definition stored_world : World :=
  mkWorld {[ 0 := stored_obj ]} ∅ {[ 1 := stored_row ]} [] 2 2 ∅ None.

(** [a = Node()] *)
Definition unstored_obj : NodeObj :=
  mkObj PlainNode 1 true ∅ [] None "" "" [] None.

Definition unstored_world : World :=
  mkWorld {[ 0 := unstored_obj ]} ∅ ∅ [] 1 2 ∅ None.


(** Every list object that the attribute cache refers to is allocated. *)
Definition refs_allocated (w : World) (obj : NodeObj) : Prop :=
  map_Forall (fun _ v => match v with
                         | ListRef l => l ∈ dom (lists w)
                         | Plain _ => True
                         end) (_attrs_cache obj).

(** The keys that [_get_objects_to_hash] leaves out. *)
Definition hash_excluded (c : NodeClass) (K : string) : Prop :=
  K ∈ _updatable_attributes c ∨ K ∈ _hash_ignored_attributes c.

(** [c = Calculation()] of [test_updatable_attributes]. *)
Definition calculation_obj : NodeObj :=
  mkObj CalculationClass 1 true ∅ [] None "" "" [] None.

Definition calculation_world : World :=
  mkWorld {[ 0 := calculation_obj ]} ∅ ∅ [] 1 2 ∅ None.


(** The operations of a set-then-append sequence on one key, the set with
    the default [clean=True]. *)
Inductive AttrOp :=
  | SetOp (v : Value)
  | AppendOp (v : Value) (clean : bool).

Definition run_op (env : Env) (n : oid) (key : string) (op : AttrOp)
    : M unit :=
  match op with
  | SetOp v => _set_attr env n key v true true
  | AppendOp v clean => _append_to_attr env n key v clean
  end.

Definition run_ops (env : Env) (n : oid) (key : string) (ops : list AttrOp)
    : M unit :=
  for_each ops (run_op env n key).

(** The element that [_append_to_attr] appends. *)
Definition appended (clean : bool) (w : World) (v : Value) : json :=
  if clean then cleaned w v else deref w v.

(** The world after an append to the list object [l] held under [key]. *)
Definition after_append (n : oid) (obj : NodeObj) (key : string) (l : loc)
    (v : Value) (clean : bool) (w : World) : World :=
  let wc := if clean then (after_clean v w).2 else w in
  let v' := if clean then (after_clean v w).1 else v in
  let wl := set_lists (<[l := read_list l wc ++ [deref wc v']]> (lists wc)) wc in
  set_heap (<[n := with_attrs (<[key := ListRef l]> (_attrs_cache obj)) obj]>
              (heap wl)) wl.

(** [mylist = [1, 2, 3]] of [test_append_no_side_effects], next to a new
    node. *)
Definition mylist_world : World :=
  mkWorld {[ 0 := unstored_obj ]} {[ 0 := [JInt 1; JInt 2; JInt 3] ]} ∅ []
          1 2 ∅ None.

(** A stand-in digest that reads the content: one character for every
    element of a list attribute of the hash input. *)
Definition sized_hash (o : HashObjects) : Res string :=
  Ok (String.string_of_list_ascii
        (replicate
           (map_fold (fun _ j acc =>
                        match j with
                        | JList xs => (length xs + acc)%nat
                        | _ => acc
                        end) 0%nat (h_attributes o))
           "x"%char)).

Definition sized_env : Env :=
  mkEnv sized_hash (fun _ => false) "."%char "1.0.0a4" toy_role_ok
        String.eqb "_sealed" toy_load_class.

(** [c = Calculation(); c._set_attr('other', mylist, clean=False);
    c._set_attr('process_state', mylist, clean=False)] for [mylist = [1]]:
    the hashed key [other] and the updatable key [process_state] hold the
    same list object. *)
Definition shared_list_program (env : Env) : M unit :=
  _set_attr env 0 "other" (ListRef 0) false true;;
  _set_attr env 0 "process_state" (ListRef 0) false true.

Definition shared_list_world : World :=
  mkWorld
    {[ 0 := mkObj CalculationClass 1 true
                  (<["other" := ListRef 0]>
                     (<["process_state" := ListRef 0]> ∅))
                  [] None "" "" [] None ]}
    {[ 0 := [JInt 1] ]} ∅ [] 1 2 ∅ None.


(** ** Invariants of the runs *)

(** An object keeps its class, and a stored object stays stored. *)
Definition obj_stays (obj obj' : NodeObj) : Prop :=
  klass obj' = klass obj
  ∧ (_to_be_stored obj = false -> _to_be_stored obj' = false).

Definition stays (w w' : World) : Prop :=
  ∀ o obj, heap w !! o = Some obj ->
           ∃ obj', heap w' !! o = Some obj' ∧ obj_stays obj obj'.

(** Every run of [m] keeps the objects. *)
Definition steady {A} (m : M A) : Prop :=
  ∀ w r w', m w = (r, w') -> stays w w'.

(** [m] leaves the heap as it is. *)
Definition heap_fixed {A} (m : M A) : Prop :=
  ∀ w r w', m w = (r, w') -> heap w' = heap w.

(** [m] keeps the objects when started where [n] is [obj]. *)
Definition steady_at {A} (n : oid) (obj : NodeObj) (m : M A) : Prop :=
  ∀ w r w', heap w !! n = Some obj -> m w = (r, w') -> stays w w'.

(** The node at [n] is stored and of class [c]. *)
Definition stored_in (w : World) (n : oid) (c : NodeClass) : Prop :=
  ∃ obj, heap w !! n = Some obj ∧ _to_be_stored obj = false ∧ klass obj = c.

(** Every source of a cached link is an object of the heap. *)
Definition links_closed (w : World) : Prop :=
  map_Forall (fun _ obj =>
                Forall (fun t => is_Some (heap w !! node t))
                       (_incoming_cache obj)) (heap w).

(** The durable tables are as before and the node at [n] is still an
    unstored object of the same class. *)
Definition quiet (n : oid) (c : NodeClass) (w w' : World) : Prop :=
  db_nodes w' = db_nodes w ∧ db_links w' = db_links w
  ∧ ∃ obj', heap w' !! n = Some obj' ∧ _to_be_stored obj' = true
            ∧ klass obj' = c.

Definition copied_keys_valid (env : Env) (kvs : list (string * json)) : Prop :=
  Forall (fun kv => kv.1 ≠ SEALED_KEY env ->
                    contains_char (AIIDA_ATTRIBUTE_SEP env) kv.1 = false) kvs.


(** The node of [test_attribute_mutability] just before [a.store()]. *)
Definition prestore_obj : NodeObj :=
  mkObj PlainNode 1 true
        (<["bool" := Plain (JBool true)]>
           (<["integer" := Plain (JInt 123)]> ∅))
        [] None "" "" [] None.

Definition prestore_world : World :=
  mkWorld {[ 0 := prestore_obj ]} ∅ ∅ [] 1 2 ∅ None.

(** A stored calculation that RETURNs a stored data node, and a new
    calculation with the same content. *)
Definition return_program (env : Env) : M oid :=
  wf ← new_node CalculationClass;
  store env 3 true wf None;;
  out ← new_node DataClass;
  store env 3 true out None;;
  add_incoming env out wf RETURN "result";;
  new_node CalculationClass.

Definition hashed_row (u : uuid_t) (c : NodeClass) : DbNode :=
  mkRow u (plugin_type_string c) "" "" ∅ {[ _HASH_EXTRA_KEY := JStr "h" ]}
        [] None.

Definition fresh_obj (u : uuid_t) (c : NodeClass) : NodeObj :=
  mkObj c u true ∅ [] None "" "" [] None.

Definition saved_obj (u : uuid_t) (p : pk) (c : NodeClass) : NodeObj :=
  mkObj c u false ∅ [] (Some p) "" "" [] None.

Definition return_world : World :=
  mkWorld
    (<[0 := saved_obj 1 1 CalculationClass]>
       (<[1 := saved_obj 2 2 DataClass]>
          (<[2 := fresh_obj 3 CalculationClass]> ∅)))
    ∅
    (<[1 := hashed_row 1 CalculationClass]>
       (<[2 := hashed_row 2 DataClass]> ∅))
    [mkLink 1 2 RETURN "result"] 3 4 ∅ None.

(** [test_storeall_with_unstored_grandparents]: [n2.add_link_from(n1)],
    [endnode.add_link_from(n2)], nothing stored. *)
Definition grandparents_program (env : Env) : M unit :=
  n1 ← new_node PlainNode;
  n2 ← new_node PlainNode;
  endnode ← new_node PlainNode;
  add_incoming env n2 n1 INPUT "N1";;
  add_incoming env endnode n2 INPUT "N2".

Definition linked_obj (u : uuid_t) (c : NodeClass) (cache : list LinkTriple)
    : NodeObj :=
  mkObj c u true ∅ cache None "" "" [] None.

Definition grandparents_world : World :=
  mkWorld
    (<[0 := fresh_obj 1 PlainNode]>
       (<[1 := linked_obj 2 PlainNode [mkTriple 0 INPUT "N1"]]>
          (<[2 := linked_obj 3 PlainNode [mkTriple 1 INPUT "N2"]]> ∅)))
    ∅ ∅ [] 1 4 ∅ None.

(** The same after [n1.store()]. *)
Definition parent_stored_world : World :=
  mkWorld
    (<[0 := saved_obj 1 1 PlainNode]>
       (<[1 := linked_obj 2 PlainNode [mkTriple 0 INPUT "N1"]]>
          (<[2 := linked_obj 3 PlainNode [mkTriple 1 INPUT "N2"]]> ∅)))
    ∅ (<[1 := hashed_row 1 PlainNode]> ∅) [] 2 4 ∅ None.


(** A storable class whose [_validate] asks for the attribute [kind]. *)
Definition StrictClass : NodeClass :=
  mkClass "data.Strict." true true [] [] DataRole
          (fun attrs => bool_decide (is_Some (attrs !! "kind")))
          (fun _ => true).

(** An unstored node [n1], and two unstored nodes that have cached a link
    from it: a bare node of the base class and a node of [StrictClass]
    without the attribute. *)
Definition bare_child_program (env : Env) : M unit :=
  n1 ← new_node PlainNode;
  bare ← new_node AbstractClass;
  strict ← new_node StrictClass;
  add_incoming env bare n1 INPUT "N1";;
  add_incoming env strict n1 INPUT "N1".

Definition bare_child_world : World :=
  mkWorld
    (<[0 := fresh_obj 1 PlainNode]>
       (<[1 := linked_obj 2 AbstractClass [mkTriple 0 INPUT "N1"]]>
          (<[2 := linked_obj 3 StrictClass [mkTriple 0 INPUT "N1"]]> ∅)))
    ∅ ∅ [] 1 4 ∅ None.

(** ** The link graph *)

(** The targets of all edges. *)
Definition targets `{Countable V} (E : list (V * V)) : gset V := list_to_set (snd <$> E).

Definition prov_edge (w : World) : relation NodeRef := edge (prov_edges w).

(** No provenance path leads from a node back to itself. *)
Definition acyclic (w : World) : Prop := ∀ v, ¬ tc (prov_edge w) v v.

(** What the durable store compares: source, target and label. *)
Definition link_key (l : DbLink) : pk * pk * string :=
  (l_source l, l_target l, l_label l).

(** What a successful [add_incoming] does to the world. *)
Inductive link_added (self source : oid) (lt : LinkType) (lbl : string)
    (w w' : World) : Prop :=
  | added_to_db (t s : NodeObj) (pt ps : pk) :
      heap w !! self = Some t -> heap w !! source = Some s ->
      id t = Some pt -> id s = Some ps ->
      (ps, pt, lbl) ∉ link_key <$> db_links w ->
      w' = set_db_links (db_links w ++ [mkLink ps pt lt lbl]) w ->
      link_added self source lt lbl w w'
  | added_to_cache (t : NodeObj) :
      heap w !! self = Some t ->
      mkTriple source lt lbl ∉ _incoming_cache t ->
      w' = set_heap (<[self := with_incoming
                         (_incoming_cache t ++ [mkTriple source lt lbl]) t]>
                       (heap w)) w ->
      link_added self source lt lbl w w'.

(** No cache holds a triple twice; the durable table holds no two links
    with the same source, target and label. *)
Definition caches_unique (w : World) : Prop :=
  map_Forall (fun _ obj => NoDup (_incoming_cache obj)) (heap w).

Definition db_unique (w : World) : Prop := NoDup (link_key <$> db_links w).

(** [test_loop_not_allowed]: four stored nodes, then the CREATE links
    n1 -> n2 -> n3 -> n4. *)
Definition chain_nodes_program (env : Env) : M unit :=
  n1 ← new_node PlainNode; store env 3 true n1 None;;
  n2 ← new_node PlainNode; store env 3 true n2 None;;
  n3 ← new_node PlainNode; store env 3 true n3 None;;
  n4 ← new_node PlainNode; store env 3 true n4 None.

Definition chain_with (links : list DbLink) : World :=
  mkWorld
    (<[0 := saved_obj 1 1 PlainNode]>
       (<[1 := saved_obj 2 2 PlainNode]>
          (<[2 := saved_obj 3 3 PlainNode]>
             (<[3 := saved_obj 4 4 PlainNode]> ∅))))
    ∅
    (<[1 := hashed_row 1 PlainNode]>
       (<[2 := hashed_row 2 PlainNode]>
          (<[3 := hashed_row 3 PlainNode]>
             (<[4 := hashed_row 4 PlainNode]> ∅))))
    links 5 5 ∅ None.

Definition chain_links : list DbLink :=
  [mkLink 1 2 CREATE "a"; mkLink 2 3 CREATE "b"; mkLink 3 4 CREATE "c"].

Definition chain_world : World := chain_with chain_links.

(** [c = Calculation(); d = Data(); d.add_incoming(c, CREATE, 'out')]: a
    data node with its one CREATE link in the cache. *)
Definition created_program (env : Env) : M unit :=
  c ← new_node CalculationClass;
  d ← new_node DataClass;
  add_incoming env d c CREATE "out".

Definition created_world : World :=
  mkWorld
    (<[0 := fresh_obj 1 CalculationClass]>
       (<[1 := linked_obj 2 DataClass [mkTriple 0 CREATE "out"]]> ∅))
    ∅ ∅ [] 1 3 ∅ None.

(** A stored node that cached a link from a node stored only later:
    [t = Node().store(); s = Node(); t.add_incoming(s, CALL, 'l');
    s.store()]. *)
Definition stale_cache_program (env : Env) : M unit :=
  t ← new_node PlainNode;
  store env 3 true t None;;
  s ← new_node PlainNode;
  add_incoming env t s CALL "l";;
  store env 3 true s None.

Definition stale_cache_world : World :=
  mkWorld
    (<[0 := mkObj PlainNode 1 false ∅ [mkTriple 1 CALL "l"] (Some 1)
                  "" "" [] None]>
       (<[1 := saved_obj 2 2 PlainNode]> ∅))
    ∅
    (<[1 := hashed_row 1 PlainNode]> (<[2 := hashed_row 2 PlainNode]> ∅))
    [] 3 3 ∅ None.


(** ** The graph of the deletion tests *)

(** [_create_calls_n_returns_graph]: nine stored nodes [in1, in2, wf,
    slave1, outp1, outp2, slave2, outp3, outp4] (keys 1 to 9) and the
    eleven links of the test, in its order. *)
Definition calls_n_returns_program (env : Env) : M unit :=
  in1 ← new_node PlainNode; store env 3 true in1 None;;
  in2 ← new_node PlainNode; store env 3 true in2 None;;
  wf ← new_node PlainNode; store env 3 true wf None;;
  slave1 ← new_node PlainNode; store env 3 true slave1 None;;
  outp1 ← new_node PlainNode; store env 3 true outp1 None;;
  outp2 ← new_node PlainNode; store env 3 true outp2 None;;
  slave2 ← new_node PlainNode; store env 3 true slave2 None;;
  outp3 ← new_node PlainNode; store env 3 true outp3 None;;
  outp4 ← new_node PlainNode; store env 3 true outp4 None;;
  add_incoming env wf in1 INPUT "in1";;
  add_incoming env slave1 in1 INPUT "in1";;
  add_incoming env slave1 in2 INPUT "in2";;
  add_incoming env slave2 in2 INPUT "in2";;
  add_incoming env slave1 wf CALL "call1";;
  add_incoming env slave2 wf CALL "call2";;
  add_incoming env outp1 slave1 CREATE "out1";;
  add_incoming env outp2 slave2 CREATE "out2";;
  add_incoming env outp2 wf RETURN "ret2";;
  add_incoming env outp3 wf CREATE "out3";;
  add_incoming env outp4 wf RETURN "ret4".

Definition calls_n_returns_links : list DbLink :=
  [mkLink 1 3 INPUT "in1"; mkLink 1 4 INPUT "in1"; mkLink 2 4 INPUT "in2";
   mkLink 2 7 INPUT "in2"; mkLink 3 4 CALL "call1"; mkLink 3 7 CALL "call2";
   mkLink 4 5 CREATE "out1"; mkLink 7 6 CREATE "out2";
   mkLink 3 6 RETURN "ret2"; mkLink 3 8 CREATE "out3";
   mkLink 3 9 RETURN "ret4"].

Definition nine_objects : gmap oid NodeObj :=
  list_to_map ((fun i => (i, saved_obj (S i) (S i) PlainNode)) <$> seq 0 9).

Definition nine_rows : gmap pk DbNode :=
  list_to_map ((fun i => (S i, hashed_row (S i) PlainNode)) <$> seq 0 9).

Definition calls_n_returns_with (links : list DbLink) : World :=
  mkWorld nine_objects ∅ nine_rows links 10 10 ∅ None.

(** The graph of the test, and the graph with the second input of the
    workflow that the description of the scenario names. *)
Definition calls_n_returns_world : World :=
  calls_n_returns_with calls_n_returns_links.

Definition two_inputs_world : World :=
  calls_n_returns_with (calls_n_returns_links ++ [mkLink 2 3 INPUT "in2"]).

(** The outcome of [load_node] for each of the identifiers. *)
Definition lookups (us : list uuid_t) (w : World) : list (Res pk) :=
  (fun u => load_node u w) <$> us.

(** The world after [delete_nodes([wf.pk], ...)]. *)
Definition after_delete (follow_calls follow_returns : bool) (w : World)
    : World :=
  run (delete_nodes [3] follow_calls follow_returns) w.


(** [try: m except Exception as e: ...], keeping the outcome as a value. *)
Definition attempt {A} (m : M A) : M (Res A) :=
  fun w => let r := m w in (Ok r.1, r.2).

(** ** Further methods of the node *)

(** [orm.Computer], as far as [set_computer] reads it. *)
Record Computer := mkComputer {
  c_uuid : uuid_t;
  c_is_stored : bool
}.

Definition with_computer (c : option uuid_t) (n : NodeObj) : NodeObj :=
  mkObj (klass n) (uuid n) (_to_be_stored n) (_attrs_cache n)
        (_incoming_cache n) (id n) (label n) (description n) (folder n) c.

(** What [getattr(self, name)] finds: a bound method of one argument, or
    an attribute that is not callable. *)
Inductive PyAttr :=
  | Method (method : Value -> M unit)
  | NotCallable.

Section MoreNode.

Context (env : Env).

(** Taken as parameters: [_del_db_extra] and [_reset_db_extras] are
    abstract in the source. *)
Context (_del_db_extra : oid -> string -> M unit).
Context (_reset_db_extras : oid -> Value -> M unit).

(** [has_cached_links()] *)
Definition has_cached_links (n : oid) : R bool :=
  fun w => match read_obj n w with
           | Ok obj => Ok (negb (bool_decide (_incoming_cache obj = [])))
           | Raise e => Raise e
           end.

(** Modelled from the spec: [_db_attrs] is abstract in the source; "Returns
    the keys of the attributes as a generator, directly from the DB." *)
Definition _db_attrs (n : oid) : R (list string) :=
  fun w => match read_row n w with
           | Ok pr => Ok (fst <$> map_to_list (db_attributes pr.2))
           | Raise e => Raise e
           end.

(** [attrs()], as the list of the keys it yields. *)
Definition attrs (n : oid) : R (list string) :=
  fun w => match read_obj n w with
           | Ok obj =>
               if _to_be_stored obj
               then Ok (fst <$> map_to_list (_attrs_cache obj))
               else _db_attrs n w
           | Raise e => Raise e
           end.

(** [_del_all_attrs()] *)
Definition _del_all_attrs (n : oid) : M unit :=
  names ← reading (attrs n);
  for_each names (fun attr_name => _del_attr n attr_name true).

(** [set_extra_exclusive(key, value)] *)
Definition set_extra_exclusive (n : oid) (key : string) (value : Value)
    : M unit :=
  set_extra env n key value true.

(** [set_extras(the_dict)], the dict as the list of its items. *)
Definition set_extras (n : oid) (the_dict : list (string * Value)) : M unit :=
  try_except
    (for_each the_dict (fun kv => set_extra env n kv.1 kv.2 false))
    AttributeError
    (raise AttributeError).

(** [reset_extras(new_extras)]; the argument is a dict by its type. *)
Definition reset_extras (n : oid) (new_extras : list (string * json))
    : M unit :=
  obj ← get_obj n;
  if _to_be_stored obj then raise ModificationNotAllowed
  else
    v ← clean_value (Plain (JDict new_extras));
    _reset_db_extras n v.

(** [del_extra(key)] *)
Definition del_extra (n : oid) (key : string) : M unit :=
  obj ← get_obj n;
  if _to_be_stored obj then raise ModificationNotAllowed
  else _del_db_extra n key.

(** [set_computer(computer)]; [_set_db_computer] writes the unsaved
    record. *)
Definition set_computer (n : oid) (computer : Computer) : M unit :=
  obj ← get_obj n;
  if _to_be_stored obj then
    if negb (c_is_stored computer) then raise ValueError
    else put_obj n (with_computer (Some (c_uuid computer)) obj)
  else raise ModificationNotAllowed.

(** What [get_hash()] returns, as the value of an extra. *)
Definition hash_value (h : option string) : Value :=
  match h with
  | Some s => Plain (JStr s)
  | None => Plain JNull
  end.

(** [rehash()] *)
Definition rehash (n : oid) : M unit :=
  h ← reading (get_hash env n true);
  set_extra env n _HASH_EXTRA_KEY (hash_value h) false.

(** [clear_hash()] *)
Definition clear_hash (n : oid) : M unit :=
  set_extra env n _HASH_EXTRA_KEY (Plain JNull) false.

(** [get_cache_source()] *)
Definition get_cache_source (n : oid) : M Value :=
  get_extra n "_aiida_cached_from" [Plain JNull].

(** [is_created_from_cache] *)
Definition is_created_from_cache (n : oid) : M bool :=
  source ← get_cache_source n;
  mret (match source with
        | Plain JNull => false
        | _ => true
        end).

(** [get_all_same_nodes()]: [list(self._iter_all_same_nodes())], each node
    found by the query as its key. *)
Definition get_all_same_nodes (n : oid) : R (list pk) :=
  fun w =>
    match read_obj n w with
    | Ok obj =>
        if negb (_cacheable (klass obj)) then Ok []
        else match get_hash env n true w with
             | Ok (Some hash_) =>
                 if decide (hash_ = "") then Ok []
                 else Ok (same_nodes (klass obj) hash_ w)
             | Ok None => Ok []
             | Raise e => Raise e
             end
    | Raise e => Raise e
    end.

(** ['_set_{}'.format(k[1:])] and ['set_{}'.format(k)] *)
Definition setter_name (allow_hidden : bool) (k : string) : string :=
  match k with
  | String "_" rest => if allow_hidden then "_set_" +:+ rest else "set_" +:+ k
  | _ => "set_" +:+ k
  end.

(** [_set_internal(arguments, allow_hidden)], for a class with the given
    [_set_incompatibilities] and an object with the given attributes;
    [arguments] is the dict as the list of its items. *)
Definition _set_internal (_set_incompatibilities : list (list string))
    (getattr : string -> option PyAttr)
    (arguments : list (string * Value)) (allow_hidden : bool) : M unit :=
  for_each _set_incompatibilities (fun incomp =>
    if forallb (fun k => bool_decide (k ∈ arguments.*1)) incomp then
      if decide (length incomp = 1%nat) then raise ValueError
      else raise ValueError
    else mret tt);;
  for_each arguments (fun kv =>
    match getattr (setter_name allow_hidden kv.1) with
    | None => raise ValueError
    | Some NotCallable => raise ValueError
    | Some (Method method) => method kv.2
    end).

(** [set], with the keyword arguments as a list of items. *)
Definition set (_set_incompatibilities : list (list string))
    (getattr : string -> option PyAttr) (kwargs : list (string * Value))
    : M unit :=
  _set_internal _set_incompatibilities getattr kwargs false.

(** [_set_with_defaults], for a class with the given [_set_defaults]. *)
Definition _set_with_defaults (_set_incompatibilities : list (list string))
    (_set_defaults : list (string * Value))
    (getattr : string -> option PyAttr) (kwargs : list (string * Value))
    : M unit :=
  _set_internal _set_incompatibilities getattr _set_defaults true;;
  set _set_incompatibilities getattr kwargs.

End MoreNode.

(** ** Scripts of method calls on one node *)

Inductive NodeOp :=
  | Call_set_attr (key : string) (value : Value) (clean : bool)
  | Call_append_to_attr (key : string) (value : Value) (clean : bool)
  | Call_del_attr (key : string)
  | Call_del_all_attrs
  | Call_set_computer (computer : Computer)
  | Call_set_extra (key : string) (value : Value) (exclusive : bool)
  | Call_set_label (s : string)
  | Call_set_description (s : string)
  | Call_add_incoming (source : oid) (lt : LinkType) (lbl : string)
  | Call_store (with_transaction : bool) (use_cache : option bool)
  | Call_store_all (with_transaction : bool) (use_cache : option bool).

Definition is_store_call (op : NodeOp) : bool :=
  match op with
  | Call_store _ _ | Call_store_all _ _ => true
  | _ => false
  end.

(** One call on the node [n], with the default [stored_check=True]. *)
Definition run_node_op (env : Env) (fuel : nat) (n : oid) (op : NodeOp)
    : M unit :=
  match op with
  | Call_set_attr key value clean => _set_attr env n key value clean true
  | Call_append_to_attr key value clean => _append_to_attr env n key value clean
  | Call_del_attr key => _del_attr n key true
  | Call_del_all_attrs => _del_all_attrs n
  | Call_set_computer computer => set_computer n computer
  | Call_set_extra key value exclusive => set_extra env n key value exclusive
  | Call_set_label s => set_label n s
  | Call_set_description s => set_description n s
  | Call_add_incoming source lt lbl => add_incoming env n source lt lbl
  | Call_store with_transaction use_cache =>
      store env fuel with_transaction n use_cache
  | Call_store_all with_transaction use_cache =>
      store_all env fuel n with_transaction use_cache
  end.

(** The calls one after the other, each in a [try] whose [except] goes on
    with the next one. *)
Fixpoint run_script (env : Env) (fuel : nat) (n : oid) (ops : list NodeOp)
    : M unit :=
  match ops with
  | [] => mret tt
  | op :: rest =>
      attempt (run_node_op env fuel n op);;
      run_script env fuel n rest
  end.

(** What of a row the node methods never write once the node is stored. *)
Definition row_core (r : DbNode)
    : uuid_t * string * gmap string json * Folder * option uuid_t :=
  (db_uuid r, db_type r, db_attributes r, db_folder r, db_computer r).

(** The node at [n] is a stored object of class [c] with key [p], and the
    row at [p] agrees with [r] on [row_core]. *)
Definition frozen (n : oid) (c : NodeClass) (p : pk) (r : DbNode) (w : World)
    : Prop :=
  (∃ obj, heap w !! n = Some obj ∧ _to_be_stored obj = false
          ∧ id obj = Some p ∧ klass obj = c)
  ∧ ∃ r', db_nodes w !! p = Some r' ∧ row_core r' = row_core r.

(** Every run of [m] from a world of [P] ends in a world of [Q], whatever
    its outcome. *)
Definition ensures {A} (P : World -> Prop) (m : M A) (Q : World -> Prop)
    : Prop :=
  ∀ w r w', P w -> m w = (r, w') -> Q w'.

(** [P] does not read the list objects. *)
Definition list_blind (P : World -> Prop) : Prop :=
  ∀ w ls, P w -> P (set_lists ls w).

(** [P] at a world where the object at [n] is [obj]. *)
Definition at_obj (n : oid) (obj : NodeObj) (P : World -> Prop)
    : World -> Prop :=
  fun w => P w ∧ heap w !! n = Some obj.

(** The list object that a value refers to exists. *)
Definition allocated (w : World) (v : Value) : Prop :=
  match v with
  | ListRef l => l ∈ dom (lists w)
  | Plain _ => True
  end.

(** * [aiida/utils/find_folder.py] *)

Module find_folder.

(** An absolute path, as the components below the root of the file
    system; [os.path.abspath(root)] is one. *)
Abbreviation Path := (list string).

Inductive Found :=
  | Return (directory : Path)
  | OSError.

(** [path.parents]: the ancestors of a path, the nearest first, down to
    the root of the file system. *)
Definition parents (path : Path) : list Path :=
  (fun k => take k path) <$> reverse (seq 0 (length path)).

(** The loop of [find_path] over [itertools.chain([path], path.parents)];
    [dir_name] is a relative path, which [p / dir_name] appends. *)
Fixpoint first_directory (is_dir : Path -> bool) (candidates : list Path)
    (dir_name : Path) : Found :=
  match candidates with
  | [] => OSError
  | p :: rest =>
      let directory := p ++ dir_name in
      if is_dir directory then Return directory
      else first_directory is_dir rest dir_name
  end.

(** [find_path(root, dir_name)] on a file system whose directories are
    those of [is_dir]; [path] is [Path(os.path.abspath(root))]. *)
Definition find_path (is_dir : Path -> bool) (path : Path) (dir_name : Path)
    : Found :=
  first_directory is_dir (path :: parents path) dir_name.

End find_folder.

(** * [aiida/backends/tests/__init__.py] *)

Module tests.

(** [s.split(sep)] for a separator of one character. *)
Fixpoint split (sep : ascii) (s : string) : list string :=
  match s with
  | EmptyString => [EmptyString]
  | String c s' =>
      if decide (c = sep) then EmptyString :: split sep s'
      else match split sep s' with
           | part :: parts => String c part :: parts
           | [] => [String c EmptyString]
           end
  end.

(** [sep.join(parts)] *)
Fixpoint join (sep : string) (parts : list string) : string :=
  match parts with
  | [] => EmptyString
  | [part] => part
  | part :: rest => part +:+ sep +:+ join sep rest
  end.

(** The order of [sorted] on strings. *)
Definition string_le (a b : string) : Prop := String.leb a b = true.

#[global] Instance string_le_dec : RelDecision string_le.
Proof. intros a b. unfold string_le. apply _. Defined.

(** [sorted(set(final_list))] *)
Definition sorted_set (final_list : list string) : list string :=
  merge_sort string_le (remove_dups final_list).

(** The keys appended for [k]: [".".join(parts[:last_idx])] for
    [last_idx] in [range(1, len(parts))], if ['.' in k]. *)
Definition parent_keys (k : string) : list string :=
  if contains_char "." k then
    let parts := split "." k in
    (fun last_idx => join "." (take last_idx parts))
      <$> seq 1 (length parts - 1)
  else [].

Section names.

(** The module's table [db_test_list], backend by backend with the items
    of each in order, and the entry points of the group [aiida.tests] as
    pairs of name and module name. *)
Context (db_test_list : list (string * list (string * list string))).
Context (entry_points : list (string * string)).

(** [retlist] of [get_db_test_names] after its first two loops. *)
Definition retlist : list string :=
  (db_test_list ≫= fun backend => backend.2.*1) ++ entry_points.*1.

(** [get_db_test_names()] *)
Definition get_db_test_names : list string :=
  let final_list := retlist ++ (retlist ≫= parent_keys) in
  sorted_set final_list.

End names.

(** ** [get_db_test_list] *)

(** The list objects of a run are kept by address, in a
    [gmap nat (list string)].  A dict of lists is the list of its items in
    the order of insertion, each value the address of a list object. *)
Definition read (ls : gmap nat (list string)) (l : nat) : list string :=
  default [] (ls !! l).

(** [d[k]] on a plain dict; [None] is a [KeyError]. *)
Fixpoint lookup_key {A} (k : string) (d : list (string * A)) : option A :=
  match d with
  | [] => None
  | kv :: rest => if decide (kv.1 = k) then Some kv.2 else lookup_key k rest
  end.

(** [d[k]] on a [defaultdict(list)]: a missing key gets a new empty list. *)
Definition getitem (k : string) (d : list (string * nat))
    (ls : gmap nat (list string))
    : nat * list (string * nat) * gmap nat (list string) :=
  match lookup_key k d with
  | Some l => (l, d, ls)
  | None => let l := fresh (dom ls) in (l, d ++ [(k, l)], <[l := []]> ls)
  end.

(** [d[k] = v] *)
Fixpoint setitem (k : string) (v : nat) (d : list (string * nat))
    : list (string * nat) :=
  match d with
  | [] => [(k, v)]
  | kv :: rest =>
      if decide (kv.1 = k) then (k, v) :: rest else kv :: setitem k v rest
  end.

(** [d[k].append(t)] *)
Definition append_item (k t : string)
    (st : list (string * nat) * gmap nat (list string))
    : list (string * nat) * gmap nat (list string) :=
  let '(l, d, ls) := getitem k st.1 st.2 in
  (d, <[l := read ls l ++ [t]]> ls).

(** [d[k].extend(v)] for the list object at [v] *)
Definition extend_item (k : string) (v : nat)
    (st : list (string * nat) * gmap nat (list string))
    : list (string * nat) * gmap nat (list string) :=
  let '(l, d, ls) := getitem k st.1 st.2 in
  (d, <[l := read ls l ++ read ls v]> ls).

(** [for k, tests in table.items(): for t in tests: retdict[k].append(t)] *)
Definition load_tests (table : list (string * list string))
    (st : list (string * nat) * gmap nat (list string))
    : list (string * nat) * gmap nat (list string) :=
  foldl (fun st kv => foldl (fun st t => append_item kv.1 t st) st kv.2)
        st table.

(** The second half of [get_db_test_list]: the items of [retdict] are put
    into [final_retdict], which shares the list objects, and every list is
    added to the lists of the parent keys. *)
Definition explode (st : list (string * nat) * gmap nat (list string))
    : list (string * nat) * gmap nat (list string) :=
  let retdict := st.1 in
  let final_retdict := foldl (fun d kv => setitem kv.1 kv.2 d) [] retdict in
  foldl (fun st kv =>
           foldl (fun st parentkey => extend_item parentkey kv.2 st)
                 st (parent_keys kv.1))
        (final_retdict, st.2) retdict.

Inductive Listed :=
  | Return (d : list (string * list string))
  | ConfigurationError (message : string).

Section list.

Context (db_test_list : list (string * list (string * list string))).
Context (entry_points : list (string * string)).
(** [settings.BACKEND] *)
Context (BACKEND : option string).

(** [get_db_test_list()] *)
Definition get_db_test_list : Listed :=
  match BACKEND ≫= (fun current_backend =>
                      lookup_key current_backend db_test_list) with
  | None => ConfigurationError "No backend configured yet"
  | Some be_tests =>
      match lookup_key "common" db_test_list with
      | None => ConfigurationError "A 'common' key must always be defined!"
      | Some common_tests =>
          let st := load_tests common_tests ([], ∅) in
          let st := load_tests be_tests st in
          let st := foldl (fun st ep => append_item ep.1 ep.2 st)
                          st entry_points in
          let final := explode st in
          Return ((fun kv => (kv.1, read final.2 kv.2)) <$> final.1)
      end
  end.

End list.

End tests.

(** [P] does not read the node objects. *)
Definition heap_blind (P : World -> Prop) : Prop :=
  ∀ w h, P w -> P (set_heap h w).

(** The row at [p] agrees with [r] on [row_core], the links [links] are
    the first links of the table, and the key counter is at least [N], which
    is beyond [p]. *)
Definition kept (p : pk) (r : DbNode) (links : list DbLink) (N : pk)
    (w : World) : Prop :=
  (∃ r', db_nodes w !! p = Some r' ∧ row_core r' = row_core r)
  ∧ links `prefix_of` db_links w
  ∧ (p < N)%nat ∧ (N ≤ next_pk w)%nat.

(** The durable tables and the key counter are those of [w0], and the node
    at [n] is an object that differs from [ref] in its attributes at
    most. *)
Definition pending (n : oid) (ref : NodeObj) (w0 w : World) : Prop :=
  db_nodes w = db_nodes w0 ∧ db_links w = db_links w0
  ∧ next_pk w = next_pk w0
  ∧ ∃ obj, heap w !! n = Some obj ∧ with_attrs ∅ obj = with_attrs ∅ ref.

(** A node that is to be stored next to a stored calculation with the same
    content and no outgoing link. *)
Definition cache_hit_world : World :=
  mkWorld
    (<[0 := mkObj CalculationClass 1 false ∅ [] (Some 1) "" "" [] None]>
       (<[1 := mkObj CalculationClass 2 true ∅ [] None "" "" [] None]> ∅))
    ∅
    (<[1 := mkRow 1 (plugin_type_string CalculationClass) "relax" "first run"
                  ∅ {[ _HASH_EXTRA_KEY := JStr "h" ]} [] None]> ∅)
    [] 2 3 ∅ None.

(** The durable link that the cached triple [t] into the node with key
    [p] becomes. *)
Definition promoted (w : World) (p : pk) (t : LinkTriple) (l : DbLink)
    : Prop :=
  l_target l = p ∧ l_type l = link_type t ∧ l_label l = link_label t
  ∧ ∃ s, heap w !! node t = Some s ∧ _to_be_stored s = false
         ∧ id s = Some (l_source l).

(** The key under which the link table would hold the cached triple [t]:
    the primary key of its source and its label. *)
Definition flush_key (w : World) (t : LinkTriple) : option pk * string :=
  (heap w !! node t ≫= id, link_label t).

(** The sources of the triples are stored objects with a primary key. *)
Definition sources_stored (w : World) (cache : list LinkTriple) : Prop :=
  Forall (fun t => ∃ s ps, heap w !! node t = Some s
                           ∧ _to_be_stored s = false ∧ id s = Some ps) cache.


(** A source that [_store_input_nodes] can deal with: a stored node, or a
    node that [store] takes without caching: storable and valid, with
    cached links from stored sources only, no two of them with the same
    source and label. *)
Definition storable_source (env : Env) (w : World) (t : LinkTriple) : Prop :=
  ∃ s, heap w !! node t = Some s
       ∧ (_to_be_stored s = true ->
          _storable (klass s) = true
          ∧ run_validate (node t) w = Ok tt
          ∧ get_use_cache env (plugin_type_string (klass s)) = false
          ∧ sources_stored w (_incoming_cache s)
          ∧ NoDup (flush_key w <$> _incoming_cache s)).

(** Every link of the table points at a primary key that has been given
    out. *)
Definition links_below (w : World) : Prop :=
  ∀ l, l ∈ db_links w -> (l_target l < next_pk w)%nat.

(** From [w] to [w'] the list objects are the same, and an object of the
    heap is the same or was unstored and is stored. *)
Definition only_stored (w w' : World) : Prop :=
  lists w' = lists w
  ∧ ∀ o s, heap w !! o = Some s ->
           heap w' !! o = Some s
           ∨ (_to_be_stored s = true
              ∧ ∃ s', heap w' !! o = Some s' ∧ _to_be_stored s' = false).

(** The tests that [get_db_test_list] is given, as pairs of key and module,
    in the order in which it reads them. *)
Definition flat_tests (table : list (string * list string))
    : list (string * string) :=
  table ≫= fun kv => (fun t => (kv.1, t)) <$> kv.2.

(** A dict of lists in good shape: the keys differ, the list objects differ
    and exist. *)
Definition dict_ok (d : list (string * nat)) (ls : gmap nat (list string))
    : Prop :=
  NoDup d.*1 ∧ NoDup d.*2 ∧ ∀ kv, kv ∈ d -> kv.2 ∈ dom ls.

(** The module [t] is listed under [k] or under a key below [k]. *)
Definition below (pairs : list (string * string)) (k t : string) : Prop :=
  ∃ k', (k', t) ∈ pairs ∧ (k = k' ∨ k ∈ tests.parent_keys k').

(** The lists of [retdict] after the appends for [done]. *)
Definition loaded (done : list (string * string))
    (st : list (string * nat) * gmap nat (list string))
    : Prop :=
  dict_ok st.1 st.2
  ∧ (∀ k l, (k, l) ∈ st.1 ->
       tests.read st.2 l ≠ []
       ∧ ∀ t, t ∈ tests.read st.2 l ↔ (k, t) ∈ done)
  ∧ ∀ k t, (k, t) ∈ done -> k ∈ st.1.*1.

(** The state of the second loop of [get_db_test_list] after the
    extensions [done], each the key extended and the list object added:
    [d0] and [ls0] are [retdict] and the lists when the loop starts. *)
Definition exploded (d0 : list (string * nat)) (ls0 : gmap nat (list string))
    (pairs : list (string * string)) (done : list (string * nat))
    (st : list (string * nat) * gmap nat (list string)) : Prop :=
  dict_ok st.1 st.2
  ∧ (∀ kv, kv ∈ d0 -> kv ∈ st.1)
  ∧ (∀ l t, t ∈ tests.read ls0 l -> t ∈ tests.read st.2 l)
  ∧ (∀ k l, (k, l) ∈ st.1 ->
       tests.read st.2 l ≠ []
       ∧ ∀ t, t ∈ tests.read st.2 l -> below pairs k t)
  ∧ ∀ p v t, (p, v) ∈ done -> t ∈ tests.read ls0 v ->
      ∃ l, (p, l) ∈ st.1 ∧ t ∈ tests.read st.2 l.

(** A table of tests that shows what the shared list objects do: the list
    of [a.b] is extended by the tests of [a.b.c] before it is added to the
    list of [a]. *)
Definition nested_tests : list (string * list (string * list string)) :=
  [("django", [("a.b.c", ["t_abc"]); ("a.b", ["t_ab"]); ("quiet", [])]);
   ("common", [("a", ["t_a"])])].

(** * Properties *)

(** ** Unfolding the monad *)

Lemma bind_run {A B} (m : M A) (k : A -> M B) (w : World) :
  (m ≫= k) w = match m w with
               | (Ok a, w') => k a w'
               | (Raise e, w') => (Raise e, w')
               end.
Proof. reflexivity. Qed.

Lemma bind_ok {A B} (m : M A) (k : A -> M B) (w w' : World) (a : A) :
  m w = (Ok a, w') -> (m ≫= k) w = k a w'.
Proof. intros Hm. rewrite bind_run, Hm. reflexivity. Qed.

Lemma bind_raise {A B} (m : M A) (k : A -> M B) (w w' : World) (e : Exn) :
  m w = (Raise e, w') -> (m ≫= k) w = (Raise e, w').
Proof. intros Hm. rewrite bind_run, Hm. reflexivity. Qed.

Lemma get_obj_some (o : oid) (obj : NodeObj) (w : World) :
  heap w !! o = Some obj -> get_obj o w = (Ok obj, w).
Proof. intros Hh. unfold get_obj. rewrite Hh. reflexivity. Qed.

Lemma read_obj_some (o : oid) (obj : NodeObj) (w : World) :
  heap w !! o = Some obj -> read_obj o w = Ok obj.
Proof. intros Hh. unfold read_obj. rewrite Hh. reflexivity. Qed.

Lemma read_row_some (o : oid) (obj : NodeObj) (p : pk) (r : DbNode)
    (w : World) :
  heap w !! o = Some obj -> id obj = Some p -> db_nodes w !! p = Some r ->
  read_row o w = Ok (p, r).
Proof.
  intros Hh Hid Hr. unfold read_row.
  rewrite (read_obj_some _ _ _ Hh), Hid, Hr. reflexivity.
Qed.

Ltac run_step :=
  first
    [ rewrite bind_run
    | progress (cbn [mret M_ret ret raise gets modify reading fst snd]) ].

(** ** The scenario worlds are what the programs build *)

Lemma stored_world_built :
  stored_node_program (test_env false) empty_world = (Ok 0, stored_world).
Proof. vm_compute. reflexivity. Qed.

Lemma unstored_world_built :
  new_node PlainNode empty_world = (Ok 0, unstored_world).
Proof. vm_compute. reflexivity. Qed.

(** ** Cleaning a value *)

Lemma clean_value_run (v : Value) (w : World) :
  clean_value v w = (Ok (after_clean v w).1, (after_clean v w).2).
Proof. destruct v as [[]|]; reflexivity. Qed.

Lemma after_clean_heap (v : Value) (w : World) :
  heap (after_clean v w).2 = heap w.
Proof. destruct v as [[]|]; reflexivity. Qed.

Lemma after_clean_db_nodes (v : Value) (w : World) :
  db_nodes (after_clean v w).2 = db_nodes w.
Proof. destruct v as [[]|]; reflexivity. Qed.

Lemma after_clean_db_links (v : Value) (w : World) :
  db_links (after_clean v w).2 = db_links w.
Proof. destruct v as [[]|]; reflexivity. Qed.

Lemma read_list_insert_eq (l : loc) (xs : list json) (w : World) :
  read_list l (set_lists (<[l := xs]> (lists w)) w) = xs.
Proof. unfold read_list; cbn. rewrite lookup_insert_eq. reflexivity. Qed.

Lemma read_list_insert_ne (l l' : loc) (xs : list json) (w : World) :
  l ≠ l' -> read_list l' (set_lists (<[l := xs]> (lists w)) w) = read_list l' w.
Proof.
  intros Hne. unfold read_list; cbn. rewrite lookup_insert_ne by exact Hne.
  reflexivity.
Qed.

Lemma deref_after_clean (v : Value) (w : World) :
  deref (after_clean v w).2 (after_clean v w).1 = cleaned w v.
Proof.
  destruct v as [[]|]; cbn [after_clean cleaned deref fst snd];
    try reflexivity; rewrite read_list_insert_eq; reflexivity.
Qed.

Lemma fresh_loc_not_allocated (l : loc) (w : World) :
  l ∈ dom (lists w) -> fresh (dom (lists w)) ≠ l.
Proof. intros Hin Heq. subst l. exact (is_fresh _ Hin). Qed.

Lemma read_list_after_clean (v : Value) (l : loc) (w : World) :
  l ∈ dom (lists w) -> read_list l (after_clean v w).2 = read_list l w.
Proof.
  intros Hin. destruct v as [[]|]; cbn [after_clean snd]; try reflexivity;
    apply read_list_insert_ne, fresh_loc_not_allocated, Hin.
Qed.

Lemma validate_key_ok (env : Env) (key : string) (w : World) :
  contains_char (AIIDA_ATTRIBUTE_SEP env) key = false ->
  validate_attribute_key env key w = (Ok tt, w).
Proof. intros Hk. unfold validate_attribute_key. rewrite Hk. reflexivity. Qed.

(** ** Attributes of a stored node *)

(** C7: on a stored node, [_set_attr] and [_del_attr] of a key outside the
    updatable list raise ModificationNotAllowed and change nothing; with
    [stored_check=False] the set of a valid key and the delete of a present
    key succeed on the durable attributes. *)
Theorem stored_attributes_immutable (env : Env) (w : World) (n : oid)
    (obj : NodeObj) (p : pk) (r : DbNode) (K : string) (v : Value)
    (clean : bool) :
  heap w !! n = Some obj ->
  _to_be_stored obj = false ->
  id obj = Some p ->
  db_nodes w !! p = Some r ->
  K ∉ _updatable_attributes (klass obj) ->
  _set_attr env n K v clean true w = (Raise ModificationNotAllowed, w)
  ∧ _del_attr n K true w = (Raise ModificationNotAllowed, w)
  ∧ (contains_char (AIIDA_ATTRIBUTE_SEP env) K = false ->
     ∃ w', _set_attr env n K v clean false w = (Ok tt, w')
           ∧ get_attrs n w' = Ok (<[K := cleaned w v]> (db_attributes r)))
  ∧ (is_Some (db_attributes r !! K) ->
     ∃ w', _del_attr n K false w = (Ok tt, w')
           ∧ get_attrs n w' = Ok (delete K (db_attributes r))).
Proof.
  intros Hh Hs Hid Hr _.
  pose proof (get_obj_some _ _ _ Hh) as Hg.
  repeat split.
  - unfold _set_attr. rewrite (bind_ok _ _ _ _ _ Hg).
    unfold is_stored. rewrite Hs. reflexivity.
  - unfold _del_attr. rewrite (bind_ok _ _ _ _ _ Hg).
    unfold is_stored. rewrite Hs. reflexivity.
  - intros Hk.
    unfold _set_attr. rewrite (bind_ok _ _ _ _ _ Hg). cbn [andb].
    rewrite (bind_ok _ _ _ _ _ (validate_key_ok _ _ _ Hk)), Hs.
    rewrite (bind_ok _ _ _ _ _ (clean_value_run v w)).
    set (w1 := (after_clean v w).2). set (v1 := (after_clean v w).1).
    assert (Hh1 : heap w1 !! n = Some obj)
      by (unfold w1; rewrite after_clean_heap; exact Hh).
    assert (Hr1 : db_nodes w1 !! p = Some r)
      by (unfold w1; rewrite after_clean_db_nodes; exact Hr).
    unfold _set_db_attr, reading. rewrite bind_run.
    rewrite (read_row_some _ _ _ _ _ Hh1 Hid Hr1).
    rewrite bind_run. cbn [gets fst snd].
    eexists. split; [reflexivity|].
    unfold get_attrs, read_row, read_obj, put_row, modify;
      cbn [heap db_nodes set_db_nodes fst snd].
    rewrite Hh1, Hs, Hid, lookup_insert_eq.
    cbn [snd db_attributes row_with_attributes].
    unfold v1, w1. rewrite deref_after_clean. reflexivity.
  - intros [j Hj].
    unfold _del_attr. rewrite (bind_ok _ _ _ _ _ Hg). cbn [andb]. rewrite Hs.
    unfold _del_db_attr, reading. rewrite bind_run.
    rewrite (read_row_some _ _ _ _ _ Hh Hid Hr). cbn [snd fst]. rewrite Hj.
    eexists. split; [reflexivity|].
    unfold get_attrs, read_row, read_obj, put_row, modify;
      cbn [heap db_nodes set_db_nodes fst snd].
    rewrite Hh, Hs, Hid, lookup_insert_eq. reflexivity.
Qed.

Lemma stored_attributes_immutable_witness :
  let env := test_env false in
  let v := Plain (JInt 5) in
  _set_attr env 0 "bool" v true true stored_world
    = (Raise ModificationNotAllowed, stored_world)
  ∧ _del_attr 0 "bool" true stored_world
    = (Raise ModificationNotAllowed, stored_world)
  ∧ (∃ w', _set_attr env 0 "bool" v true false stored_world = (Ok tt, w')
           ∧ get_attrs 0 w' = Ok (<["bool" := JInt 5]> mutability_attrs))
  ∧ (∃ w', _del_attr 0 "bool" false stored_world = (Ok tt, w')
           ∧ get_attrs 0 w' = Ok (delete "bool" mutability_attrs)).
Proof.
  intros env v.
  destruct (stored_attributes_immutable env stored_world 0 stored_obj 1
              stored_row "bool" v true)
    as (H1 & H2 & H3 & H4);
    [reflexivity | reflexivity | reflexivity | reflexivity
    | cbn; apply not_elem_of_nil |].
  split; [exact H1|]. split; [exact H2|]. split.
  - apply H3. reflexivity.
  - apply H4. exists (JBool true). reflexivity.
Defined.

(** With [stored_check=False] the call still goes through
    [validate_attribute_key] and through the lookup of the key: a key with
    the separator is a ValidationError, a key that the node does not have
    an AttributeError. *)
Lemma override_can_still_fail :
  let env := test_env false in
  _updatable_attributes (klass stored_obj) = []
  ∧ _set_attr env 0 "a.b" (Plain (JInt 5)) true false stored_world
    = (Raise ValidationError, stored_world)
  ∧ get_attrs 0 stored_world = Ok mutability_attrs
  ∧ mutability_attrs !! "missing" = None
  ∧ _del_attr 0 "missing" false stored_world
    = (Raise AttributeError, stored_world).
Proof. intros env. repeat split; vm_compute; reflexivity. Qed.

(** ** Extras of an unstored node *)

(** C10: on an unstored node the extras are read without the durable
    store: [get_extras] is the empty mapping, [iterextras] yields nothing,
    [get_extra] raises AttributeError without a default and returns the
    default otherwise, whatever the rows and links of the store are. *)
Theorem unstored_extras_never_read_storage (w : World) (n : oid)
    (obj : NodeObj) (key : string) (d : Value) :
  heap w !! n = Some obj ->
  _to_be_stored obj = true ->
  get_extras n w = (Ok ∅, w)
  ∧ iterextras n w = (Ok [], w)
  ∧ get_extra n key [] w = (Raise AttributeError, w)
  ∧ get_extra n key [d] w = (Ok d, w)
  ∧ ∀ (rows : gmap pk DbNode) (links : list DbLink),
      let w' := set_db_links links (set_db_nodes rows w) in
      get_extras n w' = (Ok ∅, w')
      ∧ iterextras n w' = (Ok [], w')
      ∧ get_extra n key [] w' = (Raise AttributeError, w')
      ∧ get_extra n key [d] w' = (Ok d, w').
Proof.
  intros Hh Hu.
  assert (Hall : ∀ w0, heap w0 !! n = Some obj ->
            get_extras n w0 = (Ok ∅, w0)
            ∧ iterextras n w0 = (Ok [], w0)
            ∧ get_extra n key [] w0 = (Raise AttributeError, w0)
            ∧ get_extra n key [d] w0 = (Ok d, w0)).
  { intros w0 H0.
    assert (Hit : iterextras n w0 = (Ok [], w0)).
    { unfold iterextras. rewrite (bind_ok _ _ _ _ _ (get_obj_some _ _ _ H0)).
      rewrite Hu. reflexivity. }
    split; [|split; [exact Hit|]].
    - unfold get_extras. rewrite (bind_ok _ _ _ _ _ Hit). reflexivity.
    - unfold get_extra.
      split; (case_decide; [simpl in *; lia|]);
        unfold try_except, is_stored;
        rewrite (bind_ok _ _ _ _ _ (get_obj_some _ _ _ H0)), Hu;
        reflexivity. }
  destruct (Hall w Hh) as (H1 & H2 & H3 & H4).
  repeat split; try assumption; apply Hall; exact Hh.
Qed.

Lemma unstored_extras_never_read_storage_witness :
  get_extras 0 unstored_world = (Ok ∅, unstored_world)
  ∧ iterextras 0 unstored_world = (Ok [], unstored_world)
  ∧ get_extra 0 "c" [] unstored_world = (Raise AttributeError, unstored_world)
  ∧ get_extra 0 "c" [Plain (JStr "def")] unstored_world
    = (Ok (Plain (JStr "def")), unstored_world).
Proof.
  destruct (unstored_extras_never_read_storage unstored_world 0 unstored_obj
              "c" (Plain (JStr "def")))
    as (H1 & H2 & H3 & H4 & _); [reflexivity | reflexivity |].
  repeat split; assumption.
Defined.

(** ** The hash leaves out the updatable attributes *)

Lemma hashed_insert_excluded (c : NodeClass) (K : string) (x : json)
    (m : gmap string json) :
  hash_excluded c K -> hashed_attributes c (<[K := x]> m) = hashed_attributes c m.
Proof.
  intros Hex. unfold hashed_attributes.
  rewrite map_filter_insert_False by (cbn; destruct Hex; tauto).
  apply map_filter_delete_not. intros y _. cbn. destruct Hex; tauto.
Qed.

Lemma hashed_delete_excluded (c : NodeClass) (K : string)
    (m : gmap string json) :
  hash_excluded c K -> hashed_attributes c (delete K m) = hashed_attributes c m.
Proof.
  intros Hex. unfold hashed_attributes.
  apply map_filter_delete_not. intros y _. cbn. destruct Hex; tauto.
Qed.

Lemma deref_cache_ext (w w' : World) (cache : gmap string Value) :
  (∀ k l, cache !! k = Some (ListRef l) -> read_list l w' = read_list l w) ->
  deref w' <$> cache = deref w <$> cache.
Proof.
  intros Hl. apply map_fmap_ext. intros k [j|l] Hk; cbn; [reflexivity|].
  rewrite (Hl _ _ Hk). reflexivity.
Qed.

Lemma get_hash_ext (env : Env) (n : oid) (ie : bool) (w w' : World) :
  _get_objects_to_hash env n w' = _get_objects_to_hash env n w ->
  get_hash env n ie w' = get_hash env n ie w.
Proof. intros Heq. unfold get_hash. rewrite Heq. reflexivity. Qed.

(** The hash input of an unstored node whose object is [obj]. *)
Lemma objects_to_hash_unstored (env : Env) (n : oid) (obj : NodeObj)
    (w : World) :
  heap w !! n = Some obj -> _to_be_stored obj = true ->
  _get_objects_to_hash env n w
  = Ok (mkHashObjects (version env)
          (hashed_attributes (klass obj) (deref w <$> _attrs_cache obj))
          (folder obj) (computer obj)).
Proof.
  intros Hh Hu.
  unfold _get_objects_to_hash, get_computer, get_attrs, get_folder, is_stored.
  rewrite (read_obj_some _ _ _ Hh), Hu. reflexivity.
Qed.

Lemma objects_to_hash_stored (env : Env) (n : oid) (obj : NodeObj) (p : pk)
    (r : DbNode) (w : World) :
  heap w !! n = Some obj -> _to_be_stored obj = false ->
  id obj = Some p -> db_nodes w !! p = Some r ->
  _get_objects_to_hash env n w
  = Ok (mkHashObjects (version env)
          (hashed_attributes (klass obj) (db_attributes r))
          (db_folder r) (db_computer r)).
Proof.
  intros Hh Hu Hid Hr.
  unfold _get_objects_to_hash, get_computer, get_attrs, get_folder, is_stored.
  rewrite (read_row_some _ _ _ _ _ Hh Hid Hr), (read_obj_some _ _ _ Hh), Hu.
  reflexivity.
Qed.

Lemma objects_to_hash_same_lists (env : Env) (n : oid) (obj : NodeObj)
    (w w1 : World) :
  heap w !! n = Some obj ->
  refs_allocated w obj ->
  heap w1 = heap w -> db_nodes w1 = db_nodes w ->
  (∀ l, l ∈ dom (lists w) -> read_list l w1 = read_list l w) ->
  _get_objects_to_hash env n w1 = _get_objects_to_hash env n w.
Proof.
  intros Hh Hrefs Hheap Hdb Hlists.
  unfold _get_objects_to_hash, get_computer, get_attrs, get_folder, read_row,
    read_obj, is_stored.
  rewrite Hheap, Hdb, Hh.
  destruct (_to_be_stored obj); [|reflexivity].
  cbn. do 3 f_equal. apply deref_cache_ext. intros k l Hk.
  apply Hlists. exact (Hrefs k (ListRef l) Hk).
Qed.

Lemma set_attr_keeps_hash_input (env : Env) (w w' : World) (n : oid)
    (obj : NodeObj) (K : string) (v : Value) (clean stored_check : bool)
    (r : Res unit) :
  heap w !! n = Some obj ->
  refs_allocated w obj ->
  hash_excluded (klass obj) K ->
  _set_attr env n K v clean stored_check w = (r, w') ->
  _get_objects_to_hash env n w' = _get_objects_to_hash env n w.
Proof.
  intros Hh Hrefs Hex Hrun.
  unfold _set_attr in Hrun.
  rewrite (bind_ok _ _ _ _ _ (get_obj_some _ _ _ Hh)) in Hrun.
  destruct (stored_check && is_stored obj);
    [inversion Hrun; reflexivity|].
  unfold validate_attribute_key in Hrun at 1.
  destruct (contains_char _ K); [inversion Hrun; reflexivity|].
  rewrite bind_run in Hrun. cbn [mret M_ret ret] in Hrun.
  destruct (_to_be_stored obj) eqn:Hu.
  - (* the cache of an unstored node *)
    assert (Hw : ∃ v1 w1, w' = set_heap (<[n := with_attrs (<[K := v1]> (_attrs_cache obj)) obj]> (heap w1)) w1
                 ∧ heap w1 = heap w
                 ∧ ∀ l, l ∈ dom (lists w) -> read_list l w1 = read_list l w).
    { destruct clean.
      - rewrite (bind_ok _ _ _ _ _ (clean_value_run v w)) in Hrun.
        inversion Hrun. eexists _, _. split; [reflexivity|].
        split; [apply after_clean_heap|]. intros l. apply read_list_after_clean.
      - rewrite bind_run in Hrun. cbn in Hrun. inversion Hrun.
        eexists _, _. split; [reflexivity|]. split; reflexivity. }
    destruct Hw as (v1 & w1 & -> & Hheap & Hlists).
    rewrite (objects_to_hash_unstored env n
               (with_attrs (<[K := v1]> (_attrs_cache obj)) obj));
      [| cbn; apply lookup_insert_eq | exact Hu].
    rewrite (objects_to_hash_unstored env n obj w Hh Hu).
    cbn [klass folder computer with_attrs _attrs_cache].
    rewrite fmap_insert, hashed_insert_excluded by exact Hex.
    do 3 f_equal. apply deref_cache_ext. intros k l Hk.
    change (read_list l w1 = read_list l w).
    apply (Hlists l). exact (Hrefs k (ListRef l) Hk).
  - (* the row of a stored node *)
    rewrite (bind_ok _ _ _ _ _ (clean_value_run v w)) in Hrun.
    pose proof (objects_to_hash_same_lists env n obj w (after_clean v w).2
                  Hh Hrefs (after_clean_heap v w) (after_clean_db_nodes v w)
                  (fun l => read_list_after_clean v l w)) as Hsame.
    unfold _set_db_attr, reading in Hrun. rewrite bind_run in Hrun.
    unfold read_row in Hrun.
    rewrite (read_obj_some n obj) in Hrun
      by (rewrite after_clean_heap; exact Hh).
    rewrite after_clean_db_nodes in Hrun.
    destruct (id obj) as [p|] eqn:Hid;
      [|inversion Hrun; subst w'; exact Hsame].
    destruct (db_nodes w !! p) as [row|] eqn:Hr;
      [|inversion Hrun; subst w'; exact Hsame].
    rewrite bind_run in Hrun. cbn in Hrun. inversion Hrun as [[Hr' Hw']].
    clear Hrun.
    rewrite (objects_to_hash_stored env n obj p
               (row_with_attributes
                  (<[K := deref (after_clean v w).2 (after_clean v w).1]>
                     (db_attributes row)) row));
      [| cbn; rewrite after_clean_heap; exact Hh | exact Hu | exact Hid
       | cbn; apply lookup_insert_eq].
    rewrite (objects_to_hash_stored env n obj p row w Hh Hu Hid Hr).
    cbn [db_attributes db_folder db_computer row_with_attributes].
    rewrite hashed_insert_excluded by exact Hex. reflexivity.
Qed.

Lemma del_attr_keeps_hash_input (env : Env) (w w' : World) (n : oid)
    (obj : NodeObj) (K : string) (stored_check : bool) (r : Res unit) :
  heap w !! n = Some obj ->
  hash_excluded (klass obj) K ->
  _del_attr n K stored_check w = (r, w') ->
  _get_objects_to_hash env n w' = _get_objects_to_hash env n w.
Proof.
  intros Hh Hex Hrun.
  unfold _del_attr in Hrun.
  rewrite (bind_ok _ _ _ _ _ (get_obj_some _ _ _ Hh)) in Hrun.
  destruct (stored_check && is_stored obj);
    [inversion Hrun; reflexivity|].
  destruct (_to_be_stored obj) eqn:Hu.
  - destruct (_attrs_cache obj !! K); [|inversion Hrun; reflexivity].
    inversion Hrun as [[Hr' Hw']]. clear Hrun.
    rewrite (objects_to_hash_unstored env n
               (with_attrs (delete K (_attrs_cache obj)) obj));
      [| cbn; apply lookup_insert_eq | exact Hu].
    rewrite (objects_to_hash_unstored env n obj w Hh Hu).
    cbn [klass folder computer with_attrs _attrs_cache].
    rewrite fmap_delete, hashed_delete_excluded by exact Hex.
    reflexivity.
  - unfold _del_db_attr, reading in Hrun. rewrite bind_run in Hrun.
    unfold read_row in Hrun. rewrite (read_obj_some n obj w Hh) in Hrun.
    destruct (id obj) as [p|] eqn:Hid; [|inversion Hrun; reflexivity].
    destruct (db_nodes w !! p) as [row|] eqn:Hr;
      [|inversion Hrun; reflexivity].
    cbn [fst snd] in Hrun.
    destruct (db_attributes row !! K); [|inversion Hrun; reflexivity].
    inversion Hrun as [[Hr' Hw']]. clear Hrun.
    rewrite (objects_to_hash_stored env n obj p
               (row_with_attributes (delete K (db_attributes row)) row));
      [| exact Hh | exact Hu | exact Hid | cbn; apply lookup_insert_eq].
    rewrite (objects_to_hash_stored env n obj p row w Hh Hu Hid Hr).
    cbn [db_attributes db_folder db_computer row_with_attributes].
    rewrite hashed_delete_excluded by exact Hex. reflexivity.
Qed.

Lemma objects_to_hash_attributes (env : Env) (n : oid) (obj : NodeObj)
    (w : World) (objs : HashObjects) :
  heap w !! n = Some obj ->
  _get_objects_to_hash env n w = Ok objs ->
  ∃ attrs, h_attributes objs = hashed_attributes (klass obj) attrs.
Proof.
  intros Hh. unfold _get_objects_to_hash.
  rewrite (read_obj_some _ _ _ Hh).
  destruct (get_computer n w), (get_attrs n w) as [attrs|], (get_folder n w);
    intros Heq; inversion Heq.
  exists attrs. reflexivity.
Qed.

(** ** Appending to an attribute *)

Lemma get_attr_cached (n : oid) (obj : NodeObj) (key : string) (v : Value)
    (d : option Value) (w : World) :
  heap w !! n = Some obj -> _to_be_stored obj = true ->
  _attrs_cache obj !! key = Some v ->
  get_attr n key d w = (Ok v, w).
Proof.
  intros Hh Hu Hk. unfold get_attr, try_except.
  rewrite (bind_ok _ _ _ _ _ (get_obj_some _ _ _ Hh)), Hu, Hk. reflexivity.
Qed.

Lemma get_attr_missing (n : oid) (obj : NodeObj) (key : string) (w : World) :
  heap w !! n = Some obj -> _to_be_stored obj = true ->
  _attrs_cache obj !! key = None ->
  get_attr n key None w = (Raise AttributeError, w).
Proof.
  intros Hh Hu Hk. unfold get_attr, try_except.
  rewrite (bind_ok _ _ _ _ _ (get_obj_some _ _ _ Hh)), Hu, Hk. reflexivity.
Qed.

Lemma set_attr_raw_unstored (env : Env) (n : oid) (obj : NodeObj)
    (key : string) (v : Value) (w : World) :
  heap w !! n = Some obj -> _to_be_stored obj = true ->
  contains_char (AIIDA_ATTRIBUTE_SEP env) key = false ->
  _set_attr env n key v false true w
  = (Ok tt, set_heap (<[n := with_attrs (<[key := v]> (_attrs_cache obj)) obj]>
                        (heap w)) w).
Proof.
  intros Hh Hu Hkey. unfold _set_attr.
  rewrite (bind_ok _ _ _ _ _ (get_obj_some _ _ _ Hh)).
  unfold is_stored. rewrite Hu. cbn [negb andb].
  rewrite (bind_ok _ _ _ _ _ (validate_key_ok _ _ _ Hkey)).
  reflexivity.
Qed.

Lemma set_attr_clean_unstored (env : Env) (n : oid) (obj : NodeObj)
    (key : string) (v : Value) (w : World) :
  heap w !! n = Some obj -> _to_be_stored obj = true ->
  contains_char (AIIDA_ATTRIBUTE_SEP env) key = false ->
  _set_attr env n key v true true w
  = (Ok tt,
     set_heap (<[n := with_attrs (<[key := (after_clean v w).1]>
                                    (_attrs_cache obj)) obj]>
                 (heap (after_clean v w).2)) (after_clean v w).2).
Proof.
  intros Hh Hu Hkey. unfold _set_attr.
  rewrite (bind_ok _ _ _ _ _ (get_obj_some _ _ _ Hh)).
  unfold is_stored. rewrite Hu. cbn [negb andb].
  rewrite (bind_ok _ _ _ _ _ (validate_key_ok _ _ _ Hkey)).
  rewrite (bind_ok _ _ _ _ _ (clean_value_run v w)).
  reflexivity.
Qed.

(** The part of [_append_to_attr] that follows the lookup of [values]. *)
Lemma append_tail (env : Env) (n : oid) (obj : NodeObj) (key : string)
    (l : loc) (v : Value) (clean : bool) (w : World) :
  heap w !! n = Some obj -> _to_be_stored obj = true ->
  contains_char (AIIDA_ATTRIBUTE_SEP env) key = false ->
  (v' ← (if clean then clean_value v else mret v);
   x ← gets (fun w => deref w v');
   list_append l x;;
   _set_attr env n key (ListRef l) false true) w
  = (Ok tt, after_append n obj key l v clean w).
Proof.
  intros Hh Hu Hkey. unfold after_append. destruct clean.
  - rewrite (bind_ok _ _ _ _ _ (clean_value_run v w)).
    rewrite bind_run. cbn [gets]. rewrite bind_run. unfold list_append at 1.
    cbn [modify].
    rewrite (set_attr_raw_unstored env n obj)
      by (try assumption; cbn; rewrite after_clean_heap; exact Hh).
    reflexivity.
  - rewrite bind_run. cbn [mret M_ret ret]. rewrite bind_run. cbn [gets].
    rewrite bind_run. unfold list_append at 1. cbn [modify].
    rewrite (set_attr_raw_unstored env n obj) by assumption.
    reflexivity.
Qed.

Lemma append_present (env : Env) (n : oid) (obj : NodeObj) (key : string)
    (l : loc) (v : Value) (clean : bool) (w : World) :
  heap w !! n = Some obj -> _to_be_stored obj = true ->
  contains_char (AIIDA_ATTRIBUTE_SEP env) key = false ->
  _attrs_cache obj !! key = Some (ListRef l) ->
  _append_to_attr env n key v clean w
  = (Ok tt, after_append n obj key l v clean w).
Proof.
  intros Hh Hu Hkey Hk. unfold _append_to_attr.
  rewrite (bind_ok _ _ _ _ _ (validate_key_ok _ _ _ Hkey)).
  rewrite bind_run. unfold try_except at 1.
  rewrite (get_attr_cached _ _ _ _ _ _ Hh Hu Hk).
  exact (append_tail env n obj key l v clean w Hh Hu Hkey).
Qed.

Lemma append_not_a_list (env : Env) (n : oid) (obj : NodeObj) (key : string)
    (j : json) (v : Value) (clean : bool) (w : World) :
  heap w !! n = Some obj -> _to_be_stored obj = true ->
  contains_char (AIIDA_ATTRIBUTE_SEP env) key = false ->
  _attrs_cache obj !! key = Some (Plain j) ->
  _append_to_attr env n key v clean w = (Raise AttributeError, w).
Proof.
  intros Hh Hu Hkey Hk. unfold _append_to_attr.
  rewrite (bind_ok _ _ _ _ _ (validate_key_ok _ _ _ Hkey)).
  rewrite bind_run. unfold try_except at 1.
  rewrite (get_attr_cached _ _ _ _ _ _ Hh Hu Hk).
  reflexivity.
Qed.

Lemma append_absent (env : Env) (n : oid) (obj : NodeObj) (key : string)
    (v : Value) (clean : bool) (w : World) :
  heap w !! n = Some obj -> _to_be_stored obj = true ->
  contains_char (AIIDA_ATTRIBUTE_SEP env) key = false ->
  _attrs_cache obj !! key = None ->
  let l := fresh (dom (lists w)) in
  _append_to_attr env n key v clean w
  = (Ok tt, after_append n obj key l v clean
              (set_lists (<[l := []]> (lists w)) w)).
Proof.
  intros Hh Hu Hkey Hk l. unfold _append_to_attr.
  rewrite (bind_ok _ _ _ _ _ (validate_key_ok _ _ _ Hkey)).
  rewrite bind_run. unfold try_except at 1.
  rewrite (get_attr_missing _ _ _ _ Hh Hu Hk).
  cbn [decide]. destruct (decide (AttributeError = AttributeError));
    [|congruence].
  rewrite bind_run. unfold new_list at 1. cbn [mret M_ret ret].
  exact (append_tail env n obj key l v clean
           (set_lists (<[l := []]> (lists w)) w) Hh Hu Hkey).
Qed.

Lemma read_list_unallocated (l : loc) (w : World) :
  l ∉ dom (lists w) -> read_list l w = [].
Proof.
  intros Hl. unfold read_list. rewrite (not_elem_of_dom_1 _ _ Hl). reflexivity.
Qed.

Lemma read_list_alloc_empty (l0 : loc) (w : World) :
  read_list l0 (set_lists (<[fresh (dom (lists w)) := []]> (lists w)) w)
  = read_list l0 w.
Proof.
  destruct (decide (fresh (dom (lists w)) = l0)) as [<-|Hne].
  - rewrite read_list_insert_eq, read_list_unallocated by apply is_fresh.
    reflexivity.
  - apply read_list_insert_ne, Hne.
Qed.

Lemma appended_alloc_empty (clean : bool) (v : Value) (w : World) :
  appended clean (set_lists (<[fresh (dom (lists w)) := []]> (lists w)) w) v
  = appended clean w v.
Proof.
  destruct clean, v as [[]|l0]; cbn; try reflexivity;
    rewrite read_list_alloc_empty; reflexivity.
Qed.

Lemma after_append_list (n : oid) (obj : NodeObj) (key : string) (l : loc)
    (v : Value) (clean : bool) (w : World) :
  l ∈ dom (lists w) ->
  read_list l (after_append n obj key l v clean w)
  = read_list l w ++ [appended clean w v].
Proof.
  intros Hl. unfold after_append, appended. destruct clean.
  - change (read_list l (set_lists (<[l := read_list l (after_clean v w).2
               ++ [deref (after_clean v w).2 (after_clean v w).1]]>
               (lists (after_clean v w).2)) (after_clean v w).2)
            = read_list l w ++ [cleaned w v]).
    rewrite read_list_insert_eq, deref_after_clean,
      read_list_after_clean by exact Hl.
    reflexivity.
  - change (read_list l (set_lists (<[l := read_list l w ++ [deref w v]]>
               (lists w)) w) = read_list l w ++ [deref w v]).
    apply read_list_insert_eq.
Qed.

Lemma after_append_other (n : oid) (obj : NodeObj) (key : string) (l l' : loc)
    (v : Value) (clean : bool) (w : World) :
  l' ∈ dom (lists w) -> l ≠ l' ->
  read_list l' (after_append n obj key l v clean w) = read_list l' w.
Proof.
  intros Hl Hne. unfold after_append. destruct clean.
  - change (read_list l' (set_lists (<[l := read_list l (after_clean v w).2
               ++ [deref (after_clean v w).2 (after_clean v w).1]]>
               (lists (after_clean v w).2)) (after_clean v w).2)
            = read_list l' w).
    rewrite read_list_insert_ne by exact Hne.
    apply read_list_after_clean, Hl.
  - change (read_list l' (set_lists (<[l := read_list l w ++ [deref w v]]>
               (lists w)) w) = read_list l' w).
    apply read_list_insert_ne, Hne.
Qed.

Lemma after_clean_dom (v : Value) (l : loc) (w : World) :
  l ∈ dom (lists w) -> l ∈ dom (lists (after_clean v w).2).
Proof.
  intros Hl. destruct v as [[]|]; cbn; try exact Hl;
    rewrite dom_insert_L; set_solver.
Qed.

Lemma after_append_dom (n : oid) (obj : NodeObj) (key : string) (l l' : loc)
    (v : Value) (clean : bool) (w : World) :
  l' ∈ dom (lists w) -> l' ∈ dom (lists (after_append n obj key l v clean w)).
Proof.
  intros Hl. unfold after_append. destruct clean; cbn;
    rewrite dom_insert_L; [pose proof (after_clean_dom v l' w Hl)|];
    set_solver.
Qed.

Lemma after_append_heap (n : oid) (obj : NodeObj) (key : string) (l : loc)
    (v : Value) (clean : bool) (w : World) :
  heap (after_append n obj key l v clean w) !! n
  = Some (with_attrs (<[key := ListRef l]> (_attrs_cache obj)) obj).
Proof. unfold after_append. cbn. apply lookup_insert_eq. Qed.

Lemma after_clean_not_external (v : Value) (ext : loc) (w : World) :
  ext ∈ dom (lists w) -> (after_clean v w).1 ≠ ListRef ext.
Proof.
  intros Hext. destruct v as [[]|]; cbn; try discriminate;
    intros [= Heq]; exact (fresh_loc_not_allocated ext w Hext Heq).
Qed.

(** As long as the node does not hold the caller's list object itself under
    [key], no sequence of sets and appends on that key changes it. *)
Lemma run_ops_keep_external (env : Env) (n : oid) (key : string) (ext : loc)
    (ops : list AttrOp) :
  contains_char (AIIDA_ATTRIBUTE_SEP env) key = false ->
  ∀ (w w' : World) (obj : NodeObj) (r : Res unit),
    heap w !! n = Some obj -> _to_be_stored obj = true ->
    _attrs_cache obj !! key ≠ Some (ListRef ext) ->
    ext ∈ dom (lists w) ->
    run_ops env n key ops w = (r, w') ->
    read_list ext w' = read_list ext w.
Proof.
  intros Hkey. induction ops as [|op ops IH];
    intros w w' obj r Hh Hu Hk Hext Hrun.
  - inversion Hrun. reflexivity.
  - unfold run_ops in Hrun. cbn [for_each] in Hrun.
    destruct op as [v|v clean]; cbn [run_op] in Hrun.
    + rewrite (bind_ok _ _ _ _ _
                 (set_attr_clean_unstored env n obj key v w Hh Hu Hkey))
        in Hrun.
      match type of Hrun with _ ?w1 = _ => set (wn := w1) in * end.
      set (obj1 := with_attrs (<[key := (after_clean v w).1]>
                                 (_attrs_cache obj)) obj) in *.
      assert (H1 : heap wn !! n = Some obj1) by apply lookup_insert_eq.
      assert (H3 : _attrs_cache obj1 !! key ≠ Some (ListRef ext)).
      { cbn. rewrite lookup_insert_eq. intros [= Heq].
        exact (after_clean_not_external v ext w Hext Heq). }
      assert (H4 : ext ∈ dom (lists wn)) by (cbn; apply after_clean_dom, Hext).
      rewrite (IH wn w' obj1 r H1 Hu H3 H4 Hrun).
      apply (read_list_after_clean v ext w Hext).
    + destruct (_attrs_cache obj !! key) as [[j|l]|] eqn:Hc.
      * rewrite (bind_raise _ _ _ _ _
                   (append_not_a_list env n obj key j v clean w Hh Hu Hkey Hc))
          in Hrun.
        inversion Hrun. reflexivity.
      * assert (Hne : l ≠ ext) by congruence.
        rewrite (bind_ok _ _ _ _ _
                   (append_present env n obj key l v clean w Hh Hu Hkey Hc))
          in Hrun.
        assert (H3 : _attrs_cache (with_attrs (<[key := ListRef l]>
                        (_attrs_cache obj)) obj) !! key ≠ Some (ListRef ext))
          by (cbn; rewrite lookup_insert_eq; congruence).
        rewrite (IH _ _ _ _ (after_append_heap n obj key l v clean w) Hu
                   H3 (after_append_dom n obj key l ext v clean w Hext) Hrun).
        apply after_append_other; assumption.
      * pose proof (append_absent env n obj key v clean w Hh Hu Hkey Hc)
          as Habs. cbn zeta in Habs.
        rewrite (bind_ok _ _ _ _ _ Habs) in Hrun.
        set (l := fresh (dom (lists w))) in *.
        set (wa := set_lists (<[l := []]> (lists w)) w) in *.
        assert (Hne : l ≠ ext) by (apply fresh_loc_not_allocated, Hext).
        assert (Hexta : ext ∈ dom (lists wa))
          by (unfold wa; cbn; rewrite dom_insert_L; set_solver).
        assert (H3 : _attrs_cache (with_attrs (<[key := ListRef l]>
                        (_attrs_cache obj)) obj) !! key ≠ Some (ListRef ext))
          by (cbn; rewrite lookup_insert_eq; congruence).
        rewrite (IH _ _ _ _ (after_append_heap n obj key l v clean wa) Hu
                   H3 (after_append_dom n obj key l ext v clean wa Hexta) Hrun).
        rewrite after_append_other by assumption.
        apply read_list_insert_ne, Hne.
Qed.

(** C9: on an unstored node and a valid key, an append to an absent key
    leaves a list with just the appended value; an append to a value that
    is not a list raises AttributeError and changes nothing; and no
    sequence of sets (with the default [clean=True]) and appends on the key
    changes a list object of the caller, unless the node holds that very
    object under the key. *)
Theorem append_to_attr_unstored (env : Env) (w : World) (n : oid)
    (obj : NodeObj) (key : string) :
  heap w !! n = Some obj ->
  _to_be_stored obj = true ->
  contains_char (AIIDA_ATTRIBUTE_SEP env) key = false ->
  (∀ v clean, _attrs_cache obj !! key = None ->
     ∃ l w', _append_to_attr env n key v clean w = (Ok tt, w')
             ∧ get_attr n key None w' = (Ok (ListRef l), w')
             ∧ read_list l w' = [appended clean w v])
  ∧ (∀ v clean j, _attrs_cache obj !! key = Some (Plain j) ->
       _append_to_attr env n key v clean w = (Raise AttributeError, w))
  ∧ (∀ ext ops r w',
       ext ∈ dom (lists w) ->
       _attrs_cache obj !! key ≠ Some (ListRef ext) ->
       run_ops env n key ops w = (r, w') ->
       read_list ext w' = read_list ext w).
Proof.
  intros Hh Hu Hkey. split; [|split].
  - intros v clean Hc.
    pose proof (append_absent env n obj key v clean w Hh Hu Hkey Hc) as Habs.
    cbn zeta in Habs.
    set (l := fresh (dom (lists w))) in *.
    set (wa := set_lists (<[l := []]> (lists w)) w) in *.
    exists l, (after_append n obj key l v clean wa).
    split; [exact Habs|]. split.
    + apply (get_attr_cached n _ key (ListRef l) None _
               (after_append_heap n obj key l v clean wa) Hu).
      cbn. apply lookup_insert_eq.
    + rewrite after_append_list
        by (unfold wa; cbn; rewrite dom_insert_L; set_solver).
      unfold wa, l. rewrite read_list_insert_eq, appended_alloc_empty.
      reflexivity.
  - intros v clean j Hc. exact (append_not_a_list env n obj key j v clean w Hh Hu Hkey Hc).
  - intros ext ops r w' Hext Hc Hrun.
    exact (run_ops_keep_external env n key ext ops Hkey w w' obj r Hh Hu Hc
             Hext Hrun).
Qed.

Lemma append_to_attr_unstored_witness :
  let env := test_env false in
  let ops := [SetOp (ListRef 0); AppendOp (Plain (JInt 4)) true] in
  let w' := run (run_ops env 0 "list" ops) mylist_world in
  read_list 0 w' = [JInt 1; JInt 2; JInt 3]
  ∧ get_attrs 0 w' = Ok {[ "list" := JList [JInt 1; JInt 2; JInt 3; JInt 4] ]}
  ∧ _append_to_attr env 0 "list" (Plain (JInt 4)) true
      (run (_set_attr env 0 "list" (Plain (JInt 7)) true true) mylist_world)
    = (Raise AttributeError,
       run (_set_attr env 0 "list" (Plain (JInt 7)) true true) mylist_world).
Proof.
  intros env ops w'.
  destruct (append_to_attr_unstored env mylist_world 0 unstored_obj "list")
    as (_ & _ & H3); [reflexivity | reflexivity | reflexivity |].
  split.
  - rewrite (H3 0 ops (Ok tt) w'); [reflexivity | | |].
    + vm_compute. reflexivity.
    + cbn. discriminate.
    + vm_compute. reflexivity.
  - split; vm_compute; reflexivity.
Defined.

(** With [clean=False] the node holds the caller's list object itself, and
    the append mutates it. *)
Lemma append_to_attr_mutates_raw_base :
  let env := test_env false in
  let m := _set_attr env 0 "list" (ListRef 0) false true;;
           _append_to_attr env 0 "list" (Plain (JInt 4)) true in
  outcome m mylist_world = Ok tt
  ∧ read_list 0 mylist_world = [JInt 1; JInt 2; JInt 3]
  ∧ read_list 0 (run m mylist_world) = [JInt 1; JInt 2; JInt 3; JInt 4]
  ∧ read_list 0 (run m mylist_world) ≠ read_list 0 mylist_world.
Proof.
  intros env m. repeat split; try (vm_compute; reflexivity).
  vm_compute. discriminate.
Qed.

(** ** Updatable attributes and the hash *)

Lemma hashed_attributes_ext (c : NodeClass) (m m' : gmap string json) :
  (∀ k, ¬ hash_excluded c k -> m' !! k = m !! k) ->
  hashed_attributes c m' = hashed_attributes c m.
Proof.
  intros Hsame. unfold hashed_attributes. apply map_eq. intros k.
  apply option_eq. intros x. rewrite !map_lookup_filter_Some. cbn.
  assert (Hk : (k ∉ _hash_ignored_attributes c)
               ∧ (k ∉ _updatable_attributes c) -> m' !! k = m !! k).
  { intros [Hi Hu]. apply Hsame. intros [H|H]; contradiction. }
  split; intros [Hx HP]; (split; [|exact HP]).
  - rewrite <- (Hk HP). exact Hx.
  - rewrite (Hk HP). exact Hx.
Qed.

(** What [_append_to_attr] does to a stored node: it appends to a list
    object of its own, and the final [_set_attr] is refused. *)
Lemma append_to_attr_stored_frame (env : Env) (n : oid) (obj : NodeObj)
    (K : string) (v : Value) (clean : bool) (w w' : World) (r : Res unit) :
  heap w !! n = Some obj -> _to_be_stored obj = false ->
  _append_to_attr env n K v clean w = (r, w') ->
  heap w' = heap w ∧ db_nodes w' = db_nodes w
  ∧ ∀ l0, l0 ∈ dom (lists w) -> read_list l0 w' = read_list l0 w.
Proof.
  intros Hh Hs Hrun. unfold _append_to_attr, validate_attribute_key in Hrun.
  destruct (contains_char _ K); [inversion Hrun; subst; auto|].
  rewrite bind_run in Hrun. cbn [mret M_ret ret] in Hrun.
  set (l := fresh (dom (lists w))).
  set (values := try_except (get_attr n K None) AttributeError
                   (l ← new_list []; mret (ListRef l))) in Hrun.
  assert (Hcases : (∃ e, values w = (Raise e, w))
                   ∨ (∃ j, values w = (Ok (Plain j), w))
                   ∨ ∃ xs, values w
                           = (Ok (ListRef l),
                              set_lists (<[l := xs]> (lists w)) w)).
  { unfold values, get_attr, try_except.
    rewrite (bind_ok _ _ _ _ _ (get_obj_some _ _ _ Hh)), Hs.
    unfold _get_db_attr, reading. rewrite bind_run.
    destruct (read_row n w) as [[p row]|e].
    - cbn [snd]. destruct (db_attributes row !! K) as [j|].
      + destruct j; try (right; left; eexists; reflexivity).
        right. right. eexists. reflexivity.
      + right. right. exists []. reflexivity.
    - destruct (decide (e = AttributeError)) as [->|Hne].
      + right. right. exists []. reflexivity.
      + left. exists e. unfold raise.
        rewrite !decide_False by exact Hne. reflexivity. }
  destruct Hcases as [[e He]|[[j Hj]|[xs Hxs]]].
  - rewrite bind_run, He in Hrun. inversion Hrun; subst; auto.
  - rewrite (bind_ok _ _ _ _ _ Hj) in Hrun. inversion Hrun; subst; auto.
  - rewrite (bind_ok _ _ _ _ _ Hxs) in Hrun. clear Hxs values.
    set (w1 := set_lists (<[l := xs]> (lists w)) w) in *.
    assert (Hfresh : ∀ l0, l0 ∈ dom (lists w) -> l ≠ l0)
      by (intros l0 Hl0; apply fresh_loc_not_allocated, Hl0).
    assert (H1 : ∀ l0, l0 ∈ dom (lists w) ->
              l0 ∈ dom (lists w1) ∧ read_list l0 w1 = read_list l0 w).
    { intros l0 Hl0. split.
      - unfold w1. cbn [lists set_lists]. rewrite dom_insert.
        apply elem_of_union_r, Hl0.
      - unfold w1, read_list. cbn [lists set_lists].
        rewrite lookup_insert_ne by exact (Hfresh l0 Hl0). reflexivity. }
    assert (Htail : ∀ (v' : Value) (wc : World),
              heap wc = heap w -> db_nodes wc = db_nodes w ->
              (∀ l0, l0 ∈ dom (lists w) -> read_list l0 wc = read_list l0 w) ->
              (x ← gets (fun w => deref w v');
               list_append l x;;
               _set_attr env n K (ListRef l) false true) wc = (r, w') ->
              heap w' = heap w ∧ db_nodes w' = db_nodes w
              ∧ ∀ l0, l0 ∈ dom (lists w) -> read_list l0 w' = read_list l0 w).
    { intros v' wc Hheap Hdb Hlists Htl.
      rewrite bind_run in Htl. cbn [gets] in Htl.
      rewrite bind_run in Htl. unfold list_append, modify in Htl.
      unfold _set_attr in Htl.
      assert (Hh3 : ∀ ls, heap (set_lists ls wc) !! n = Some obj)
        by (intros ls; cbn [heap set_lists]; rewrite Hheap; exact Hh).
      rewrite (bind_ok _ _ _ _ _ (get_obj_some n obj _ (Hh3 _))) in Htl.
      unfold is_stored in Htl. rewrite Hs in Htl. cbn [negb andb] in Htl.
      inversion Htl; subst. cbn [heap db_nodes set_lists].
      split; [exact Hheap|]. split; [exact Hdb|].
      intros l0 Hl0. unfold read_list at 1. cbn [lists set_lists].
      rewrite lookup_insert_ne by exact (Hfresh l0 Hl0).
      exact (Hlists l0 Hl0). }
    destruct clean.
    + rewrite (bind_ok _ _ _ _ _ (clean_value_run v w1)) in Hrun.
      apply (Htail _ _) in Hrun; [exact Hrun | | |].
      * rewrite after_clean_heap. reflexivity.
      * rewrite after_clean_db_nodes. reflexivity.
      * intros l0 Hl0. destruct (H1 l0 Hl0) as [Hd Hr].
        rewrite (read_list_after_clean v l0 w1 Hd). exact Hr.
    + rewrite bind_run in Hrun. cbn [mret M_ret ret] in Hrun.
      apply (Htail _ _) in Hrun; [exact Hrun | reflexivity | reflexivity|].
      intros l0 Hl0. exact (proj2 (H1 l0 Hl0)).
Qed.

(** An append under an excluded key leaves the hash input as it was, when
    the list object appended to is held under excluded keys only. *)
Lemma append_to_attr_keeps_hash_input (env : Env) (w w' : World) (n : oid)
    (obj : NodeObj) (K : string) (v : Value) (clean : bool) (r : Res unit) :
  heap w !! n = Some obj ->
  refs_allocated w obj ->
  hash_excluded (klass obj) K ->
  (∀ l K', _attrs_cache obj !! K = Some (ListRef l) ->
           _attrs_cache obj !! K' = Some (ListRef l) ->
           hash_excluded (klass obj) K') ->
  _append_to_attr env n K v clean w = (r, w') ->
  _get_objects_to_hash env n w' = _get_objects_to_hash env n w.
Proof.
  intros Hh Hrefs Hex Hshare Hrun.
  destruct (_to_be_stored obj) eqn:Hu.
  2:{ destruct (append_to_attr_stored_frame env n obj K v clean w w' r
                  Hh Hu Hrun) as (Hheap & Hdb & Hlists).
      exact (objects_to_hash_same_lists env n obj w w' Hh Hrefs Hheap Hdb
               Hlists). }
  destruct (contains_char (AIIDA_ATTRIBUTE_SEP env) K) eqn:Hk.
  { unfold _append_to_attr, validate_attribute_key in Hrun.
    rewrite Hk in Hrun. inversion Hrun; reflexivity. }
  destruct (_attrs_cache obj !! K) as [[j|l]|] eqn:HK.
  - rewrite (append_not_a_list env n obj K j v clean w Hh Hu Hk HK) in Hrun.
    inversion Hrun; reflexivity.
  - rewrite (append_present env n obj K l v clean w Hh Hu Hk HK) in Hrun.
    inversion Hrun as [[Hr Hw']]. clear Hrun.
    rewrite (objects_to_hash_unstored env n _ _
               (after_append_heap n obj K l v clean w) Hu).
    rewrite (objects_to_hash_unstored env n obj w Hh Hu).
    cbn [klass folder computer with_attrs _attrs_cache].
    rewrite fmap_insert, hashed_insert_excluded by exact Hex.
    rewrite (hashed_attributes_ext (klass obj) (deref w <$> _attrs_cache obj)
               (deref (after_append n obj K l v clean w)
                  <$> _attrs_cache obj)); [reflexivity|].
    intros k Hnot. rewrite !lookup_fmap.
    destruct (_attrs_cache obj !! k) as [[j0|l0]|] eqn:Hk0;
      cbn; try reflexivity.
    do 2 f_equal. apply after_append_other.
    + exact (Hrefs k (ListRef l0) Hk0).
    + intros ->. exact (Hnot (Hshare l0 k eq_refl Hk0)).
  - pose proof (append_absent env n obj K v clean w Hh Hu Hk HK) as Habs.
    cbn zeta in Habs. rewrite Habs in Hrun.
    inversion Hrun as [[Hr Hw']]. clear Hrun Habs.
    set (l := fresh (dom (lists w))).
    set (wa := set_lists (<[l := []]> (lists w)) w).
    rewrite (objects_to_hash_unstored env n _ _
               (after_append_heap n obj K l v clean wa) Hu).
    rewrite (objects_to_hash_unstored env n obj w Hh Hu).
    cbn [klass folder computer with_attrs _attrs_cache].
    rewrite fmap_insert, hashed_insert_excluded by exact Hex.
    do 3 f_equal. apply deref_cache_ext. intros k l0 Hk0.
    pose proof (Hrefs k (ListRef l0) Hk0) as Hl0. cbn in Hl0.
    rewrite after_append_other.
    + apply read_list_alloc_empty.
    + unfold wa. cbn [lists set_lists]. rewrite dom_insert.
      apply elem_of_union_r, Hl0.
    + apply fresh_loc_not_allocated, Hl0.
Qed.

(** C8: setting or deleting an attribute whose key is updatable or
    hash-ignored leaves the hash input, and so [get_hash], as it was, and so
    does appending to it when the list object appended to is held under
    updatable or hash-ignored keys only; that key is not part of the hash
    input. *)
Theorem updatable_attributes_not_hashed (env : Env) (w w' : World) (n : oid)
    (obj : NodeObj) (K : string) (v : Value) (clean stored_check ie : bool)
    (r : Res unit) :
  heap w !! n = Some obj ->
  refs_allocated w obj ->
  K ∈ _updatable_attributes (klass obj)
  ∨ K ∈ _hash_ignored_attributes (klass obj) ->
  _set_attr env n K v clean stored_check w = (r, w')
  ∨ _del_attr n K stored_check w = (r, w')
  ∨ (_append_to_attr env n K v clean w = (r, w')
     ∧ ∀ l K', _attrs_cache obj !! K = Some (ListRef l) ->
               _attrs_cache obj !! K' = Some (ListRef l) ->
               hash_excluded (klass obj) K') ->
  (∀ objs, _get_objects_to_hash env n w = Ok objs ->
           h_attributes objs !! K = None)
  ∧ _get_objects_to_hash env n w' = _get_objects_to_hash env n w
  ∧ get_hash env n ie w' = get_hash env n ie w.
Proof.
  intros Hh Hrefs Hex Hrun.
  assert (Hsame : _get_objects_to_hash env n w'
                  = _get_objects_to_hash env n w).
  { destruct Hrun as [Hrun|[Hrun|[Hrun Hshare]]].
    - exact (set_attr_keeps_hash_input env w w' n obj K v clean stored_check
               r Hh Hrefs Hex Hrun).
    - exact (del_attr_keeps_hash_input env w w' n obj K stored_check r
               Hh Hex Hrun).
    - exact (append_to_attr_keeps_hash_input env w w' n obj K v clean r
               Hh Hrefs Hex Hshare Hrun). }
  split; [|split; [exact Hsame | apply get_hash_ext, Hsame]].
  intros objs Hobjs.
  destruct (objects_to_hash_attributes env n obj w objs Hh Hobjs)
    as [attrs ->].
  unfold hashed_attributes. apply map_lookup_filter_None. right.
  intros x _. cbn. destruct Hex; tauto.
Qed.

Lemma updatable_attributes_not_hashed_witness :
  let env := test_env false in
  let w' := run (_set_attr env 0 "process_state" (Plain (JStr "finished"))
                           true true) calculation_world in
  get_attrs 0 w' = Ok {[ "process_state" := JStr "finished" ]}
  ∧ get_hash env 0 true calculation_world = Ok (Some "h")
  ∧ get_hash env 0 true w' = get_hash env 0 true calculation_world.
Proof.
  intros env w'.
  destruct (updatable_attributes_not_hashed env calculation_world w' 0
              calculation_obj "process_state" (Plain (JStr "finished"))
              true true true (Ok tt))
    as (_ & _ & H3).
  - reflexivity.
  - apply map_Forall_empty.
  - left. cbn. apply list_elem_of_here.
  - left. vm_compute. reflexivity.
  - split; [vm_compute; reflexivity|]. split; [vm_compute; reflexivity|].
    exact H3.
Defined.

Lemma shared_list_world_built :
  shared_list_program sized_env
    (mkWorld {[ 0 := calculation_obj ]} {[ 0 := [JInt 1] ]} ∅ [] 1 2 ∅ None)
  = (Ok tt, shared_list_world).
Proof. vm_compute. reflexivity. Qed.

(** [_append_to_attr] appends in place: when the list object under the
    updatable key is also held under a hashed key, the append changes the
    hash input and the hash. *)
Lemma append_to_shared_list_changes_hash :
  let env := sized_env in
  let m := _append_to_attr env 0 "process_state" (Plain (JInt 2)) true in
  _updatable_attributes CalculationClass = ["process_state"; "sealed"]
  ∧ outcome m shared_list_world = Ok tt
  ∧ _get_objects_to_hash env 0 shared_list_world
    = Ok (mkHashObjects "1.0.0a4" {[ "other" := JList [JInt 1] ]} [] None)
  ∧ _get_objects_to_hash env 0 (run m shared_list_world)
    = Ok (mkHashObjects "1.0.0a4" {[ "other" := JList [JInt 1; JInt 2] ]}
            [] None)
  ∧ get_hash env 0 true shared_list_world = Ok (Some "x")
  ∧ get_hash env 0 true (run m shared_list_world) = Ok (Some "xx").
Proof. intros env m. repeat split; vm_compute; reflexivity. Qed.

(** ** Objects stay, stored nodes stay stored *)

Lemma obj_stays_refl (obj : NodeObj) : obj_stays obj obj.
Proof. split; [reflexivity | trivial]. Qed.

Lemma obj_stays_trans (a b c : NodeObj) :
  obj_stays a b -> obj_stays b c -> obj_stays a c.
Proof.
  intros (Hk1 & Hs1) (Hk2 & Hs2). split; [congruence|].
  intros Ha. apply Hs2, Hs1, Ha.
Qed.

Lemma stays_refl (w : World) : stays w w.
Proof. intros o obj Ho. exists obj. split; [exact Ho | apply obj_stays_refl]. Qed.

Lemma stays_trans (w1 w2 w3 : World) :
  stays w1 w2 -> stays w2 w3 -> stays w1 w3.
Proof.
  intros H12 H23 o obj Ho.
  destruct (H12 o obj Ho) as (obj2 & Ho2 & Hs2).
  destruct (H23 o obj2 Ho2) as (obj3 & Ho3 & Hs3).
  exists obj3. split; [exact Ho3 | exact (obj_stays_trans _ _ _ Hs2 Hs3)].
Qed.

Lemma stays_same_heap (w w' : World) : heap w' = heap w -> stays w w'.
Proof.
  intros Hh o obj Ho. exists obj. rewrite Hh.
  split; [exact Ho | apply obj_stays_refl].
Qed.

Lemma stays_update (w w' : World) (n : oid) (obj obj' : NodeObj) :
  heap w !! n = Some obj -> obj_stays obj obj' ->
  heap w' = <[n := obj']> (heap w) -> stays w w'.
Proof.
  intros Hn Hs Hh o x Ho. rewrite Hh.
  destruct (decide (n = o)) as [<-|Hne].
  - exists obj'. rewrite lookup_insert_eq. split; [reflexivity|].
    assert (x = obj) by congruence. subst x. exact Hs.
  - exists x. rewrite lookup_insert_ne by exact Hne.
    split; [exact Ho | apply obj_stays_refl].
Qed.

Lemma stays_alloc (w w' : World) (obj' : NodeObj) :
  heap w' = <[fresh (dom (heap w)) := obj']> (heap w) -> stays w w'.
Proof.
  intros Hh o x Ho. rewrite Hh. exists x.
  rewrite lookup_insert_ne.
  - split; [exact Ho | apply obj_stays_refl].
  - intros <-. apply (is_fresh (dom (heap w))). apply elem_of_dom. eauto.
Qed.

Lemma steady_ret {A} (a : A) : steady (mret a : M A).
Proof. intros w r w' [= _ <-]. apply stays_refl. Qed.

Lemma steady_raise {A} (e : Exn) : steady (raise e : M A).
Proof. intros w r w' [= _ <-]. apply stays_refl. Qed.

Lemma steady_gets {A} (f : World -> A) : steady (gets f).
Proof. intros w r w' [= _ <-]. apply stays_refl. Qed.

Lemma steady_reading {A} (f : R A) : steady (reading f).
Proof. intros w r w' [= _ <-]. apply stays_refl. Qed.

Lemma steady_get_obj (o : oid) : steady (get_obj o).
Proof.
  intros w r w'. unfold get_obj. destruct (heap w !! o);
    intros [= _ <-]; apply stays_refl.
Qed.

Lemma steady_modify (f : World -> World) :
  (∀ w, heap (f w) = heap w) -> steady (modify f).
Proof. intros Hf w r w' [= _ <-]. apply stays_same_heap, Hf. Qed.

Lemma steady_bind {A B} (m : M A) (k : A -> M B) :
  steady m -> (∀ a, steady (k a)) -> steady (m ≫= k).
Proof.
  intros Hm Hk w r w'. rewrite bind_run.
  destruct (m w) as [[a|e] w1] eqn:Hrun; intros Hr.
  - exact (stays_trans _ _ _ (Hm _ _ _ Hrun) (Hk a _ _ _ Hr)).
  - inversion Hr; subst. exact (Hm _ _ _ Hrun).
Qed.

Lemma steady_try_except {A} (m h : M A) (e : Exn) :
  steady m -> steady h -> steady (try_except m e h).
Proof.
  intros Hm Hh w r w'. unfold try_except.
  destruct (m w) as [[a|e'] w1] eqn:Hrun.
  - intros [= _ <-]. exact (Hm _ _ _ Hrun).
  - destruct (decide (e' = e)); intros Hr.
    + exact (stays_trans _ _ _ (Hm _ _ _ Hrun) (Hh _ _ _ Hr)).
    + inversion Hr; subst. exact (Hm _ _ _ Hrun).
Qed.

Lemma steady_atomically {A} (m : M A) : steady m -> steady (atomically m).
Proof.
  intros Hm w r w'. unfold atomically.
  destruct (m w) as [[a|e] w1] eqn:Hrun; intros [= _ <-].
  - exact (Hm _ _ _ Hrun).
  - apply stays_refl.
Qed.

Lemma steady_for_each {A} (xs : list A) (body : A -> M unit) :
  (∀ x, steady (body x)) -> steady (for_each xs body).
Proof.
  intros Hb. induction xs as [|x xs IH]; cbn [for_each].
  - apply steady_ret.
  - apply steady_bind; [apply Hb | intros _; exact IH].
Qed.

Lemma steady_if {A} (b : bool) (m1 m2 : M A) :
  steady m1 -> steady m2 -> steady (if b then m1 else m2).
Proof. destruct b; auto. Qed.

(** Updating an object in place after reading it. *)
Lemma steady_update (n : oid) (f : NodeObj -> NodeObj) :
  (∀ obj, obj_stays obj (f obj)) ->
  steady (obj ← get_obj n; put_obj n (f obj)).
Proof.
  intros Hf w r w'. rewrite bind_run. unfold get_obj.
  destruct (heap w !! n) as [obj|] eqn:Hn; intros [= _ <-].
  - apply (stays_update w _ n obj (f obj) Hn (Hf obj)). reflexivity.
  - apply stays_refl.
Qed.

Lemma steady_put_row (p : pk) (r : DbNode) : steady (put_row p r).
Proof. apply steady_modify. reflexivity. Qed.

Lemma steady_new_list (xs : list json) : steady (new_list xs).
Proof. intros w r w' [= _ <-]. apply stays_same_heap. reflexivity. Qed.

Lemma steady_list_append (l : loc) (x : json) : steady (list_append l x).
Proof. apply steady_modify. reflexivity. Qed.

Lemma steady_load_value (j : json) : steady (load_value j).
Proof.
  destruct j; try apply steady_ret.
  apply steady_bind; [apply steady_new_list | intros; apply steady_ret].
Qed.

Lemma steady_clean_value (v : Value) : steady (clean_value v).
Proof.
  intros w r w'. rewrite clean_value_run. intros [= _ <-].
  apply stays_same_heap, after_clean_heap.
Qed.

(** When the heap has not changed since [obj] was read at [n]. *)
Lemma stays_put (w w1 : World) (n : oid) (obj obj' : NodeObj) :
  heap w !! n = Some obj -> heap w1 = heap w -> obj_stays obj obj' ->
  stays w (set_heap (<[n := obj']> (heap w1)) w1).
Proof.
  intros Hn Hh Hs. apply (stays_update w _ n obj obj' Hn Hs).
  cbn. rewrite Hh. reflexivity.
Qed.

Lemma heap_fixed_steady {A} (m : M A) : heap_fixed m -> steady m.
Proof. intros Hm w r w' Hr. apply stays_same_heap, (Hm _ _ _ Hr). Qed.

Lemma steady_steady_at {A} (n : oid) (obj : NodeObj) (m : M A) :
  steady m -> steady_at n obj m.
Proof. intros Hm w r w' _ Hr. exact (Hm _ _ _ Hr). Qed.

Lemma steady_get_bind {A} (n : oid) (k : NodeObj -> M A) :
  (∀ obj, steady_at n obj (k obj)) -> steady (get_obj n ≫= k).
Proof.
  intros Hk w r w'. rewrite bind_run. unfold get_obj.
  destruct (heap w !! n) as [obj|] eqn:Hn.
  - apply (Hk obj), Hn.
  - intros [= _ <-]. apply stays_refl.
Qed.

Lemma steady_at_fixed_bind {A B} (n : oid) (obj : NodeObj) (m : M A)
    (k : A -> M B) :
  heap_fixed m -> (∀ a, steady_at n obj (k a)) -> steady_at n obj (m ≫= k).
Proof.
  intros Hm Hk w r w' Hn. rewrite bind_run.
  destruct (m w) as [[a|e] w1] eqn:Hrun; intros Hr.
  - pose proof (Hm _ _ _ Hrun) as Hh.
    apply (stays_trans _ w1); [apply stays_same_heap, Hh|].
    apply (Hk a w1 r w'); [rewrite Hh; exact Hn | exact Hr].
  - inversion Hr; subst. apply stays_same_heap, (Hm _ _ _ Hrun).
Qed.

Lemma steady_at_bind {A B} (n : oid) (obj : NodeObj) (m : M A)
    (k : A -> M B) :
  steady_at n obj m -> (∀ a, steady (k a)) -> steady_at n obj (m ≫= k).
Proof.
  intros Hm Hk w r w' Hn. rewrite bind_run.
  destruct (m w) as [[a|e] w1] eqn:Hrun; intros Hr.
  - exact (stays_trans _ _ _ (Hm _ _ _ Hn Hrun) (Hk a _ _ _ Hr)).
  - inversion Hr; subst. exact (Hm _ _ _ Hn Hrun).
Qed.

Lemma steady_at_put (n : oid) (obj obj' : NodeObj) :
  obj_stays obj obj' -> steady_at n obj (put_obj n obj').
Proof.
  intros Hs w r w' Hn [= _ <-].
  apply (stays_put w w n obj obj' Hn eq_refl Hs).
Qed.

Lemma heap_fixed_ret {A} (a : A) : heap_fixed (mret a : M A).
Proof. intros w r w' [= _ <-]. reflexivity. Qed.

Lemma heap_fixed_raise {A} (e : Exn) : heap_fixed (raise e : M A).
Proof. intros w r w' [= _ <-]. reflexivity. Qed.

Lemma heap_fixed_gets {A} (f : World -> A) : heap_fixed (gets f).
Proof. intros w r w' [= _ <-]. reflexivity. Qed.

Lemma heap_fixed_reading {A} (f : R A) : heap_fixed (reading f).
Proof. intros w r w' [= _ <-]. reflexivity. Qed.

Lemma heap_fixed_get_obj (o : oid) : heap_fixed (get_obj o).
Proof.
  intros w r w'. unfold get_obj.
  destruct (heap w !! o); intros [= _ <-]; reflexivity.
Qed.

Lemma heap_fixed_modify (f : World -> World) :
  (∀ w, heap (f w) = heap w) -> heap_fixed (modify f).
Proof. intros Hf w r w' [= _ <-]. apply Hf. Qed.

Lemma heap_fixed_bind {A B} (m : M A) (k : A -> M B) :
  heap_fixed m -> (∀ a, heap_fixed (k a)) -> heap_fixed (m ≫= k).
Proof.
  intros Hm Hk w r w'. rewrite bind_run.
  destruct (m w) as [[a|e] w1] eqn:Hrun; intros Hr.
  - rewrite (Hk a _ _ _ Hr). exact (Hm _ _ _ Hrun).
  - inversion Hr; subst. exact (Hm _ _ _ Hrun).
Qed.

Lemma heap_fixed_clean_value (v : Value) : heap_fixed (clean_value v).
Proof.
  intros w r w'. rewrite clean_value_run. intros [= _ <-].
  apply after_clean_heap.
Qed.

Lemma heap_fixed_new_list (xs : list json) : heap_fixed (new_list xs).
Proof. intros w r w' [= _ <-]. reflexivity. Qed.

Lemma heap_fixed_load_value (j : json) : heap_fixed (load_value j).
Proof.
  destruct j; try apply heap_fixed_ret.
  apply heap_fixed_bind; [apply heap_fixed_new_list|].
  intros; apply heap_fixed_ret.
Qed.

Lemma heap_fixed_put_row (p : pk) (r : DbNode) : heap_fixed (put_row p r).
Proof. apply heap_fixed_modify. reflexivity. Qed.

Create HintDb steady discriminated.
#[local] Hint Resolve steady_ret steady_raise steady_gets steady_reading
  steady_get_obj steady_put_row steady_new_list steady_list_append
  steady_load_value steady_clean_value : steady.

Ltac steady_step :=
  first
    [ solve [eauto with steady]
    | apply steady_get_bind; intros ?; apply steady_at_bind;
      [apply steady_at_put; solve [eauto with steady] | intros ?]
    | apply steady_bind; [|intros ?]
    | apply steady_try_except
    | apply steady_atomically
    | apply steady_for_each; intros ?
    | apply steady_modify; reflexivity
    | match goal with
      | |- steady (if ?b then _ else _) => destruct b
      | |- steady (match ?x with _ => _ end) => destruct x eqn:?
      end ].

Ltac steady_auto := repeat steady_step.

Lemma steady_validate_key (env : Env) (key : string) :
  steady (validate_attribute_key env key).
Proof. unfold validate_attribute_key. steady_auto. Qed.
#[local] Hint Resolve steady_validate_key : steady.

Lemma steady_set_db_attr (n : oid) (key : string) (v : Value) :
  steady (_set_db_attr n key v).
Proof. unfold _set_db_attr. steady_auto. Qed.

Lemma steady_set_db_extra (n : oid) (key : string) (v : Value) (ex : bool) :
  steady (_set_db_extra n key v ex).
Proof. unfold _set_db_extra. steady_auto. Qed.
#[local] Hint Resolve steady_set_db_attr steady_set_db_extra : steady.

Lemma steady_set_attr (env : Env) (n : oid) (key : string) (v : Value)
    (clean sc : bool) : steady (_set_attr env n key v clean sc).
Proof.
  intros w r w'. unfold _set_attr. rewrite bind_run. unfold get_obj.
  destruct (heap w !! n) as [obj|] eqn:Hn;
    [|intros [= _ <-]; apply stays_refl].
  destruct (sc && is_stored obj); [intros [= _ <-]; apply stays_refl|].
  unfold validate_attribute_key.
  destruct (contains_char _ key); [intros [= _ <-]; apply stays_refl|].
  rewrite bind_run. cbn [mret M_ret ret].
  destruct (_to_be_stored obj) eqn:Hu.
  - destruct clean.
    + rewrite (bind_ok _ _ _ _ _ (clean_value_run v w)). intros [= _ <-].
      apply (stays_put w _ n obj _ Hn (after_clean_heap v w)).
      split; [reflexivity | trivial].
    + rewrite bind_run. cbn. intros [= _ <-].
      apply (stays_put w _ n obj _ Hn eq_refl).
      split; [reflexivity | trivial].
  - intros Hr. revert Hr. apply (steady_bind (clean_value v)); steady_auto.
Qed.
#[local] Hint Resolve steady_set_attr : steady.

Create HintDb heap_fixed discriminated.
#[local] Hint Resolve heap_fixed_ret heap_fixed_raise heap_fixed_gets
  heap_fixed_reading heap_fixed_get_obj heap_fixed_clean_value
  heap_fixed_new_list heap_fixed_load_value heap_fixed_put_row : heap_fixed.

Ltac heap_fixed_step :=
  first
    [ solve [eauto with heap_fixed]
    | apply heap_fixed_bind; [|intros ?]
    | apply heap_fixed_modify; reflexivity
    | match goal with
      | |- heap_fixed (if ?b then _ else _) => destruct b
      | |- heap_fixed (match ?x with _ => _ end) => destruct x eqn:?
      end ].

Ltac heap_fixed_auto := repeat heap_fixed_step.

Lemma heap_fixed_add_dblink_from (self src : oid) (lt : LinkType)
    (lbl : string) : heap_fixed (_add_dblink_from self src lt lbl).
Proof. unfold _add_dblink_from. heap_fixed_auto. Qed.
#[local] Hint Resolve heap_fixed_add_dblink_from : heap_fixed.

Lemma heap_fixed_flush_links (n : oid) (cache : list LinkTriple) :
  heap_fixed (flush_links n cache).
Proof.
  induction cache as [|t rest IH]; cbn [flush_links]; heap_fixed_auto.
Qed.
#[local] Hint Resolve heap_fixed_flush_links : heap_fixed.

Lemma obj_stays_with_incoming (c : list LinkTriple) (obj : NodeObj) :
  obj_stays obj (with_incoming c obj).
Proof. split; [reflexivity | trivial]. Qed.

Lemma obj_stays_with_label (s : string) (obj : NodeObj) :
  obj_stays obj (with_label s obj).
Proof. split; [reflexivity | trivial]. Qed.

Lemma obj_stays_with_description (s : string) (obj : NodeObj) :
  obj_stays obj (with_description s obj).
Proof. split; [reflexivity | trivial]. Qed.

Lemma obj_stays_with_folder (f : Folder) (obj : NodeObj) :
  obj_stays obj (with_folder f obj).
Proof. split; [reflexivity | trivial]. Qed.

Lemma obj_stays_mark_stored (p : pk) (obj : NodeObj) :
  obj_stays obj (mark_stored p obj).
Proof. split; [reflexivity | trivial]. Qed.

#[local] Hint Resolve obj_stays_with_incoming obj_stays_with_label
  obj_stays_with_description obj_stays_with_folder obj_stays_mark_stored
  obj_stays_refl : steady.

Ltac steady_at_step :=
  first
    [ apply steady_at_put; solve [eauto with steady]
    | apply steady_steady_at; solve [steady_auto]
    | apply steady_at_fixed_bind; [solve [heap_fixed_auto] | intros ?]
    | apply steady_at_bind; [|intros ?; solve [steady_auto]]
    | match goal with
      | |- steady_at _ _ (if ?b then _ else _) => destruct b
      | |- steady_at _ _ (match ?x with _ => _ end) => destruct x eqn:?
      end ].

Ltac steady_at_auto := repeat steady_at_step.

Lemma steady_set_label (n : oid) (s : string) : steady (set_label n s).
Proof. unfold set_label. apply steady_get_bind. intros obj. steady_at_auto. Qed.

Lemma steady_set_description (n : oid) (s : string) :
  steady (set_description n s).
Proof.
  unfold set_description. apply steady_get_bind. intros obj. steady_at_auto.
Qed.

Lemma steady_add_dblink_from (self src : oid) (lt : LinkType) (lbl : string) :
  steady (_add_dblink_from self src lt lbl).
Proof. apply heap_fixed_steady. eauto with heap_fixed. Qed.

Lemma steady_add_cachelink_from (self source : oid) (lt : LinkType)
    (lbl : string) : steady (_add_cachelink_from self source lt lbl).
Proof.
  unfold _add_cachelink_from. apply steady_get_bind. intros obj.
  steady_at_auto.
Qed.

#[local] Hint Resolve steady_set_label steady_set_description
  steady_add_dblink_from steady_add_cachelink_from : steady.

Lemma steady_add_incoming (env : Env) (self source : oid) (lt : LinkType)
    (lbl : string) : steady (add_incoming env self source lt lbl).
Proof. unfold add_incoming, validate_incoming, validate_outgoing. steady_auto. Qed.

Lemma steady_store_cached_input_links (n : oid) (wt : bool) :
  steady (_store_cached_input_links n wt).
Proof.
  unfold _store_cached_input_links.
  assert (Hbody : steady (obj ← get_obj n;
                          kept ← flush_links n (_incoming_cache obj);
                          put_obj n (with_incoming kept obj))).
  { apply steady_get_bind. intros obj. steady_at_auto. }
  destruct wt; [apply steady_atomically|]; exact Hbody.
Qed.

#[local] Hint Resolve steady_add_incoming steady_store_cached_input_links
  : steady.

Lemma steady_db_store (env : Env) (n : oid) (wt : bool) :
  steady (_db_store env n wt).
Proof.
  unfold _db_store.
  apply steady_bind; [|intros ?; steady_auto].
  assert (Hbody : steady (obj ← get_obj n;
    attrs ← reading (get_attrs n);
    p ← gets next_pk;
    modify (set_next_pk (S p));;
    put_row p (mkRow (uuid obj) (plugin_type_string (klass obj)) (label obj)
                     (description obj) attrs ∅ (folder obj) (computer obj));;
    put_obj n (mark_stored p obj);;
    _store_cached_input_links n false)).
  { apply steady_get_bind. intros obj. steady_at_auto. }
  destruct wt; [apply steady_atomically|]; exact Hbody.
Qed.

Lemma steady_autogroup (n : oid) : steady (autogroup n).
Proof. unfold autogroup. steady_auto. Qed.

Lemma steady_copy_attributes (env : Env) (n : oid) (kvs : list (string * json)) :
  steady (copy_attributes env n kvs).
Proof.
  induction kvs as [|kv rest IH]; cbn [copy_attributes]; steady_auto.
Qed.

Lemma steady_set_extra (env : Env) (n : oid) (key : string) (v : Value)
    (ex : bool) : steady (set_extra env n key v ex).
Proof. unfold set_extra. steady_auto. Qed.

#[local] Hint Resolve steady_db_store steady_autogroup steady_copy_attributes
  steady_set_extra : steady.

Lemma steady_store_from_cache (env : Env)
    (store' : oid -> option bool -> M unit) (n : oid) (c : pk) :
  (∀ o uc, steady (store' o uc)) ->
  steady (_store_from_cache env store' n c).
Proof.
  intros Hs. unfold _store_from_cache.
  steady_auto.
Qed.

Lemma steady_load_attributes (kvs : list (string * json)) :
  steady (load_attributes kvs).
Proof.
  induction kvs as [|kv rest IH]; cbn [load_attributes]; steady_auto.
Qed.
#[local] Hint Resolve steady_load_attributes : steady.

Lemma steady_new_obj (obj : NodeObj) : steady (new_obj obj).
Proof. intros w r w' [= _ <-]. eapply stays_alloc. reflexivity. Qed.
#[local] Hint Resolve steady_new_obj : steady.

Lemma steady_clone (env : Env) (p : pk) : steady (clone env p).
Proof. unfold clone. steady_auto. Qed.
#[local] Hint Resolve steady_clone : steady.

Lemma steady_add_outputs_from_cache (env : Env)
    (store' : oid -> option bool -> M unit) (n : oid) (c : pk) :
  (∀ o uc, steady (store' o uc)) ->
  steady (_add_outputs_from_cache env store' n c).
Proof. intros Hs. unfold _add_outputs_from_cache. steady_auto. Qed.

Lemma steady_store (env : Env) (fuel : nat) :
  ∀ (wt : bool) (n : oid) (uc : option bool), steady (store env fuel wt n uc).
Proof.
  induction fuel as [|fuel IH]; intros wt n uc; cbn [store].
  - apply steady_raise.
  - pose proof (steady_store_from_cache env (store env fuel wt)) as H1.
    pose proof (steady_add_outputs_from_cache env (store env fuel true)) as H2.
    steady_auto.
Qed.
#[local] Hint Resolve steady_store : steady.

Lemma steady_store_input_nodes (env : Env) (fuel : nat) (n : oid) :
  steady (_store_input_nodes env fuel n).
Proof. unfold _store_input_nodes. steady_auto. Qed.
#[local] Hint Resolve steady_store_input_nodes : steady.

Lemma steady_db_store_all (env : Env) (fuel : nat) (n : oid) (wt : bool)
    (uc : option bool) : steady (_db_store_all env fuel n wt uc).
Proof. unfold _db_store_all. steady_auto. Qed.
#[local] Hint Resolve steady_db_store_all : steady.

Lemma steady_store_all (env : Env) (fuel : nat) (n : oid) (wt : bool)
    (uc : option bool) : steady (store_all env fuel n wt uc).
Proof. unfold store_all. steady_auto. Qed.

Lemma stored_in_stays (w w' : World) (n : oid) (c : NodeClass) :
  stays w w' -> stored_in w n c -> stored_in w' n c.
Proof.
  intros Hs (obj & Hn & Hst & Hc).
  destruct (Hs n obj Hn) as (obj' & Hn' & Hk & Hst').
  exists obj'. split; [exact Hn'|]. split; [apply Hst', Hst | congruence].
Qed.

Lemma bind_ok_inv {A B} (m : M A) (k : A -> M B) (w w' : World) (b : B) :
  (m ≫= k) w = (Ok b, w') ->
  ∃ a w1, m w = (Ok a, w1) ∧ k a w1 = (Ok b, w').
Proof.
  rewrite bind_run. destruct (m w) as [[a|e] w1]; [|discriminate].
  intros Hk. exists a, w1. split; [reflexivity | exact Hk].
Qed.

Lemma get_obj_ok_inv (n : oid) (w w' : World) (obj : NodeObj) :
  get_obj n w = (Ok obj, w') -> w' = w ∧ heap w !! n = Some obj.
Proof.
  unfold get_obj. destruct (heap w !! n); [|discriminate].
  intros [= -> ->]. split; reflexivity.
Qed.

Lemma atomically_ok_inv {A} (m : M A) (w w' : World) (a : A) :
  atomically m w = (Ok a, w') -> m w = (Ok a, w').
Proof.
  unfold atomically. destruct (m w) as [[a'|e] w1]; [|discriminate].
  intros [= -> ->]. reflexivity.
Qed.

Lemma maybe_atomically_ok_inv {A} (b : bool) (m : M A) (w w' : World) (a : A) :
  (if b then atomically m else m) w = (Ok a, w') -> m w = (Ok a, w').
Proof. destruct b; [apply atomically_ok_inv | trivial]. Qed.

Lemma db_store_ok_stored (env : Env) (n : oid) (wt : bool) (obj : NodeObj)
    (w w' : World) :
  heap w !! n = Some obj ->
  _db_store env n wt w = (Ok tt, w') ->
  stored_in w' n (klass obj).
Proof.
  intros Hn Hrun. unfold _db_store in Hrun.
  apply bind_ok_inv in Hrun as ([] & w1 & Hbody & Hrest).
  apply maybe_atomically_ok_inv in Hbody.
  rewrite (bind_ok _ _ _ _ _ (get_obj_some _ _ _ Hn)) in Hbody.
  apply bind_ok_inv in Hbody as (attrs & wa & Ha & Hbody).
  inversion Ha; subst wa. clear Ha.
  rewrite bind_run in Hbody. cbn [gets] in Hbody.
  rewrite bind_run in Hbody. cbn [modify] in Hbody.
  rewrite bind_run in Hbody. unfold put_row at 1 in Hbody.
  cbn [modify] in Hbody.
  rewrite bind_run in Hbody. unfold put_obj at 1 in Hbody.
  cbn [modify] in Hbody.
  match type of Hbody with _ ?w0 = _ =>
    assert (Hst0 : stored_in w0 n (klass obj))
  end.
  { exists (mark_stored (next_pk w) obj). cbn. rewrite lookup_insert_eq.
    repeat split. }
  assert (Hhash : steady (h ← reading (get_hash env n true);
            _set_db_extra n _HASH_EXTRA_KEY
              (match h with
               | Some s => Plain (JStr s)
               | None => Plain JNull
               end) false)) by steady_auto.
  apply (stored_in_stays w1); [exact (Hhash _ _ _ Hrest)|].
  eapply stored_in_stays; [|exact Hst0].
  exact (steady_store_cached_input_links n false _ _ _ Hbody).
Qed.

Lemma store_from_cache_ok_inv (env : Env)
    (store' : oid -> option bool -> M unit) (n : oid) (c : pk)
    (w w' : World) :
  (∀ o uc, steady (store' o uc)) ->
  _store_from_cache env store' n c w = (Ok tt, w') ->
  ∃ wa wb, stays w wa ∧ store' n (Some false) wa = (Ok tt, wb) ∧ stays wb w'.
Proof.
  intros Hs Hrun. unfold _store_from_cache in Hrun.
  apply bind_ok_inv in Hrun as (obj & w1 & Hg & Hrun).
  apply get_obj_ok_inv in Hg as [-> Hn].
  apply bind_ok_inv in Hrun as (row & w1 & Hr & Hrun).
  inversion Hr; subst w1; clear Hr.
  destruct (decide (plugin_type_string (klass obj) ≠ db_type row));
    [discriminate|].
  apply bind_ok_inv in Hrun as ([] & w1 & H1 & Hrun).
  apply bind_ok_inv in Hrun as ([] & w2 & H2 & Hrun).
  apply bind_ok_inv in Hrun as ([] & w3 & H3 & Hrun).
  apply bind_ok_inv in Hrun as (obj' & w4 & H4 & Hrun).
  apply get_obj_ok_inv in H4 as [-> Hn3].
  apply bind_ok_inv in Hrun as ([] & w4 & H4 & Hrun).
  apply bind_ok_inv in Hrun as (returns & w5 & H5 & Hrun).
  inversion H5; subst w5; clear H5.
  destruct returns; [|discriminate].
  apply bind_ok_inv in Hrun as ([] & w5 & H5 & Hrun).
  exists w4, w5. split; [|split].
  - apply (stays_trans _ w1); [exact (steady_set_label _ _ _ _ _ H1)|].
    apply (stays_trans _ w2); [exact (steady_set_description _ _ _ _ _ H2)|].
    apply (stays_trans _ w3);
      [exact (steady_copy_attributes _ _ _ _ _ _ H3)|].
    inversion H4. apply (stays_put w3 w3 n obj' _ Hn3 eq_refl).
    apply obj_stays_with_folder.
  - exact H5.
  - exact (steady_set_extra _ _ _ _ _ _ _ _ Hrun).
Qed.

(** A successful [store] leaves the node stored. *)
Lemma store_ok_stored (env : Env) (fuel : nat) :
  ∀ (wt : bool) (n : oid) (uc : option bool) (w w' : World),
    store env fuel wt n uc w = (Ok tt, w') ->
    ∃ c, stored_in w' n c ∧ _storable c = true.
Proof.
  induction fuel as [|fuel IH]; intros wt n uc w w' Hrun; cbn [store] in Hrun.
  - discriminate.
  - apply bind_ok_inv in Hrun as (obj & w1 & Hg & Hrun).
    apply get_obj_ok_inv in Hg as [-> Hn].
    exists (klass obj).
    destruct (_storable (klass obj)) eqn:Hst; [|discriminate].
    split; [|reflexivity]. cbn [negb] in Hrun.
    apply bind_ok_inv in Hrun as ([] & w1 & Hv & Hrun).
    inversion Hv; subst w1; clear Hv.
    destruct (_to_be_stored obj) eqn:Hu.
    + apply bind_ok_inv in Hrun as ([] & w1 & Hp & Hrun).
      inversion Hp; subst w1; clear Hp.
      apply bind_ok_inv in Hrun as (same & w1 & Hsame & Hrun).
      assert (w1 = w) as ->.
      { destruct (match uc with Some b => b | None => _ end);
          inversion Hsame; reflexivity. }
      apply bind_ok_inv in Hrun as ([] & w2 & Hmain & Hrun).
      apply (stored_in_stays w2); [exact (steady_autogroup _ _ _ _ Hrun)|].
      destruct same as [c|].
      * apply bind_ok_inv in Hmain as ([] & w3 & Hfrom & Hout).
        apply (stored_in_stays w3);
          [exact (steady_add_outputs_from_cache env _ n c
                    (steady_store env fuel true) _ _ _ Hout)|].
        destruct (store_from_cache_ok_inv env _ n c w w3
                    (steady_store env fuel wt) Hfrom)
          as (wa & wb & Hwa & Hinner & Hwb).
        apply (stored_in_stays wb); [exact Hwb|].
        destruct (IH _ _ _ _ _ Hinner) as (c' & (obj' & Hn' & Hst' & Hc') & _).
        exists obj'. split; [exact Hn'|]. split; [exact Hst'|].
        destruct (Hwa n obj Hn) as (obja & Hna & Hka & _).
        destruct (steady_store env fuel wt n (Some false) _ _ _ Hinner n obja Hna)
          as (objb & Hnb & Hkb & _).
        congruence.
      * exact (db_store_ok_stored env n wt obj w w2 Hn Hmain).
    + inversion Hrun; subst w'. exists obj. repeat split; assumption.
Qed.

Lemma run_validate_not_mna (n : oid) (w : World) :
  run_validate n w ≠ Raise ModificationNotAllowed.
Proof.
  unfold run_validate, get_attrs, read_row, read_obj.
  destruct (heap w !! n) as [obj|]; [|discriminate].
  destruct (_to_be_stored obj).
  - destruct (_validate _ _); discriminate.
  - destruct (id obj) as [p|]; [|discriminate].
    destruct (db_nodes w !! p); [|discriminate].
    cbn. destruct (_validate _ _); discriminate.
Qed.

(** C1: once [store] has completed on a node, a second [store] raises no
    ModificationNotAllowed: it re-runs the storable check and the
    validation, returns their outcome and leaves the world, and so the
    durable records, as they were; [store_all] on that node raises
    ModificationNotAllowed. *)
Theorem second_store_is_noop (env : Env) (f1 f2 : nat) (wt1 wt2 : bool)
    (uc1 uc2 : option bool) (n : oid) (w0 w : World) :
  store env f1 wt1 n uc1 w0 = (Ok tt, w) ->
  store env (S f2) wt2 n uc2 w = (run_validate n w, w)
  ∧ run_validate n w ≠ Raise ModificationNotAllowed
  ∧ store_all env f2 n wt2 uc2 w = (Raise ModificationNotAllowed, w).
Proof.
  intros Hfirst.
  destruct (store_ok_stored env f1 wt1 n uc1 w0 w Hfirst)
    as (c & (obj & Hn & Hst & Hc) & Hstorable).
  subst c. split; [|split].
  - cbn [store]. rewrite (bind_ok _ _ _ _ _ (get_obj_some _ _ _ Hn)).
    rewrite Hstorable. cbn [negb]. rewrite bind_run. unfold reading.
    rewrite Hst. destruct (run_validate n w) as [[]|e]; reflexivity.
  - apply run_validate_not_mna.
  - unfold store_all. rewrite (bind_ok _ _ _ _ _ (get_obj_some _ _ _ Hn)).
    unfold is_stored. rewrite Hst. reflexivity.
Qed.

Lemma check_sources_unstored (w : World) (cache : list LinkTriple)
    (t : LinkTriple) (s : NodeObj) :
  Forall (fun t => is_Some (heap w !! node t)) cache ->
  t ∈ cache -> heap w !! node t = Some s -> _to_be_stored s = true ->
  check_sources_stored w cache = Raise ModificationNotAllowed.
Proof.
  intros Hlive Hin Hs Hu. induction cache as [|t0 rest IH];
    [inversion Hin|].
  inversion Hlive as [|? ? [s0 Hs0] Hrest]; subst.
  cbn [check_sources_stored]. rewrite (read_obj_some _ _ _ Hs0).
  unfold is_stored. destruct (_to_be_stored s0) eqn:Hu0; [reflexivity|].
  cbn [negb]. apply IH; [exact Hrest|].
  apply elem_of_cons in Hin as [->|Hin]; [congruence | exact Hin].
Qed.

Lemma check_grandparents_unstored (w : World) (cache : list LinkTriple)
    (t t' : LinkTriple) (s g : NodeObj) :
  links_closed w ->
  Forall (fun t => is_Some (heap w !! node t)) cache ->
  t ∈ cache -> heap w !! node t = Some s ->
  t' ∈ _incoming_cache s -> heap w !! node t' = Some g ->
  _to_be_stored g = true ->
  check_grandparents w cache = Raise ModificationNotAllowed.
Proof.
  intros Hclosed Hlive Hin Hs Hin' Hg Hu.
  induction cache as [|t0 rest IH]; [inversion Hin|].
  inversion Hlive as [|? ? [s0 Hs0] Hrest]; subst.
  cbn [check_grandparents]. unfold _check_are_parents_stored.
  rewrite (read_obj_some _ _ _ Hs0).
  destruct (check_sources_stored w (_incoming_cache s0)) as [[]|e] eqn:Hc.
  - apply IH; [exact Hrest|].
    apply elem_of_cons in Hin as [->|Hin]; [|exact Hin].
    assert (s0 = s) by congruence. subst s0.
    rewrite (check_sources_unstored w _ t' g (Hclosed _ _ Hs) Hin' Hg Hu)
      in Hc. discriminate.
  - (* the first failing source decides; its failure is the same error *)
    clear IH. revert Hc. generalize (Hclosed _ _ Hs0).
    generalize (_incoming_cache s0). intros c0 Hc0.
    induction c0 as [|x xs IHx]; [discriminate|].
    inversion Hc0 as [|? ? [sx Hsx] Hxs]; subst.
    cbn [check_sources_stored]. rewrite (read_obj_some _ _ _ Hsx).
    destruct (negb (is_stored sx)); [intros [= <-]; reflexivity|].
    apply IHx, Hxs.
Qed.

Lemma store_input_nodes_loop (env : Env) (fuel : nat)
    (cache : list LinkTriple) (w w1 : World) :
  for_each cache (fun link_triple =>
      s ← get_obj (node link_triple);
      if negb (is_stored s) then store env fuel false (node link_triple) None
      else mret tt) w = (Ok tt, w1) ->
  stays w w1 ∧ ∀ t, t ∈ cache -> ∃ c, stored_in w1 (node t) c.
Proof.
  revert w. induction cache as [|t0 rest IH]; intros w Hrun.
  - inversion Hrun. split; [apply stays_refl|]. intros t Ht. inversion Ht.
  - cbn [for_each] in Hrun.
    apply bind_ok_inv in Hrun as ([] & wm & Hbody & Hrest).
    destruct (IH wm Hrest) as (Hstays & Hall).
    apply bind_ok_inv in Hbody as (s & w0 & Hg & Hbody).
    apply get_obj_ok_inv in Hg as [-> Hs].
    assert (Hhead : stays w wm ∧ ∃ c, stored_in wm (node t0) c).
    { unfold is_stored in Hbody. destruct (_to_be_stored s) eqn:Hu;
        cbn [negb] in Hbody.
      - split; [exact (steady_store env fuel _ _ _ _ _ _ Hbody)|].
        destruct (store_ok_stored env fuel _ _ _ _ _ Hbody) as (c & Hc & _).
        exists c. exact Hc.
      - inversion Hbody; subst wm. split; [apply stays_refl|].
        exists (klass s), s. repeat split; assumption. }
    destruct Hhead as (Hwm & c0 & Hc0).
    split; [exact (stays_trans _ _ _ Hwm Hstays)|].
    intros t Ht. apply elem_of_cons in Ht as [->|Ht].
    + exists c0. exact (stored_in_stays _ _ _ _ Hstays Hc0).
    + apply Hall, Ht.
Qed.

(** C3: for an unstored node whose cached links have live sources,
    [store] of a storable, valid node raises ModificationNotAllowed when a
    cached source is unstored; [store_all] raises ModificationNotAllowed
    when an unstored cached source has itself an unstored cached source;
    and a successful [store_all] first stores the direct sources, then the
    node, all of which are stored in the final world. *)
Theorem unstored_parents_block_store (env : Env) (w : World) (n : oid)
    (obj : NodeObj) :
  heap w !! n = Some obj ->
  _to_be_stored obj = true ->
  links_closed w ->
  (∀ fuel wt uc t s,
     _storable (klass obj) = true -> run_validate n w = Ok tt ->
     t ∈ _incoming_cache obj -> heap w !! node t = Some s ->
     _to_be_stored s = true ->
     store env (S fuel) wt n uc w = (Raise ModificationNotAllowed, w))
  ∧ (∀ fuel wt uc t s t' g,
       t ∈ _incoming_cache obj -> heap w !! node t = Some s ->
       _to_be_stored s = true ->
       t' ∈ _incoming_cache s -> heap w !! node t' = Some g ->
       _to_be_stored g = true ->
       store_all env fuel n wt uc w = (Raise ModificationNotAllowed, w))
  ∧ (∀ fuel wt uc w',
       store_all env fuel n wt uc w = (Ok tt, w') ->
       ∃ w1 w2,
         _store_input_nodes env fuel n w = (Ok tt, w1)
         ∧ (∀ t, t ∈ _incoming_cache obj -> ∃ c, stored_in w1 (node t) c)
         ∧ store env fuel false n uc w1 = (Ok tt, w2)
         ∧ (∃ c, stored_in w2 n c)
         ∧ (∃ c, stored_in w' n c)
         ∧ (∀ t, t ∈ _incoming_cache obj -> ∃ c, stored_in w' (node t) c)).
Proof.
  intros Hn Hu Hclosed. pose proof (get_obj_some _ _ _ Hn) as Hg.
  split; [|split].
  - intros fuel wt uc t s Hst Hv Hin Hs Hus.
    cbn [store]. rewrite (bind_ok _ _ _ _ _ Hg), Hst. cbn [negb].
    rewrite bind_run. unfold reading at 1. rewrite Hv, Hu.
    rewrite bind_run. unfold reading at 1, _check_are_parents_stored.
    rewrite (read_obj_some _ _ _ Hn).
    rewrite (check_sources_unstored w _ t s (Hclosed _ _ Hn) Hin Hs Hus).
    reflexivity.
  - intros fuel wt uc t s t' g Hin Hs _ Hin' Hg' Hug.
    unfold store_all. rewrite (bind_ok _ _ _ _ _ Hg).
    unfold is_stored. rewrite Hu. cbn [negb].
    rewrite bind_run. unfold reading at 1.
    rewrite (check_grandparents_unstored w _ t t' s g Hclosed
               (Hclosed _ _ Hn) Hin Hs Hin' Hg' Hug).
    reflexivity.
  - intros fuel wt uc w' Hrun. unfold store_all in Hrun.
    rewrite (bind_ok _ _ _ _ _ Hg) in Hrun.
    unfold is_stored in Hrun. rewrite Hu in Hrun. cbn [negb] in Hrun.
    apply bind_ok_inv in Hrun as ([] & w0 & Hchk & Hrun).
    unfold reading in Hchk. injection Hchk as _ Hw0. subst w0.
    unfold _db_store_all in Hrun. apply maybe_atomically_ok_inv in Hrun.
    apply bind_ok_inv in Hrun as ([] & w1 & Hin & Hrun).
    apply bind_ok_inv in Hrun as ([] & w2 & Hst & Hlinks).
    exists w1, w2. split; [exact Hin|].
    unfold _store_input_nodes in Hin.
    rewrite (bind_ok _ _ _ _ _ Hg) in Hin.
    unfold is_stored in Hin. rewrite Hu in Hin. cbn [negb] in Hin.
    destruct (store_input_nodes_loop env fuel _ w w1 Hin) as (_ & Hsrc).
    pose proof (steady_store env fuel _ _ _ _ _ _ Hst) as H12.
    pose proof (steady_store_cached_input_links _ _ _ _ _ Hlinks) as H2'.
    destruct (store_ok_stored env fuel _ _ _ _ _ Hst) as (c & Hc & _).
    split; [exact Hsrc|]. split; [exact Hst|].
    split; [exists c; exact Hc|].
    split; [exists c; exact (stored_in_stays _ _ _ _ H2' Hc)|].
    intros t Ht. destruct (Hsrc t Ht) as (ct & Hct). exists ct.
    exact (stored_in_stays _ _ _ _ (stays_trans _ _ _ H12 H2') Hct).
Qed.

Lemma same_node_row (env : Env) (n : oid) (obj : NodeObj) (c : pk)
    (w : World) :
  heap w !! n = Some obj ->
  _get_same_node env n w = Ok (Some c) ->
  ∃ row, db_nodes w !! c = Some row
         ∧ db_type row = plugin_type_string (klass obj).
Proof.
  intros Hn. unfold _get_same_node. rewrite (read_obj_some _ _ _ Hn).
  destruct (negb (_cacheable (klass obj))); [discriminate|].
  destruct (get_hash env n true w) as [[h|]|e]; try discriminate.
  destruct (decide (h = "")); [discriminate|].
  intros [= Hhead]. apply head_Some_elem_of in Hhead.
  apply list_elem_of_fmap in Hhead as ([p row] & -> & Hin).
  apply list_elem_of_filter in Hin as [Hp Hin].
  apply elem_of_map_to_list in Hin. exists row. split; [exact Hin|].
  cbn [fst snd] in Hp.
  destruct (bool_decide (db_type row = plugin_type_string (klass obj)))
    eqn:Hb; [|discriminate].
  apply bool_decide_eq_true in Hb. exact Hb.
Qed.

Lemma quiet_trans (n : oid) (c : NodeClass) (w1 w2 w3 : World) :
  quiet n c w1 w2 -> quiet n c w2 w3 -> quiet n c w1 w3.
Proof.
  intros (Hn1 & Hl1 & _) (Hn2 & Hl2 & Ho). split; [congruence|].
  split; [congruence | exact Ho].
Qed.

Lemma set_label_unstored (n : oid) (s : string) (obj : NodeObj) (w : World) :
  heap w !! n = Some obj -> _to_be_stored obj = true ->
  ∃ w', set_label n s w = (Ok tt, w') ∧ quiet n (klass obj) w w'.
Proof.
  intros Hn Hu. unfold set_label.
  rewrite (bind_ok _ _ _ _ _ (get_obj_some _ _ _ Hn)), Hu.
  eexists. split; [reflexivity|]. split; [reflexivity|].
  split; [reflexivity|]. exists (with_label s obj). cbn.
  rewrite lookup_insert_eq. repeat split. exact Hu.
Qed.

Lemma set_description_unstored (n : oid) (s : string) (obj : NodeObj)
    (w : World) :
  heap w !! n = Some obj -> _to_be_stored obj = true ->
  ∃ w', set_description n s w = (Ok tt, w') ∧ quiet n (klass obj) w w'.
Proof.
  intros Hn Hu. unfold set_description.
  rewrite (bind_ok _ _ _ _ _ (get_obj_some _ _ _ Hn)), Hu.
  eexists. split; [reflexivity|]. split; [reflexivity|].
  split; [reflexivity|]. exists (with_description s obj). cbn.
  rewrite lookup_insert_eq. repeat split. exact Hu.
Qed.

Lemma load_value_run (j : json) (w : World) :
  ∃ v w', load_value j w = (Ok v, w')
          ∧ heap w' = heap w ∧ db_nodes w' = db_nodes w
          ∧ db_links w' = db_links w.
Proof.
  destruct j; try (eexists _, _; split; [reflexivity|]; repeat split).
Qed.

(** One round of the attribute loop on an unstored node. *)
Lemma set_attr_unstored_quiet (env : Env) (n : oid) (key : string)
    (v : Value) (obj : NodeObj) (w : World) :
  heap w !! n = Some obj -> _to_be_stored obj = true ->
  ∃ r w', _set_attr env n key v true true w = (r, w')
          ∧ quiet n (klass obj) w w'
          ∧ (r = Ok tt ∨ r = Raise ValidationError)
          ∧ (contains_char (AIIDA_ATTRIBUTE_SEP env) key = false -> r = Ok tt).
Proof.
  intros Hn Hu.
  destruct (contains_char (AIIDA_ATTRIBUTE_SEP env) key) eqn:Hkey.
  - exists (Raise ValidationError), w. split.
    + unfold _set_attr. rewrite (bind_ok _ _ _ _ _ (get_obj_some _ _ _ Hn)).
      unfold is_stored. rewrite Hu. cbn [negb andb].
      unfold validate_attribute_key. rewrite Hkey. reflexivity.
    + split; [|split; [right; reflexivity | discriminate]].
      split; [reflexivity|]. split; [reflexivity|]. exists obj.
      repeat split; assumption.
  - eexists (Ok tt), _. split;
      [exact (set_attr_clean_unstored env n obj key v w Hn Hu Hkey)|].
    split; [|split; [left; reflexivity | reflexivity]].
    split; [apply after_clean_db_nodes|]. split; [apply after_clean_db_links|].
    eexists. cbn. rewrite lookup_insert_eq. repeat split. exact Hu.
Qed.

Lemma copy_attributes_unstored (env : Env) (n : oid) (c : NodeClass)
    (kvs : list (string * json)) :
  ∀ (obj : NodeObj) (w : World),
    heap w !! n = Some obj -> _to_be_stored obj = true -> klass obj = c ->
    ∃ r w', copy_attributes env n kvs w = (r, w')
            ∧ quiet n c w w'
            ∧ (r = Ok tt ∨ r = Raise ValidationError)
            ∧ (copied_keys_valid env kvs -> r = Ok tt).
Proof.
  induction kvs as [|[k j] rest IH]; intros obj w Hn Hu Hc.
  - exists (Ok tt), w. split; [reflexivity|].
    split; [|split; [left; reflexivity | reflexivity]].
    split; [reflexivity|]. split; [reflexivity|]. exists obj.
    repeat split; assumption.
  - cbn [copy_attributes fst snd].
    destruct (decide (k ≠ SEALED_KEY env)) as [Hk|Hk].
    + destruct (load_value_run j w) as (v & w1 & Hload & Hh1 & Hd1 & Hl1).
      assert (Hn1 : heap w1 !! n = Some obj) by (rewrite Hh1; exact Hn).
      destruct (set_attr_unstored_quiet env n k v obj w1 Hn1 Hu)
        as (r & w2 & Hset & Hq & Hr & Hok).
      rewrite Hc in Hq.
      assert (Hq02 : quiet n c w w2).
      { destruct Hq as (Ha & Hb & Ho). split; [congruence|].
        split; [congruence | exact Ho]. }
      destruct Hq as (_ & _ & obj2 & Hn2 & Hu2 & Hc2).
      destruct Hr as [-> | ->].
      * destruct (IH obj2 w2 Hn2 Hu2 Hc2) as (r' & w3 & Hrest & Hq3 & Hr' & Hok').
        exists r', w3. split.
        { rewrite bind_run. rewrite (bind_ok _ _ _ _ _ Hload), Hset.
          exact Hrest. }
        split; [exact (quiet_trans _ _ _ _ _ Hq02 Hq3)|].
        split; [exact Hr'|].
        intros Hvalid. apply Hok'. inversion Hvalid; assumption.
      * exists (Raise ValidationError), w2. split.
        { rewrite bind_run. rewrite (bind_ok _ _ _ _ _ Hload), Hset.
          reflexivity. }
        split; [exact Hq02|]. split; [right; reflexivity|].
        intros Hvalid. inversion Hvalid as [|? ? Hhead _]; subst.
        specialize (Hok (Hhead Hk)). discriminate.
    + destruct (IH obj w Hn Hu Hc) as (r' & w3 & Hrest & Hq3 & Hr' & Hok').
      exists r', w3. split; [rewrite bind_run; exact Hrest|].
      split; [exact Hq3|]. split; [exact Hr'|].
      intros Hvalid. apply Hok'. inversion Hvalid; assumption.
Qed.

Lemma stored_link_triples_ext (env : Env) (p : option pk)
    (lts : list LinkType) (flt : option string) (dir : Direction)
    (w w' : World) :
  db_links w' = db_links w ->
  stored_link_triples env p lts flt dir w'
  = stored_link_triples env p lts flt dir w.
Proof. intros Hl. unfold stored_link_triples. rewrite Hl. reflexivity. Qed.

(** [_store_from_cache] on a cache node with RETURN links. *)
Lemma store_from_cache_rejected (env : Env)
    (store' : oid -> option bool -> M unit) (n : oid) (c : pk)
    (obj : NodeObj) (row : DbNode) (w : World) :
  heap w !! n = Some obj -> _to_be_stored obj = true ->
  db_nodes w !! c = Some row ->
  db_type row = plugin_type_string (klass obj) ->
  stored_link_triples env (Some c) [RETURN] None Outgoing w ≠ [] ->
  ∃ e w', _store_from_cache env store' n c w = (Raise e, w')
          ∧ quiet n (klass obj) w w'
          ∧ (e = ValueError ∨ e = ValidationError)
          ∧ (copied_keys_valid env (map_to_list (db_attributes row)) ->
             e = ValueError).
Proof.
  intros Hn Hu Hrow Htype Hret. unfold _store_from_cache.
  rewrite (bind_ok _ _ _ _ _ (get_obj_some _ _ _ Hn)).
  rewrite bind_run. unfold reading at 1, row_of. rewrite Hrow.
  destruct (decide (plugin_type_string (klass obj) ≠ db_type row));
    [congruence|].
  destruct (set_label_unstored n (db_label row) obj w Hn Hu)
    as (w1 & H1 & Hq1).
  rewrite (bind_ok _ _ _ _ _ H1).
  destruct Hq1 as (Hd1 & Hl1 & obj1 & Hn1 & Hu1 & Hc1).
  destruct (set_description_unstored n (db_description row) obj1 w1 Hn1 Hu1)
    as (w2 & H2 & Hq2).
  rewrite (bind_ok _ _ _ _ _ H2).
  destruct Hq2 as (Hd2 & Hl2 & obj2 & Hn2 & Hu2 & Hc2).
  destruct (copy_attributes_unstored env n (klass obj)
              (map_to_list (db_attributes row)) obj2 w2 Hn2 Hu2
              ltac:(congruence))
    as (r & w3 & H3 & Hq3 & Hr & Hok).
  destruct Hq3 as (Hd3 & Hl3 & obj3 & Hn3 & Hu3 & Hc3).
  assert (Hq03 : quiet n (klass obj) w w3).
  { split; [congruence|]. split; [congruence|]. exists obj3.
    repeat split; assumption. }
  destruct Hr as [-> | ->].
  - rewrite (bind_ok _ _ _ _ _ H3).
    rewrite (bind_ok _ _ _ _ _ (get_obj_some _ _ _ Hn3)).
    rewrite bind_run. unfold put_obj at 1. cbn [modify].
    rewrite bind_run. cbn [gets].
    rewrite (stored_link_triples_ext env _ _ _ _ w)
      by (cbn; congruence).
    destruct (stored_link_triples env (Some c) [RETURN] None Outgoing w)
      eqn:Hrets; [congruence|].
    eexists ValueError, _. split; [reflexivity|].
    split; [|split; [left; reflexivity | reflexivity]].
    split; [cbn; congruence|]. split; [cbn; congruence|].
    exists (with_folder (db_folder row) obj3). cbn.
    rewrite lookup_insert_eq. repeat split; assumption.
  - rewrite (bind_raise _ _ _ _ _ H3).
    exists ValidationError, w3. split; [reflexivity|].
    split; [exact Hq03|]. split; [right; reflexivity|].
    intros Hvalid. specialize (Hok Hvalid). discriminate.
Qed.

(** C2: when caching is enabled and the equivalent node found has an
    outgoing RETURN link, [store] does not fall back to the plain store: it
    raises (ValueError from the guard of [_store_from_cache], or
    ValidationError if an attribute key of the cache node cannot be
    copied), the node stays unstored and the durable tables are as
    before. *)
Theorem cache_with_return_links_rejected (env : Env) (fuel : nat) (wt : bool)
    (n : oid) (uc : option bool) (w : World) (obj : NodeObj) (c : pk) :
  heap w !! n = Some obj ->
  _to_be_stored obj = true ->
  _storable (klass obj) = true ->
  run_validate n w = Ok tt ->
  _check_are_parents_stored n w = Ok tt ->
  match uc with
  | Some b => b
  | None => get_use_cache env (plugin_type_string (klass obj))
  end = true ->
  _get_same_node env n w = Ok (Some c) ->
  stored_link_triples env (Some c) [RETURN] None Outgoing w ≠ [] ->
  ∃ e w' row,
    store env (S fuel) wt n uc w = (Raise e, w')
    ∧ (e = ValueError ∨ e = ValidationError)
    ∧ db_nodes w !! c = Some row
    ∧ (copied_keys_valid env (map_to_list (db_attributes row)) ->
       e = ValueError)
    ∧ (∃ obj', heap w' !! n = Some obj' ∧ _to_be_stored obj' = true)
    ∧ db_nodes w' = db_nodes w
    ∧ db_links w' = db_links w.
Proof.
  intros Hn Hu Hst Hv Hp Huc Hsame Hret.
  destruct (same_node_row env n obj c w Hn Hsame) as (row & Hrow & Htype).
  destruct (store_from_cache_rejected env (store env fuel wt) n c obj row w
              Hn Hu Hrow Htype Hret)
    as (e & w' & Hrun & (Hd & Hl & obj' & Hn' & Hu' & _) & He & Hvalid).
  exists e, w', row. split.
  - cbn [store]. rewrite (bind_ok _ _ _ _ _ (get_obj_some _ _ _ Hn)), Hst.
    cbn [negb]. rewrite bind_run. unfold reading at 1. rewrite Hv, Hu.
    rewrite bind_run. unfold reading at 1. rewrite Hp, Huc.
    rewrite bind_run. unfold reading at 1. rewrite Hsame.
    rewrite bind_run, bind_run, Hrun. reflexivity.
  - split; [exact He|]. split; [exact Hrow|]. split; [exact Hvalid|].
    split; [exists obj'; split; assumption|]. split; assumption.
Qed.

(** ** Storing: the scenarios *)

Lemma prestore_world_built :
  (a ← new_node PlainNode;
   _set_attr (test_env false) a "bool" (Plain (JBool true)) true true;;
   _set_attr (test_env false) a "integer" (Plain (JInt 123)) true true)
    empty_world
  = (Ok tt, prestore_world).
Proof. vm_compute. reflexivity. Qed.

Lemma return_world_built :
  return_program (test_env false) empty_world = (Ok 2, return_world).
Proof. vm_compute. reflexivity. Qed.

Lemma grandparents_world_built :
  grandparents_program (test_env false) empty_world
  = (Ok tt, grandparents_world).
Proof. vm_compute. reflexivity. Qed.

Lemma parent_stored_world_built :
  store (test_env false) 3 true 0 None grandparents_world
  = (Ok tt, parent_stored_world).
Proof. vm_compute. reflexivity. Qed.

Lemma second_store_is_noop_witness :
  let env := test_env false in
  store env 1 true 0 None stored_world = (Ok tt, stored_world)
  ∧ store_all env 1 0 true None stored_world
    = (Raise ModificationNotAllowed, stored_world).
Proof.
  intros env.
  destruct (second_store_is_noop env 3 0 true true None None 0
              prestore_world stored_world)
    as (H1 & _ & H3); [vm_compute; reflexivity|].
  split; [exact H1|].
  destruct (second_store_is_noop env 3 1 true true None None 0
              prestore_world stored_world)
    as (_ & _ & H3'); [vm_compute; reflexivity|].
  exact H3'.
Defined.

(** The second [store()] of [a = Node(); ...; a.store()] returns normally. *)
Lemma second_store_returns_normally :
  let env := test_env false in
  stored_node_program env empty_world = (Ok 0, stored_world)
  ∧ store env 3 true 0 None stored_world = (Ok tt, stored_world)
  ∧ outcome (store env 3 true 0 None) stored_world
    ≠ Raise ModificationNotAllowed.
Proof.
  intros env. split; [vm_compute; reflexivity|].
  split; [vm_compute; reflexivity|]. vm_compute. discriminate.
Qed.

Lemma cache_with_return_links_rejected_witness :
  let env := test_env false in
  ∃ w', store env 3 true 2 (Some true) return_world = (Raise ValueError, w')
        ∧ (∃ obj', heap w' !! 2 = Some obj' ∧ _to_be_stored obj' = true)
        ∧ db_nodes w' = db_nodes return_world
        ∧ db_links w' = db_links return_world.
Proof.
  intros env.
  destruct (cache_with_return_links_rejected env 2 true 2 (Some true)
              return_world (fresh_obj 3 CalculationClass) 1)
    as (e & w' & row & Hrun & _ & Hrow & He & Hobj & Hd & Hl);
    try (vm_compute; reflexivity).
  - vm_compute. discriminate.
  - exists w'. assert (e = ValueError) as ->.
    { assert (Hc : outcome (store env 3 true 2 (Some true)) return_world
                   = Raise ValueError) by (vm_compute; reflexivity).
      unfold outcome in Hc. rewrite Hrun in Hc. injection Hc as ->.
      reflexivity. }
    repeat split; assumption.
Defined.

(** With caching enabled and an equivalent node that has a RETURN link,
    [store] raises ValueError and nothing is persisted. *)
Lemma cached_store_with_return_link_fails :
  let env := test_env false in
  let w' := run (store env 3 true 2 (Some true)) return_world in
  _get_same_node env 2 return_world = Ok (Some 1)
  ∧ stored_link_triples env (Some 1) [RETURN] None Outgoing return_world
    = [(2, RETURN, "result")]
  ∧ outcome (store env 3 true 2 (Some true)) return_world = Raise ValueError
  ∧ (_to_be_stored <$> heap w' !! 2) = Some true
  ∧ dom (db_nodes w') = dom (db_nodes return_world).
Proof. intros env w'. repeat split; vm_compute; reflexivity. Qed.

Lemma links_closed_grandparents : links_closed grandparents_world.
Proof. apply (bool_decide_unpack _). vm_compute. exact I. Qed.

Lemma links_closed_parent_stored : links_closed parent_stored_world.
Proof. apply (bool_decide_unpack _). vm_compute. exact I. Qed.

Lemma unstored_parents_block_store_witness :
  let env := test_env false in
  store env 3 true 2 None grandparents_world
    = (Raise ModificationNotAllowed, grandparents_world)
  ∧ store_all env 3 2 true None grandparents_world
    = (Raise ModificationNotAllowed, grandparents_world)
  ∧ ∃ w', store_all env 3 2 true None parent_stored_world = (Ok tt, w')
          ∧ (∃ c, stored_in w' 1 c) ∧ (∃ c, stored_in w' 2 c).
Proof.
  intros env.
  destruct (unstored_parents_block_store env grandparents_world 2
              (linked_obj 3 PlainNode [mkTriple 1 INPUT "N2"]))
    as (Ha & Hb & _);
    [reflexivity | reflexivity | exact links_closed_grandparents |].
  split.
  { apply (Ha 2 true None (mkTriple 1 INPUT "N2")
              (linked_obj 2 PlainNode [mkTriple 0 INPUT "N1"]));
      try reflexivity. apply list_elem_of_here. }
  split.
  { apply (Hb 3 true None (mkTriple 1 INPUT "N2")
              (linked_obj 2 PlainNode [mkTriple 0 INPUT "N1"])
              (mkTriple 0 INPUT "N1") (fresh_obj 1 PlainNode));
      try reflexivity; apply list_elem_of_here. }
  destruct (unstored_parents_block_store env parent_stored_world 2
              (linked_obj 3 PlainNode [mkTriple 1 INPUT "N2"]))
    as (_ & _ & Hc);
    [reflexivity | reflexivity | exact links_closed_parent_stored |].
  exists (run (store_all env 3 2 true None) parent_stored_world).
  destruct (Hc 3 true None
              (run (store_all env 3 2 true None) parent_stored_world))
    as (w1 & w2 & _ & _ & _ & _ & Hn & Hsrc); [vm_compute; reflexivity|].
  split; [vm_compute; reflexivity|]. split; [|exact Hn].
  apply (Hsrc (mkTriple 1 INPUT "N2")). apply list_elem_of_here.
Defined.

Lemma bare_child_world_built :
  bare_child_program (test_env false) empty_world = (Ok tt, bare_child_world).
Proof. vm_compute. reflexivity. Qed.

(** [store()] looks at [_storable] and runs [_validate] before it looks at
    the sources of the cached links: with an unstored source, a bare node of
    the base class fails with StoringNotAllowed and a node that is not valid
    with ValidationError. *)
Lemma store_refuses_before_the_parents_check :
  let env := test_env false in
  (_to_be_stored <$> heap bare_child_world !! 0) = Some true
  ∧ (_incoming_cache <$> heap bare_child_world !! 1)
    = Some [mkTriple 0 INPUT "N1"]
  ∧ (_to_be_stored <$> heap bare_child_world !! 1) = Some true
  ∧ store env 3 true 1 None bare_child_world
    = (Raise StoringNotAllowed, bare_child_world)
  ∧ (_incoming_cache <$> heap bare_child_world !! 2)
    = Some [mkTriple 0 INPUT "N1"]
  ∧ (_to_be_stored <$> heap bare_child_world !! 2) = Some true
  ∧ store env 3 true 2 None bare_child_world
    = (Raise ValidationError, bare_child_world).
Proof. intros env. repeat split; vm_compute; reflexivity. Qed.

(** ** The closure computes reachability *)

Lemma elem_of_successors `{Countable V} (E : list (V * V)) (S : gset V)
    (x : V) :
  x ∈ successors E S ↔ ∃ a, a ∈ S ∧ edge E a x.
Proof.
  unfold successors, edge. rewrite elem_of_list_to_set, list_elem_of_fmap.
  split.
  - intros ([a b] & -> & Hin). apply list_elem_of_filter in Hin as [Ha Hin].
    exists a. split; [exact Ha | exact Hin].
  - intros (a & Ha & Hin). exists (a, x). split; [reflexivity|].
    apply list_elem_of_filter. split; [exact Ha | exact Hin].
Qed.

Lemma successors_targets `{Countable V} (E : list (V * V)) (S : gset V) :
  successors E S ⊆ targets E.
Proof.
  intros x Hx. apply elem_of_successors in Hx as (a & _ & Hin).
  unfold targets. rewrite elem_of_list_to_set, list_elem_of_fmap.
  exists (a, x). split; [reflexivity | exact Hin].
Qed.

Lemma size_list_to_set_le `{Countable V} (l : list V) :
  (size (list_to_set l : gset V) ≤ length l)%nat.
Proof.
  induction l as [|x l IH]; cbn [list_to_set length].
  - rewrite size_empty. lia.
  - rewrite size_union_alt, size_singleton.
    pose proof (subseteq_size (list_to_set l ∖ {[x]}) (list_to_set l : gset V)
                  ltac:(set_solver)).
    lia.
Qed.

Lemma size_targets `{Countable V} (E : list (V * V)) : (size (targets E) ≤ length E)%nat.
Proof.
  unfold targets. etrans; [apply size_list_to_set_le|].
  rewrite length_fmap. reflexivity.
Qed.

(** Everything the expansion returns is reachable from what it started
    with. *)
Lemma expand_sound `{Countable V} (E : list (V * V)) (P : V -> Prop) :
  (∀ a b, P a -> edge E a b -> P b) ->
  ∀ fuel frontier visited,
    (∀ v, v ∈ visited -> P v) -> frontier ⊆ visited ->
    ∀ x, x ∈ expand E fuel frontier visited -> P x.
Proof.
  intros Hstep. induction fuel as [|fuel IH];
    intros frontier visited Hvis Hsub x; cbn [expand].
  - apply Hvis.
  - destruct (decide (successors E frontier ∖ visited = ∅)); [apply Hvis|].
    apply IH.
    + intros v Hv. apply elem_of_union in Hv as [Hv|Hv]; [apply Hvis, Hv|].
      apply elem_of_difference in Hv as [Hv _].
      apply elem_of_successors in Hv as (a & Ha & Hedge).
      exact (Hstep a v (Hvis a (Hsub a Ha)) Hedge).
    + set_solver.
Qed.

(** The expansion ends with a set that is closed under the edges. *)
Lemma expand_closed `{Countable V} (E : list (V * V)) :
  ∀ fuel frontier visited,
    (size (targets E ∖ visited) < fuel)%nat ->
    frontier ⊆ visited ->
    (∀ a b, a ∈ visited -> a ∉ frontier -> edge E a b -> b ∈ visited) ->
    visited ⊆ expand E fuel frontier visited
    ∧ ∀ a b, a ∈ expand E fuel frontier visited -> edge E a b ->
             b ∈ expand E fuel frontier visited.
Proof.
  induction fuel as [|fuel IH]; intros frontier visited Hsize Hsub Hclosed;
    [lia|].
  cbn [expand].
  destruct (decide (successors E frontier ∖ visited = ∅)) as [Hempty|Hnew].
  - split; [reflexivity|]. intros a b Ha Hedge.
    destruct (decide (a ∈ frontier)) as [Hf|Hf].
    + destruct (decide (b ∈ visited)) as [Hb|Hb]; [exact Hb|].
      assert (b ∈ successors E frontier ∖ visited) as Hin.
      { apply elem_of_difference. split; [|exact Hb].
        apply elem_of_successors. eauto. }
      rewrite Hempty in Hin. set_solver.
    + exact (Hclosed a b Ha Hf Hedge).
  - set (new := successors E frontier ∖ visited) in *.
    destruct (IH new (visited ∪ new)) as (Hincl & Hcl).
    + assert (Hne : ∃ x, x ∈ new).
      { apply set_choose_L. exact Hnew. }
      destruct Hne as (x & Hx).
      assert (Hxt : x ∈ targets E ∖ visited).
      { apply elem_of_difference in Hx as [Hx Hnv].
        apply elem_of_difference. split; [|exact Hnv].
        exact (successors_targets E frontier x Hx). }
      assert (Hlt : targets E ∖ (visited ∪ new) ⊂ targets E ∖ visited).
      { split; [set_solver|]. intros Hsubset.
        specialize (Hsubset x Hxt). set_solver. }
      apply subset_size in Hlt. lia.
    + set_solver.
    + intros a b Ha Hnf Hedge.
      apply elem_of_union in Ha as [Ha|Ha]; [|contradiction].
      destruct (decide (a ∈ frontier)) as [Hf|Hf].
      * destruct (decide (b ∈ visited)) as [Hb|Hb]; [set_solver|].
        apply elem_of_union. right. apply elem_of_difference.
        split; [|exact Hb]. apply elem_of_successors. eauto.
      * apply elem_of_union. left. exact (Hclosed a b Ha Hf Hedge).
    + split; [set_solver | exact Hcl].
Qed.

(** The closure is the set of the vertices reachable from the roots. *)
Lemma elem_of_closure `{Countable V} (E : list (V * V)) (roots : gset V)
    (x : V) :
  x ∈ closure E roots ↔ ∃ r, r ∈ roots ∧ rtc (edge E) r x.
Proof.
  unfold closure. split.
  - apply (expand_sound E (fun x => ∃ r, r ∈ roots ∧ rtc (edge E) r x)).
    + intros a b (r & Hr & Hra) Hedge. exists r. split; [exact Hr|].
      exact (rtc_r _ _ _ Hra Hedge).
    + intros v Hv. exists v. split; [exact Hv | apply rtc_refl].
    + reflexivity.
  - intros (r & Hr & Hpath).
    destruct (expand_closed E (S (length E)) roots roots) as (Hincl & Hcl).
    + pose proof (size_targets E).
      pose proof (subseteq_size (targets E ∖ roots) (targets E)
                    ltac:(set_solver)).
      lia.
    + reflexivity.
    + intros a b Ha Hna. contradiction.
    + induction Hpath as [x|a b c Hab Hbc IHp].
      * apply Hincl, Hr.
      * (* walk from the far end *)
        clear IHp. revert Hab Hr. revert a.
        assert (Hgen : ∀ b c, rtc (edge E) b c ->
                  b ∈ expand E (S (length E)) roots roots ->
                  c ∈ expand E (S (length E)) roots roots).
        { intros b0 c0 Hp. induction Hp as [|p q s Hpq Hqs IHq];
            [trivial|].
          intros Hp. apply IHq. exact (Hcl p q Hp Hpq). }
        intros a Hab Hr. apply (Hgen b c Hbc).
        exact (Hcl a b (Hincl a Hr) Hab).
Qed.


(** ** The provenance graph *)

Lemma elem_of_stored_edges (w : World) (a b : NodeRef) :
  (a, b) ∈ stored_edges w
  ↔ ∃ l, l ∈ db_links w ∧ is_provenance (l_type l) = true
         ∧ a = inr (l_source l) ∧ b = inr (l_target l).
Proof.
  unfold stored_edges. rewrite list_elem_of_fmap. split.
  - intros (l & [= -> ->] & Hin). apply list_elem_of_filter in Hin as [Hp Hin].
    exists l. repeat split; assumption.
  - intros (l & Hin & Hp & -> & ->). exists l. split; [reflexivity|].
    apply list_elem_of_filter. split; assumption.
Qed.

Lemma elem_of_cached_edges (w : World) (a b : NodeRef) :
  (a, b) ∈ cached_edges w
  ↔ ∃ o obj t, heap w !! o = Some obj ∧ t ∈ _incoming_cache obj
               ∧ is_provenance (link_type t) = true
               ∧ a = vertex w (node t) ∧ b = vertex w o.
Proof.
  unfold cached_edges. rewrite list_elem_of_bind. split.
  - intros ([o obj] & Hin & Hmap). apply elem_of_map_to_list in Hmap.
    unfold cached_edges_of in Hin. cbn [fst snd] in Hin.
    apply list_elem_of_fmap in Hin as (t & [= -> ->] & Hin).
    apply list_elem_of_filter in Hin as [Hp Hin].
    exists o, obj, t. repeat split; assumption.
  - intros (o & obj & t & Hn & Hin & Hp & -> & ->). exists (o, obj).
    split; [|apply elem_of_map_to_list; exact Hn].
    unfold cached_edges_of. cbn [fst snd]. apply list_elem_of_fmap.
    exists t. split; [reflexivity|]. apply list_elem_of_filter.
    split; assumption.
Qed.

Lemma prov_edge_iff (w : World) (a b : NodeRef) :
  prov_edge w a b
  ↔ (∃ l, l ∈ db_links w ∧ is_provenance (l_type l) = true
          ∧ a = inr (l_source l) ∧ b = inr (l_target l))
    ∨ (∃ o obj t, heap w !! o = Some obj ∧ t ∈ _incoming_cache obj
                  ∧ is_provenance (link_type t) = true
                  ∧ a = vertex w (node t) ∧ b = vertex w o).
Proof.
  unfold prov_edge, edge, prov_edges.
  rewrite elem_of_app, elem_of_stored_edges, elem_of_cached_edges.
  reflexivity.
Qed.

(** Adding one edge from [s] to [t] when no path leads from [t] to [s]. *)
Lemma rtc_added_edge {A} (R R' : relation A) (s t : A) :
  (∀ a b, R' a b -> R a b ∨ (a = s ∧ b = t)) ->
  ∀ x y, rtc R' x y -> rtc R x y ∨ (rtc R x s ∧ rtc R t y).
Proof.
  intros Hadd x y Hpath. induction Hpath as [x|x y z Hxy Hyz IH].
  - left. apply rtc_refl.
  - destruct (Hadd x y Hxy) as [Hold|[-> ->]].
    + destruct IH as [IH|[IH1 IH2]].
      * left. exact (rtc_l _ _ _ _ Hold IH).
      * right. split; [exact (rtc_l _ _ _ _ Hold IH1) | exact IH2].
    + destruct IH as [IH|[IH1 IH2]].
      * right. split; [apply rtc_refl | exact IH].
      * right. split; [apply rtc_refl | exact IH2].
Qed.

Lemma tc_first_step {A} (R : relation A) (x z : A) :
  tc R x z -> ∃ y, R x y ∧ rtc R y z.
Proof.
  intros [x' z' Hxz|x' y z' Hxy Hyz].
  - exists z'. split; [exact Hxz | apply rtc_refl].
  - exists y. split; [exact Hxy | apply tc_rtc, Hyz].
Qed.

Lemma acyclic_added_edge {A} (R R' : relation A) (s t : A) :
  (∀ a b, R' a b -> R a b ∨ (a = s ∧ b = t)) ->
  ¬ rtc R t s ->
  (∀ v, ¬ tc R v v) -> ∀ v, ¬ tc R' v v.
Proof.
  intros Hadd Hno Hacyc v Hcycle.
  apply tc_first_step in Hcycle as (y & Hvy & Hyv).
  apply (rtc_added_edge R R' s t Hadd) in Hyv.
  destruct (Hadd v y Hvy) as [Hold|[-> ->]].
  - destruct Hyv as [Hyv|[Hys Htv]].
    + apply (Hacyc v). apply rtc_tc in Hyv as [->|Hyv].
      * apply tc_once, Hold.
      * exact (tc_l _ _ _ _ Hold Hyv).
    + apply Hno. etrans; [exact Htv|]. exact (rtc_l _ _ _ _ Hold Hys).
  - destruct Hyv as [Hyv|[Hys _]]; apply Hno; assumption.
Qed.

Lemma acyclic_same_edges {A} (R R' : relation A) :
  (∀ a b, R' a b -> R a b) -> (∀ v, ¬ tc R v v) -> ∀ v, ¬ tc R' v v.
Proof.
  intros Hsub Hacyc v Hcycle. apply (Hacyc v).
  assert (Hmono : ∀ x y, tc R' x y -> tc R x y).
  { intros x y Hxy. induction Hxy as [x y Hxy|x y z Hxy _ IH].
    - apply tc_once, Hsub, Hxy.
    - exact (tc_l _ _ _ _ (Hsub _ _ Hxy) IH). }
  apply Hmono, Hcycle.
Qed.

Lemma vertex_ext (w w' : World) :
  (∀ o, (id <$> heap w' !! o) = (id <$> heap w !! o)) ->
  ∀ o, vertex w' o = vertex w o.
Proof.
  intros Hid o. unfold vertex. specialize (Hid o).
  destruct (heap w' !! o) as [obj'|], (heap w !! o) as [obj|];
    cbn in Hid; try discriminate; [|reflexivity].
  injection Hid as ->. reflexivity.
Qed.

Lemma existsb_link_key (ps pt : pk) (lbl : string) (ls : list DbLink) :
  existsb (fun l => bool_decide (l_source l = ps ∧ l_target l = pt
                                 ∧ l_label l = lbl)) ls = true
  ↔ (ps, pt, lbl) ∈ link_key <$> ls.
Proof.
  rewrite existsb_exists, list_elem_of_fmap. split.
  - intros (l & Hin & Hl). apply bool_decide_eq_true in Hl as (<- & <- & <-).
    exists l. split; [reflexivity | apply list_elem_of_In, Hin].
  - intros (l & [= -> -> ->] & Hin). exists l.
    split; [apply list_elem_of_In, Hin|].
    apply bool_decide_eq_true. repeat split.
Qed.

Lemma add_incoming_run (env : Env) (self source : oid) (lt : LinkType)
    (lbl : string) (w w' : World) (r : Res unit) :
  add_incoming env self source lt lbl w = (r, w') ->
  (∃ e, r = Raise e ∧ w' = w)
  ∨ (r = Ok tt ∧ validate_link env source self lt lbl w = Ok tt
     ∧ link_added self source lt lbl w w').
Proof.
  unfold add_incoming, validate_incoming, validate_outgoing.
  rewrite bind_run. unfold reading at 1.
  destruct (validate_link env source self lt lbl w) as [[]|e] eqn:Hval;
    [|intros [= <- <-]; left; eauto].
  rewrite bind_run. cbn [mret M_ret ret].
  rewrite bind_run. unfold get_obj at 1.
  destruct (heap w !! self) as [t|] eqn:Ht;
    [|intros [= <- <-]; left; eauto].
  rewrite bind_run. unfold get_obj at 1.
  destruct (heap w !! source) as [s|] eqn:Hs;
    [|intros [= <- <-]; left; eauto].
  destruct (is_stored t && is_stored s).
  - unfold _add_dblink_from.
    rewrite (bind_ok _ _ _ _ _ (get_obj_some _ _ _ Ht)).
    rewrite (bind_ok _ _ _ _ _ (get_obj_some _ _ _ Hs)).
    destruct (id t) as [pt|] eqn:Hpt; [|intros [= <- <-]; left; eauto].
    destruct (id s) as [ps|] eqn:Hps; [|intros [= <- <-]; left; eauto].
    rewrite bind_run. cbn [gets].
    destruct (existsb _ _) eqn:Hdup; [intros [= <- <-]; left; eauto|].
    intros [= <- <-]. right. split; [reflexivity|]. split; [reflexivity|].
    apply (added_to_db _ _ _ _ _ _ t s pt ps Ht Hs Hpt Hps); [|reflexivity].
    intros Hin. apply existsb_link_key in Hin. congruence.
  - unfold _add_cachelink_from.
    rewrite (bind_ok _ _ _ _ _ (get_obj_some _ _ _ Ht)).
    destruct (bool_decide _) eqn:Hdup; [intros [= <- <-]; left; eauto|].
    apply bool_decide_eq_false in Hdup.
    intros [= <- <-]. right. split; [reflexivity|]. split; [reflexivity|].
    exact (added_to_cache _ _ _ _ _ _ t Ht Hdup eq_refl).
Qed.

Lemma link_added_vertex (self source : oid) (lt : LinkType) (lbl : string)
    (w w' : World) :
  link_added self source lt lbl w w' -> ∀ o, vertex w' o = vertex w o.
Proof.
  intros [t s pt ps Ht Hs Hpt Hps Hnew ->|t Ht Hdup ->]; apply vertex_ext;
    intros o.
  - reflexivity.
  - cbn. destruct (decide (self = o)) as [<-|Hne].
    + rewrite lookup_insert_eq, Ht. reflexivity.
    + rewrite lookup_insert_ne by exact Hne. reflexivity.
Qed.

Lemma link_added_edges (self source : oid) (lt : LinkType) (lbl : string)
    (w w' : World) (a b : NodeRef) :
  link_added self source lt lbl w w' ->
  prov_edge w' a b ->
  prov_edge w a b
  ∨ (is_provenance lt = true ∧ a = vertex w source ∧ b = vertex w self).
Proof.
  intros Hadd Hedge. pose proof (link_added_vertex _ _ _ _ _ _ Hadd) as Hv.
  apply prov_edge_iff in Hedge. rewrite (prov_edge_iff w).
  destruct Hadd as [t s pt ps Ht Hs Hpt Hps Hnew ->|t Ht Hdup ->].
  - destruct Hedge as [(l & Hin & Hp & -> & ->)|Hc].
    + cbn in Hin. apply elem_of_app in Hin as [Hin|Hin].
      * left. left. exists l. repeat split; assumption.
      * apply list_elem_of_singleton in Hin as ->. cbn in Hp. right.
        split; [exact Hp|]. unfold vertex. rewrite Hs, Ht, Hpt, Hps.
        split; reflexivity.
    + left. right. destruct Hc as (o & obj & tr & Hn & Hin & Hp & -> & ->).
      exists o, obj, tr. rewrite !Hv. repeat split; assumption.
  - destruct Hedge as [Hd|(o & obj & tr & Hn & Hin & Hp & -> & ->)].
    + left. left. exact Hd.
    + rewrite !Hv. cbn in Hn. destruct (decide (self = o)) as [<-|Hne].
      * rewrite lookup_insert_eq in Hn. injection Hn as <-. cbn in Hin.
        apply elem_of_app in Hin as [Hin|Hin].
        { left. right. exists self, t, tr. repeat split; assumption. }
        apply list_elem_of_singleton in Hin as ->. cbn in Hp. right.
        repeat split. exact Hp.
      * rewrite lookup_insert_ne in Hn by exact Hne.
        left. right. exists o, obj, tr. repeat split; assumption.
Qed.

Lemma validate_link_no_path (env : Env) (source target : oid)
    (lt : LinkType) (lbl : string) (w : World) :
  validate_link env source target lt lbl w = Ok tt ->
  is_provenance lt = true ->
  ¬ rtc (prov_edge w) (vertex w target) (vertex w source).
Proof.
  unfold validate_link. intros Hval Hp Hpath.
  destruct (read_obj source w); [|discriminate].
  destruct (read_obj target w); [|discriminate].
  destruct (negb _); [discriminate|].
  rewrite Hp in Hval. cbn [andb] in Hval.
  destruct (bool_decide _) eqn:Hreach; [discriminate|].
  apply bool_decide_eq_false in Hreach. apply Hreach.
  apply elem_of_closure. exists (vertex w target).
  split; [apply elem_of_singleton; reflexivity | exact Hpath].
Qed.

Lemma validate_link_cycle (env : Env) (source target : oid)
    (lt : LinkType) (lbl : string) (w : World) :
  is_Some (heap w !! source) -> is_Some (heap w !! target) ->
  is_provenance lt = true ->
  rtc (prov_edge w) (vertex w target) (vertex w source) ->
  validate_link env source target lt lbl w = Raise ValueError.
Proof.
  intros [s Hs] [t Ht] Hp Hpath. unfold validate_link.
  rewrite (read_obj_some _ _ _ Hs), (read_obj_some _ _ _ Ht).
  destruct (negb _); [reflexivity|].
  rewrite Hp. cbn [andb].
  rewrite bool_decide_eq_true_2; [reflexivity|].
  apply elem_of_closure. exists (vertex w target).
  split; [apply elem_of_singleton; reflexivity | exact Hpath].
Qed.

(** C5: [add_incoming] of a provenance link (INPUT or CREATE) whose
    source is reachable from the target over the stored and cached
    provenance links raises ValueError; a failed [add_incoming] leaves the
    world, and so every existing link, as it was; and whatever its outcome,
    [add_incoming] keeps the provenance graph acyclic. *)
Theorem provenance_links_stay_acyclic (env : Env) (self source : oid)
    (lt : LinkType) (lbl : string) (w : World) :
  (is_provenance lt = true ->
   is_Some (heap w !! self) -> is_Some (heap w !! source) ->
   rtc (prov_edge w) (vertex w self) (vertex w source) ->
   add_incoming env self source lt lbl w = (Raise ValueError, w))
  ∧ (∀ e w', add_incoming env self source lt lbl w = (Raise e, w') -> w' = w)
  ∧ (∀ r w', acyclic w ->
             add_incoming env self source lt lbl w = (r, w') -> acyclic w').
Proof.
  split; [|split].
  - intros Hp Hself Hsource Hpath. unfold add_incoming, validate_incoming.
    rewrite bind_run. unfold reading at 1.
    rewrite (validate_link_cycle env source self lt lbl w Hsource Hself Hp
               Hpath).
    reflexivity.
  - intros e w' Hrun.
    destruct (add_incoming_run env _ _ _ _ _ _ _ Hrun)
      as [(e' & _ & ->)|(Hr & _)]; [reflexivity | discriminate].
  - intros r w' Hacyc Hrun.
    destruct (add_incoming_run env _ _ _ _ _ _ _ Hrun)
      as [(e' & _ & ->)|(_ & Hval & Hadd)]; [exact Hacyc|].
    unfold acyclic in *.
    destruct (is_provenance lt) eqn:Hp.
    + apply (acyclic_added_edge (prov_edge w) (prov_edge w')
               (vertex w source) (vertex w self)).
      * intros a b Hedge.
        destruct (link_added_edges _ _ _ _ _ _ a b Hadd Hedge)
          as [Hold|(_ & -> & ->)]; [left; exact Hold | right; split; reflexivity].
      * exact (validate_link_no_path env source self lt lbl w Hval Hp).
      * exact Hacyc.
    + apply (acyclic_same_edges (prov_edge w) (prov_edge w')); [|exact Hacyc].
      intros a b Hedge.
      destruct (link_added_edges _ _ _ _ _ _ a b Hadd Hedge)
        as [Hold|(Hp' & _)]; [exact Hold | congruence].
Qed.

(** ** Uniqueness of the incoming links *)

Lemma link_added_unique (self source : oid) (lt : LinkType) (lbl : string)
    (w w' : World) :
  link_added self source lt lbl w w' ->
  caches_unique w -> db_unique w -> caches_unique w' ∧ db_unique w'.
Proof.
  intros [t s pt ps Ht Hs Hpt Hps Hnew ->|t Ht Hdup ->] Hc Hd.
  - split; [exact Hc|]. unfold db_unique. cbn. rewrite fmap_app.
    apply NoDup_app. split; [exact Hd|]. split.
    + intros k Hk Hk'. cbn in Hk'. apply list_elem_of_singleton in Hk' as ->.
      exact (Hnew Hk).
    + cbn. apply NoDup_singleton.
  - split; [|exact Hd]. unfold caches_unique. cbn.
    apply map_Forall_insert_2; [|exact Hc]. cbn.
    apply NoDup_app. split; [exact (Hc _ _ Ht)|]. split.
    + intros k Hk Hk'. apply list_elem_of_singleton in Hk' as ->.
      exact (Hdup Hk).
    + apply NoDup_singleton.
Qed.


(** ** Links: the scenarios *)

Lemma chain_nodes_built :
  chain_nodes_program (test_env false) empty_world = (Ok tt, chain_with []).
Proof. vm_compute. reflexivity. Qed.

Lemma stale_cache_world_built :
  stale_cache_program (test_env false) empty_world
  = (Ok tt, stale_cache_world).
Proof. vm_compute. reflexivity. Qed.

Lemma acyclic_no_links : acyclic (chain_with []).
Proof.
  intros v Hcycle. apply tc_first_step in Hcycle as (y & Hedge & _).
  unfold prov_edge, edge in Hedge. vm_compute in Hedge.
  inversion Hedge.
Qed.

Lemma provenance_links_stay_acyclic_witness :
  let env := test_env false in
  add_incoming env 0 3 CREATE "d" chain_world = (Raise ValueError, chain_world)
  ∧ acyclic chain_world.
Proof.
  intros env. split.
  - destruct (provenance_links_stay_acyclic env 0 3 CREATE "d" chain_world)
      as (H1 & _ & _).
    apply H1; [reflexivity | vm_compute; eauto | vm_compute; eauto |].
    assert (Hin : vertex chain_world 3
                  ∈ closure (prov_edges chain_world) {[vertex chain_world 0]}).
    { apply (bool_decide_unpack _). vm_compute. exact I. }
    apply elem_of_closure in Hin as (r & Hr & Hpath).
    apply elem_of_singleton in Hr as ->. exact Hpath.
  - pose proof acyclic_no_links as H0.
    destruct (provenance_links_stay_acyclic env 1 0 CREATE "a" (chain_with []))
      as (_ & _ & Ha).
    specialize (Ha (Ok tt) (chain_with [mkLink 1 2 CREATE "a"]) H0
                   ltac:(vm_compute; reflexivity)).
    destruct (provenance_links_stay_acyclic env 2 1 CREATE "b"
                (chain_with [mkLink 1 2 CREATE "a"]))
      as (_ & _ & Hb).
    specialize (Hb (Ok tt)
                   (chain_with [mkLink 1 2 CREATE "a"; mkLink 2 3 CREATE "b"])
                   Ha ltac:(vm_compute; reflexivity)).
    destruct (provenance_links_stay_acyclic env 3 2 CREATE "c"
                (chain_with [mkLink 1 2 CREATE "a"; mkLink 2 3 CREATE "b"]))
      as (_ & _ & Hc).
    exact (Hc (Ok tt) chain_world Hb ltac:(vm_compute; reflexivity)).
Defined.


Lemma created_world_built :
  created_program (test_env false) empty_world = (Ok tt, created_world).
Proof. vm_compute. reflexivity. Qed.


(** A stored node that cached a link from a source stored only later: the
    same call goes to the link table now, where there is no such link. *)
Lemma add_incoming_repeats_cached_triple :
  let env := test_env false in
  let w' := run (add_incoming env 0 1 CALL "l") stale_cache_world in
  (_incoming_cache <$> heap stale_cache_world !! 0)
    = Some [mkTriple 1 CALL "l"]
  ∧ outcome (add_incoming env 0 1 CALL "l") stale_cache_world = Ok tt
  ∧ (_incoming_cache <$> heap w' !! 0) = Some [mkTriple 1 CALL "l"]
  ∧ db_links w' = [mkLink 2 1 CALL "l"]
  ∧ vertex w' 1 = inr 2.
Proof. intros env w'. repeat split; vm_compute; reflexivity. Qed.

(** ** Deletion *)

Lemma calls_n_returns_world_built :
  calls_n_returns_program (test_env false) empty_world
  = (Ok tt, calls_n_returns_world).
Proof. vm_compute. reflexivity. Qed.

Lemma two_inputs_world_built :
  add_incoming (test_env false) 2 1 INPUT "in2" calls_n_returns_world
  = (Ok tt, two_inputs_world).
Proof. vm_compute. reflexivity. Qed.

(** The members of the closure are the nodes that the followed links reach
    from the roots. *)
Lemma elem_of_deletion_closure (pks : list pk) (fc fr : bool) (w : World)
    (p : pk) :
  p ∈ deletion_closure pks fc fr w
  ↔ ∃ r, r ∈ pks ∧ rtc (edge (deletion_edges fc fr w)) r p.
Proof.
  unfold deletion_closure. rewrite elem_of_closure.
  split; intros (r & Hr & Hpath); exists r; split; try exact Hpath.
  - apply elem_of_list_to_set in Hr. exact Hr.
  - apply elem_of_list_to_set. exact Hr.
Qed.

(** Deletion removes the rows of the closure and no other. *)
Lemma delete_nodes_rows (pks : list pk) (fc fr : bool) (w : World) (p : pk) :
  let w' := run (delete_nodes pks fc fr) w in
  (p ∈ deletion_closure pks fc fr w -> db_nodes w' !! p = None)
  ∧ (p ∉ deletion_closure pks fc fr w -> db_nodes w' !! p = db_nodes w !! p).
Proof.
  cbn. split; intros Hp.
  - apply map_lookup_filter_None. right. intros r _ Hn. exact (Hn Hp).
  - destruct (db_nodes w !! p) as [r|] eqn:Hr.
    + apply map_lookup_filter_Some. split; [exact Hr | exact Hp].
    + apply map_lookup_filter_None. left. exact Hr.
Qed.

(** C4: on the graph of [_create_calls_n_returns_graph] (keys: I1=1, I2=2,
    W=3, S1=4, O1=5, O2=6, S2=7, O3=8, O4=9), with or without the link
    from I2 to W, deleting W removes exactly {W, S1, S2, O1, O2, O3, O4}
    when calls and returns are followed, {W, O3} when neither is, and
    {W, O3, O2, O4} when only returns are; the removed nodes are then not
    found by [load_node] and the other nodes are. *)
Theorem deletion_of_workflow_graph :
  Forall (fun w =>
    deletion_closure [3] true true w = {[3; 4; 7; 5; 6; 8; 9]}
    ∧ dom (db_nodes (after_delete true true w)) = {[1; 2]}
    ∧ lookups [3; 4; 7; 5; 6; 8; 9] (after_delete true true w)
      = replicate 7 (Raise NotExistent)
    ∧ lookups [1; 2] (after_delete true true w) = [Ok 1; Ok 2]
    ∧ deletion_closure [3] false false w = {[3; 8]}
    ∧ dom (db_nodes (after_delete false false w)) = {[1; 2; 4; 5; 6; 7; 9]}
    ∧ lookups [3; 8] (after_delete false false w)
      = replicate 2 (Raise NotExistent)
    ∧ lookups [1; 2; 4; 5; 6; 7; 9] (after_delete false false w)
      = [Ok 1; Ok 2; Ok 4; Ok 5; Ok 6; Ok 7; Ok 9]
    ∧ deletion_closure [3] false true w = {[3; 8; 6; 9]}
    ∧ dom (db_nodes (after_delete false true w)) = {[1; 2; 4; 5; 7]}
    ∧ lookups [3; 8; 6; 9] (after_delete false true w)
      = replicate 4 (Raise NotExistent)
    ∧ lookups [1; 2; 4; 5; 7] (after_delete false true w)
      = [Ok 1; Ok 2; Ok 4; Ok 5; Ok 7])
  [calls_n_returns_world; two_inputs_world].
Proof.
  repeat constructor; vm_compute; reflexivity.
Qed.

(** ** Attributes of an unstored node *)

Lemma deref_set_heap (h : gmap oid NodeObj) (w : World) (v : Value) :
  deref (set_heap h w) v = deref w v.
Proof. destruct v; reflexivity. Qed.

(** X1: on an unstored node [_set_attr] with a key that holds the
    separator raises ValidationError and changes nothing; with a valid key
    it succeeds, [get_attr] of the key then returns the cleaned value, and
    [get_attr] of any other key answers as before. *)
Theorem set_attr_then_get_attr (env : Env) (w : World) (n : oid)
    (obj : NodeObj) (key : string) (v : Value) :
  heap w !! n = Some obj ->
  _to_be_stored obj = true ->
  (contains_char (AIIDA_ATTRIBUTE_SEP env) key = true ->
   _set_attr env n key v true true w = (Raise ValidationError, w))
  ∧ (contains_char (AIIDA_ATTRIBUTE_SEP env) key = false ->
     ∃ w1 v1,
       _set_attr env n key v true true w = (Ok tt, w1)
       ∧ (∀ d, get_attr n key d w1 = (Ok v1, w1))
       ∧ deref w1 v1 = cleaned w v
       ∧ ∀ key' d, key' ≠ key ->
           get_attr n key' d w1 = ((get_attr n key' d w).1, w1)).
Proof.
  intros Hh Hu. split.
  - intros Hk. unfold _set_attr.
    rewrite (bind_ok _ _ _ _ _ (get_obj_some _ _ _ Hh)).
    unfold is_stored. rewrite Hu. cbn [negb andb].
    unfold validate_attribute_key. rewrite Hk. reflexivity.
  - intros Hk.
    rewrite (set_attr_clean_unstored env n obj key v w Hh Hu Hk).
    set (w1 := set_heap _ _). set (v1 := (after_clean v w).1).
    assert (Hh1 : heap w1 !! n
                  = Some (with_attrs (<[key := v1]> (_attrs_cache obj)) obj))
      by (unfold w1; cbn [heap set_heap]; apply lookup_insert_eq).
    exists w1, v1. split; [reflexivity|]. split; [|split].
    + intros d. apply (get_attr_cached n _ key v1 d w1 Hh1); [exact Hu|].
      cbn [_attrs_cache with_attrs]. apply lookup_insert_eq.
    + unfold w1. rewrite deref_set_heap. apply deref_after_clean.
    + intros key' d Hne. unfold get_attr, try_except.
      rewrite (bind_ok _ _ _ _ _ (get_obj_some _ _ _ Hh1)).
      rewrite (bind_ok _ _ _ _ _ (get_obj_some _ _ _ Hh)).
      cbn [_to_be_stored with_attrs _attrs_cache]. rewrite Hu.
      rewrite lookup_insert_ne by congruence.
      destruct (_attrs_cache obj !! key'); [reflexivity|].
      cbn [raise]. rewrite decide_True by reflexivity.
      destruct d; reflexivity.
Qed.

Lemma set_attr_then_get_attr_witness :
  ∃ w1 v1,
    _set_attr (test_env false) 0 "state" (Plain (JBox (JInt 5))) true true
              unstored_world = (Ok tt, w1)
    ∧ (∀ d, get_attr 0 "state" d w1 = (Ok v1, w1))
    ∧ deref w1 v1 = JInt 5
    ∧ ∀ key' d, key' ≠ "state" ->
        get_attr 0 key' d w1 = ((get_attr 0 key' d unstored_world).1, w1).
Proof.
  exact (proj2 (set_attr_then_get_attr (test_env false) unstored_world 0
                  unstored_obj "state" (Plain (JBox (JInt 5)))
                  eq_refl eq_refl) eq_refl).
Defined.

(** X2: on an unstored node [_del_attr] of a missing key raises
    AttributeError and changes nothing; of a present key it succeeds, after
    which [get_attr] of the key raises AttributeError or returns the
    default, and [get_attr] of any other key answers as before. *)
Theorem del_attr_then_get_attr (w : World) (n : oid) (obj : NodeObj)
    (key : string) :
  heap w !! n = Some obj ->
  _to_be_stored obj = true ->
  (_attrs_cache obj !! key = None ->
   _del_attr n key true w = (Raise AttributeError, w))
  ∧ (is_Some (_attrs_cache obj !! key) ->
     ∃ w1,
       _del_attr n key true w = (Ok tt, w1)
       ∧ get_attr n key None w1 = (Raise AttributeError, w1)
       ∧ (∀ d, get_attr n key (Some d) w1 = (Ok d, w1))
       ∧ ∀ key' d, key' ≠ key ->
           get_attr n key' d w1 = ((get_attr n key' d w).1, w1)).
Proof.
  intros Hh Hu.
  assert (Hdel : _del_attr n key true w
                      = match _attrs_cache obj !! key with
                        | Some _ => put_obj n (with_attrs
                                      (delete key (_attrs_cache obj)) obj) w
                        | None => (Raise AttributeError, w)
                        end).
  { unfold _del_attr.
    rewrite (bind_ok _ _ _ _ _ (get_obj_some _ _ _ Hh)).
    unfold is_stored. rewrite Hu. cbn [negb andb].
    destruct (_attrs_cache obj !! key); reflexivity. }
  split.
  - intros Hk. rewrite Hdel, Hk. reflexivity.
  - intros [x Hk]. rewrite Hdel, Hk.
    set (obj1 := with_attrs (delete key (_attrs_cache obj)) obj).
    set (w1 := set_heap (<[n := obj1]> (heap w)) w).
    assert (Hh1 : heap w1 !! n = Some obj1)
      by (unfold w1; cbn [heap set_heap]; apply lookup_insert_eq).
    exists w1. split; [reflexivity|].
    assert (Hget : ∀ key' d,
              get_attr n key' d w1
              = (match delete key (_attrs_cache obj) !! key' with
                 | Some v => Ok v
                 | None => match d with
                           | Some x => Ok x
                           | None => Raise AttributeError
                           end
                 end, w1)).
    { intros key' d. unfold get_attr, try_except.
      rewrite (bind_ok _ _ _ _ _ (get_obj_some _ _ _ Hh1)).
      cbn [_to_be_stored obj1 with_attrs _attrs_cache]. rewrite Hu.
      destruct (delete key (_attrs_cache obj) !! key'); [reflexivity|].
      cbn [raise]. rewrite decide_True by reflexivity.
      destruct d; reflexivity. }
    split; [|split].
    + rewrite Hget, lookup_delete_eq. reflexivity.
    + intros d. rewrite Hget, lookup_delete_eq. reflexivity.
    + intros key' d Hne. rewrite Hget, lookup_delete_ne by congruence.
      unfold get_attr, try_except.
      rewrite (bind_ok _ _ _ _ _ (get_obj_some _ _ _ Hh)), Hu.
      destruct (_attrs_cache obj !! key'); [reflexivity|].
      cbn [raise]. rewrite decide_True by reflexivity.
      destruct d; reflexivity.
Qed.

Lemma del_attr_then_get_attr_witness :
  ∃ w1,
    _del_attr 0 "bool" true prestore_world = (Ok tt, w1)
    ∧ get_attr 0 "bool" None w1 = (Raise AttributeError, w1)
    ∧ (∀ d, get_attr 0 "bool" (Some d) w1 = (Ok d, w1))
    ∧ ∀ key' d, key' ≠ "bool" ->
        get_attr 0 key' d w1 = ((get_attr 0 key' d prestore_world).1, w1).
Proof.
  apply (proj2 (del_attr_then_get_attr prestore_world 0 prestore_obj "bool"
                  eq_refl eq_refl)).
  exists (Plain (JBool true)). vm_compute. reflexivity.
Defined.

Lemma set_heap_same (w : World) : set_heap (heap w) w = w.
Proof. destruct w; reflexivity. Qed.

Lemma with_attrs_same (obj : NodeObj) : with_attrs (_attrs_cache obj) obj = obj.
Proof. destruct obj; reflexivity. Qed.

Lemma set_heap_set_heap (h h' : gmap oid NodeObj) (w : World) :
  set_heap h (set_heap h' w) = set_heap h w.
Proof. reflexivity. Qed.

(** The deletions of [_del_all_attrs], one key after the other. *)
Lemma del_attrs_loop (n : oid) (names : list string) (obj : NodeObj)
    (w : World) :
  heap w !! n = Some obj -> _to_be_stored obj = true ->
  NoDup names ->
  (∀ k, k ∈ names -> is_Some (_attrs_cache obj !! k)) ->
  for_each names (fun attr_name => _del_attr n attr_name true) w
  = (Ok tt,
     set_heap (<[n := with_attrs
                        (foldl (fun m k => delete k m) (_attrs_cache obj) names)
                        obj]> (heap w)) w).
Proof.
  revert obj w. induction names as [|k names IH]; intros obj w Hh Hu Hnd Hin.
  - cbn [for_each foldl]. rewrite with_attrs_same, (insert_id _ _ _ Hh).
    rewrite set_heap_same. reflexivity.
  - cbn [for_each foldl]. apply NoDup_cons in Hnd as [Hk Hnd].
    destruct (Hin k (list_elem_of_here _ _)) as [x Hx].
    assert (Hdel : _del_attr n k true w
                   = (Ok tt, set_heap (<[n := with_attrs
                                (delete k (_attrs_cache obj)) obj]> (heap w)) w)).
    { unfold _del_attr.
      rewrite (bind_ok _ _ _ _ _ (get_obj_some _ _ _ Hh)).
      unfold is_stored. rewrite Hu, Hx. reflexivity. }
    rewrite (bind_ok _ _ _ _ _ Hdel).
    rewrite (IH (with_attrs (delete k (_attrs_cache obj)) obj)).
    + cbn [heap set_heap _attrs_cache with_attrs]. rewrite insert_insert_eq.
      reflexivity.
    + cbn [heap set_heap]. apply lookup_insert_eq.
    + exact Hu.
    + exact Hnd.
    + intros k' Hk'. cbn [_attrs_cache with_attrs].
      rewrite lookup_delete_ne by (intros ->; exact (Hk Hk')).
      apply Hin. right. exact Hk'.
Qed.

Lemma delete_all_keys {A} (names : list string) (m : gmap string A) :
  (∀ k, is_Some (m !! k) -> k ∈ names) ->
  foldl (fun m k => delete k m) m names = ∅.
Proof.
  revert m. induction names as [|k names IH]; intros m Hall; cbn [foldl].
  - apply map_empty. intros k. apply eq_None_not_Some. intros Hk.
    apply Hall in Hk. inversion Hk.
  - apply IH. intros k' Hk'.
    destruct (decide (k' = k)) as [->|Hne].
    + rewrite lookup_delete_eq in Hk'. destruct Hk' as [? [=]].
    + rewrite lookup_delete_ne in Hk' by congruence.
      apply Hall in Hk'. apply elem_of_cons in Hk' as [?|?]; congruence.
Qed.

(** X3: [_del_all_attrs] on an unstored node succeeds and leaves the node
    without any attribute; nothing else of the node or of the store
    changes. *)
Theorem del_all_attrs_unstored (w : World) (n : oid) (obj : NodeObj) :
  heap w !! n = Some obj ->
  _to_be_stored obj = true ->
  _del_all_attrs n w
  = (Ok tt, set_heap (<[n := with_attrs ∅ obj]> (heap w)) w)
  ∧ get_attrs n (set_heap (<[n := with_attrs ∅ obj]> (heap w)) w) = Ok ∅.
Proof.
  intros Hh Hu. split.
  - unfold _del_all_attrs, reading. rewrite bind_run.
    unfold attrs. rewrite (read_obj_some _ _ _ Hh), Hu.
    rewrite (del_attrs_loop n _ obj w Hh Hu).
    + rewrite delete_all_keys; [reflexivity|].
      intros k [x Hk]. apply list_elem_of_fmap. exists (k, x).
      split; [reflexivity|]. apply elem_of_map_to_list. exact Hk.
    + apply NoDup_fst_map_to_list.
    + intros k Hk. apply list_elem_of_fmap in Hk as ([k' x] & -> & Hk).
      apply elem_of_map_to_list in Hk. exists x. exact Hk.
  - unfold get_attrs, read_obj. cbn [heap set_heap].
    rewrite lookup_insert_eq. cbn [_to_be_stored with_attrs _attrs_cache].
    rewrite Hu, fmap_empty. reflexivity.
Qed.

Lemma del_all_attrs_unstored_witness :
  _del_all_attrs 0 prestore_world = (Ok tt, unstored_world)
  ∧ get_attrs 0 unstored_world = Ok ∅.
Proof.
  exact (del_all_attrs_unstored prestore_world 0 prestore_obj
           eq_refl eq_refl).
Defined.

(** X4: [_del_all_attrs] on a stored node raises ModificationNotAllowed
    when the node has at least one attribute and returns normally when it
    has none; in both cases nothing changes. *)
Theorem del_all_attrs_stored (w : World) (n : oid) (obj : NodeObj) (p : pk)
    (r : DbNode) :
  heap w !! n = Some obj ->
  _to_be_stored obj = false ->
  id obj = Some p ->
  db_nodes w !! p = Some r ->
  _del_all_attrs n w
  = (if decide (db_attributes r = ∅) then Ok tt
     else Raise ModificationNotAllowed, w).
Proof.
  intros Hh Hs Hid Hr.
  unfold _del_all_attrs, reading. rewrite bind_run.
  unfold attrs, _db_attrs.
  rewrite (read_obj_some _ _ _ Hh), Hs, (read_row_some _ _ _ _ _ Hh Hid Hr).
  cbn [snd]. destruct (decide (db_attributes r = ∅)) as [He|Hne].
  - rewrite He, map_to_list_empty. reflexivity.
  - destruct (map_to_list (db_attributes r)) as [|[k x] rest] eqn:Hl.
    + apply map_to_list_empty_iff in Hl. contradiction.
    + cbn [fmap list_fmap for_each fst].
      apply bind_raise. unfold _del_attr.
      rewrite (bind_ok _ _ _ _ _ (get_obj_some _ _ _ Hh)).
      unfold is_stored. rewrite Hs. reflexivity.
Qed.

Lemma del_all_attrs_stored_witness :
  _del_all_attrs 0 stored_world = (Raise ModificationNotAllowed, stored_world).
Proof.
  exact (del_all_attrs_stored stored_world 0 stored_obj 1 stored_row
           eq_refl eq_refl eq_refl eq_refl).
Defined.

(** ** Extras of a stored node *)

Lemma set_extra_unstored (env : Env) (n : oid) (obj : NodeObj) (key : string)
    (v : Value) (ex : bool) (w : World) :
  heap w !! n = Some obj -> _to_be_stored obj = true ->
  set_extra env n key v ex w
  = (Raise (if contains_char (AIIDA_ATTRIBUTE_SEP env) key
            then ValidationError else ModificationNotAllowed), w).
Proof.
  intros Hh Hu. unfold set_extra, validate_attribute_key.
  destruct (contains_char (AIIDA_ATTRIBUTE_SEP env) key); [reflexivity|].
  rewrite bind_run. cbn [mret M_ret ret].
  rewrite (bind_ok _ _ _ _ _ (get_obj_some _ _ _ Hh)), Hu. reflexivity.
Qed.

(** X5: no method that writes extras works on an unstored node.
    [set_extra] raises ValidationError for a key with the separator and
    ModificationNotAllowed otherwise; [del_extra] and [reset_extras] raise
    ModificationNotAllowed whatever the key or the new extras; [set_extras]
    returns normally for the empty dict only.  None of them changes
    anything. *)
Theorem extras_need_a_stored_node (env : Env)
    (_del_db_extra : oid -> string -> M unit)
    (_reset_db_extras : oid -> Value -> M unit)
    (w : World) (n : oid) (obj : NodeObj) (key : string) (v : Value)
    (ex : bool) (new_extras : list (string * json))
    (the_dict : list (string * Value)) :
  heap w !! n = Some obj ->
  _to_be_stored obj = true ->
  set_extra env n key v ex w
  = (Raise (if contains_char (AIIDA_ATTRIBUTE_SEP env) key
            then ValidationError else ModificationNotAllowed), w)
  ∧ set_extra_exclusive env n key v w = set_extra env n key v true w
  ∧ del_extra _del_db_extra n key w = (Raise ModificationNotAllowed, w)
  ∧ reset_extras _reset_db_extras n new_extras w
    = (Raise ModificationNotAllowed, w)
  ∧ (set_extras env n the_dict w).2 = w
  ∧ ((set_extras env n the_dict w).1 = Ok tt ↔ the_dict = []).
Proof.
  intros Hh Hu.
  split; [exact (set_extra_unstored env n obj key v ex w Hh Hu)|].
  split; [reflexivity|]. split; [|split].
  - unfold del_extra.
    rewrite (bind_ok _ _ _ _ _ (get_obj_some _ _ _ Hh)), Hu. reflexivity.
  - unfold reset_extras.
    rewrite (bind_ok _ _ _ _ _ (get_obj_some _ _ _ Hh)), Hu. reflexivity.
  - destruct the_dict as [|[k x] rest].
    + split; [reflexivity|]. split; reflexivity.
    + unfold set_extras, try_except. cbn [for_each fst snd].
      rewrite (bind_raise _ _ _ _ _ (set_extra_unstored env n obj k x false w
                                       Hh Hu)).
      destruct (contains_char (AIIDA_ATTRIBUTE_SEP env) k);
        (rewrite decide_False by discriminate);
        (split; [reflexivity|]); split; discriminate.
Qed.

Lemma extras_need_a_stored_node_witness :
  set_extra (test_env false) 0 "a.b" (Plain JNull) false unstored_world
  = (Raise ValidationError, unstored_world)
  ∧ set_extra (test_env false) 0 "a" (Plain JNull) false unstored_world
    = (Raise ModificationNotAllowed, unstored_world)
  ∧ del_extra (fun _ _ => mret tt) 0 "a.b" unstored_world
    = (Raise ModificationNotAllowed, unstored_world)
  ∧ set_extras (test_env false) 0 [] unstored_world = (Ok tt, unstored_world).
Proof.
  pose proof (extras_need_a_stored_node (test_env false) (fun _ _ => mret tt)
                (fun _ _ => mret tt) unstored_world 0 unstored_obj "a.b"
                (Plain JNull) false [] [] eq_refl eq_refl) as (H1 & _ & H3 & _).
  pose proof (extras_need_a_stored_node (test_env false) (fun _ _ => mret tt)
                (fun _ _ => mret tt) unstored_world 0 unstored_obj "a"
                (Plain JNull) false [] [] eq_refl eq_refl) as (H2 & _).
  split; [exact H1|]. split; [exact H2|]. split; [exact H3|]. reflexivity.
Defined.

(** The extras of the row behind a node object. *)
Lemma set_extra_stored (env : Env) (n : oid) (obj : NodeObj) (p : pk)
    (r : DbNode) (key : string) (v : Value) (ex : bool) (w : World) :
  heap w !! n = Some obj -> _to_be_stored obj = false ->
  id obj = Some p -> db_nodes w !! p = Some r ->
  contains_char (AIIDA_ATTRIBUTE_SEP env) key = false ->
  set_extra env n key v ex w
  = if ex && bool_decide (is_Some (db_extras r !! key))
    then (Raise UniquenessError, (after_clean v w).2)
    else (Ok tt,
          set_db_nodes
            (<[p := row_with_extras (<[key := cleaned w v]> (db_extras r)) r]>
               (db_nodes w)) (after_clean v w).2).
Proof.
  intros Hh Hs Hid Hr Hk. unfold set_extra.
  rewrite (bind_ok _ _ _ _ _ (validate_key_ok _ _ _ Hk)).
  rewrite (bind_ok _ _ _ _ _ (get_obj_some _ _ _ Hh)), Hs.
  rewrite (bind_ok _ _ _ _ _ (clean_value_run v w)).
  set (w1 := (after_clean v w).2). set (v1 := (after_clean v w).1).
  assert (Hh1 : heap w1 !! n = Some obj)
    by (unfold w1; rewrite after_clean_heap; exact Hh).
  assert (Hr1 : db_nodes w1 !! p = Some r)
    by (unfold w1; rewrite after_clean_db_nodes; exact Hr).
  unfold _set_db_extra, reading. rewrite bind_run.
  rewrite (read_row_some _ _ _ _ _ Hh1 Hid Hr1).
  rewrite bind_run. cbn [gets fst snd].
  destruct (ex && bool_decide (is_Some (db_extras r !! key)));
    [reflexivity|].
  unfold put_row, modify. subst v1 w1.
  rewrite deref_after_clean, after_clean_db_nodes. reflexivity.
Qed.

(** A value loaded from the store denotes the stored content. *)
Lemma load_value_deref (j : json) (w : World) :
  ∃ v w', load_value j w = (Ok v, w') ∧ deref w' v = j
          ∧ heap w' = heap w ∧ db_nodes w' = db_nodes w
          ∧ db_links w' = db_links w.
Proof.
  destruct j; try (eexists _, _; split; [reflexivity|]; repeat split).
  cbn [deref]. rewrite read_list_insert_eq. reflexivity.
Qed.

Lemma get_extra_stored (n : oid) (obj : NodeObj) (p : pk) (r : DbNode)
    (key : string) (j : json) (args : list Value) (w : World) :
  heap w !! n = Some obj -> _to_be_stored obj = false ->
  id obj = Some p -> db_nodes w !! p = Some r ->
  db_extras r !! key = Some j ->
  (length args ≤ 1)%nat ->
  ∃ v w', get_extra n key args w = (Ok v, w') ∧ deref w' v = j
          ∧ heap w' = heap w ∧ db_nodes w' = db_nodes w
          ∧ db_links w' = db_links w.
Proof.
  intros Hh Hs Hid Hr Hj Hlen. unfold get_extra.
  rewrite decide_False by lia. unfold try_except.
  rewrite (bind_ok _ _ _ _ _ (get_obj_some _ _ _ Hh)).
  unfold is_stored. rewrite Hs. cbn [negb].
  unfold _get_db_extra, reading. rewrite bind_run.
  rewrite (read_row_some _ _ _ _ _ Hh Hid Hr). cbn [snd]. rewrite Hj.
  destruct (load_value_deref j w) as (v & w' & Hl & Hrest).
  exists v, w'. rewrite Hl. split; [reflexivity|]. exact Hrest.
Qed.

(** X6: on a stored node [set_extra] with a valid key succeeds; [get_extra]
    of the key then returns the cleaned value; the other extras and all
    the attributes of the node are as before. *)
Theorem set_extra_then_get_extra (env : Env) (w : World) (n : oid)
    (obj : NodeObj) (p : pk) (r : DbNode) (key : string) (v : Value)
    (args : list Value) :
  heap w !! n = Some obj ->
  _to_be_stored obj = false ->
  id obj = Some p ->
  db_nodes w !! p = Some r ->
  contains_char (AIIDA_ATTRIBUTE_SEP env) key = false ->
  (length args ≤ 1)%nat ->
  ∃ w1 r1 v2 w2,
    set_extra env n key v false w = (Ok tt, w1)
    ∧ db_nodes w1 !! p = Some r1
    ∧ get_extra n key args w1 = (Ok v2, w2)
    ∧ deref w2 v2 = cleaned w v
    ∧ (∀ key', key' ≠ key -> db_extras r1 !! key' = db_extras r !! key')
    ∧ get_attrs n w1 = get_attrs n w.
Proof.
  intros Hh Hs Hid Hr Hk Hlen.
  rewrite (set_extra_stored env n obj p r key v false w Hh Hs Hid Hr Hk).
  cbn [andb].
  set (r1 := row_with_extras (<[key := cleaned w v]> (db_extras r)) r).
  set (w1 := set_db_nodes _ _).
  assert (Hh1 : heap w1 !! n = Some obj)
    by (unfold w1; cbn [heap set_db_nodes]; rewrite after_clean_heap;
        exact Hh).
  assert (Hr1 : db_nodes w1 !! p = Some r1)
    by (unfold w1; cbn [db_nodes set_db_nodes]; apply lookup_insert_eq).
  destruct (get_extra_stored n obj p r1 key (cleaned w v) args w1
              Hh1 Hs Hid Hr1) as (v2 & w2 & Hget & Hd & _);
    [cbn [r1 db_extras row_with_extras]; apply lookup_insert_eq | exact Hlen |].
  exists w1, r1, v2, w2. split; [reflexivity|]. split; [exact Hr1|].
  split; [exact Hget|]. split; [exact Hd|]. split.
  - intros key' Hne. cbn [r1 db_extras row_with_extras].
    apply lookup_insert_ne. congruence.
  - unfold get_attrs.
    rewrite (read_obj_some _ _ _ Hh1), (read_obj_some _ _ _ Hh), Hs.
    rewrite (read_row_some _ _ _ _ _ Hh1 Hid Hr1).
    rewrite (read_row_some _ _ _ _ _ Hh Hid Hr). reflexivity.
Qed.

Lemma set_extra_then_get_extra_witness :
  ∃ w1 r1 v2 w2,
    set_extra (test_env false) 0 "tag" (Plain (JBox (JStr "x"))) false
              stored_world = (Ok tt, w1)
    ∧ db_nodes w1 !! 1%nat = Some r1
    ∧ get_extra 0 "tag" [] w1 = (Ok v2, w2)
    ∧ deref w2 v2 = JStr "x"
    ∧ (∀ key', key' ≠ "tag" ->
         db_extras r1 !! key' = db_extras stored_row !! key')
    ∧ get_attrs 0 w1 = get_attrs 0 stored_world.
Proof.
  apply (set_extra_then_get_extra (test_env false) stored_world 0 stored_obj
           1 stored_row "tag" (Plain (JBox (JStr "x"))) []);
    try reflexivity.
  cbn. lia.
Defined.

(** X7: [set_extra_exclusive] differs from [set_extra] only when the
    node already has an extra under the key: it then raises UniquenessError
    and the rows of the store stay as they are. *)
Theorem set_extra_exclusive_locks (env : Env) (w : World) (n : oid)
    (obj : NodeObj) (p : pk) (r : DbNode) (key : string) (v : Value) :
  heap w !! n = Some obj ->
  _to_be_stored obj = false ->
  id obj = Some p ->
  db_nodes w !! p = Some r ->
  contains_char (AIIDA_ATTRIBUTE_SEP env) key = false ->
  (is_Some (db_extras r !! key) ->
   ∃ w1, set_extra_exclusive env n key v w = (Raise UniquenessError, w1)
         ∧ db_nodes w1 = db_nodes w ∧ db_links w1 = db_links w
         ∧ heap w1 = heap w)
  ∧ (db_extras r !! key = None ->
     set_extra_exclusive env n key v w = set_extra env n key v false w).
Proof.
  intros Hh Hs Hid Hr Hk. unfold set_extra_exclusive.
  rewrite !(set_extra_stored env n obj p r key v _ w Hh Hs Hid Hr Hk).
  cbn [andb]. split.
  - intros Hex. rewrite bool_decide_eq_true_2 by exact Hex.
    eexists. split; [reflexivity|].
    rewrite after_clean_db_nodes, after_clean_db_links, after_clean_heap.
    repeat split.
  - intros Hnone. rewrite bool_decide_eq_false_2; [reflexivity|].
    rewrite Hnone. intros [? [=]].
Qed.

Lemma set_extra_exclusive_locks_witness :
  ∃ w1, set_extra_exclusive (test_env false) 0 _HASH_EXTRA_KEY
          (Plain (JStr "other")) stored_world = (Raise UniquenessError, w1)
        ∧ db_nodes w1 = db_nodes stored_world
        ∧ db_links w1 = db_links stored_world
        ∧ heap w1 = heap stored_world.
Proof.
  apply (proj1 (set_extra_exclusive_locks (test_env false) stored_world 0
                  stored_obj 1 stored_row _HASH_EXTRA_KEY
                  (Plain (JStr "other")) eq_refl eq_refl eq_refl eq_refl
                  eq_refl)).
  exists (JStr "hxx"). vm_compute. reflexivity.
Defined.

(** ** The recorded hash and the cache candidates *)

Lemma objects_to_hash_put_extras (env : Env) (w : World) (n : oid)
    (obj : NodeObj) (p : pk) (r : DbNode) (e : gmap string json) :
  heap w !! n = Some obj ->
  _to_be_stored obj = false ->
  id obj = Some p ->
  db_nodes w !! p = Some r ->
  _get_objects_to_hash env n
    (set_db_nodes (<[p := row_with_extras e r]> (db_nodes w)) w)
  = _get_objects_to_hash env n w.
Proof.
  intros Hh Hs Hid Hr.
  unfold _get_objects_to_hash, get_computer, get_attrs, get_folder,
    read_row, read_obj, is_stored.
  cbn [heap db_nodes set_db_nodes]. rewrite Hh, Hs, Hid.
  rewrite lookup_insert_eq, Hr. reflexivity.
Qed.

(** X8: the extras are no part of the hash: whatever [set_extra] does, on
    any node, [get_hash] of the node is afterwards what it was. *)
Theorem extras_are_not_hashed (env : Env) (w : World) (n : oid)
    (key : string) (v : Value) (ex ignore_errors : bool) :
  get_hash env n ignore_errors (set_extra env n key v ex w).2
  = get_hash env n ignore_errors w.
Proof.
  apply get_hash_ext. unfold set_extra, validate_attribute_key.
  destruct (contains_char (AIIDA_ATTRIBUTE_SEP env) key); [reflexivity|].
  rewrite bind_run. cbn [mret M_ret ret].
  rewrite bind_run. unfold get_obj at 1.
  destruct (heap w !! n) as [obj|] eqn:Hh; [|reflexivity].
  destruct (_to_be_stored obj) eqn:Hs; [reflexivity|].
  rewrite (bind_ok _ _ _ _ _ (clean_value_run v w)).
  set (w1 := (after_clean v w).2). set (v1 := (after_clean v w).1).
  assert (Hheap : heap w1 = heap w) by apply after_clean_heap.
  assert (Hdb : db_nodes w1 = db_nodes w) by apply after_clean_db_nodes.
  assert (Hhash1 : _get_objects_to_hash env n w1 = _get_objects_to_hash env n w).
  { unfold _get_objects_to_hash, get_computer, get_attrs, get_folder,
      read_row, read_obj, is_stored.
    rewrite Hheap, Hdb, Hh, Hs. reflexivity. }
  unfold _set_db_extra, reading. rewrite bind_run.
  unfold read_row, read_obj. rewrite Hheap, Hh.
  destruct (id obj) as [p|] eqn:Hid; [|exact Hhash1].
  rewrite Hdb. destruct (db_nodes w !! p) as [r|] eqn:Hr; [|exact Hhash1].
  rewrite bind_run. cbn [gets fst snd].
  destruct (ex && bool_decide (is_Some (db_extras r !! key)));
    [exact Hhash1|].
  rewrite <- Hhash1. unfold put_row, modify. cbn [snd fst].
  rewrite <- Hheap in Hh. rewrite <- Hdb in Hr.
  exact (objects_to_hash_put_extras env w1 n obj p r _ Hh Hs Hid Hr).
Qed.

Lemma same_nodes_elem (c : NodeClass) (h : string) (w : World) (p : pk) :
  p ∈ same_nodes c h w
  ↔ ∃ row, db_nodes w !! p = Some row
           ∧ db_type row = plugin_type_string c
           ∧ db_extras row !! _HASH_EXTRA_KEY = Some (JStr h)
           ∧ _is_valid_cache c (db_attributes row) = true.
Proof.
  unfold same_nodes. rewrite list_elem_of_fmap. split.
  - intros ([p' row] & -> & Hin).
    apply list_elem_of_filter in Hin as [Hp Hin].
    apply elem_of_map_to_list in Hin. exists row. split; [exact Hin|].
    cbn [fst snd] in Hp.
    apply andb_prop in Hp as [Hp Hv]. apply andb_prop in Hp as [Ht Hx].
    apply bool_decide_eq_true in Ht. split; [exact Ht|].
    split; [|exact Hv]. unfold has_hash in Hx.
    destruct (db_extras row !! _HASH_EXTRA_KEY) as [[| | |s| | |]|];
      try discriminate.
    apply bool_decide_eq_true in Hx. subst s. reflexivity.
  - intros (row & Hrow & Ht & Hx & Hv). exists (p, row).
    split; [reflexivity|]. apply list_elem_of_filter. split.
    + cbn [fst snd]. unfold has_hash. rewrite Hx, Hv.
      rewrite !bool_decide_eq_true_2 by done. reflexivity.
    + apply elem_of_map_to_list. exact Hrow.
Qed.

Lemma get_same_node_head (env : Env) (w : World) (n : oid) (obj : NodeObj) :
  heap w !! n = Some obj ->
  _get_same_node env n w
  = match get_all_same_nodes env n w with
    | Ok l => Ok (head l)
    | Raise e => Raise e
    end.
Proof.
  intros Hh. unfold _get_same_node, get_all_same_nodes.
  rewrite (read_obj_some _ _ _ Hh).
  destruct (negb (_cacheable (klass obj))); [reflexivity|].
  destruct (get_hash env n true w) as [[h|]|e]; try reflexivity.
  destruct (decide (h = "")); reflexivity.
Qed.

(** X9: [_get_same_node] is the first of [get_all_same_nodes], and every
    node of that list is a row of exactly the node's class whose recorded
    hash is the current hash of the node and that is a valid cache; a class
    that is not cacheable has no such node. *)
Theorem same_nodes_match (env : Env) (w : World) (n : oid) (obj : NodeObj) :
  heap w !! n = Some obj ->
  _get_same_node env n w
  = match get_all_same_nodes env n w with
    | Ok l => Ok (head l)
    | Raise e => Raise e
    end
  ∧ (_cacheable (klass obj) = false -> get_all_same_nodes env n w = Ok [])
  ∧ ∀ l c, get_all_same_nodes env n w = Ok l -> c ∈ l ->
      ∃ row h,
        db_nodes w !! c = Some row
        ∧ db_type row = plugin_type_string (klass obj)
        ∧ get_hash env n true w = Ok (Some h)
        ∧ db_extras row !! _HASH_EXTRA_KEY = Some (JStr h)
        ∧ _is_valid_cache (klass obj) (db_attributes row) = true.
Proof.
  intros Hh. split; [exact (get_same_node_head env w n obj Hh)|].
  unfold get_all_same_nodes. rewrite (read_obj_some _ _ _ Hh). split.
  - intros ->. reflexivity.
  - intros l c Hl Hc.
    destruct (negb (_cacheable (klass obj)));
      [injection Hl as <-; inversion Hc|].
    destruct (get_hash env n true w) as [[h|]|e];
      [|injection Hl as <-; inversion Hc | discriminate].
    destruct (decide (h = "")); [injection Hl as <-; inversion Hc|].
    injection Hl as <-. apply same_nodes_elem in Hc as (row & H1 & H2 & H3 & H4).
    exists row, h. repeat split; assumption.
Qed.

Lemma same_nodes_match_witness :
  _get_same_node (test_env true) 2 return_world = Ok (Some 1%nat)
  ∧ ∃ row h,
      db_nodes return_world !! 1%nat = Some row
      ∧ db_type row = plugin_type_string CalculationClass
      ∧ get_hash (test_env true) 2 true return_world = Ok (Some h)
      ∧ db_extras row !! _HASH_EXTRA_KEY = Some (JStr h)
      ∧ _is_valid_cache CalculationClass (db_attributes row) = true.
Proof.
  destruct (same_nodes_match (test_env true) return_world 2
              (fresh_obj 3 CalculationClass) eq_refl) as (Hhead & _ & Hall).
  split.
  - rewrite Hhead. vm_compute. reflexivity.
  - apply (Hall [1%nat] 1%nat); [vm_compute; reflexivity | left].
Defined.

(** X10: after [clear_hash] a stored node is no cache candidate: it is
    in no node's [get_all_same_nodes] and [_get_same_node] never returns
    it. *)
Theorem clear_hash_leaves_the_cache (env : Env) (w : World) (n : oid)
    (obj : NodeObj) (p : pk) (r : DbNode) :
  heap w !! n = Some obj ->
  _to_be_stored obj = false ->
  id obj = Some p ->
  db_nodes w !! p = Some r ->
  contains_char (AIIDA_ATTRIBUTE_SEP env) _HASH_EXTRA_KEY = false ->
  ∃ w1,
    clear_hash env n w = (Ok tt, w1)
    ∧ (∀ m l, get_all_same_nodes env m w1 = Ok l -> p ∉ l)
    ∧ ∀ m, _get_same_node env m w1 ≠ Ok (Some p).
Proof.
  intros Hh Hs Hid Hr Hk. unfold clear_hash.
  rewrite (set_extra_stored env n obj p r _ (Plain JNull) false w
             Hh Hs Hid Hr Hk).
  cbn [andb after_clean cleaned clean_json snd].
  set (w1 := set_db_nodes _ w). exists w1. split; [reflexivity|].
  assert (Hall : ∀ m l, get_all_same_nodes env m w1 = Ok l -> p ∉ l).
  { intros m l Hl Hp. unfold get_all_same_nodes in Hl.
    destruct (read_obj m w1) as [om|]; [|discriminate].
    destruct (negb (_cacheable (klass om)));
      [injection Hl as <-; inversion Hp|].
    destruct (get_hash env m true w1) as [[h|]|e];
      [|injection Hl as <-; inversion Hp | discriminate].
    destruct (decide (h = "")); [injection Hl as <-; inversion Hp|].
    injection Hl as <-. apply same_nodes_elem in Hp as (row & H1 & _ & H3 & _).
    unfold w1 in H1. cbn [db_nodes set_db_nodes] in H1.
    rewrite lookup_insert_eq in H1. injection H1 as <-.
    cbn [db_extras row_with_extras] in H3.
    rewrite lookup_insert_eq in H3. discriminate. }
  split; [exact Hall|].
  intros m Hm.
  destruct (heap w1 !! m) as [om|] eqn:Hom.
  - rewrite (get_same_node_head env w1 m om Hom) in Hm.
    destruct (get_all_same_nodes env m w1) as [l|] eqn:Hl; [|discriminate].
    injection Hm as Hm. apply head_Some_elem_of in Hm.
    exact (Hall m l Hl Hm).
  - unfold _get_same_node, read_obj in Hm. rewrite Hom in Hm. discriminate.
Qed.

Lemma clear_hash_leaves_the_cache_witness :
  ∃ w1,
    clear_hash (test_env true) 0 stored_world = (Ok tt, w1)
    ∧ (∀ m l, get_all_same_nodes (test_env true) m w1 = Ok l -> 1%nat ∉ l)
    ∧ ∀ m, _get_same_node (test_env true) m w1 ≠ Ok (Some 1%nat).
Proof.
  exact (clear_hash_leaves_the_cache (test_env true) stored_world 0
           stored_obj 1 stored_row eq_refl eq_refl eq_refl eq_refl eq_refl).
Defined.

(** X11: after [rehash] a stored node of a cacheable class that is a
    valid cache and has a non-empty hash is a cache candidate of itself:
    it is in its own [get_all_same_nodes], and [_get_same_node] finds a
    node. *)
Theorem rehash_makes_a_cache_candidate (env : Env) (w : World) (n : oid)
    (obj : NodeObj) (p : pk) (r : DbNode) (h : string) :
  heap w !! n = Some obj ->
  _to_be_stored obj = false ->
  id obj = Some p ->
  db_nodes w !! p = Some r ->
  contains_char (AIIDA_ATTRIBUTE_SEP env) _HASH_EXTRA_KEY = false ->
  _cacheable (klass obj) = true ->
  db_type r = plugin_type_string (klass obj) ->
  _is_valid_cache (klass obj) (db_attributes r) = true ->
  get_hash env n true w = Ok (Some h) ->
  h ≠ "" ->
  ∃ w1 l c,
    rehash env n w = (Ok tt, w1)
    ∧ get_all_same_nodes env n w1 = Ok l
    ∧ p ∈ l
    ∧ _get_same_node env n w1 = Ok (Some c).
Proof.
  intros Hh Hs Hid Hr Hk Hc Ht Hv Hhash Hne.
  unfold rehash, reading. rewrite bind_run, Hhash. cbn [hash_value].
  rewrite (set_extra_stored env n obj p r _ (Plain (JStr h)) false w
             Hh Hs Hid Hr Hk).
  cbn [andb after_clean cleaned clean_json snd].
  set (w1 := set_db_nodes _ w) in *.
  assert (Hsame : get_hash env n true w1 = get_hash env n true w).
  { apply get_hash_ext.
    exact (objects_to_hash_put_extras env w n obj p r _ Hh Hs Hid Hr). }
  assert (Hh1 : heap w1 !! n = Some obj) by exact Hh.
  assert (Hl : get_all_same_nodes env n w1
               = Ok (same_nodes (klass obj) h w1)).
  { unfold get_all_same_nodes. rewrite (read_obj_some _ _ _ Hh1), Hc.
    cbn [negb]. rewrite Hsame, Hhash. rewrite decide_False by exact Hne.
    reflexivity. }
  assert (Hp : p ∈ same_nodes (klass obj) h w1).
  { apply same_nodes_elem. eexists. split.
    - unfold w1. cbn [db_nodes set_db_nodes]. apply lookup_insert_eq.
    - cbn [db_type db_extras db_attributes row_with_extras].
      split; [exact Ht|]. split; [apply lookup_insert_eq | exact Hv]. }
  destruct (same_nodes (klass obj) h w1) as [|c l'] eqn:Hsn;
    [inversion Hp|].
  exists w1, (c :: l'), c. split; [reflexivity|]. split; [exact Hl|].
  split; [exact Hp|].
  rewrite (get_same_node_head env w1 n obj Hh1), Hl. reflexivity.
Qed.

Lemma rehash_makes_a_cache_candidate_witness :
  ∃ w1 l c,
    rehash (test_env true) 0 stored_world = (Ok tt, w1)
    ∧ get_all_same_nodes (test_env true) 0 w1 = Ok l
    ∧ 1%nat ∈ l
    ∧ _get_same_node (test_env true) 0 w1 = Ok (Some c).
Proof.
  apply (rehash_makes_a_cache_candidate (test_env true) stored_world 0
           stored_obj 1 stored_row "hxx"); try reflexivity.
  discriminate.
Defined.

(** ** Invariants of a run, whatever its outcome *)

Lemma ensures_weaken {A} (P P' Q Q' : World -> Prop) (m : M A) :
  ensures P m Q -> (∀ w, P' w -> P w) -> (∀ w, Q w -> Q' w) ->
  ensures P' m Q'.
Proof. intros Hm HP HQ w r w' Hw Hrun. exact (HQ _ (Hm _ _ _ (HP _ Hw) Hrun)). Qed.

Lemma ensures_ret {A} (P Q : World -> Prop) (a : A) :
  (∀ w, P w -> Q w) -> ensures P (mret a : M A) Q.
Proof. intros HPQ w r w' Hw [= _ <-]. exact (HPQ _ Hw). Qed.

Lemma ensures_raise {A} (P Q : World -> Prop) (e : Exn) :
  (∀ w, P w -> Q w) -> ensures P (raise e : M A) Q.
Proof. intros HPQ w r w' Hw [= _ <-]. exact (HPQ _ Hw). Qed.

Lemma ensures_gets {A} (P Q : World -> Prop) (f : World -> A) :
  (∀ w, P w -> Q w) -> ensures P (gets f) Q.
Proof. intros HPQ w r w' Hw [= _ <-]. exact (HPQ _ Hw). Qed.

Lemma ensures_reading {A} (P Q : World -> Prop) (f : R A) :
  (∀ w, P w -> Q w) -> ensures P (reading f) Q.
Proof. intros HPQ w r w' Hw [= _ <-]. exact (HPQ _ Hw). Qed.

Lemma ensures_modify (P Q : World -> Prop) (f : World -> World) :
  (∀ w, P w -> Q (f w)) -> ensures P (modify f) Q.
Proof. intros HPQ w r w' Hw [= _ <-]. exact (HPQ _ Hw). Qed.

Lemma ensures_bind {A B} (P Q : World -> Prop) (m : M A) (k : A -> M B) :
  ensures P m P -> (∀ w, P w -> Q w) -> (∀ a, ensures P (k a) Q) ->
  ensures P (m ≫= k) Q.
Proof.
  intros Hm HPQ Hk w r w' Hw Hrun. rewrite bind_run in Hrun.
  destruct (m w) as [[a|e] w1] eqn:Hmw.
  - exact (Hk a _ _ _ (Hm _ _ _ Hw Hmw) Hrun).
  - injection Hrun as _ <-. exact (HPQ _ (Hm _ _ _ Hw Hmw)).
Qed.

Lemma ensures_get_obj_bind {A} (P Q : World -> Prop) (n : oid)
    (k : NodeObj -> M A) :
  (∀ w, P w -> Q w) ->
  (∀ obj, ensures (at_obj n obj P) (k obj) Q) ->
  ensures P (get_obj n ≫= k) Q.
Proof.
  intros HPQ Hk w r w' Hw Hrun. rewrite bind_run in Hrun. unfold get_obj in Hrun.
  destruct (heap w !! n) as [obj|] eqn:Hh.
  - exact (Hk obj _ _ _ (conj Hw Hh) Hrun).
  - injection Hrun as _ <-. exact (HPQ _ Hw).
Qed.

Lemma ensures_try_except {A} (P Q : World -> Prop) (m h : M A) (e : Exn) :
  ensures P m P -> (∀ w, P w -> Q w) -> ensures P h Q ->
  ensures P (try_except m e h) Q.
Proof.
  intros Hm HPQ Hh w r w' Hw Hrun. unfold try_except in Hrun.
  destruct (m w) as [[a|e'] w1] eqn:Hmw.
  - injection Hrun as _ <-. exact (HPQ _ (Hm _ _ _ Hw Hmw)).
  - destruct (decide (e' = e)).
    + exact (Hh _ _ _ (Hm _ _ _ Hw Hmw) Hrun).
    + injection Hrun as _ <-. exact (HPQ _ (Hm _ _ _ Hw Hmw)).
Qed.

Lemma ensures_for_each {A} (P : World -> Prop) (xs : list A)
    (body : A -> M unit) :
  (∀ x, ensures P (body x) P) -> ensures P (for_each xs body) P.
Proof.
  intros Hbody. induction xs as [|x xs IH].
  - apply ensures_ret. auto.
  - cbn [for_each]. apply ensures_bind; [apply Hbody | auto | intros _; exact IH].
Qed.

Lemma ensures_atomically {A} (P Q : World -> Prop) (m : M A) :
  ensures P m Q -> (∀ w, P w -> Q w) -> ensures P (atomically m) Q.
Proof.
  intros Hm HPQ w r w' Hw Hrun. unfold atomically in Hrun.
  destruct (m w) as [[a|e] w1] eqn:Hmw.
  - injection Hrun as _ <-. exact (Hm _ _ _ Hw Hmw).
  - injection Hrun as _ <-. exact (HPQ _ Hw).
Qed.

Lemma ensures_attempt {A} (P Q : World -> Prop) (m : M A) :
  ensures P m Q -> ensures P (attempt m) Q.
Proof.
  intros Hm w r w' Hw Hrun. unfold attempt in Hrun.
  destruct (m w) as [r0 w1] eqn:Hmw. injection Hrun as _ <-.
  exact (Hm _ _ _ Hw Hmw).
Qed.

Lemma list_blind_at_obj (P : World -> Prop) (n : oid) (obj : NodeObj) :
  list_blind P -> list_blind (at_obj n obj P).
Proof. intros HP w ls [Hw Hh]. split; [apply HP, Hw | exact Hh]. Qed.

Lemma ensures_new_list (P : World -> Prop) (xs : list json) :
  list_blind P -> ensures P (new_list xs) P.
Proof. intros HP w r w' Hw [= _ <-]. apply HP, Hw. Qed.

Lemma ensures_list_append (P : World -> Prop) (l : loc) (x : json) :
  list_blind P -> ensures P (list_append l x) P.
Proof. intros HP w r w' Hw [= _ <-]. apply HP, Hw. Qed.

Lemma ensures_clean_value (P : World -> Prop) (v : Value) :
  list_blind P -> ensures P (clean_value v) P.
Proof.
  intros HP w r w' Hw Hrun. rewrite clean_value_run in Hrun.
  injection Hrun as _ <-. destruct v as [[]|]; cbn [after_clean snd];
    try exact Hw; apply HP, Hw.
Qed.

Lemma ensures_load_value (P : World -> Prop) (j : json) :
  list_blind P -> ensures P (load_value j) P.
Proof.
  intros HP w r w' Hw Hrun.
  destruct j; try (injection Hrun as _ <-; exact Hw).
  cbn [load_value] in Hrun. rewrite bind_run in Hrun.
  cbn [new_list mret M_ret ret] in Hrun. injection Hrun as _ <-. apply HP, Hw.
Qed.

Lemma ensures_put_obj (P Q : World -> Prop) (n : oid) (obj obj' : NodeObj) :
  (∀ w, P w -> heap w !! n = Some obj ->
        Q (set_heap (<[n := obj']> (heap w)) w)) ->
  ensures (at_obj n obj P) (put_obj n obj') Q.
Proof. intros HPQ w r w' [Hw Hh] [= _ <-]. exact (HPQ _ Hw Hh). Qed.

Lemma ensures_validate_key (env : Env) (P : World -> Prop) (key : string) :
  ensures P (validate_attribute_key env key) P.
Proof.
  unfold validate_attribute_key.
  destruct (contains_char _ _); [apply ensures_raise | apply ensures_ret]; auto.
Qed.

Lemma at_obj_weaken (n : oid) (obj : NodeObj) (P : World -> Prop) (w : World) :
  at_obj n obj P w -> P w.
Proof. intros [Hw _]. exact Hw. Qed.

Lemma ensures_absurd {A} (P Q : World -> Prop) (m : M A) :
  (∀ w, ¬ P w) -> ensures P m Q.
Proof. intros HP w r w' Hw _. destruct (HP _ Hw). Qed.

(** ** An unstored node never writes the durable store *)

Lemma quiet_list_blind (n : oid) (c : NodeClass) (w0 : World) :
  list_blind (quiet n c w0).
Proof. intros w ls Hq. exact Hq. Qed.

Lemma quiet_at_unstored (n : oid) (c : NodeClass) (w0 w : World)
    (obj : NodeObj) :
  at_obj n obj (quiet n c w0) w -> _to_be_stored obj = true ∧ klass obj = c.
Proof.
  intros [(_ & _ & obj' & Hh' & Hu & Hc) Hh].
  rewrite Hh in Hh'. injection Hh' as <-. split; assumption.
Qed.

Lemma quiet_at_stored_absurd (n : oid) (c : NodeClass) (w0 w : World)
    (obj : NodeObj) :
  _to_be_stored obj = false -> ¬ at_obj n obj (quiet n c w0) w.
Proof.
  intros Hs Hat. apply quiet_at_unstored in Hat as [Hu _]. congruence.
Qed.

Lemma quiet_put (n : oid) (c : NodeClass) (w0 w : World) (obj' : NodeObj) :
  _to_be_stored obj' = true -> klass obj' = c ->
  quiet n c w0 w -> quiet n c w0 (set_heap (<[n := obj']> (heap w)) w).
Proof.
  intros Hu Hc (Hd & Hl & _). split; [exact Hd|]. split; [exact Hl|].
  exists obj'. cbn [heap set_heap]. rewrite lookup_insert_eq.
  repeat split; assumption.
Qed.

Ltac quiet_obj Hu :=
  match goal with
  | |- ensures (at_obj ?n ?obj (quiet _ _ _)) _ _ =>
      destruct (_to_be_stored obj) eqn:Hu;
      [| apply ensures_absurd; intros ?;
         apply quiet_at_stored_absurd; exact Hu]
  end.

Ltac quiet_put_step :=
  apply ensures_put_obj; intros w1 Hq1 Hh1;
  destruct (quiet_at_unstored _ _ _ _ _ (conj Hq1 Hh1)) as [Hu1 Hc1];
  apply quiet_put; [| | exact Hq1]; cbn; assumption.

Lemma quiet_set_attr (env : Env) (n : oid) (c : NodeClass) (w0 : World)
    (key : string) (v : Value) (clean stored_check : bool) :
  ensures (quiet n c w0) (_set_attr env n key v clean stored_check)
          (quiet n c w0).
Proof.
  unfold _set_attr. apply ensures_get_obj_bind; [auto|]. intros obj.
  quiet_obj Hu. unfold is_stored. rewrite Hu, andb_false_r.
  pose proof (list_blind_at_obj _ n obj (quiet_list_blind n c w0)) as Hb.
  apply ensures_bind;
    [apply ensures_validate_key | apply at_obj_weaken | intros _].
  apply ensures_bind; [| apply at_obj_weaken | intros v'; quiet_put_step].
  destruct clean; [apply ensures_clean_value, Hb | apply ensures_ret; auto].
Qed.

Lemma ensures_get_attr (n : oid) (key : string)
    (d : option Value) (P : World -> Prop) :
  list_blind P -> ensures P (get_attr n key d) P.
Proof.
  intros Hb. unfold get_attr.
  apply ensures_try_except; [| auto | destruct d;
    [apply ensures_ret | apply ensures_raise]; auto].
  apply ensures_bind; [|auto|].
  { intros w r w' Hw Hrun. unfold get_obj in Hrun.
    destruct (heap w !! n); injection Hrun as _ <-; exact Hw. }
  intros obj. destruct (_to_be_stored obj).
  - destruct (_attrs_cache obj !! key);
      [apply ensures_ret | apply ensures_raise]; auto.
  - unfold _get_db_attr.
    apply ensures_bind; [apply ensures_reading; auto | auto |].
    intros pr. destruct (db_attributes pr.2 !! key);
      [apply ensures_load_value, Hb | apply ensures_raise; auto].
Qed.

Lemma quiet_append_to_attr (env : Env) (n : oid) (c : NodeClass) (w0 : World)
    (key : string) (v : Value) (clean : bool) :
  ensures (quiet n c w0) (_append_to_attr env n key v clean) (quiet n c w0).
Proof.
  pose proof (quiet_list_blind n c w0) as Hb.
  unfold _append_to_attr.
  apply ensures_bind; [apply ensures_validate_key | auto | intros _].
  apply ensures_bind; [| auto |].
  { apply ensures_try_except;
      [apply ensures_get_attr, Hb | auto |].
    apply ensures_bind; [apply ensures_new_list, Hb | auto |].
    intros l. apply ensures_ret. auto. }
  intros [j|l]; [apply ensures_raise; auto|].
  apply ensures_bind; [| auto | intros v'].
  { destruct clean; [apply ensures_clean_value, Hb | apply ensures_ret; auto]. }
  apply ensures_bind; [apply ensures_gets; auto | auto | intros x].
  apply ensures_bind; [apply ensures_list_append, Hb | auto | intros _].
  apply quiet_set_attr.
Qed.

Lemma quiet_del_attr (n : oid) (c : NodeClass) (w0 : World) (key : string)
    (stored_check : bool) :
  ensures (quiet n c w0) (_del_attr n key stored_check) (quiet n c w0).
Proof.
  unfold _del_attr. apply ensures_get_obj_bind; [auto|]. intros obj.
  quiet_obj Hu. unfold is_stored. rewrite Hu, andb_false_r.
  destruct (_attrs_cache obj !! key);
    [quiet_put_step | apply ensures_raise, at_obj_weaken].
Qed.

Lemma quiet_del_all_attrs (n : oid) (c : NodeClass) (w0 : World) :
  ensures (quiet n c w0) (_del_all_attrs n) (quiet n c w0).
Proof.
  unfold _del_all_attrs.
  apply ensures_bind; [apply ensures_reading; auto | auto | intros names].
  apply ensures_for_each. intros k. apply quiet_del_attr.
Qed.

Lemma quiet_set_computer (n : oid) (c : NodeClass) (w0 : World)
    (computer : Computer) :
  ensures (quiet n c w0) (set_computer n computer) (quiet n c w0).
Proof.
  unfold set_computer. apply ensures_get_obj_bind; [auto|]. intros obj.
  quiet_obj Hu.
  destruct (negb (c_is_stored computer));
    [apply ensures_raise, at_obj_weaken | quiet_put_step].
Qed.

Lemma quiet_set_extra (env : Env) (n : oid) (c : NodeClass) (w0 : World)
    (key : string) (v : Value) (ex : bool) :
  ensures (quiet n c w0) (set_extra env n key v ex) (quiet n c w0).
Proof.
  unfold set_extra.
  apply ensures_bind; [apply ensures_validate_key | auto | intros _].
  apply ensures_get_obj_bind; [auto|]. intros obj.
  quiet_obj Hu. apply ensures_raise, at_obj_weaken.
Qed.

Lemma quiet_set_label (n : oid) (c : NodeClass) (w0 : World) (s : string) :
  ensures (quiet n c w0) (set_label n s) (quiet n c w0).
Proof.
  unfold set_label. apply ensures_get_obj_bind; [auto|]. intros obj.
  quiet_obj Hu. quiet_put_step.
Qed.

Lemma quiet_set_description (n : oid) (c : NodeClass) (w0 : World)
    (s : string) :
  ensures (quiet n c w0) (set_description n s) (quiet n c w0).
Proof.
  unfold set_description. apply ensures_get_obj_bind; [auto|]. intros obj.
  quiet_obj Hu. quiet_put_step.
Qed.

Lemma quiet_add_incoming (env : Env) (n : oid) (c : NodeClass) (w0 : World)
    (source : oid) (lt : LinkType) (lbl : string) :
  ensures (quiet n c w0) (add_incoming env n source lt lbl) (quiet n c w0).
Proof.
  unfold add_incoming, validate_incoming, validate_outgoing.
  apply ensures_bind; [apply ensures_reading; auto | auto | intros _].
  apply ensures_bind; [apply ensures_ret; auto | auto | intros _].
  apply ensures_get_obj_bind; [auto|]. intros obj.
  quiet_obj Hu.
  apply ensures_bind; [| apply at_obj_weaken | intros s].
  { intros w r w' Hw Hrun. unfold get_obj in Hrun.
    destruct (heap w !! source); injection Hrun as _ <-; exact Hw. }
  unfold is_stored. rewrite Hu. cbn [negb andb].
  unfold _add_cachelink_from.
  intros w r w' [Hq Hh] Hrun. rewrite bind_run in Hrun.
  rewrite (get_obj_some _ _ _ Hh) in Hrun.
  destruct (bool_decide _); injection Hrun as _ <-; [exact Hq|].
  destruct (quiet_at_unstored _ _ _ _ _ (conj Hq Hh)) as [Hu1 Hc1].
  apply quiet_put; [| | exact Hq]; cbn; assumption.
Qed.

(** X12: whatever sequence of attribute, label, description, computer,
    extra and link calls runs on an unstored node, and whether they fail
    or not, no row and no link of the durable store changes and the node
    stays unstored: only [store] and [store_all] write. *)
Theorem unstored_node_writes_nothing (env : Env) (fuel : nat) (w : World)
    (n : oid) (obj : NodeObj) (ops : list NodeOp) :
  heap w !! n = Some obj ->
  _to_be_stored obj = true ->
  Forall (fun op => is_store_call op = false) ops ->
  quiet n (klass obj) w (run_script env fuel n ops w).2.
Proof.
  intros Hh Hu Hops.
  assert (Hq : quiet n (klass obj) w w).
  { split; [reflexivity|]. split; [reflexivity|]. exists obj.
    repeat split; assumption. }
  assert (Hrun : ensures (quiet n (klass obj) w) (run_script env fuel n ops)
                         (quiet n (klass obj) w)).
  { induction Hops as [|op ops Hop _ IH]; [apply ensures_ret; auto|].
    cbn [run_script].
    apply ensures_bind; [| auto | intros _; exact IH].
    apply ensures_attempt.
    destruct op; cbn [run_node_op]; try discriminate Hop.
    - apply quiet_set_attr.
    - apply quiet_append_to_attr.
    - apply quiet_del_attr.
    - apply quiet_del_all_attrs.
    - apply quiet_set_computer.
    - apply quiet_set_extra.
    - apply quiet_set_label.
    - apply quiet_set_description.
    - apply quiet_add_incoming. }
  destruct (run_script env fuel n ops w) as [r w'] eqn:Hr.
  exact (Hrun _ _ _ Hq Hr).
Qed.

Lemma unstored_node_writes_nothing_witness :
  quiet 0 PlainNode unstored_world
    (run_script (test_env false) 3 0
       [Call_set_attr "state" (Plain (JInt 1)) true;
        Call_append_to_attr "log" (Plain (JStr "a")) true;
        Call_set_extra "tag" (Plain JNull) false;
        Call_add_incoming 0 INPUT "self";
        Call_del_all_attrs]
       unstored_world).2.
Proof.
  apply (unstored_node_writes_nothing (test_env false) 3 unstored_world 0
           unstored_obj); [reflexivity | reflexivity |].
  repeat constructor.
Defined.

(** ** A stored node keeps its attributes *)

Lemma frozen_list_blind (n : oid) (c : NodeClass) (p : pk) (r : DbNode) :
  list_blind (frozen n c p r).
Proof. intros w ls Hf. exact Hf. Qed.

Lemma frozen_at_stored (n : oid) (c : NodeClass) (p : pk) (r : DbNode)
    (w : World) (obj : NodeObj) :
  at_obj n obj (frozen n c p r) w ->
  _to_be_stored obj = false ∧ id obj = Some p ∧ klass obj = c.
Proof.
  intros [[(obj' & Hh' & Hs & Hid & Hc) _] Hh].
  rewrite Hh in Hh'. injection Hh' as <-. repeat split; assumption.
Qed.

Lemma frozen_at_unstored_absurd (n : oid) (c : NodeClass) (p : pk)
    (r : DbNode) (w : World) (obj : NodeObj) :
  _to_be_stored obj = true -> ¬ at_obj n obj (frozen n c p r) w.
Proof.
  intros Hu Hat. apply frozen_at_stored in Hat as [Hs _]. congruence.
Qed.

Lemma frozen_put (n : oid) (c : NodeClass) (p : pk) (r : DbNode) (w : World)
    (obj' : NodeObj) :
  _to_be_stored obj' = false -> id obj' = Some p -> klass obj' = c ->
  frozen n c p r w -> frozen n c p r (set_heap (<[n := obj']> (heap w)) w).
Proof.
  intros Hs Hid Hc [_ Hrow]. split; [|exact Hrow].
  exists obj'. cbn [heap set_heap]. rewrite lookup_insert_eq.
  repeat split; assumption.
Qed.

Lemma frozen_put_row (n : oid) (c : NodeClass) (p : pk) (r r1 : DbNode)
    (w : World) :
  row_core r1 = row_core r ->
  frozen n c p r w -> frozen n c p r (set_db_nodes (<[p := r1]> (db_nodes w)) w).
Proof.
  intros Hcore [Hobj _]. split; [exact Hobj|].
  exists r1. cbn [db_nodes set_db_nodes]. rewrite lookup_insert_eq.
  split; [reflexivity | exact Hcore].
Qed.

Lemma frozen_read_row (n : oid) (c : NodeClass) (p : pk) (r : DbNode)
    (w : World) :
  frozen n c p r w ->
  ∃ r', read_row n w = Ok (p, r') ∧ row_core r' = row_core r.
Proof.
  intros [(obj & Hh & _ & Hid & _) (r' & Hr & Hcore)].
  exists r'. split; [exact (read_row_some _ _ _ _ _ Hh Hid Hr) | exact Hcore].
Qed.

Ltac frozen_obj Hs :=
  match goal with
  | |- ensures (at_obj ?n ?obj (frozen _ _ _ _)) _ _ =>
      destruct (_to_be_stored obj) eqn:Hs;
      [ apply ensures_absurd; intros ?;
        apply frozen_at_unstored_absurd; exact Hs |]
  end.

Lemma frozen_set_attr (env : Env) (n : oid) (c : NodeClass) (p : pk)
    (r : DbNode) (key : string) (v : Value) (clean : bool) :
  ensures (frozen n c p r) (_set_attr env n key v clean true) (frozen n c p r).
Proof.
  unfold _set_attr. apply ensures_get_obj_bind; [auto|]. intros obj.
  frozen_obj Hs. unfold is_stored. rewrite Hs.
  apply ensures_raise, at_obj_weaken.
Qed.

Lemma frozen_append_to_attr (env : Env) (n : oid) (c : NodeClass) (p : pk)
    (r : DbNode) (key : string) (v : Value) (clean : bool) :
  ensures (frozen n c p r) (_append_to_attr env n key v clean)
          (frozen n c p r).
Proof.
  pose proof (frozen_list_blind n c p r) as Hb.
  unfold _append_to_attr.
  apply ensures_bind; [apply ensures_validate_key | auto | intros _].
  apply ensures_bind; [| auto |].
  { apply ensures_try_except;
      [apply ensures_get_attr, Hb | auto |].
    apply ensures_bind; [apply ensures_new_list, Hb | auto |].
    intros l. apply ensures_ret. auto. }
  intros [j|l]; [apply ensures_raise; auto|].
  apply ensures_bind; [| auto | intros v'].
  { destruct clean; [apply ensures_clean_value, Hb | apply ensures_ret; auto]. }
  apply ensures_bind; [apply ensures_gets; auto | auto | intros x].
  apply ensures_bind; [apply ensures_list_append, Hb | auto | intros _].
  apply frozen_set_attr.
Qed.

Lemma frozen_del_attr (n : oid) (c : NodeClass) (p : pk) (r : DbNode)
    (key : string) :
  ensures (frozen n c p r) (_del_attr n key true) (frozen n c p r).
Proof.
  unfold _del_attr. apply ensures_get_obj_bind; [auto|]. intros obj.
  frozen_obj Hs. unfold is_stored. rewrite Hs.
  apply ensures_raise, at_obj_weaken.
Qed.

Lemma frozen_del_all_attrs (n : oid) (c : NodeClass) (p : pk) (r : DbNode) :
  ensures (frozen n c p r) (_del_all_attrs n) (frozen n c p r).
Proof.
  unfold _del_all_attrs.
  apply ensures_bind; [apply ensures_reading; auto | auto | intros names].
  apply ensures_for_each. intros k. apply frozen_del_attr.
Qed.

Lemma frozen_set_computer (n : oid) (c : NodeClass) (p : pk) (r : DbNode)
    (computer : Computer) :
  ensures (frozen n c p r) (set_computer n computer) (frozen n c p r).
Proof.
  unfold set_computer. apply ensures_get_obj_bind; [auto|]. intros obj.
  frozen_obj Hs. apply ensures_raise, at_obj_weaken.
Qed.

Lemma frozen_set_db_extra (n : oid) (c : NodeClass) (p : pk) (r : DbNode)
    (key : string) (v : Value) (ex : bool) :
  ensures (frozen n c p r) (_set_db_extra n key v ex) (frozen n c p r).
Proof.
  intros w res w' Hf Hrun. unfold _set_db_extra, reading in Hrun.
  rewrite bind_run in Hrun.
  destruct (frozen_read_row _ _ _ _ _ Hf) as (r' & Hread & Hcore).
  rewrite Hread, bind_run in Hrun. cbn [gets fst snd] in Hrun.
  destruct (ex && _); injection Hrun as _ <-; [exact Hf|].
  apply frozen_put_row; [|exact Hf]. rewrite <- Hcore. reflexivity.
Qed.

Lemma frozen_set_extra (env : Env) (n : oid) (c : NodeClass) (p : pk)
    (r : DbNode) (key : string) (v : Value) (ex : bool) :
  ensures (frozen n c p r) (set_extra env n key v ex) (frozen n c p r).
Proof.
  pose proof (frozen_list_blind n c p r) as Hb.
  unfold set_extra.
  apply ensures_bind; [apply ensures_validate_key | auto | intros _].
  apply ensures_bind; [| auto | intros obj].
  { intros w res w' Hw Hrun. unfold get_obj in Hrun.
    destruct (heap w !! n); injection Hrun as _ <-; exact Hw. }
  destruct (_to_be_stored obj); [apply ensures_raise; auto|].
  apply ensures_bind; [apply ensures_clean_value, Hb | auto | intros v'].
  apply frozen_set_db_extra.
Qed.

Lemma frozen_set_label (n : oid) (c : NodeClass) (p : pk) (r : DbNode)
    (s : string) :
  ensures (frozen n c p r) (set_label n s) (frozen n c p r).
Proof.
  unfold set_label. apply ensures_get_obj_bind; [auto|]. intros obj.
  frozen_obj Hs.
  intros w res w' [Hf _] Hrun. unfold reading in Hrun.
  rewrite bind_run in Hrun.
  destruct (frozen_read_row _ _ _ _ _ Hf) as (r' & Hread & Hcore).
  rewrite Hread in Hrun. injection Hrun as _ <-.
  apply frozen_put_row; [|exact Hf]. rewrite <- Hcore. reflexivity.
Qed.

Lemma frozen_set_description (n : oid) (c : NodeClass) (p : pk) (r : DbNode)
    (s : string) :
  ensures (frozen n c p r) (set_description n s) (frozen n c p r).
Proof.
  unfold set_description. apply ensures_get_obj_bind; [auto|]. intros obj.
  frozen_obj Hs.
  intros w res w' [Hf _] Hrun. unfold reading in Hrun.
  rewrite bind_run in Hrun.
  destruct (frozen_read_row _ _ _ _ _ Hf) as (r' & Hread & Hcore).
  rewrite Hread in Hrun. injection Hrun as _ <-.
  apply frozen_put_row; [|exact Hf]. rewrite <- Hcore. reflexivity.
Qed.

Lemma frozen_add_dblink_from (n : oid) (c : NodeClass) (p : pk) (r : DbNode)
    (self src : oid) (lt : LinkType) (lbl : string) :
  ensures (frozen n c p r) (_add_dblink_from self src lt lbl)
          (frozen n c p r).
Proof.
  intros w res w' Hf Hrun.
  pose proof (heap_fixed_add_dblink_from self src lt lbl w res w' Hrun) as Hheap.
  unfold _add_dblink_from in Hrun. rewrite !bind_run in Hrun.
  unfold get_obj in Hrun.
  destruct (heap w !! self) as [t|]; [|injection Hrun as _ <-; exact Hf].
  rewrite bind_run in Hrun.
  destruct (heap w !! src) as [s|]; [|injection Hrun as _ <-; exact Hf].
  destruct (id t), (id s); try (injection Hrun as _ <-; exact Hf).
  rewrite bind_run in Hrun. cbn [gets] in Hrun.
  destruct (existsb _ _); injection Hrun as _ <-; exact Hf.
Qed.

Lemma frozen_add_incoming (env : Env) (n : oid) (c : NodeClass) (p : pk)
    (r : DbNode) (source : oid) (lt : LinkType) (lbl : string) :
  ensures (frozen n c p r) (add_incoming env n source lt lbl)
          (frozen n c p r).
Proof.
  unfold add_incoming, validate_incoming, validate_outgoing.
  apply ensures_bind; [apply ensures_reading; auto | auto | intros _].
  apply ensures_bind; [apply ensures_ret; auto | auto | intros _].
  apply ensures_get_obj_bind; [auto|]. intros obj.
  frozen_obj Hs.
  apply ensures_bind; [| apply at_obj_weaken | intros s].
  { intros w res w' Hw Hrun. unfold get_obj in Hrun.
    destruct (heap w !! source); injection Hrun as _ <-; exact Hw. }
  destruct (is_stored obj && is_stored s).
  - eapply ensures_weaken;
      [apply (frozen_add_dblink_from n c p r) | apply at_obj_weaken | auto].
  - unfold _add_cachelink_from.
    intros w res w' [Hf Hh] Hrun. rewrite bind_run in Hrun.
    rewrite (get_obj_some _ _ _ Hh) in Hrun.
    destruct (bool_decide _); injection Hrun as _ <-; [exact Hf|].
    destruct (frozen_at_stored _ _ _ _ _ _ (conj Hf Hh)) as (H1 & H2 & H3).
    apply frozen_put; [| | | exact Hf]; cbn; assumption.
Qed.

Lemma frozen_store (env : Env) (fuel : nat) (n : oid) (c : NodeClass)
    (p : pk) (r : DbNode) (wt : bool) (uc : option bool) :
  ensures (frozen n c p r) (store env fuel wt n uc) (frozen n c p r).
Proof.
  destruct fuel as [|fuel]; [apply ensures_raise; auto|].
  cbn [store]. apply ensures_get_obj_bind; [auto|]. intros obj.
  frozen_obj Hs.
  destruct (negb (_storable (klass obj)));
    [apply ensures_raise, at_obj_weaken|].
  apply ensures_bind; [apply ensures_reading; auto | apply at_obj_weaken|].
  intros _. apply ensures_ret, at_obj_weaken.
Qed.

Lemma frozen_store_all (env : Env) (fuel : nat) (n : oid) (c : NodeClass)
    (p : pk) (r : DbNode) (wt : bool) (uc : option bool) :
  ensures (frozen n c p r) (store_all env fuel n wt uc) (frozen n c p r).
Proof.
  unfold store_all. apply ensures_get_obj_bind; [auto|]. intros obj.
  frozen_obj Hs. unfold is_stored. rewrite Hs.
  apply ensures_raise, at_obj_weaken.
Qed.

(** X13: once a node is stored, no sequence of calls on it, [store] and
    [store_all] included and failing or not, changes its attributes, its
    folder, its computer, its type or its identifiers: [get_attrs] and
    [get_hash] answer afterwards what they answered before. *)
Theorem stored_node_keeps_its_content (env : Env) (fuel : nat) (w : World)
    (n : oid) (obj : NodeObj) (p : pk) (r : DbNode) (ops : list NodeOp) :
  heap w !! n = Some obj ->
  _to_be_stored obj = false ->
  id obj = Some p ->
  db_nodes w !! p = Some r ->
  let w' := (run_script env fuel n ops w).2 in
  frozen n (klass obj) p r w'
  ∧ get_attrs n w' = Ok (db_attributes r)
  ∧ ∀ ignore_errors,
      get_hash env n ignore_errors w' = get_hash env n ignore_errors w.
Proof.
  intros Hh Hs Hid Hr w'.
  assert (Hf : frozen n (klass obj) p r w).
  { split; [exists obj; repeat split; assumption|].
    exists r. split; [exact Hr | reflexivity]. }
  assert (Hrun : ensures (frozen n (klass obj) p r) (run_script env fuel n ops)
                         (frozen n (klass obj) p r)).
  { induction ops as [|op ops IH]; [apply ensures_ret; auto|].
    cbn [run_script].
    apply ensures_bind; [| auto | intros _; exact IH].
    apply ensures_attempt. destruct op; cbn [run_node_op].
    - apply frozen_set_attr.
    - apply frozen_append_to_attr.
    - apply frozen_del_attr.
    - apply frozen_del_all_attrs.
    - apply frozen_set_computer.
    - apply frozen_set_extra.
    - apply frozen_set_label.
    - apply frozen_set_description.
    - apply frozen_add_incoming.
    - apply frozen_store.
    - apply frozen_store_all. }
  assert (Hf' : frozen n (klass obj) p r w').
  { unfold w'. destruct (run_script env fuel n ops w) as [res w1] eqn:Hres.
    exact (Hrun _ _ _ Hf Hres). }
  split; [exact Hf'|].
  destruct Hf' as [(obj' & Hh' & Hs' & Hid' & Hc') (r' & Hr' & Hcore)].
  injection Hcore as Hu Ht Ha Hfo Hco.
  split.
  - unfold get_attrs.
    rewrite (read_obj_some _ _ _ Hh'), Hs'.
    rewrite (read_row_some _ _ _ _ _ Hh' Hid' Hr'). cbn [snd].
    rewrite Ha. reflexivity.
  - intros ie. apply get_hash_ext.
    rewrite (objects_to_hash_stored env n obj' p r' w' Hh' Hs' Hid' Hr').
    rewrite (objects_to_hash_stored env n obj p r w Hh Hs Hid Hr).
    rewrite Hc', Ha, Hfo, Hco. reflexivity.
Qed.

Lemma stored_node_keeps_its_content_witness :
  let w' := (run_script (test_env false) 3 0
               [Call_set_attr "bool" (Plain (JBool false)) true;
                Call_append_to_attr "integer" (Plain (JInt 1)) true;
                Call_set_extra "tag" (Plain JNull) false;
                Call_set_label "renamed";
                Call_store true None;
                Call_del_all_attrs]
               stored_world).2 in
  frozen 0 PlainNode 1 stored_row w'
  ∧ get_attrs 0 w' = Ok mutability_attrs
  ∧ ∀ ignore_errors,
      get_hash (test_env false) 0 ignore_errors w'
      = get_hash (test_env false) 0 ignore_errors stored_world.
Proof.
  exact (stored_node_keeps_its_content (test_env false) 3 stored_world 0
           stored_obj 1 stored_row _ eq_refl eq_refl eq_refl eq_refl).
Defined.

(** ** Keyword setters *)

Lemma incompatibilities_pass (incs : list (list string)) (keys : list string)
    (w : World) :
  (∀ incomp, incomp ∈ incs -> ∃ k, k ∈ incomp ∧ k ∉ keys) ->
  for_each incs (fun incomp =>
    if forallb (fun k => bool_decide (k ∈ keys)) incomp then
      if decide (length incomp = 1%nat) then raise ValueError
      else raise ValueError
    else mret tt) w = (Ok tt, w).
Proof.
  induction incs as [|incomp incs IH]; intros Hall; [reflexivity|].
  cbn [for_each]. rewrite bind_run.
  destruct (Hall incomp (list_elem_of_here _ _)) as (k & Hk & Hnot).
  destruct (forallb _ incomp) eqn:Hf.
  - rewrite forallb_forall in Hf.
    apply list_elem_of_In, Hf, bool_decide_eq_true in Hk. contradiction.
  - cbn [mret M_ret ret]. apply IH. intros i Hi. apply Hall. right. exact Hi.
Qed.

Lemma incompatibilities_fail (incs : list (list string)) (keys : list string)
    (w : World) :
  (∃ incomp, incomp ∈ incs ∧ ∀ k, k ∈ incomp -> k ∈ keys) ->
  for_each incs (fun incomp =>
    if forallb (fun k => bool_decide (k ∈ keys)) incomp then
      if decide (length incomp = 1%nat) then raise ValueError
      else raise ValueError
    else mret tt) w = (Raise ValueError, w).
Proof.
  induction incs as [|incomp incs IH]; intros (i & Hi & Hall);
    [inversion Hi|].
  cbn [for_each]. rewrite bind_run.
  destruct (forallb _ incomp) eqn:Hf.
  - destruct (decide (length incomp = 1%nat)); reflexivity.
  - cbn [mret M_ret ret]. apply IH. exists i. split; [|exact Hall].
    apply elem_of_cons in Hi as [->|Hi]; [|exact Hi].
    assert (Ht : forallb (fun k => bool_decide (k ∈ keys)) incomp = true).
    { apply forallb_forall. intros k Hk. apply bool_decide_eq_true, Hall.
      apply list_elem_of_In. exact Hk. }
    congruence.
Qed.

(** X14: when all the names of one tuple of [_set_incompatibilities] are
    among the keys of the arguments, [_set_internal] and [set] raise
    ValueError before any setter runs: nothing changes.  An empty tuple in
    the list makes every call fail.  [_set_with_defaults] fails before any
    setter too when the tuple is covered by the keys of the defaults; when
    it is covered by the keyword arguments, the pass over the defaults runs
    first, with its setters, and the call then fails with ValueError, or
    with the error of that pass: it never succeeds, and it ends in the
    world that the pass over the defaults leaves. *)
Theorem set_rejects_incompatible_keys (incs : list (list string))
    (getattr : string -> option PyAttr) (arguments : list (string * Value))
    (allow_hidden : bool) (incomp : list string) (w : World) :
  incomp ∈ incs ->
  (∀ k, k ∈ incomp -> k ∈ arguments.*1) ->
  _set_internal incs getattr arguments allow_hidden w = (Raise ValueError, w)
  ∧ set incs getattr arguments w = (Raise ValueError, w)
  ∧ (∀ kwargs,
       _set_with_defaults incs arguments getattr kwargs w
       = (Raise ValueError, w))
  ∧ ∀ defaults,
      _set_with_defaults incs defaults getattr arguments w
      = match _set_internal incs getattr defaults true w with
        | (Ok _, w1) => (Raise ValueError, w1)
        | (Raise e, w1) => (Raise e, w1)
        end.
Proof.
  intros Hin Hall.
  assert (H : ∀ ah w0, _set_internal incs getattr arguments ah w0
                       = (Raise ValueError, w0)).
  { intros ah w0. unfold _set_internal. apply bind_raise.
    apply incompatibilities_fail. exists incomp. split; assumption. }
  split; [apply H|]. split; [apply H|]. split.
  - intros kwargs. unfold _set_with_defaults. apply bind_raise, H.
  - intros defaults. unfold _set_with_defaults. rewrite bind_run.
    destruct (_set_internal incs getattr defaults true w) as [[[]|e] w1];
      [apply H | reflexivity].
Qed.

Lemma set_rejects_incompatible_keys_witness :
  let getattr := fun name =>
    if decide (name = "set_label")
    then Some (Method (fun v => set_label 0 "x"))
    else Some (Method (fun _ => mret tt)) in
  let kwargs := [("property", Plain (JInt 5)); ("mass", Plain (JInt 2))] in
  set [["property"; "mass"]] getattr kwargs unstored_world
  = (Raise ValueError, unstored_world)
  ∧ set [[]] getattr [] unstored_world = (Raise ValueError, unstored_world)
  ∧ _set_with_defaults [["property"; "mass"]] [("label", Plain (JStr "x"))]
      getattr kwargs unstored_world
    = (Raise ValueError, run (set_label 0 "x") unstored_world)
  ∧ (label <$> heap unstored_world !! 0) = Some ""
  ∧ (label <$> heap (run (set_label 0 "x") unstored_world) !! 0) = Some "x".
Proof.
  intros getattr kwargs. split; [|split; [|split]].
  - apply (set_rejects_incompatible_keys [["property"; "mass"]] getattr kwargs
             false ["property"; "mass"] unstored_world).
    + left.
    + intros k Hk. exact Hk.
  - apply (set_rejects_incompatible_keys [[]] getattr [] false []
             unstored_world).
    + left.
    + intros k Hk. inversion Hk.
  - destruct (set_rejects_incompatible_keys [["property"; "mass"]] getattr
                kwargs false ["property"; "mass"] unstored_world)
      as (_ & _ & _ & H4); [left | intros k Hk; exact Hk |].
    rewrite (H4 [("label", Plain (JStr "x"))]). vm_compute. reflexivity.
  - split; vm_compute; reflexivity.
Defined.

Lemma setters_found (getattr : string -> option PyAttr) (allow_hidden : bool)
    (arguments : list (string * Value)) (w w' : World) :
  for_each arguments (fun kv =>
    match getattr (setter_name allow_hidden kv.1) with
    | None => raise ValueError
    | Some NotCallable => raise ValueError
    | Some (Method method) => method kv.2
    end) w = (Ok tt, w') ->
  ∀ kv, kv ∈ arguments ->
    ∃ method, getattr (setter_name allow_hidden kv.1) = Some (Method method).
Proof.
  revert w. induction arguments as [|kv0 rest IH]; intros w Hrun kv Hkv;
    [inversion Hkv|].
  cbn [for_each] in Hrun. apply bind_ok_inv in Hrun as ([] & w1 & H0 & Hrest).
  apply elem_of_cons in Hkv as [->|Hkv]; [|exact (IH _ Hrest _ Hkv)].
  destruct (getattr (setter_name allow_hidden kv0.1)) as [[method|]|];
    [exists method; reflexivity | discriminate | discriminate].
Qed.

(** X15: [set] succeeds only if no tuple of [_set_incompatibilities] is
    covered by the keys and every key [k] has a callable [set_k]; a method
    [_set_k] does not count.  [_set_with_defaults] succeeds only if that
    holds for the keyword arguments and, in addition, no tuple is covered
    by the keys of the defaults and every default has its setter, which for
    a key that starts with an underscore is the hidden one. *)
Theorem set_needs_a_setter (incs : list (list string))
    (getattr : string -> option PyAttr) (defaults kwargs : list (string * Value))
    (w w' : World) :
  (set incs getattr kwargs w = (Ok tt, w') ->
   (∀ incomp, incomp ∈ incs -> ∃ k, k ∈ incomp ∧ k ∉ kwargs.*1)
   ∧ ∀ kv, kv ∈ kwargs ->
       ∃ method, getattr ("set_" +:+ kv.1) = Some (Method method))
  ∧ (_set_with_defaults incs defaults getattr kwargs w = (Ok tt, w') ->
     (∀ incomp, incomp ∈ incs -> ∃ k, k ∈ incomp ∧ k ∉ kwargs.*1)
     ∧ (∀ kv, kv ∈ kwargs ->
          ∃ method, getattr ("set_" +:+ kv.1) = Some (Method method))
     ∧ (∀ incomp, incomp ∈ incs -> ∃ k, k ∈ incomp ∧ k ∉ defaults.*1)
     ∧ ∀ kv, kv ∈ defaults ->
         ∃ method, getattr (setter_name true kv.1) = Some (Method method)).
Proof.
  assert (Hname : ∀ k, setter_name false k = "set_" +:+ k).
  { intros [|a k]; [reflexivity|]. cbn [setter_name].
    destruct a as [[] [] [] [] [] [] [] []]; reflexivity. }
  assert (Hint : ∀ args ah w0 w1,
            _set_internal incs getattr args ah w0 = (Ok tt, w1) ->
            (∀ incomp, incomp ∈ incs -> ∃ k, k ∈ incomp ∧ k ∉ args.*1)
            ∧ ∀ kv, kv ∈ args ->
                ∃ method,
                  getattr (setter_name ah kv.1) = Some (Method method)).
  { intros args ah w0 w1 Hrun. unfold _set_internal in Hrun.
    apply bind_ok_inv in Hrun as ([] & w2 & Hinc & Hrest). split.
    - intros incomp Hin.
      destruct (decide (Forall (fun k => k ∈ args.*1) incomp)) as [Hall|Hnot].
      + rewrite Forall_forall in Hall.
        rewrite incompatibilities_fail in Hinc by (exists incomp; auto).
        discriminate.
      + apply not_Forall_Exists in Hnot; [|apply _].
        apply Exists_exists in Hnot as (k & Hk & Hn). exists k. auto.
    - exact (setters_found _ _ _ _ _ Hrest). }
  assert (Hset : ∀ w0 w1, set incs getattr kwargs w0 = (Ok tt, w1) ->
            (∀ incomp, incomp ∈ incs -> ∃ k, k ∈ incomp ∧ k ∉ kwargs.*1)
            ∧ ∀ kv, kv ∈ kwargs ->
                ∃ method, getattr ("set_" +:+ kv.1) = Some (Method method)).
  { intros w0 w1 Hrun. destruct (Hint _ _ _ _ Hrun) as [Hinc Hmeth].
    split; [exact Hinc|]. intros kv Hkv. rewrite <- Hname.
    exact (Hmeth kv Hkv). }
  split; [apply Hset|].
  intros Hrun. unfold _set_with_defaults in Hrun.
  apply bind_ok_inv in Hrun as ([] & w1 & Hdef & Hkw).
  destruct (Hset _ _ Hkw) as [Hinc Hmeth].
  destruct (Hint _ _ _ _ Hdef) as [Hinc' Hmeth'].
  split; [exact Hinc|]. split; [exact Hmeth|]. split; assumption.
Qed.

Lemma set_needs_a_setter_witness :
  let getattr := fun name =>
    if decide (name = "set_label")
    then Some (Method (fun v => set_label 0 "x"))
    else None in
  ∃ method, getattr ("set_" +:+ "label") = Some (Method method).
Proof.
  intros getattr.
  refine (proj2 (proj1 (set_needs_a_setter [["a"; "b"]] getattr []
                          [("label", Plain (JStr "x"))] unstored_world _) _)
                ("label", Plain (JStr "x")) _).
  - vm_compute. reflexivity.
  - left.
Defined.

(** ** The attributes copied from a cache node *)

Lemma cleaned_deref (w : World) (v : Value) :
  cleaned w v = clean_json (deref w v).
Proof. destruct v as [[]|]; reflexivity. Qed.

Lemma deref_weaken (w w' : World) (v : Value) :
  lists w ⊆ lists w' -> allocated w v -> deref w' v = deref w v.
Proof.
  intros Hsub Hv. destruct v as [j|l]; [reflexivity|].
  cbn [allocated] in Hv. apply elem_of_dom in Hv as [xs Hxs].
  cbn [deref]. unfold read_list.
  rewrite Hxs, (lookup_weaken _ _ _ _ Hxs Hsub). reflexivity.
Qed.

Lemma lists_alloc (w : World) (xs : list json) :
  lists w ⊆ <[fresh (dom (lists w)) := xs]> (lists w).
Proof. apply insert_subseteq, not_elem_of_dom, is_fresh. Qed.

Lemma load_value_alloc (j : json) (w : World) :
  ∃ v w', load_value j w = (Ok v, w') ∧ deref w' v = j ∧ allocated w' v
          ∧ heap w' = heap w ∧ lists w ⊆ lists w'.
Proof.
  destruct j;
    try (eexists _, _; split; [reflexivity|]; repeat split; reflexivity).
  eexists _, _. split; [reflexivity|]. cbn [deref allocated lists set_lists].
  rewrite read_list_insert_eq. split; [reflexivity|].
  split; [rewrite dom_insert_L; set_solver|]. split; [reflexivity|].
  apply lists_alloc.
Qed.

Lemma after_clean_alloc (v : Value) (w : World) :
  allocated (after_clean v w).2 (after_clean v w).1
  ∧ lists w ⊆ lists (after_clean v w).2.
Proof.
  destruct v as [[]|]; cbn [after_clean fst snd allocated lists set_lists];
    try (split; [exact I | reflexivity]);
    (split; [rewrite dom_insert_L; set_solver | apply lists_alloc]).
Qed.

(** X16: on an unstored node the attribute loop of [_store_from_cache],
    when it succeeds, gives the node every attribute of the cache node
    except the one under [Sealable.SEALED_KEY], with the cleaned content;
    the sealed flag and the attributes the cache node does not have stay as
    the node had them. *)
Theorem cache_copy_of_attributes (env : Env) (n : oid)
    (kvs : list (string * json)) :
  ∀ (obj : NodeObj) (w w' : World),
    heap w !! n = Some obj ->
    _to_be_stored obj = true ->
    NoDup kvs.*1 ->
    copy_attributes env n kvs w = (Ok tt, w') ->
    ∃ obj',
      heap w' !! n = Some obj'
      ∧ _to_be_stored obj' = true
      ∧ lists w ⊆ lists w'
      ∧ (∀ k j, (k, j) ∈ kvs -> k ≠ SEALED_KEY env ->
           ∃ v, _attrs_cache obj' !! k = Some v ∧ allocated w' v
                ∧ deref w' v = clean_json j)
      ∧ (∀ k, k ∉ kvs.*1 ∨ k = SEALED_KEY env ->
           _attrs_cache obj' !! k = _attrs_cache obj !! k).
Proof.
  induction kvs as [|[k j] rest IH]; intros obj w w' Hh Hu Hnd Hrun.
  - injection Hrun as <-. exists obj. split; [exact Hh|]. split; [exact Hu|].
    split; [reflexivity|]. split; [|reflexivity].
    intros k j Hin. inversion Hin.
  - cbn [copy_attributes fst snd] in Hrun.
    cbn [fmap list_fmap fst] in Hnd. apply NoDup_cons in Hnd as [Hk Hnd].
    apply bind_ok_inv in Hrun as ([] & w2 & Hstep & Hrest).
    destruct (decide (k ≠ SEALED_KEY env)) as [Hne|Heq].
    + destruct (load_value_alloc j w) as (v & w1 & Hload & Hd1 & Ha1 & Hh1 & Hs1).
      rewrite bind_run, Hload in Hstep.
      assert (Hn1 : heap w1 !! n = Some obj) by (rewrite Hh1; exact Hh).
      destruct (contains_char (AIIDA_ATTRIBUTE_SEP env) k) eqn:Hkey.
      { unfold _set_attr in Hstep.
        rewrite (bind_ok _ _ _ _ _ (get_obj_some _ _ _ Hn1)) in Hstep.
        unfold is_stored in Hstep. rewrite Hu in Hstep.
        cbn [negb andb] in Hstep. unfold validate_attribute_key in Hstep.
        rewrite Hkey in Hstep. discriminate. }
      rewrite (set_attr_clean_unstored env n obj k v w1 Hn1 Hu Hkey) in Hstep.
      injection Hstep as <-.
      destruct (after_clean_alloc v w1) as [Ha2 Hs2].
      set (v2 := (after_clean v w1).1) in *.
      set (wc := (after_clean v w1).2) in *.
      set (obj2 := with_attrs (<[k := v2]> (_attrs_cache obj)) obj) in *.
      set (w2 := set_heap (<[n := obj2]> (heap wc)) wc) in *.
      assert (Hn2 : heap w2 !! n = Some obj2)
        by (unfold w2; cbn [heap set_heap]; apply lookup_insert_eq).
      destruct (IH obj2 w2 w' Hn2 Hu Hnd Hrest)
        as (obj' & Hh' & Hu' & Hs' & Hcopied & Hkept).
      exists obj'. split; [exact Hh'|]. split; [exact Hu'|].
      split; [etrans; [exact Hs1|]; etrans; [exact Hs2 | exact Hs']|].
      split.
      * intros k' j' Hin Hk'. apply elem_of_cons in Hin as [[= -> ->]|Hin];
          [|exact (Hcopied k' j' Hin Hk')].
        exists v2. split; [|split].
        -- rewrite (Hkept k (or_introl Hk)). cbn [obj2 _attrs_cache with_attrs].
           apply lookup_insert_eq.
        -- destruct v2 as [|l]; [exact I|]. cbn [allocated] in Ha2 |- *.
           apply elem_of_dom in Ha2 as [xs Hxs]. apply elem_of_dom.
           exists xs. exact (lookup_weaken _ _ _ _ Hxs Hs').
        -- rewrite (deref_weaken w2 w' v2 Hs' Ha2).
           unfold w2. rewrite deref_set_heap. unfold v2, wc.
           rewrite deref_after_clean, cleaned_deref, Hd1. reflexivity.
      * intros k' Hk'. rewrite Hkept.
        -- cbn [obj2 _attrs_cache with_attrs]. apply lookup_insert_ne.
           destruct Hk' as [Hk'| ->]; [|exact Hne].
           intros ->. apply Hk'. left.
        -- destruct Hk' as [Hk'|Hk']; [left | right; exact Hk'].
           intros Hin. apply Hk'. right. exact Hin.
    + injection Hstep as <-. apply dec_stable in Heq.
      destruct (IH obj w w' Hh Hu Hnd Hrest)
        as (obj' & Hh' & Hu' & Hs' & Hcopied & Hkept).
      exists obj'. split; [exact Hh'|]. split; [exact Hu'|].
      split; [exact Hs'|]. split.
      * intros k' j' Hin Hk'. apply elem_of_cons in Hin as [[= -> ->]|Hin];
          [contradiction | exact (Hcopied k' j' Hin Hk')].
      * intros k' Hk'. apply Hkept.
        destruct Hk' as [Hk'|Hk']; [left | right; exact Hk'].
        intros Hin. apply Hk'. right. exact Hin.
Qed.

Lemma cache_copy_of_attributes_witness :
  let kvs := [("energy", JBox (JInt 3)); ("_sealed", JBool true)] in
  let w' := (copy_attributes (test_env false) 0 kvs unstored_world).2 in
  ∃ obj',
    heap w' !! 0%nat = Some obj'
    ∧ _to_be_stored obj' = true
    ∧ lists unstored_world ⊆ lists w'
    ∧ (∀ k j, (k, j) ∈ kvs -> k ≠ "_sealed" ->
         ∃ v, _attrs_cache obj' !! k = Some v ∧ allocated w' v
              ∧ deref w' v = clean_json j)
    ∧ (∀ k, k ∉ kvs.*1 ∨ k = "_sealed" ->
         _attrs_cache obj' !! k = _attrs_cache unstored_obj !! k).
Proof.
  intros kvs w'.
  apply (cache_copy_of_attributes (test_env false) 0 kvs unstored_obj
           unstored_world w'); [reflexivity | reflexivity | |].
  - apply (bool_decide_unpack _). vm_compute. exact I.
  - vm_compute. reflexivity.
Defined.

(** * Properties of [find_path] *)

Lemma parents_cons_elem (path p : list string) :
  p ∈ path :: find_folder.parents path ↔ ∃ k, (k ≤ length path)%nat ∧ p = take k path.
Proof.
  unfold find_folder.parents. split.
  - intros Hp. apply elem_of_cons in Hp as [->|Hp].
    + exists (length path). split; [lia|]. rewrite firstn_all. reflexivity.
    + apply list_elem_of_fmap in Hp as (k & -> & Hk).
      apply elem_of_reverse, elem_of_seq in Hk. exists k. split; [lia|reflexivity].
  - intros (k & Hk & ->).
    destruct (decide (k = length path)) as [->|Hne].
    + rewrite firstn_all. left.
    + right. apply list_elem_of_fmap. exists k. split; [reflexivity|].
      apply elem_of_reverse, elem_of_seq. lia.
Qed.

Lemma first_directory_spec (is_dir : list string -> bool)
    (candidates : list (list string)) (dir_name : list string) :
  match find_folder.first_directory is_dir candidates dir_name with
  | find_folder.Return d =>
      ∃ i p, candidates !! i = Some p ∧ d = p ++ dir_name
             ∧ is_dir d = true
             ∧ ∀ j q, (j < i)%nat -> candidates !! j = Some q ->
                      is_dir (q ++ dir_name) = false
  | find_folder.OSError =>
      ∀ p, p ∈ candidates -> is_dir (p ++ dir_name) = false
  end.
Proof.
  induction candidates as [|p rest IH]; cbn [find_folder.first_directory].
  - intros p Hp. inversion Hp.
  - destruct (is_dir (p ++ dir_name)) eqn:Hd.
    + exists 0%nat, p. split; [reflexivity|]. split; [reflexivity|].
      split; [exact Hd|]. intros j q Hj. lia.
    + destruct (find_folder.first_directory is_dir rest dir_name) as [d|].
      * destruct IH as (i & q & Hq & -> & Hdq & Hbefore).
        exists (S i), q. split; [exact Hq|]. split; [reflexivity|].
        split; [exact Hdq|]. intros [|j] q' Hj Hq'.
        -- injection Hq' as <-. exact Hd.
        -- apply (Hbefore j q'); [lia | exact Hq'].
      * intros q Hq. apply elem_of_cons in Hq as [->|Hq];
          [exact Hd | exact (IH q Hq)].
Qed.

Lemma candidates_lookup (path : list string) (i : nat) :
  (i ≤ length path)%nat ->
  (path :: find_folder.parents path) !! i = Some (take (length path - i) path).
Proof.
  intros Hi. destruct i as [|j].
  - rewrite Nat.sub_0_r, firstn_all. reflexivity.
  - change ((path :: find_folder.parents path) !! S j)
      with (find_folder.parents path !! j).
    unfold find_folder.parents.
    rewrite list_lookup_fmap, reverse_lookup by (rewrite length_seq; lia).
    rewrite length_seq, lookup_seq_lt by lia.
    reflexivity.
Qed.

(** X17: the directory that [find_path] returns is [dir_name] below the
    path or below one of its ancestors, it is a directory, and no ancestor
    nearer to the path has a directory of that name. *)
Theorem find_path_returns_nearest (is_dir : list string -> bool)
    (path dir_name d : list string) :
  find_folder.find_path is_dir path dir_name = find_folder.Return d ->
  ∃ k, (k ≤ length path)%nat
       ∧ d = take k path ++ dir_name
       ∧ is_dir d = true
       ∧ ∀ k', (k < k' ≤ length path)%nat ->
               is_dir (take k' path ++ dir_name) = false.
Proof.
  intros Hfind. unfold find_folder.find_path in Hfind.
  pose proof (first_directory_spec is_dir (path :: find_folder.parents path)
                dir_name) as Hspec.
  rewrite Hfind in Hspec. destruct Hspec as (i & p & Hp & -> & Hd & Hbefore).
  assert (Hi : (i ≤ length path)%nat).
  { apply lookup_lt_Some in Hp. cbn [length] in Hp.
    unfold find_folder.parents in Hp.
    rewrite length_fmap, length_reverse, length_seq in Hp. lia. }
  rewrite candidates_lookup in Hp by exact Hi. injection Hp as <-.
  exists (length path - i)%nat. split; [lia|]. split; [reflexivity|].
  split; [exact Hd|]. intros k' Hk'.
  apply (Hbefore (length path - k')%nat); [lia|].
  rewrite candidates_lookup by lia. do 2 f_equal. lia.
Qed.

Lemma find_path_returns_nearest_witness :
  let is_dir := fun d => bool_decide (d = ["home"; "aiida"; ".git"]
                                      ∨ d = ["home"; ".git"]) in
  ∃ k, (k ≤ 4)%nat
       ∧ ["home"; "aiida"; ".git"]
         = take k ["home"; "aiida"; "orm"; "tests"] ++ [".git"]
       ∧ is_dir ["home"; "aiida"; ".git"] = true
       ∧ ∀ k', (k < k' ≤ 4)%nat ->
               is_dir (take k' ["home"; "aiida"; "orm"; "tests"] ++ [".git"])
               = false.
Proof.
  intros is_dir.
  exact (find_path_returns_nearest is_dir ["home"; "aiida"; "orm"; "tests"]
           [".git"] ["home"; "aiida"; ".git"] eq_refl).
Defined.

(** X18: [find_path] raises OSError exactly when neither the path nor any
    of its ancestors, the root of the file system included, has a
    directory [dir_name]. *)
Theorem find_path_fails_iff (is_dir : list string -> bool)
    (path dir_name : list string) :
  find_folder.find_path is_dir path dir_name = find_folder.OSError
  ↔ ∀ k, (k ≤ length path)%nat -> is_dir (take k path ++ dir_name) = false.
Proof.
  unfold find_folder.find_path.
  pose proof (first_directory_spec is_dir (path :: find_folder.parents path)
                dir_name) as Hspec.
  split.
  - intros Hfind k Hk. rewrite Hfind in Hspec. apply Hspec.
    apply parents_cons_elem. exists k. split; [exact Hk | reflexivity].
  - intros Hnone.
    destruct (find_folder.first_directory is_dir _ dir_name) as [d|];
      [|reflexivity].
    destruct Hspec as (i & p & Hp & -> & Hd & _).
    apply list_elem_of_lookup_2, parents_cons_elem in Hp as (k & Hk & ->).
    rewrite (Hnone k Hk) in Hd. discriminate.
Qed.

(** * Properties of [get_db_test_names] *)

Lemma split_nonempty (sep : ascii) (s : string) : tests.split sep s ≠ [].
Proof.
  destruct s as [|c s]; cbn [tests.split]; [discriminate|].
  destruct (decide (c = sep)); [discriminate|].
  destruct (tests.split sep s); discriminate.
Qed.

Lemma split_without_sep (sep : ascii) (s : string) :
  contains_char sep s = false -> tests.split sep s = [s].
Proof.
  induction s as [|c s IH]; cbn [tests.split contains_char]; [reflexivity|].
  destruct (decide (c = sep)); [discriminate|]. intros Hs.
  rewrite (IH Hs). reflexivity.
Qed.

Lemma elem_of_parent_keys (k p : string) :
  p ∈ tests.parent_keys k
  ↔ ∃ i, (1 ≤ i < length (tests.split "." k))%nat
         ∧ p = tests.join "." (take i (tests.split "." k)).
Proof.
  unfold tests.parent_keys.
  destruct (contains_char "." k) eqn:Hk.
  - rewrite list_elem_of_fmap. split.
    + intros (i & -> & Hi). apply elem_of_seq in Hi. exists i.
      split; [lia | reflexivity].
    + intros (i & Hi & ->). exists i. split; [reflexivity|].
      apply elem_of_seq. lia.
  - rewrite (split_without_sep _ _ Hk). split.
    + intros Hp. inversion Hp.
    + intros (i & Hi & _). cbn [length] in Hi. lia.
Qed.

#[local] Instance string_le_total : Total tests.string_le.
Proof. intros a b. apply String.leb_total. Qed.

Lemma string_le_iff (a b : string) :
  tests.string_le a b ↔ a = b ∨ OrderedTypeEx.String_as_OT.lt a b.
Proof.
  unfold tests.string_le, String.leb.
  pose proof (OrderedTypeEx.String_as_OT.cmp_eq a b) as Heq.
  pose proof (OrderedTypeEx.String_as_OT.cmp_lt a b) as Hlt.
  unfold OrderedTypeEx.String_as_OT.cmp in *.
  destruct (String.compare a b) eqn:Hc; split; intros H; try reflexivity.
  - left. apply Heq. reflexivity.
  - right. apply Hlt. reflexivity.
  - discriminate.
  - destruct H as [H|H]; [apply Heq in H | apply Hlt in H]; discriminate.
Qed.

#[local] Instance string_le_trans : Transitive tests.string_le.
Proof.
  intros a b c Hab Hbc. apply string_le_iff in Hab, Hbc. apply string_le_iff.
  destruct Hab as [->|Hab]; [exact Hbc|].
  destruct Hbc as [<-|Hbc]; [right; exact Hab|].
  right. exact (OrderedTypeEx.String_as_OT.lt_trans _ _ _ Hab Hbc).
Qed.

Lemma elem_of_test_names
    (db_test_list : list (string * list (string * list string)))
    (entry_points : list (string * string)) (p : string) :
  p ∈ tests.get_db_test_names db_test_list entry_points
  ↔ p ∈ tests.retlist db_test_list entry_points
    ∨ ∃ k i, k ∈ tests.retlist db_test_list entry_points
             ∧ (1 ≤ i < length (tests.split "." k))%nat
             ∧ p = tests.join "." (take i (tests.split "." k)).
Proof.
  unfold tests.get_db_test_names, tests.sorted_set.
  rewrite merge_sort_Permutation, elem_of_remove_dups, elem_of_app.
  rewrite list_elem_of_bind. split.
  - intros [Hp|(k & Hp & Hk)]; [left; exact Hp|]. right.
    apply elem_of_parent_keys in Hp as (i & Hi & ->). exists k, i. auto.
  - intros [Hp|(k & i & Hk & Hi & ->)]; [left; exact Hp|]. right.
    exists k. split; [|exact Hk]. apply elem_of_parent_keys. exists i. auto.
Qed.

(** X19: [get_db_test_names] returns, in increasing order and without
    repetition, exactly the names of the table and of the entry points
    together with every proper dotted prefix of a name: for [a.b.c] also
    [a] and [a.b]. *)
Theorem test_names_are_the_dotted_prefixes
    (db_test_list : list (string * list (string * list string)))
    (entry_points : list (string * string)) :
  let names := tests.get_db_test_names db_test_list entry_points in
  StronglySorted tests.string_le names
  ∧ NoDup names
  ∧ ∀ p, p ∈ names
         ↔ p ∈ tests.retlist db_test_list entry_points
           ∨ ∃ k i, k ∈ tests.retlist db_test_list entry_points
                    ∧ (1 ≤ i < length (tests.split "." k))%nat
                    ∧ p = tests.join "." (take i (tests.split "." k)).
Proof.
  intros names. unfold names, tests.get_db_test_names, tests.sorted_set.
  split; [apply StronglySorted_merge_sort; apply _|].
  split.
  - rewrite merge_sort_Permutation. apply NoDup_remove_dups.
  - intros p. apply elem_of_test_names.
Qed.

Lemma split_parts_without_sep (sep : ascii) (s : string) :
  Forall (fun part => contains_char sep part = false) (tests.split sep s).
Proof.
  induction s as [|c s IH]; cbn [tests.split].
  - repeat constructor.
  - destruct (decide (c = sep)) as [->|Hne].
    + constructor; [reflexivity | exact IH].
    + destruct (tests.split sep s) as [|part parts].
      * constructor; [|constructor]. cbn [contains_char].
        rewrite decide_False by exact Hne. reflexivity.
      * inversion IH as [|? ? Hpart Hparts]; subst. constructor; [|exact Hparts].
        cbn [contains_char]. rewrite decide_False by exact Hne. exact Hpart.
Qed.

Lemma split_app_sep (sep : ascii) (a rest : string) :
  contains_char sep a = false ->
  tests.split sep (a +:+ String sep rest) = a :: tests.split sep rest.
Proof.
  induction a as [|c a IH].
  - intros _. change (EmptyString +:+ String sep rest) with (String sep rest).
    cbn [tests.split]. rewrite decide_True by reflexivity. reflexivity.
  - change (String c a +:+ String sep rest)
      with (String c (a +:+ String sep rest)).
    cbn [tests.split contains_char].
    destruct (decide (c = sep)); [discriminate|]. intros Ha.
    rewrite (IH Ha). reflexivity.
Qed.

Lemma split_join (sep : ascii) (parts : list string) :
  parts ≠ [] ->
  Forall (fun part => contains_char sep part = false) parts ->
  tests.split sep (tests.join (String sep EmptyString) parts) = parts.
Proof.
  induction parts as [|part rest IH]; [congruence|]. intros _ Hall.
  inversion Hall as [|? ? Hpart Hrest]; subst.
  destruct rest as [|part' rest'].
  - cbn [tests.join]. apply split_without_sep, Hpart.
  - change (tests.join (String sep EmptyString) (part :: part' :: rest'))
      with (part +:+ String sep
                       (tests.join (String sep EmptyString) (part' :: rest'))).
    rewrite (split_app_sep sep part _ Hpart), IH by (congruence || exact Hrest).
    reflexivity.
Qed.

(** X20: the names that [get_db_test_names] returns are closed under
    dotted prefixes: with a name, every name made of its first parts is
    returned as well. *)
Theorem test_names_closed_under_prefixes
    (db_test_list : list (string * list (string * list string)))
    (entry_points : list (string * string)) (p : string) (i : nat) :
  p ∈ tests.get_db_test_names db_test_list entry_points ->
  (1 ≤ i < length (tests.split "." p))%nat ->
  tests.join "." (take i (tests.split "." p))
  ∈ tests.get_db_test_names db_test_list entry_points.
Proof.
  intros Hp Hi.
  apply elem_of_test_names. right.
  apply elem_of_test_names in Hp as [Hp|(k & i0 & Hk & Hi0 & ->)].
  - exists p, i. auto.
  - assert (Hsplit : tests.split "." (tests.join "." (take i0 (tests.split "." k)))
                     = take i0 (tests.split "." k)).
    { apply split_join.
      - destruct (tests.split "." k) as [|part parts] eqn:Hs;
          [cbn [length] in Hi0; lia|].
        destruct i0; [lia | discriminate].
      - apply Forall_take, split_parts_without_sep. }
    rewrite Hsplit in Hi |- *. rewrite length_take in Hi.
    exists k, i. split; [exact Hk|]. split; [lia|].
    rewrite take_take. f_equal. f_equal. lia.
Qed.

Lemma test_names_closed_under_prefixes_witness :
  "orm.data"
  ∈ tests.get_db_test_names
      [("django", [("generic", ["aiida.backends.djsite.db.subtests.generic"]);
                   ("orm.data.remote", ["aiida.backends.tests.orm.data.remote"])])]
      [].
Proof.
  apply (test_names_closed_under_prefixes _ _ "orm.data.remote" 2).
  - apply (bool_decide_unpack _). vm_compute. exact I.
  - vm_compute. lia.
Defined.

(** ** What [store] writes *)

Lemma ensures_at_obj_fixed {A} (P : World -> Prop) (n : oid) (obj : NodeObj)
    (m : M A) :
  heap_fixed m -> ensures P m P ->
  ensures (at_obj n obj P) m (at_obj n obj P).
Proof.
  intros Hfix Hm w r w' [Hw Hh] Hrun. split; [exact (Hm _ _ _ Hw Hrun)|].
  rewrite (Hfix _ _ _ Hrun). exact Hh.
Qed.

Lemma frozen_flush_links (n : oid) (c : NodeClass) (p : pk) (r : DbNode)
    (m : oid) (cache : list LinkTriple) :
  ensures (frozen n c p r) (flush_links m cache) (frozen n c p r).
Proof.
  induction cache as [|t rest IH]; cbn [flush_links];
    [apply ensures_ret; auto|].
  apply ensures_bind; [| auto | intros s].
  { intros w res w' Hw Hrun. unfold get_obj in Hrun.
    destruct (heap w !! node t); injection Hrun as _ <-; exact Hw. }
  destruct (is_stored s).
  - apply ensures_bind; [apply frozen_add_dblink_from | auto | intros _; exact IH].
  - apply ensures_bind; [exact IH | auto | intros kept; apply ensures_ret; auto].
Qed.

Lemma frozen_store_cached_input_links (n : oid) (c : NodeClass) (p : pk)
    (r : DbNode) (wt : bool) :
  ensures (frozen n c p r) (_store_cached_input_links n wt) (frozen n c p r).
Proof.
  unfold _store_cached_input_links.
  assert (Hbody : ensures (frozen n c p r)
            (obj ← get_obj n;
             kept ← flush_links n (_incoming_cache obj);
             put_obj n (with_incoming kept obj)) (frozen n c p r)).
  { apply ensures_get_obj_bind; [auto|]. intros obj.
    apply ensures_bind;
      [apply ensures_at_obj_fixed;
         [apply heap_fixed_flush_links | apply frozen_flush_links]
      | apply at_obj_weaken | intros kept].
    apply ensures_put_obj. intros w Hf Hh.
    destruct (frozen_at_stored _ _ _ _ _ _ (conj Hf Hh)) as (H1 & H2 & H3).
    apply frozen_put; [| | | exact Hf]; cbn; assumption. }
  destruct wt; [apply ensures_atomically; auto | exact Hbody].
Qed.

Lemma frozen_autogroup (n : oid) (c : NodeClass) (p : pk) (r : DbNode)
    (m : oid) :
  ensures (frozen n c p r) (autogroup m) (frozen n c p r).
Proof.
  intros w res w' Hf Hrun. unfold autogroup in Hrun. rewrite bind_run in Hrun.
  cbn [gets] in Hrun. destruct (current_autogroup w) as [a|];
    [|injection Hrun as _ <-; exact Hf].
  rewrite bind_run in Hrun. unfold get_obj in Hrun.
  destruct (heap w !! m) as [obj|]; [|injection Hrun as _ <-; exact Hf].
  destruct (is_to_be_grouped a _); [|injection Hrun as _ <-; exact Hf].
  destruct (get_group_name a), (id obj); injection Hrun as _ <-; exact Hf.
Qed.

Lemma rows_flush_links (D : gmap pk DbNode) (m : oid)
    (cache : list LinkTriple) :
  ensures (fun w => db_nodes w = D) (flush_links m cache)
          (fun w => db_nodes w = D).
Proof.
  induction cache as [|t rest IH]; cbn [flush_links];
    [apply ensures_ret; auto|].
  apply ensures_bind; [| auto | intros s].
  { intros w res w' Hw Hrun. unfold get_obj in Hrun.
    destruct (heap w !! node t); injection Hrun as _ <-; exact Hw. }
  destruct (is_stored s).
  - apply ensures_bind; [| auto | intros _; exact IH].
    intros w res w' Hw Hrun. unfold _add_dblink_from in Hrun.
    rewrite !bind_run in Hrun. unfold get_obj in Hrun.
    destruct (heap w !! m) as [t0|]; [|injection Hrun as _ <-; exact Hw].
    rewrite bind_run in Hrun.
    destruct (heap w !! node t) as [s0|]; [|injection Hrun as _ <-; exact Hw].
    destruct (id t0), (id s0); try (injection Hrun as _ <-; exact Hw).
    rewrite bind_run in Hrun. cbn [gets] in Hrun.
    destruct (existsb _ _); injection Hrun as _ <-; exact Hw.
  - apply ensures_bind; [exact IH | auto | intros kept; apply ensures_ret; auto].
Qed.

Lemma rows_store_cached_input_links (D : gmap pk DbNode) (n : oid)
    (wt : bool) :
  ensures (fun w => db_nodes w = D) (_store_cached_input_links n wt)
          (fun w => db_nodes w = D).
Proof.
  unfold _store_cached_input_links.
  assert (Hbody : ensures (fun w => db_nodes w = D)
            (obj ← get_obj n;
             kept ← flush_links n (_incoming_cache obj);
             put_obj n (with_incoming kept obj)) (fun w => db_nodes w = D)).
  { apply ensures_bind; [| auto | intros obj].
    { intros w res w' Hw Hrun. unfold get_obj in Hrun.
      destruct (heap w !! n); injection Hrun as _ <-; exact Hw. }
    apply ensures_bind; [apply rows_flush_links | auto | intros kept].
    apply ensures_modify. auto. }
  destruct wt; [apply ensures_atomically; auto | exact Hbody].
Qed.

Lemma rows_autogroup (D : gmap pk DbNode) (m : oid) :
  ensures (fun w => db_nodes w = D) (autogroup m) (fun w => db_nodes w = D).
Proof.
  intros w res w' Hf Hrun. unfold autogroup in Hrun. rewrite bind_run in Hrun.
  cbn [gets] in Hrun. destruct (current_autogroup w) as [a|];
    [|injection Hrun as _ <-; exact Hf].
  rewrite bind_run in Hrun. unfold get_obj in Hrun.
  destruct (heap w !! m) as [obj|]; [|injection Hrun as _ <-; exact Hf].
  destruct (is_to_be_grouped a _); [|injection Hrun as _ <-; exact Hf].
  destruct (get_group_name a), (id obj); injection Hrun as _ <-; exact Hf.
Qed.

Lemma get_hash_total (env : Env) (n : oid) (w : World) :
  ∃ h, get_hash env n true w = Ok h.
Proof.
  unfold get_hash. destruct (_get_objects_to_hash env n w) as [o|e];
    [destruct (make_hash env o)|]; eexists; reflexivity.
Qed.

Lemma autogroup_succeeds (n : oid) (obj : NodeObj) (w : World) :
  heap w !! n = Some obj ->
  ∃ w', autogroup n w = (Ok tt, w') ∧ heap w' = heap w
        ∧ db_nodes w' = db_nodes w ∧ db_links w' = db_links w.
Proof.
  intros Hh. unfold autogroup. rewrite bind_run. cbn [gets].
  destruct (current_autogroup w) as [a|];
    [|eexists; split; [reflexivity | repeat split]].
  rewrite (bind_ok _ _ _ _ _ (get_obj_some _ _ _ Hh)).
  destruct (is_to_be_grouped a _);
    [|eexists; split; [reflexivity | repeat split]].
  destruct (get_group_name a), (id obj);
    eexists; (split; [reflexivity | repeat split]).
Qed.

Lemma maybe_atomically_ok {A} (b : bool) (m : M A) (w w' : World) (a : A) :
  m w = (Ok a, w') -> (if b then atomically m else m) w = (Ok a, w').
Proof.
  intros Hm. destruct b; [|exact Hm]. unfold atomically. rewrite Hm.
  reflexivity.
Qed.

(** [store] without caching succeeds on a node that has no cached
    link. *)
Lemma store_succeeds_without_links (env : Env) (fuel : nat) (wt : bool)
    (w : World) (n : oid) (obj : NodeObj) :
  heap w !! n = Some obj ->
  _to_be_stored obj = true ->
  _storable (klass obj) = true ->
  run_validate n w = Ok tt ->
  _incoming_cache obj = [] ->
  ∃ w', store env (S fuel) wt n (Some false) w = (Ok tt, w')
        ∧ db_links w' = db_links w.
Proof.
  intros Hh Hu Hst Hval Hcache. cbn [store].
  rewrite (bind_ok _ _ _ _ _ (get_obj_some _ _ _ Hh)), Hst. cbn [negb].
  assert (Hv : reading (run_validate n) w = (Ok tt, w))
    by (unfold reading; rewrite Hval; reflexivity).
  rewrite (bind_ok _ _ _ _ _ Hv), Hu.
  assert (Hpar : reading (_check_are_parents_stored n) w = (Ok tt, w)).
  { unfold reading, _check_are_parents_stored.
    rewrite (read_obj_some _ _ _ Hh), Hcache. reflexivity. }
  rewrite (bind_ok _ _ _ _ _ Hpar).
  rewrite bind_run. cbn [mret M_ret ret].
  assert (Hattrs : get_attrs n w = Ok (deref w <$> _attrs_cache obj)).
  { unfold get_attrs. rewrite (read_obj_some _ _ _ Hh), Hu. reflexivity. }
  set (p := next_pk w).
  set (row0 := mkRow (uuid obj) (plugin_type_string (klass obj)) (label obj)
                 (description obj) (deref w <$> _attrs_cache obj) ∅
                 (folder obj) (computer obj)).
  set (objs := mark_stored p obj).
  set (w0 := set_heap (<[n := objs]> (heap w))
               (set_db_nodes (<[p := row0]> (db_nodes w))
                  (set_next_pk (S p) w))).
  assert (Hh0 : heap w0 !! n = Some objs)
    by (unfold w0; cbn [heap set_heap]; apply lookup_insert_eq).
  set (wb := set_heap (<[n := with_incoming [] objs]> (heap w0)) w0).
  assert (Hbody : (obj ← get_obj n;
                   attrs ← reading (get_attrs n);
                   p ← gets next_pk;
                   modify (set_next_pk (S p));;
                   put_row p (mkRow (uuid obj) (plugin_type_string (klass obj))
                                (label obj) (description obj) attrs ∅
                                (folder obj) (computer obj));;
                   put_obj n (mark_stored p obj);;
                   _store_cached_input_links n false) w = (Ok tt, wb)).
  { rewrite (bind_ok _ _ _ _ _ (get_obj_some _ _ _ Hh)).
    unfold reading at 1. rewrite bind_run, Hattrs.
    rewrite bind_run. cbn [gets]. rewrite bind_run. cbn [modify].
    rewrite bind_run. unfold put_row at 1. cbn [modify].
    rewrite bind_run. unfold put_obj at 1. cbn [modify].
    fold p. fold row0. fold objs.
    change (_store_cached_input_links n false w0 = (Ok tt, wb)).
    unfold _store_cached_input_links.
    rewrite (bind_ok _ _ _ _ _ (get_obj_some _ _ _ Hh0)).
    cbn [objs mark_stored _incoming_cache]. rewrite Hcache.
    reflexivity. }
  assert (Hdb : ∃ wh, _db_store env n wt w = (Ok tt, wh)
                      ∧ heap wh !! n = Some (with_incoming [] objs)
                      ∧ db_links wh = db_links w).
  { unfold _db_store.
    rewrite (bind_ok _ _ _ _ _ (maybe_atomically_ok wt _ _ _ _ Hbody)).
    destruct (get_hash_total env n wb) as [h Hhash].
    unfold reading at 1. rewrite bind_run, Hhash.
    assert (Hhb : heap wb !! n = Some (with_incoming [] objs))
      by (unfold wb; cbn [heap set_heap]; apply lookup_insert_eq).
    assert (Hrb : db_nodes wb !! p = Some row0)
      by (unfold wb, w0; cbn [db_nodes set_heap set_db_nodes];
          apply lookup_insert_eq).
    unfold _set_db_extra, reading. rewrite bind_run.
    rewrite (read_row_some _ _ p row0 _ Hhb eq_refl Hrb).
    rewrite bind_run. cbn [gets fst snd andb].
    eexists. split; [reflexivity|]. split; [exact Hhb | reflexivity]. }
  destruct Hdb as (wh & Hdb & Hhh & Hlh).
  rewrite (bind_ok _ _ _ _ _ Hdb).
  destruct (autogroup_succeeds n _ wh Hhh) as (w' & Hag & _ & _ & Hl').
  exists w'. split; [exact Hag | congruence].
Qed.

(** The row that a successful [store] without caching writes. *)
Lemma store_without_cache_row (env : Env) (wt : bool) (w : World) (n : oid)
    (obj : NodeObj) (fuel : nat) (w' : World) :
  heap w !! n = Some obj ->
  _to_be_stored obj = true ->
  store env fuel wt n (Some false) w = (Ok tt, w') ->
  ∃ obj' r' h,
    heap w' !! n = Some obj'
    ∧ _to_be_stored obj' = false
    ∧ id obj' = Some (next_pk w)
    ∧ db_nodes w' !! next_pk w = Some r'
    ∧ row_core r'
      = (uuid obj, plugin_type_string (klass obj),
         deref w <$> _attrs_cache obj, folder obj, computer obj)
    ∧ db_label r' = label obj
    ∧ db_description r' = description obj
    ∧ get_hash env n true w = Ok h
    ∧ db_extras r' !! _HASH_EXTRA_KEY
      = Some (match h with Some s => JStr s | None => JNull end)
    ∧ get_hash env n true w' = Ok h
    ∧ get_attrs n w' = get_attrs n w.
Proof.
  intros Hh Hu Hrun. destruct fuel as [|fuel]; [discriminate|].
  cbn [store] in Hrun.
  rewrite (bind_ok _ _ _ _ _ (get_obj_some _ _ _ Hh)) in Hrun.
  destruct (_storable (klass obj)); [|discriminate]. cbn [negb] in Hrun.
  apply bind_ok_inv in Hrun as ([] & w1 & Hv & Hrun).
  inversion Hv; subst w1; clear Hv. rewrite Hu in Hrun.
  apply bind_ok_inv in Hrun as ([] & w1 & Hp & Hrun).
  inversion Hp; subst w1; clear Hp.
  rewrite bind_run in Hrun. cbn [mret M_ret ret] in Hrun.
  apply bind_ok_inv in Hrun as ([] & w3 & Hdb & Hgroup).
  unfold _db_store in Hdb.
  apply bind_ok_inv in Hdb as ([] & wb & Hbody & Hextra).
  apply maybe_atomically_ok_inv in Hbody.
  rewrite (bind_ok _ _ _ _ _ (get_obj_some _ _ _ Hh)) in Hbody.
  assert (Hattrs : get_attrs n w = Ok (deref w <$> _attrs_cache obj)).
  { unfold get_attrs. rewrite (read_obj_some _ _ _ Hh), Hu. reflexivity. }
  unfold reading at 1 in Hbody. rewrite bind_run, Hattrs in Hbody.
  rewrite bind_run in Hbody. cbn [gets] in Hbody.
  rewrite bind_run in Hbody. cbn [modify] in Hbody.
  rewrite bind_run in Hbody. unfold put_row at 1 in Hbody.
  cbn [modify] in Hbody.
  rewrite bind_run in Hbody. unfold put_obj at 1 in Hbody.
  cbn [modify] in Hbody.
  set (p := next_pk w) in *.
  set (row0 := mkRow (uuid obj) (plugin_type_string (klass obj)) (label obj)
                 (description obj) (deref w <$> _attrs_cache obj) ∅
                 (folder obj) (computer obj)) in *.
  match type of Hbody with _ ?x = _ => set (w0 := x) in * end.
  assert (Hf0 : frozen n (klass obj) p row0 w0).
  { split.
    - exists (mark_stored p obj). unfold w0. cbn [heap set_heap].
      rewrite lookup_insert_eq. repeat split.
    - exists row0. unfold w0. cbn [db_nodes set_heap set_db_nodes].
      rewrite lookup_insert_eq. split; reflexivity. }
  pose proof (frozen_store_cached_input_links n _ p row0 false _ _ _ Hf0 Hbody)
    as Hfb.
  pose proof (rows_store_cached_input_links _ n false _ _ _ eq_refl Hbody)
    as Hrows.
  destruct Hfb as [(objb & Hhb & Hsb & Hidb & Hcb) _].
  assert (Hrb : db_nodes wb !! p = Some row0).
  { rewrite Hrows. unfold w0. cbn [db_nodes set_heap set_db_nodes].
    apply lookup_insert_eq. }
  assert (Hobjs : ∀ wx objx rx, heap wx !! n = Some objx ->
            _to_be_stored objx = false -> id objx = Some p ->
            klass objx = klass obj -> db_nodes wx !! p = Some rx ->
            row_core rx = row_core row0 ->
            _get_objects_to_hash env n wx = _get_objects_to_hash env n w).
  { intros wx objx rx Hx1 Hx2 Hx3 Hx4 Hx5 Hx6.
    rewrite (objects_to_hash_stored env n objx p rx wx Hx1 Hx2 Hx3 Hx5).
    rewrite (objects_to_hash_unstored env n obj w Hh Hu).
    injection Hx6 as _ _ -> -> ->. rewrite Hx4. reflexivity. }
  destruct (get_hash_total env n w) as [h Hhash].
  assert (Hhashb : get_hash env n true wb = Ok h).
  { rewrite <- Hhash. apply get_hash_ext.
    exact (Hobjs wb objb row0 Hhb Hsb Hidb Hcb Hrb eq_refl). }
  unfold reading at 1 in Hextra. rewrite bind_run, Hhashb in Hextra.
  unfold _set_db_extra, reading in Hextra. rewrite bind_run in Hextra.
  rewrite (read_row_some _ _ _ _ _ Hhb Hidb Hrb) in Hextra.
  rewrite bind_run in Hextra. cbn [gets fst snd andb] in Hextra.
  unfold put_row, modify in Hextra. injection Hextra as <-.
  set (r1 := row_with_extras _ row0) in *.
  match type of Hgroup with _ ?x = _ => set (wh := x) in * end.
  assert (Hfh : frozen n (klass obj) p row0 wh).
  { split; [exists objb; repeat split; assumption|].
    exists r1. unfold wh. cbn [db_nodes set_db_nodes].
    rewrite lookup_insert_eq. split; reflexivity. }
  pose proof (frozen_autogroup n _ p row0 n _ _ _ Hfh Hgroup) as Hf'.
  pose proof (rows_autogroup _ n _ _ _ eq_refl Hgroup) as Hrows'.
  destruct Hf' as [(obj' & Hh' & Hs' & Hid' & Hc') _].
  assert (Hr' : db_nodes w' !! p = Some r1).
  { rewrite Hrows'. unfold wh. cbn [db_nodes set_db_nodes].
    apply lookup_insert_eq. }
  exists obj', r1, h. split; [exact Hh'|]. split; [exact Hs'|].
  split; [exact Hid'|]. split; [exact Hr'|]. split; [reflexivity|].
  split; [reflexivity|]. split; [reflexivity|]. split; [exact Hhash|].
  split.
  - unfold r1. cbn [db_extras row_with_extras]. rewrite lookup_insert_eq.
    destruct h; reflexivity.
  - split.
    + rewrite <- Hhash. apply get_hash_ext.
      exact (Hobjs w' obj' r1 Hh' Hs' Hid' Hc' Hr' eq_refl).
    + rewrite Hattrs. unfold get_attrs.
      rewrite (read_obj_some _ _ _ Hh'), Hs'.
      rewrite (read_row_some _ _ _ _ _ Hh' Hid' Hr'). reflexivity.
Qed.



(** ** [store] only adds to the durable store *)

Lemma ensures_get_obj (P : World -> Prop) (n : oid) :
  ensures P (get_obj n) P.
Proof.
  intros w res w' Hw Hrun. unfold get_obj in Hrun.
  destruct (heap w !! n); injection Hrun as _ <-; exact Hw.
Qed.

Lemma ensures_put_obj_blind (P : World -> Prop) (n : oid) (obj : NodeObj) :
  heap_blind P -> ensures P (put_obj n obj) P.
Proof. intros Hb w res w' Hw [= _ <-]. apply Hb, Hw. Qed.

Lemma ensures_new_obj (P : World -> Prop) (obj : NodeObj) :
  heap_blind P -> ensures P (new_obj obj) P.
Proof. intros Hb w res w' Hw [= _ <-]. apply Hb, Hw. Qed.

Section Kept.

Context (p : pk) (r : DbNode) (links : list DbLink) (N : pk).

Local Abbreviation K := (kept p r links N).

Lemma kept_heap_blind : heap_blind K.
Proof. intros w h Hk. exact Hk. Qed.

Lemma kept_list_blind : list_blind K.
Proof. intros w ls Hk. exact Hk. Qed.

Lemma kept_put_row (q : pk) (rq r1 : DbNode) (w : World) :
  db_nodes w !! q = Some rq -> row_core r1 = row_core rq ->
  K w -> K (set_db_nodes (<[q := r1]> (db_nodes w)) w).
Proof.
  intros Hq Hcore ((r' & Hr' & Hc') & Hrest). split; [|exact Hrest].
  cbn [db_nodes set_db_nodes]. destruct (decide (q = p)) as [->|Hne].
  - exists r1. rewrite lookup_insert_eq. split; [reflexivity|]. congruence.
  - exists r'. rewrite lookup_insert_ne by exact Hne. split; assumption.
Qed.

Lemma kept_read_row (n : oid) (q : pk) (rq : DbNode) (w : World) :
  read_row n w = Ok (q, rq) -> db_nodes w !! q = Some rq.
Proof.
  unfold read_row, read_obj. destruct (heap w !! n) as [obj|]; [|discriminate].
  destruct (id obj) as [q'|]; [|discriminate].
  destruct (db_nodes w !! q') eqn:Hq; [|discriminate].
  intros [= <- <-]. exact Hq.
Qed.

Lemma kept_set_db_extra (n : oid) (key : string) (v : Value) (ex : bool) :
  ensures K (_set_db_extra n key v ex) K.
Proof.
  intros w res w' Hk Hrun. unfold _set_db_extra, reading in Hrun.
  rewrite bind_run in Hrun.
  destruct (read_row n w) as [[q rq]|e] eqn:Hread;
    [|injection Hrun as _ <-; exact Hk].
  rewrite bind_run in Hrun. cbn [gets fst snd] in Hrun.
  destruct (ex && _); injection Hrun as _ <-; [exact Hk|].
  apply (kept_put_row q rq);
    [exact (kept_read_row _ _ _ _ Hread) | reflexivity | exact Hk].
Qed.

Lemma kept_set_label (n : oid) (s : string) : ensures K (set_label n s) K.
Proof.
  intros w res w' Hk Hrun. unfold set_label in Hrun. rewrite bind_run in Hrun.
  unfold get_obj in Hrun.
  destruct (heap w !! n) as [obj|]; [|injection Hrun as _ <-; exact Hk].
  destruct (_to_be_stored obj); [injection Hrun as _ <-; exact Hk|].
  unfold reading in Hrun. rewrite bind_run in Hrun.
  destruct (read_row n w) as [[q rq]|e] eqn:Hread;
    injection Hrun as _ <-; [|exact Hk].
  apply (kept_put_row q rq);
    [exact (kept_read_row _ _ _ _ Hread) | reflexivity | exact Hk].
Qed.

Lemma kept_set_description (n : oid) (s : string) :
  ensures K (set_description n s) K.
Proof.
  intros w res w' Hk Hrun. unfold set_description in Hrun.
  rewrite bind_run in Hrun. unfold get_obj in Hrun.
  destruct (heap w !! n) as [obj|]; [|injection Hrun as _ <-; exact Hk].
  destruct (_to_be_stored obj); [injection Hrun as _ <-; exact Hk|].
  unfold reading in Hrun. rewrite bind_run in Hrun.
  destruct (read_row n w) as [[q rq]|e] eqn:Hread;
    injection Hrun as _ <-; [|exact Hk].
  apply (kept_put_row q rq);
    [exact (kept_read_row _ _ _ _ Hread) | reflexivity | exact Hk].
Qed.

Lemma kept_add_dblink_from (self src : oid) (lt : LinkType) (lbl : string) :
  ensures K (_add_dblink_from self src lt lbl) K.
Proof.
  intros w res w' Hk Hrun. unfold _add_dblink_from in Hrun.
  rewrite !bind_run in Hrun. unfold get_obj in Hrun.
  destruct (heap w !! self) as [t|]; [|injection Hrun as _ <-; exact Hk].
  rewrite bind_run in Hrun.
  destruct (heap w !! src) as [s|]; [|injection Hrun as _ <-; exact Hk].
  destruct (id t), (id s); try (injection Hrun as _ <-; exact Hk).
  rewrite bind_run in Hrun. cbn [gets] in Hrun.
  destruct (existsb _ _); injection Hrun as _ <-; [exact Hk|].
  destruct Hk as (Hrow & Hpre & Hn). split; [exact Hrow|].
  split; [|exact Hn]. cbn [db_links set_db_links].
  apply prefix_app_r, Hpre.
Qed.

End Kept.

Create HintDb ensures discriminated.
#[local] Hint Resolve kept_set_db_extra kept_set_label kept_set_description
  kept_add_dblink_from : ensures.

Ltac kept_step :=
  first
    [ solve [eauto with ensures]
    | apply ensures_ret; solve [auto]
    | apply ensures_raise; solve [auto]
    | apply ensures_gets; solve [auto]
    | apply ensures_reading; solve [auto]
    | apply ensures_get_obj
    | apply ensures_put_obj_blind, kept_heap_blind
    | apply ensures_new_obj, kept_heap_blind
    | apply ensures_new_list, kept_list_blind
    | apply ensures_list_append, kept_list_blind
    | apply ensures_clean_value, kept_list_blind
    | apply ensures_load_value, kept_list_blind
    | apply ensures_validate_key
    | apply ensures_bind; [| solve [auto] | intros ?]
    | apply ensures_try_except; [| solve [auto] |]
    | apply ensures_for_each; intros ?
    | apply ensures_atomically; [| solve [auto]]
    | match goal with
      | |- ensures _ (if ?b then _ else _) _ => destruct b eqn:?
      | |- ensures _ (match ?x with _ => _ end) _ => destruct x eqn:?
      end ].

Ltac kept_auto := repeat kept_step.

Section KeptStore.

Context (env : Env) (p : pk) (r : DbNode) (links : list DbLink) (N : pk).

Local Abbreviation K := (kept p r links N).

Lemma kept_set_attr (n : oid) (key : string) (v : Value) (clean : bool) :
  ensures K (_set_attr env n key v clean true) K.
Proof.
  unfold _set_attr. apply ensures_bind; [apply ensures_get_obj | auto |].
  intros obj. unfold is_stored. destruct (_to_be_stored obj); cbn [negb andb];
    kept_auto.
Qed.

Lemma kept_set_extra (n : oid) (key : string) (v : Value) (ex : bool) :
  ensures K (set_extra env n key v ex) K.
Proof. unfold set_extra. kept_auto. Qed.

Lemma kept_add_incoming (self source : oid) (lt : LinkType) (lbl : string) :
  ensures K (add_incoming env self source lt lbl) K.
Proof.
  unfold add_incoming, validate_incoming, validate_outgoing,
    _add_cachelink_from.
  kept_auto.
Qed.

Lemma kept_flush_links (n : oid) (cache : list LinkTriple) :
  ensures K (flush_links n cache) K.
Proof. induction cache as [|t rest IH]; cbn [flush_links]; kept_auto. Qed.

Lemma kept_autogroup (n : oid) : ensures K (autogroup n) K.
Proof.
  unfold autogroup. kept_auto. apply ensures_modify. auto.
Qed.

End KeptStore.

#[local] Hint Resolve kept_set_attr kept_set_extra kept_add_incoming
  kept_flush_links kept_autogroup : ensures.

Section KeptStoring.

Context (env : Env) (p : pk) (r : DbNode) (links : list DbLink) (N : pk).

Local Abbreviation K := (kept p r links N).

Lemma kept_store_cached_input_links (n : oid) (wt : bool) :
  ensures K (_store_cached_input_links n wt) K.
Proof. unfold _store_cached_input_links. kept_auto. Qed.

Lemma kept_db_store (n : oid) (wt : bool) : ensures K (_db_store env n wt) K.
Proof.
  unfold _db_store.
  apply ensures_bind; [| auto | intros _; kept_auto].
  assert (Hbody : ∀ body, (∀ obj q,
            ensures K (put_obj n (mark_stored q obj);;
                       _store_cached_input_links n false) K) ->
            body = (obj ← get_obj n;
                    attrs ← reading (get_attrs n);
                    q ← gets next_pk;
                    modify (set_next_pk (S q));;
                    put_row q (mkRow (uuid obj)
                                 (plugin_type_string (klass obj)) (label obj)
                                 (description obj) attrs ∅ (folder obj)
                                 (computer obj));;
                    put_obj n (mark_stored q obj);;
                    _store_cached_input_links n false) ->
            ensures K body K).
  { intros body Hrest ->. intros w res w' Hk Hrun.
    rewrite bind_run in Hrun. unfold get_obj in Hrun.
    destruct (heap w !! n) as [obj|]; [|injection Hrun as _ <-; exact Hk].
    unfold reading at 1 in Hrun. rewrite bind_run in Hrun.
    destruct (get_attrs n w) as [attrs|e];
      [|injection Hrun as _ <-; exact Hk].
    rewrite bind_run in Hrun. cbn [gets] in Hrun.
    rewrite bind_run in Hrun. cbn [modify] in Hrun.
    rewrite bind_run in Hrun. unfold put_row at 1 in Hrun.
    cbn [modify] in Hrun.
    refine (Hrest obj (next_pk w) _ _ _ _ Hrun).
    destruct Hk as ((r' & Hr' & Hc') & Hpre & Hp & Hn).
    split; [|split; [exact Hpre | split; [exact Hp | cbn; lia]]].
    exists r'. cbn [db_nodes set_db_nodes set_next_pk].
    rewrite lookup_insert_ne by lia. split; assumption. }
  assert (Hrest : ∀ (obj : NodeObj) (q : pk),
            ensures K (put_obj n (mark_stored q obj);;
                       _store_cached_input_links n false) K).
  { intros obj q.
    apply ensures_bind;
      [apply ensures_put_obj_blind, kept_heap_blind | auto |].
    intros _. apply kept_store_cached_input_links. }
  destruct wt; [apply ensures_atomically; [|auto]|];
    exact (Hbody _ Hrest eq_refl).
Qed.

Lemma kept_copy_attributes (n : oid) (kvs : list (string * json)) :
  ensures K (copy_attributes env n kvs) K.
Proof.
  induction kvs as [|kv rest IH]; cbn [copy_attributes]; kept_auto.
Qed.

Lemma kept_load_attributes (kvs : list (string * json)) :
  ensures K (load_attributes kvs) K.
Proof.
  induction kvs as [|kv rest IH]; cbn [load_attributes]; kept_auto.
Qed.

Lemma kept_clone (c : pk) : ensures K (clone env c) K.
Proof.
  unfold clone.
  apply ensures_bind; [apply ensures_reading; auto | auto | intros row].
  apply ensures_bind; [apply kept_load_attributes | auto | intros attrs].
  apply ensures_bind; [apply ensures_gets; auto | auto | intros u].
  apply ensures_bind; [apply ensures_modify; auto | auto | intros _].
  apply ensures_new_obj, kept_heap_blind.
Qed.

Lemma kept_store_from_cache (store' : oid -> option bool -> M unit)
    (n : oid) (c : pk) :
  (∀ o uc, ensures K (store' o uc) K) ->
  ensures K (_store_from_cache env store' n c) K.
Proof.
  intros Hstore. unfold _store_from_cache.
  pose proof kept_copy_attributes. kept_auto.
Qed.

Lemma kept_add_outputs_from_cache (store' : oid -> option bool -> M unit)
    (n : oid) (c : pk) :
  (∀ o uc, ensures K (store' o uc) K) ->
  ensures K (_add_outputs_from_cache env store' n c) K.
Proof.
  intros Hstore. unfold _add_outputs_from_cache.
  pose proof kept_clone. kept_auto.
Qed.

Lemma kept_store (fuel : nat) :
  ∀ wt n uc, ensures K (store env fuel wt n uc) K.
Proof.
  induction fuel as [|fuel IH]; intros wt n uc; cbn [store];
    [apply ensures_raise; auto|].
  pose proof kept_db_store.
  pose proof (fun wt' => kept_store_from_cache (store env fuel wt')
                           n) as Hfrom.
  pose proof (kept_add_outputs_from_cache (store env fuel true) n) as Hout.
  apply ensures_bind; [apply ensures_get_obj | auto | intros obj].
  destruct (negb (_storable (klass obj))); [apply ensures_raise; auto|].
  apply ensures_bind; [apply ensures_reading; auto | auto | intros _].
  destruct (_to_be_stored obj); [|apply ensures_ret; auto].
  apply ensures_bind; [apply ensures_reading; auto | auto | intros _].
  apply ensures_bind; [| auto | intros same].
  { destruct (match uc with Some b => b | None => _ end);
      [apply ensures_reading | apply ensures_ret]; auto. }
  apply ensures_bind; [| auto | intros _; apply kept_autogroup].
  destruct same as [c|]; [|apply kept_db_store].
  apply ensures_bind; [apply Hfrom, IH | auto | intros _; apply Hout, IH].
Qed.

Lemma kept_store_all (fuel : nat) (n : oid) (wt : bool) (uc : option bool) :
  ensures K (store_all env fuel n wt uc) K.
Proof.
  pose proof (kept_store fuel) as Hstore.
  pose proof kept_store_cached_input_links as Hflush.
  unfold store_all, _db_store_all, _store_input_nodes. kept_auto.
Qed.

End KeptStoring.

(** X22: [store] and [store_all] only add to the durable store, whatever
    their outcome: a row that exists keeps its identifier, type,
    attributes, folder and computer, the links that exist stay the first
    links of the table, and the key counter does not go back. *)
Theorem store_only_adds (env : Env) (fuel : nat) (wt : bool) (n : oid)
    (uc : option bool) (w : World) (p : pk) (r : DbNode) :
  db_nodes w !! p = Some r ->
  (p < next_pk w)%nat ->
  kept p r (db_links w) (next_pk w) (store env fuel wt n uc w).2
  ∧ kept p r (db_links w) (next_pk w) (store_all env fuel n wt uc w).2.
Proof.
  intros Hr Hp.
  assert (Hk : kept p r (db_links w) (next_pk w) w).
  { split; [exists r; split; [exact Hr | reflexivity]|].
    split; [reflexivity|]. split; [exact Hp | lia]. }
  split.
  - destruct (store env fuel wt n uc w) as [res w'] eqn:Hrun.
    exact (kept_store env p r _ _ fuel wt n uc _ _ _ Hk Hrun).
  - destruct (store_all env fuel n wt uc w) as [res w'] eqn:Hrun.
    exact (kept_store_all env p r _ _ fuel n wt uc _ _ _ Hk Hrun).
Qed.

Lemma store_only_adds_witness :
  kept 1 (hashed_row 1 CalculationClass) (db_links return_world) 3
       (store (test_env true) 3 true 2 None return_world).2
  ∧ kept 1 (hashed_row 1 CalculationClass) (db_links return_world) 3
         (store_all (test_env true) 3 2 true None return_world).2.
Proof.
  apply (store_only_adds (test_env true) 3 true 2 None return_world 1
           (hashed_row 1 CalculationClass)); [reflexivity | cbn; lia].
Defined.

(** ** A store that reuses a cache node *)

Lemma pending_list_blind (n : oid) (ref : NodeObj) (w0 : World) :
  list_blind (pending n ref w0).
Proof. intros w ls Hp. exact Hp. Qed.

Lemma pending_set_attr (env : Env) (n : oid) (ref : NodeObj) (w0 : World)
    (key : string) (v : Value) (clean : bool) :
  _to_be_stored ref = true ->
  ensures (pending n ref w0) (_set_attr env n key v clean true)
          (pending n ref w0).
Proof.
  intros Hu. pose proof (pending_list_blind n ref w0) as Hb.
  unfold _set_attr. apply ensures_get_obj_bind; [auto|]. intros obj.
  pose proof (list_blind_at_obj _ n obj Hb) as Hb'.
  destruct (_to_be_stored obj) eqn:Huo.
  - unfold is_stored. rewrite Huo. cbn [negb andb].
    apply ensures_bind;
      [apply ensures_validate_key | apply at_obj_weaken | intros _].
    apply ensures_bind; [| apply at_obj_weaken | intros v'].
    { destruct clean; [apply ensures_clean_value, Hb' | apply ensures_ret; auto]. }
    apply ensures_put_obj. intros w (Hd & Hl & Hn & obj' & Hh' & Heq) Hh.
    split; [exact Hd|]. split; [exact Hl|]. split; [exact Hn|].
    rewrite Hh in Hh'. injection Hh' as <-.
    eexists. cbn [heap set_heap]. rewrite lookup_insert_eq.
    split; [reflexivity | exact Heq].
  - apply ensures_absurd. intros w [(_ & _ & _ & obj' & Hh' & Heq) Hh].
    rewrite Hh in Hh'. injection Hh' as <-.
    apply (f_equal _to_be_stored) in Heq. cbn in Heq. congruence.
Qed.

Lemma pending_copy_attributes (env : Env) (n : oid) (ref : NodeObj)
    (w0 : World) (kvs : list (string * json)) :
  _to_be_stored ref = true ->
  ensures (pending n ref w0) (copy_attributes env n kvs) (pending n ref w0).
Proof.
  intros Hu. pose proof (pending_list_blind n ref w0) as Hb.
  induction kvs as [|kv rest IH]; cbn [copy_attributes];
    [apply ensures_ret; auto|].
  apply ensures_bind; [| auto | intros _; exact IH].
  destruct (decide (kv.1 ≠ SEALED_KEY env)); [|apply ensures_ret; auto].
  apply ensures_bind; [apply ensures_load_value, Hb | auto | intros v].
  apply pending_set_attr, Hu.
Qed.

(** The steps of [_store_from_cache] before the check of the RETURN
    links. *)
Lemma cache_prepare (env : Env) (n : oid) (obj : NodeObj) (row : DbNode)
    (w : World) :
  heap w !! n = Some obj ->
  _to_be_stored obj = true ->
  copied_keys_valid env (map_to_list (db_attributes row)) ->
  ∃ w4,
    (set_label n (db_label row);;
     set_description n (db_description row);;
     copy_attributes env n (map_to_list (db_attributes row));;
     obj' ← get_obj n;
     put_obj n (with_folder (db_folder row) obj')) w = (Ok tt, w4)
    ∧ pending n (with_folder (db_folder row)
                   (with_description (db_description row)
                      (with_label (db_label row) obj))) w w4.
Proof.
  intros Hh Hu Hkeys.
  set (obj1 := with_label (db_label row) obj).
  set (w1 := set_heap (<[n := obj1]> (heap w)) w).
  assert (H1 : set_label n (db_label row) w = (Ok tt, w1)).
  { unfold set_label. rewrite (bind_ok _ _ _ _ _ (get_obj_some _ _ _ Hh)), Hu.
    reflexivity. }
  assert (Hh1 : heap w1 !! n = Some obj1)
    by (unfold w1; cbn [heap set_heap]; apply lookup_insert_eq).
  set (obj2 := with_description (db_description row) obj1).
  set (w2 := set_heap (<[n := obj2]> (heap w1)) w1).
  assert (H2 : set_description n (db_description row) w1 = (Ok tt, w2)).
  { unfold set_description.
    rewrite (bind_ok _ _ _ _ _ (get_obj_some _ _ _ Hh1)).
    cbn [obj1 _to_be_stored with_label]. rewrite Hu. reflexivity. }
  assert (Hh2 : heap w2 !! n = Some obj2)
    by (unfold w2; cbn [heap set_heap]; apply lookup_insert_eq).
  assert (Hp2 : pending n obj2 w w2).
  { repeat split. exists obj2. split; [exact Hh2 | reflexivity]. }
  destruct (copy_attributes_unstored env n (klass obj)
              (map_to_list (db_attributes row)) obj2 w2 Hh2 Hu eq_refl)
    as (res & w3 & H3 & _ & _ & Hok).
  rewrite (Hok Hkeys) in H3.
  pose proof (pending_copy_attributes env n obj2 w _ Hu _ _ _ Hp2 H3)
    as (Hd3 & Hl3 & Hn3 & obj3 & Hh3 & Heq3).
  exists (set_heap (<[n := with_folder (db_folder row) obj3]> (heap w3)) w3).
  split.
  - rewrite (bind_ok _ _ _ _ _ H1), (bind_ok _ _ _ _ _ H2),
      (bind_ok _ _ _ _ _ H3), (bind_ok _ _ _ _ _ (get_obj_some _ _ _ Hh3)).
    reflexivity.
  - split; [exact Hd3|]. split; [exact Hl3|]. split; [exact Hn3|].
    eexists. cbn [heap set_heap]. rewrite lookup_insert_eq.
    split; [reflexivity|].
    change (with_attrs ∅ (with_folder (db_folder row) obj3))
      with (with_folder (db_folder row) (with_attrs ∅ obj3)).
    rewrite Heq3. reflexivity.
Qed.



(** ** The cached links of a node that is stored *)

Lemma check_sources_stored_ok (w : World) (cache : list LinkTriple) :
  check_sources_stored w cache = Ok tt ->
  ∀ t, t ∈ cache ->
    ∃ s, heap w !! node t = Some s ∧ _to_be_stored s = false.
Proof.
  induction cache as [|t0 rest IH]; intros Hok t Ht; [inversion Ht|].
  cbn [check_sources_stored] in Hok. unfold read_obj in Hok.
  destruct (heap w !! node t0) as [s|] eqn:Hs; [|discriminate].
  unfold is_stored in Hok. destruct (_to_be_stored s) eqn:Hu; [discriminate|].
  apply elem_of_cons in Ht as [->|Ht]; [|exact (IH Hok t Ht)].
  exists s. split; assumption.
Qed.

(** A flush whose sources are all stored moves every triple to the link
    table, in order. *)
Lemma flush_links_all (w0 : World) (n : oid) (p : pk)
    (cache : list LinkTriple) :
  ∀ (w1 w2 : World) (objn : NodeObj) (kept : list LinkTriple),
    (∀ t, t ∈ cache ->
       ∃ s, heap w0 !! node t = Some s ∧ _to_be_stored s = false
            ∧ heap w1 !! node t = Some s) ->
    heap w1 !! n = Some objn -> id objn = Some p ->
    flush_links n cache w1 = (Ok kept, w2) ->
    kept = [] ∧ heap w2 = heap w1 ∧ db_nodes w2 = db_nodes w1
    ∧ ∃ new, db_links w2 = db_links w1 ++ new
             ∧ Forall2 (promoted w0 p) cache new.
Proof.
  induction cache as [|t rest IH]; intros w1 w2 objn kept Hsrc Hn Hid Hrun.
  - injection Hrun as <- <-. repeat split. exists [].
    rewrite app_nil_r. split; [reflexivity | constructor].
  - cbn [flush_links] in Hrun.
    destruct (Hsrc t (list_elem_of_here _ _)) as (s & Hs0 & Hst & Hs1).
    rewrite (bind_ok _ _ _ _ _ (get_obj_some _ _ _ Hs1)) in Hrun.
    unfold is_stored in Hrun. rewrite Hst in Hrun. cbn [negb] in Hrun.
    apply bind_ok_inv in Hrun as ([] & wa & Hadd & Hrest).
    unfold _add_dblink_from in Hadd.
    rewrite (bind_ok _ _ _ _ _ (get_obj_some _ _ _ Hn)) in Hadd.
    rewrite (bind_ok _ _ _ _ _ (get_obj_some _ _ _ Hs1)) in Hadd.
    rewrite Hid in Hadd. destruct (id s) as [ps|] eqn:Hps; [|discriminate].
    rewrite bind_run in Hadd. cbn [gets] in Hadd.
    destruct (existsb _ _); [discriminate|]. injection Hadd as <-.
    match type of Hrest with
    | flush_links _ _ ?x = _ =>
        destruct (IH x w2 objn kept)
          as (Hk & Hheap & Hdb & new & Hlinks & Hall);
        [ intros t' Ht'; apply Hsrc; right; exact Ht'
        | exact Hn | exact Hid | exact Hrest |]
    end.
    split; [exact Hk|]. split; [exact Hheap|]. split; [exact Hdb|].
    exists (mkLink ps p (link_type t) (link_label t) :: new).
    cbn [db_links set_db_links] in Hlinks. rewrite Hlinks, <- app_assoc.
    split; [reflexivity|]. constructor; [|exact Hall].
    repeat split. exists s. repeat split; assumption.
Qed.

Lemma flush_links_succeeds (n : oid) (p : pk) (cache : list LinkTriple) :
  ∀ (w1 : World) (objn : NodeObj),
    heap w1 !! n = Some objn -> id objn = Some p ->
    sources_stored w1 cache ->
    NoDup (flush_key w1 <$> cache) ->
    (∀ l, l ∈ db_links w1 -> l_target l = p ->
          (Some (l_source l), l_label l) ∉ flush_key w1 <$> cache) ->
    ∃ w2, flush_links n cache w1 = (Ok [], w2) ∧ heap w2 = heap w1
          ∧ db_nodes w2 = db_nodes w1 ∧ lists w2 = lists w1
          ∧ next_pk w2 = next_pk w1
          ∧ ∀ l, l ∈ db_links w2 -> l ∈ db_links w1 ∨ l_target l = p.
Proof.
  induction cache as [|t rest IH]; intros w1 objn Hn Hid Hsrc Hnd Hfree.
  - exists w1. repeat split. intros l Hl. left. exact Hl.
  - cbn [flush_links].
    inversion Hsrc as [|? ? (s & ps & Hs & Hst & Hps) Hsrc']; subst.
    cbn [fmap list_fmap] in Hnd. apply NoDup_cons in Hnd as [Hkey Hnd].
    rewrite (bind_ok _ _ _ _ _ (get_obj_some _ _ _ Hs)).
    unfold is_stored. rewrite Hst. cbn [negb].
    assert (Hk : flush_key w1 t = (Some ps, link_label t)).
    { unfold flush_key. rewrite Hs. cbn. rewrite Hps. reflexivity. }
    set (wa := set_db_links (db_links w1
                 ++ [mkLink ps p (link_type t) (link_label t)]) w1).
    assert (Hadd : _add_dblink_from n (node t) (link_type t) (link_label t) w1
                   = (Ok tt, wa)).
    { unfold _add_dblink_from.
      rewrite (bind_ok _ _ _ _ _ (get_obj_some _ _ _ Hn)).
      rewrite (bind_ok _ _ _ _ _ (get_obj_some _ _ _ Hs)).
      rewrite Hid, Hps. rewrite bind_run. cbn [gets].
      destruct (existsb _ (db_links w1)) eqn:Hex; [|reflexivity].
      apply existsb_exists in Hex as (l & Hl & Hb).
      apply bool_decide_eq_true in Hb as (H1 & H2 & H3).
      exfalso. apply (Hfree l (proj2 (list_elem_of_In _ _) Hl) H2).
      rewrite H1, H3, <- Hk. left. }
    rewrite (bind_ok _ _ _ _ _ Hadd).
    destruct (IH wa objn Hn Hid Hsrc' Hnd)
      as (w2 & Hrun & Hheap & Hdb & Hls & Hpk & Hnew).
    + intros l Hl Ht. cbn [wa db_links set_db_links] in Hl.
      apply elem_of_app in Hl as [Hl|Hl].
      * intros Hin. apply (Hfree l Hl Ht). right. exact Hin.
      * apply list_elem_of_singleton in Hl as ->. cbn.
        change (flush_key wa <$> rest) with (flush_key w1 <$> rest).
        rewrite <- Hk. exact Hkey.
    + exists w2. rewrite Hrun. repeat split; try assumption.
      intros l Hl. destruct (Hnew l Hl) as [Hold|Ht]; [|right; exact Ht].
      cbn [wa db_links set_db_links] in Hold.
      apply elem_of_app in Hold as [Hold|Hold]; [left; exact Hold|].
      apply list_elem_of_singleton in Hold as ->. right. reflexivity.
Qed.

Lemma autogroup_frame (n : oid) (w : World) (r : Res unit) (w' : World) :
  autogroup n w = (r, w') ->
  heap w' = heap w ∧ lists w' = lists w ∧ next_pk w' = next_pk w
  ∧ db_links w' = db_links w.
Proof.
  unfold autogroup. rewrite bind_run. cbn [gets].
  destruct (current_autogroup w) as [a|];
    [|intros [= _ <-]; repeat split].
  destruct (heap w !! n) as [obj|] eqn:Hh.
  - rewrite (bind_ok _ _ _ _ _ (get_obj_some _ _ _ Hh)).
    destruct (is_to_be_grouped a _); [|intros [= _ <-]; repeat split].
    destruct (get_group_name a), (id obj); intros [= _ <-]; repeat split.
  - unfold get_obj. rewrite bind_run, Hh. intros [= _ <-]. repeat split.
Qed.

Lemma sources_stored_check (w : World) (cache : list LinkTriple) :
  sources_stored w cache -> check_sources_stored w cache = Ok tt.
Proof.
  induction 1 as [|t rest (s & ps & Hs & Hst & _) _ IH]; [reflexivity|].
  cbn [check_sources_stored]. rewrite (read_obj_some _ _ _ Hs).
  unfold is_stored. rewrite Hst. exact IH.
Qed.

(** [store] without caching succeeds once the sources of the cached links
    are stored and the flush meets no link that is there already. *)
Lemma store_succeeds_with_links (env : Env) (fuel : nat) (wt : bool)
    (w : World) (n : oid) (obj : NodeObj) :
  heap w !! n = Some obj ->
  _to_be_stored obj = true ->
  _storable (klass obj) = true ->
  run_validate n w = Ok tt ->
  sources_stored w (_incoming_cache obj) ->
  NoDup (flush_key w <$> _incoming_cache obj) ->
  (∀ l, l ∈ db_links w -> l_target l ≠ next_pk w) ->
  ∃ w', store env (S fuel) wt n (Some false) w = (Ok tt, w')
        ∧ heap w'
          = <[n := with_incoming [] (mark_stored (next_pk w) obj)]> (heap w)
        ∧ lists w' = lists w
        ∧ next_pk w' = S (next_pk w)
        ∧ ∀ l, l ∈ db_links w' -> l ∈ db_links w ∨ l_target l = next_pk w.
Proof.
  intros Hh Hu Hst Hval Hsrc Hnd Hfree. cbn [store].
  rewrite (bind_ok _ _ _ _ _ (get_obj_some _ _ _ Hh)), Hst. cbn [negb].
  assert (Hv : reading (run_validate n) w = (Ok tt, w))
    by (unfold reading; rewrite Hval; reflexivity).
  rewrite (bind_ok _ _ _ _ _ Hv), Hu.
  assert (Hpar : reading (_check_are_parents_stored n) w = (Ok tt, w)).
  { unfold reading, _check_are_parents_stored.
    rewrite (read_obj_some _ _ _ Hh), (sources_stored_check _ _ Hsrc).
    reflexivity. }
  rewrite (bind_ok _ _ _ _ _ Hpar).
  rewrite bind_run. cbn [mret M_ret ret].
  assert (Hattrs : get_attrs n w = Ok (deref w <$> _attrs_cache obj)).
  { unfold get_attrs. rewrite (read_obj_some _ _ _ Hh), Hu. reflexivity. }
  set (p := next_pk w) in *.
  set (row0 := mkRow (uuid obj) (plugin_type_string (klass obj)) (label obj)
                 (description obj) (deref w <$> _attrs_cache obj) ∅
                 (folder obj) (computer obj)).
  set (objs := mark_stored p obj).
  set (w0 := set_heap (<[n := objs]> (heap w))
               (set_db_nodes (<[p := row0]> (db_nodes w))
                  (set_next_pk (S p) w))).
  assert (Hh0 : heap w0 !! n = Some objs)
    by (unfold w0; cbn [heap set_heap]; apply lookup_insert_eq).
  assert (Hother : ∀ t, t ∈ _incoming_cache obj ->
            heap w0 !! node t = heap w !! node t).
  { intros t Ht. unfold w0. cbn [heap set_heap]. apply lookup_insert_ne.
    intros Heq. apply (proj1 (Forall_forall _ _) Hsrc) in Ht
      as (s & ps & Hs & Hst' & _).
    rewrite <- Heq in Hs. congruence. }
  assert (Hkeys : flush_key w0 <$> _incoming_cache obj
                  = flush_key w <$> _incoming_cache obj).
  { apply list_fmap_ext. intros i t Ht. unfold flush_key.
    rewrite (Hother t (list_elem_of_lookup_2 _ _ _ Ht)). reflexivity. }
  destruct (flush_links_succeeds n p (_incoming_cache obj) w0 objs Hh0 eq_refl)
    as (wf & Hflush & Hheapf & Hdbf & Hlsf & Hpkf & Hnewf).
  { apply Forall_forall. intros t Ht. rewrite (Hother t Ht).
    exact (proj1 (Forall_forall _ _) Hsrc t Ht). }
  { rewrite Hkeys. exact Hnd. }
  { intros l Hl Ht. destruct (Hfree l Hl Ht). }
  set (wb := set_heap (<[n := with_incoming [] objs]> (heap wf)) wf).
  assert (Hbody : (obj ← get_obj n;
                   attrs ← reading (get_attrs n);
                   p ← gets next_pk;
                   modify (set_next_pk (S p));;
                   put_row p (mkRow (uuid obj) (plugin_type_string (klass obj))
                                (label obj) (description obj) attrs ∅
                                (folder obj) (computer obj));;
                   put_obj n (mark_stored p obj);;
                   _store_cached_input_links n false) w = (Ok tt, wb)).
  { rewrite (bind_ok _ _ _ _ _ (get_obj_some _ _ _ Hh)).
    unfold reading at 1. rewrite bind_run, Hattrs.
    rewrite bind_run. cbn [gets]. rewrite bind_run. cbn [modify].
    rewrite bind_run. unfold put_row at 1. cbn [modify].
    rewrite bind_run. unfold put_obj at 1. cbn [modify].
    fold p. fold row0. fold objs.
    change (_store_cached_input_links n false w0 = (Ok tt, wb)).
    unfold _store_cached_input_links.
    rewrite (bind_ok _ _ _ _ _ (get_obj_some _ _ _ Hh0)).
    cbn [objs mark_stored _incoming_cache].
    rewrite (bind_ok _ _ _ _ _ Hflush). reflexivity. }
  assert (Hdb : ∃ wh, _db_store env n wt w = (Ok tt, wh)
                      ∧ heap wh !! n = Some (with_incoming [] objs)
                      ∧ heap wh = heap wb ∧ lists wh = lists wb
                      ∧ next_pk wh = next_pk wb
                      ∧ db_links wh = db_links wb).
  { unfold _db_store.
    rewrite (bind_ok _ _ _ _ _ (maybe_atomically_ok wt _ _ _ _ Hbody)).
    destruct (get_hash_total env n wb) as [h Hhash].
    unfold reading at 1. rewrite bind_run, Hhash.
    assert (Hhb : heap wb !! n = Some (with_incoming [] objs))
      by (unfold wb; cbn [heap set_heap]; apply lookup_insert_eq).
    assert (Hrb : db_nodes wb !! p = Some row0).
    { unfold wb. cbn [db_nodes set_heap]. rewrite Hdbf. unfold w0.
      cbn [db_nodes set_heap set_db_nodes]. apply lookup_insert_eq. }
    unfold _set_db_extra, reading. rewrite bind_run.
    rewrite (read_row_some _ _ p row0 _ Hhb eq_refl Hrb).
    rewrite bind_run. cbn [gets fst snd andb].
    eexists. split; [reflexivity|]. split; [exact Hhb | repeat split]. }
  destruct Hdb as (wh & Hdb & Hhh & Hheaph & Hlsh & Hpkh & Hlkh).
  rewrite (bind_ok _ _ _ _ _ Hdb).
  destruct (autogroup_succeeds n _ wh Hhh) as (w' & Hag & _).
  destruct (autogroup_frame _ _ _ _ Hag) as (Hheap' & Hls' & Hpk' & Hlk').
  exists w'. split; [exact Hag|]. repeat split.
  - rewrite Hheap', Hheaph. unfold wb. cbn [heap set_heap].
    rewrite Hheapf. unfold w0. cbn [heap set_heap].
    apply insert_insert_eq.
  - rewrite Hls', Hlsh. unfold wb. cbn [lists set_heap]. rewrite Hlsf.
    reflexivity.
  - rewrite Hpk', Hpkh. unfold wb. cbn [next_pk set_heap]. rewrite Hpkf.
    reflexivity.
  - intros l Hl. rewrite Hlk', Hlkh in Hl. unfold wb in Hl.
    cbn [db_links set_heap] in Hl. exact (Hnewf l Hl).
Qed.




(** ** The sources that [_store_input_nodes] stores *)

Lemma only_stored_refl (w : World) : only_stored w w.
Proof. split; [reflexivity|]. intros o s Hs. left. exact Hs. Qed.

Lemma only_stored_trans (w1 w2 w3 : World) :
  only_stored w1 w2 -> only_stored w2 w3 -> only_stored w1 w3.
Proof.
  intros [Hl1 H1] [Hl2 H2]. split; [congruence|]. intros o s Hs.
  destruct (H1 o s Hs) as [Hsame|(Hu & s' & Hs' & Hst')].
  - exact (H2 o s Hsame).
  - right. split; [exact Hu|].
    destruct (H2 o s' Hs') as [Hsame|(Hu' & _)]; [|congruence].
    exists s'. split; assumption.
Qed.

Lemma only_stored_keeps (w w' : World) (o : oid) (s : NodeObj) :
  only_stored w w' -> heap w !! o = Some s -> _to_be_stored s = false ->
  heap w' !! o = Some s.
Proof.
  intros [_ H] Hs Hst. destruct (H o s Hs) as [Hsame|(Hu & _)];
    [exact Hsame | congruence].
Qed.

Lemma run_validate_ext (w w' : World) (n : oid) (s : NodeObj) :
  heap w !! n = Some s -> heap w' !! n = Some s -> _to_be_stored s = true ->
  lists w' = lists w -> run_validate n w' = run_validate n w.
Proof.
  intros Hs Hs' Hu Hl. unfold run_validate, get_attrs.
  rewrite (read_obj_some _ _ _ Hs), (read_obj_some _ _ _ Hs'), Hu.
  replace (deref w' <$> _attrs_cache s) with (deref w <$> _attrs_cache s);
    [reflexivity|].
  apply map_fmap_ext. intros k v _. destruct v; [reflexivity|].
  unfold deref, read_list. rewrite Hl. reflexivity.
Qed.

Lemma sources_stored_ext (w w' : World) (cache : list LinkTriple) :
  only_stored w w' -> sources_stored w cache ->
  sources_stored w' cache ∧ flush_key w' <$> cache = flush_key w <$> cache.
Proof.
  intros Hos Hsrc. split.
  - eapply Forall_impl; [exact Hsrc|].
    intros t (s & ps & Hs & Hst & Hps). exists s, ps.
    split; [exact (only_stored_keeps _ _ _ _ Hos Hs Hst) | split; assumption].
  - apply list_fmap_ext. intros i t Ht.
    apply list_elem_of_lookup_2 in Ht.
    destruct (proj1 (Forall_forall _ _) Hsrc t Ht) as (s & ps & Hs & Hst & _).
    unfold flush_key.
    rewrite Hs, (only_stored_keeps _ _ _ _ Hos Hs Hst). reflexivity.
Qed.

Lemma storable_source_ext (env : Env) (w w' : World) (t : LinkTriple) :
  only_stored w w' -> storable_source env w t -> storable_source env w' t.
Proof.
  intros Hos (s & Hs & Hcan).
  destruct (proj2 Hos _ _ Hs) as [Hsame|(_ & s' & Hs' & Hst')].
  - exists s. split; [exact Hsame|]. intros Hu.
    destruct (Hcan Hu) as (Hsto & Hval & Huc & Hsrc & Hnd).
    destruct (sources_stored_ext _ _ _ Hos Hsrc) as [Hsrc' Hkeys].
    repeat split; try assumption.
    + rewrite (run_validate_ext w w' _ s Hs Hsame Hu (proj1 Hos)).
      exact Hval.
    + rewrite Hkeys. exact Hnd.
  - exists s'. split; [exact Hs'|]. congruence.
Qed.

Lemma store_default_cache (env : Env) (fuel : nat) (wt : bool) (w : World)
    (n : oid) (s : NodeObj) :
  heap w !! n = Some s ->
  get_use_cache env (plugin_type_string (klass s)) = false ->
  store env fuel wt n None w = store env fuel wt n (Some false) w.
Proof.
  intros Hs Huc. destruct fuel as [|fuel]; [reflexivity|]. cbn [store].
  rewrite !(bind_ok _ _ _ _ _ (get_obj_some _ _ _ Hs)), Huc. reflexivity.
Qed.

(** One pass of the loop of [_store_input_nodes]. *)
Lemma store_sources_loop (env : Env) (fuel : nat) :
  ∀ (todo : list LinkTriple) (w : World),
    Forall (storable_source env w) todo ->
    links_below w ->
    ∃ w', for_each todo (fun link_triple =>
              s ← get_obj (node link_triple);
              if negb (is_stored s)
              then store env (S fuel) false (node link_triple) None
              else mret tt) w = (Ok tt, w')
          ∧ only_stored w w' ∧ links_below w'
          ∧ (∀ o, o ∉ node <$> todo -> heap w' !! o = heap w !! o)
          ∧ Forall (fun t => ∃ s, heap w' !! node t = Some s
                                  ∧ _to_be_stored s = false) todo.
Proof.
  induction todo as [|t rest IH]; intros w Hall Hlb.
  - exists w. repeat split; [apply only_stored_refl | exact Hlb | constructor].
  - inversion Hall as [|? ? (s & Hs & Hcan) Hrest]; subst.
    cbn [for_each].
    assert (Hstep : ∃ w1 s1,
              (s ← get_obj (node t);
               if negb (is_stored s)
               then store env (S fuel) false (node t) None
               else mret tt) w = (Ok tt, w1)
              ∧ only_stored w w1 ∧ links_below w1
              ∧ (∀ o, o ≠ node t -> heap w1 !! o = heap w !! o)
              ∧ heap w1 !! node t = Some s1 ∧ _to_be_stored s1 = false).
    { rewrite (bind_ok _ _ _ _ _ (get_obj_some _ _ _ Hs)). unfold is_stored.
      destruct (_to_be_stored s) eqn:Hu; cbn [negb].
      - destruct (Hcan eq_refl) as (Hsto & Hval & Huc & Hsrc & Hnd).
        rewrite (store_default_cache env _ false w _ s Hs Huc).
        destruct (store_succeeds_with_links env fuel false w (node t) s
                    Hs Hu Hsto Hval Hsrc Hnd)
          as (w1 & Hrun & Hheap & Hls & Hpk & Hnew).
        { intros l Hl. specialize (Hlb l Hl). lia. }
        exists w1, (with_incoming [] (mark_stored (next_pk w) s)).
        split; [exact Hrun|]. repeat split.
        + exact Hls.
        + intros o s0 Hs0. rewrite Hheap.
          destruct (decide (o = node t)) as [->|Hne].
          * right. assert (s0 = s) as -> by congruence.
            split; [exact Hu|]. eexists. rewrite lookup_insert_eq.
            split; reflexivity.
          * left. rewrite lookup_insert_ne by congruence. exact Hs0.
        + intros l Hl. rewrite Hpk.
          destruct (Hnew l Hl) as [Hold|Ht]; [specialize (Hlb l Hold)|]; lia.
        + intros o Hne. rewrite Hheap. apply lookup_insert_ne. congruence.
        + rewrite Hheap. apply lookup_insert_eq.
      - exists w, s. repeat split;
          [apply only_stored_refl | exact Hlb | exact Hs | exact Hu]. }
    destruct Hstep as (w1 & s1 & Hrun1 & Hos1 & Hlb1 & Hfr1 & Hs1 & Hst1).
    rewrite (bind_ok _ _ _ _ _ Hrun1).
    destruct (IH w1) as (w' & Hrun & Hos & Hlb' & Hfr & Hdone); [|exact Hlb1|].
    { eapply Forall_impl; [exact Hrest|]. intros t'.
      apply storable_source_ext. exact Hos1. }
    exists w'. split; [exact Hrun|]. repeat split.
    + exact (proj1 (only_stored_trans _ _ _ Hos1 Hos)).
    + exact (proj2 (only_stored_trans _ _ _ Hos1 Hos)).
    + exact Hlb'.
    + intros o Ho. cbn [fmap list_fmap] in Ho.
      apply not_elem_of_cons in Ho as [Hne Ho].
      rewrite (Hfr o Ho). exact (Hfr1 o Hne).
    + constructor; [|exact Hdone]. exists s1.
      split; [exact (only_stored_keeps _ _ _ _ Hos Hs1 Hst1) | exact Hst1].
Qed.

Lemma check_sources_stored_pass (w : World) (cache : list LinkTriple) :
  Forall (fun t => ∃ s, heap w !! node t = Some s
                        ∧ _to_be_stored s = false) cache ->
  check_sources_stored w cache = Ok tt.
Proof.
  induction 1 as [|t rest (s & Hs & Hst) _ IH]; [reflexivity|].
  cbn [check_sources_stored]. rewrite (read_obj_some _ _ _ Hs).
  unfold is_stored. rewrite Hst. exact IH.
Qed.




(** ** The tests of [get_db_test_list] *)

Lemma lookup_key_Some {A} (k : string) (d : list (string * A)) (v : A) :
  tests.lookup_key k d = Some v -> (k, v) ∈ d.
Proof.
  induction d as [|[k0 v0] d IH]; cbn [tests.lookup_key fst snd];
    [discriminate|].
  destruct (decide (k0 = k)) as [->|Hne].
  - intros [= ->]. left.
  - intros H. right. exact (IH H).
Qed.

Lemma lookup_key_None {A} (k : string) (d : list (string * A)) :
  tests.lookup_key k d = None -> k ∉ d.*1.
Proof.
  induction d as [|[k0 v0] d IH]; cbn [tests.lookup_key fst snd fmap list_fmap].
  - intros _ H. inversion H.
  - destruct (decide (k0 = k)) as [->|Hne]; [discriminate|].
    intros H. apply not_elem_of_cons. split; [congruence | exact (IH H)].
Qed.

Lemma read_insert (ls : gmap nat (list string)) (l : nat) (xs : list string) :
  tests.read (<[l := xs]> ls) l = xs.
Proof. unfold tests.read. rewrite lookup_insert_eq. reflexivity. Qed.

Lemma read_insert_ne (ls : gmap nat (list string)) (l l' : nat)
    (xs : list string) :
  l ≠ l' -> tests.read (<[l := xs]> ls) l' = tests.read ls l'.
Proof.
  intros Hne. unfold tests.read. rewrite lookup_insert_ne by exact Hne.
  reflexivity.
Qed.

Lemma dict_ok_inj (d : list (string * nat)) (ls : gmap nat (list string))
    (k k' : string) (l : nat) :
  dict_ok d ls -> (k, l) ∈ d -> (k', l) ∈ d -> k = k'.
Proof.
  intros (_ & Hnd & _) H1 H2.
  apply list_elem_of_lookup in H1 as [i Hi].
  apply list_elem_of_lookup in H2 as [j Hj].
  assert (i = j).
  { apply (NoDup_lookup _ i j l Hnd); rewrite list_lookup_fmap.
    - rewrite Hi. reflexivity.
    - rewrite Hj. reflexivity. }
  subst j. congruence.
Qed.

Lemma dict_ok_fun (d : list (string * nat)) (ls : gmap nat (list string))
    (k : string) (l l' : nat) :
  dict_ok d ls -> (k, l) ∈ d -> (k, l') ∈ d -> l = l'.
Proof.
  intros (Hnd & _ & _) H1 H2.
  apply list_elem_of_lookup in H1 as [i Hi].
  apply list_elem_of_lookup in H2 as [j Hj].
  assert (i = j).
  { apply (NoDup_lookup _ i j k Hnd); rewrite list_lookup_fmap.
    - rewrite Hi. reflexivity.
    - rewrite Hj. reflexivity. }
  subst j. congruence.
Qed.

(** [d[k]] on a [defaultdict]: the key is there afterwards, nothing else
    is new, and no list has changed. *)
Lemma getitem_spec (k : string) (d d' : list (string * nat))
    (ls ls' : gmap nat (list string))
    (l : nat) :
  dict_ok d ls ->
  tests.getitem k d ls = (l, d', ls') ->
  dict_ok d' ls'
  ∧ (k, l) ∈ d'
  ∧ (∀ kv, kv ∈ d -> kv ∈ d')
  ∧ (∀ kv, kv ∈ d' -> kv ∈ d ∨ (kv = (k, l) ∧ tests.read ls l = []))
  ∧ (∀ x, tests.read ls' x = tests.read ls x)
  ∧ dom ls ⊆ dom ls'.
Proof.
  intros (Hk & Hl & Hdom) Hget. unfold tests.getitem in Hget.
  destruct (tests.lookup_key k d) as [l0|] eqn:Hlook.
  - injection Hget as <- <- <-. split; [split_and!; assumption|].
    split_and!; try done.
    + exact (lookup_key_Some _ _ _ Hlook).
    + intros kv Hkv. left. exact Hkv.
  - injection Hget as <- <- <-.
    pose proof (is_fresh (dom ls)) as Hfresh.
    set (l := fresh (dom ls)) in *.
    assert (Hread : tests.read ls l = []).
    { unfold tests.read. apply not_elem_of_dom in Hfresh. rewrite Hfresh.
      reflexivity. }
    split_and!.
    + split_and!.
      * rewrite fmap_app. apply NoDup_app. split; [exact Hk|]. split.
        -- intros x Hx Hx'. cbn in Hx'. apply list_elem_of_singleton in Hx'.
           subst x. exact (lookup_key_None _ _ Hlook Hx).
        -- cbn. apply NoDup_singleton.
      * rewrite fmap_app. apply NoDup_app. split; [exact Hl|]. split.
        -- intros x Hx Hx'. cbn in Hx'. apply list_elem_of_singleton in Hx'.
           subst x. apply list_elem_of_fmap in Hx as (kv & Hkv & Hin).
           apply Hfresh. rewrite Hkv. exact (Hdom kv Hin).
        -- cbn. apply NoDup_singleton.
      * intros kv Hkv. rewrite dom_insert.
        apply elem_of_app in Hkv as [Hkv|Hkv].
        -- apply elem_of_union_r. exact (Hdom kv Hkv).
        -- apply list_elem_of_singleton in Hkv as ->. cbn.
           apply elem_of_union_l, elem_of_singleton. reflexivity.
    + apply elem_of_app. right. left.
    + intros kv Hkv. apply elem_of_app. left. exact Hkv.
    + intros kv Hkv. apply elem_of_app in Hkv as [Hkv|Hkv]; [left; exact Hkv|].
      apply list_elem_of_singleton in Hkv as ->. right. split; [reflexivity|].
      exact Hread.
    + intros x. destruct (decide (l = x)) as [<-|Hne].
      * rewrite read_insert, Hread. reflexivity.
      * apply read_insert_ne. exact Hne.
    + rewrite dom_insert. apply union_subseteq_r.
Qed.

Lemma dict_ok_insert (d : list (string * nat)) (ls : gmap nat (list string))
    (l : nat) (xs : list string) :
  dict_ok d ls -> dict_ok d (<[l := xs]> ls).
Proof.
  intros (Hk & Hl & Hdom). split; [exact Hk|]. split; [exact Hl|].
  intros kv Hkv. rewrite dom_insert. apply elem_of_union_r.
  exact (Hdom kv Hkv).
Qed.

Lemma loaded_append (done : list (string * string)) (k t : string)
    (st : list (string * nat) * gmap nat (list string)) :
  loaded done st -> loaded (done ++ [(k, t)]) (tests.append_item k t st).
Proof.
  intros (Hok & Hcont & Hkeys). unfold tests.append_item.
  destruct (tests.getitem k st.1 st.2) as [[l d'] ls'] eqn:Hget.
  destruct (getitem_spec _ _ _ _ _ _ Hok Hget)
    as (Hok' & Hin & Hmono & Hnew & Hread & _).
  unfold loaded. cbn [fst snd]. split; [apply dict_ok_insert, Hok'|]. split.
  - intros k0 l0 Hkl.
    destruct (decide (l = l0)) as [Heq|Hne].
    + subst l0.
      assert (k0 = k) as -> by exact (dict_ok_inj _ _ _ _ _ Hok' Hkl Hin).
      rewrite read_insert. split.
      { intros H. apply app_eq_nil in H as [_ H]. discriminate. }
      intros t0. rewrite elem_of_app, list_elem_of_singleton, Hread.
      rewrite elem_of_app, list_elem_of_singleton.
      destruct (Hnew _ Hkl) as [Hold|[_ Hempty]].
      * rewrite (proj2 (Hcont _ _ Hold) t0). split.
        -- intros [H|H]; [left; exact H | right; congruence].
        -- intros [H|H]; [left; exact H | right; congruence].
      * rewrite Hempty. split.
        -- intros [H|H]; [inversion H | right; congruence].
        -- intros [H|H]; [|right; congruence].
           exfalso. apply Hkeys in H.
           apply list_elem_of_fmap in H as ([k1 l1] & Hk1 & Hin1).
           cbn in Hk1. subst k1.
           assert (l1 = l)
             by exact (dict_ok_fun _ _ _ _ _ Hok' (Hmono _ Hin1) Hin).
           subst l1. destruct (Hcont _ _ Hin1) as [Hne _].
           exact (Hne Hempty).
    + rewrite read_insert_ne by exact Hne. rewrite Hread.
      destruct (Hnew _ Hkl) as [Hold|[Heq _]]; [|congruence].
      destruct (Hcont _ _ Hold) as [Hne0 Hiff]. split; [exact Hne0|].
      intros t0. rewrite Hiff, elem_of_app, list_elem_of_singleton. split.
      * intros H. left. exact H.
      * intros [H|H]; [exact H|]. injection H as -> ->.
        exfalso. apply Hne.
        exact (dict_ok_fun _ _ _ _ _ Hok' Hin Hkl).
  - intros k0 t0 H. apply elem_of_app in H as [H|H].
    + apply Hkeys in H. apply list_elem_of_fmap in H as (kv & -> & Hkv).
      apply list_elem_of_fmap. exists kv. split; [reflexivity|].
      exact (Hmono _ Hkv).
    + apply list_elem_of_singleton in H. injection H as -> ->.
      apply list_elem_of_fmap. exists (k, l). split; [reflexivity | exact Hin].
Qed.

Lemma loaded_appends (pairs done : list (string * string))
    (st : list (string * nat) * gmap nat (list string)) :
  loaded done st ->
  loaded (done ++ pairs)
         (foldl (fun st kt => tests.append_item kt.1 kt.2 st) st pairs).
Proof.
  revert done st. induction pairs as [|[k t] pairs IH]; intros done st Hst.
  - rewrite app_nil_r. exact Hst.
  - cbn [foldl fst snd]. rewrite (cons_middle (k, t)), app_assoc.
    apply IH, loaded_append, Hst.
Qed.

Lemma load_tests_flat (table : list (string * list string))
    (st : list (string * nat) * gmap nat (list string)) :
  tests.load_tests table st
  = foldl (fun st kt => tests.append_item kt.1 kt.2 st) st (flat_tests table).
Proof.
  unfold tests.load_tests, flat_tests. revert st.
  induction table as [|[k ts] table IH]; intros st; [reflexivity|].
  cbn [foldl mbind list_bind fst snd]. rewrite foldl_app, IH. f_equal.
  clear IH. revert st. induction ts as [|t ts IHts]; intros st; [reflexivity|].
  cbn [foldl fmap list_fmap fst snd]. apply IHts.
Qed.

Lemma setitem_new (k : string) (v : nat) (d : list (string * nat)) :
  k ∉ d.*1 -> tests.setitem k v d = d ++ [(k, v)].
Proof.
  induction d as [|[k0 v0] d IH]; intros Hk; [reflexivity|].
  cbn [tests.setitem fst fmap list_fmap] in *.
  apply not_elem_of_cons in Hk as [Hne Hk].
  rewrite decide_False by congruence. rewrite (IH Hk). reflexivity.
Qed.

(** [final_retdict] starts as [retdict], item by item, with the same list
    objects. *)
Lemma copy_items (d acc : list (string * nat)) :
  NoDup (acc ++ d).*1 ->
  foldl (fun d kv => tests.setitem kv.1 kv.2 d) acc d = acc ++ d.
Proof.
  revert acc. induction d as [|[k v] d IH]; intros acc Hnd.
  - rewrite app_nil_r. reflexivity.
  - cbn [foldl fst snd]. rewrite (cons_middle (k, v)), app_assoc in Hnd |- *.
    rewrite setitem_new.
    + apply IH. exact Hnd.
    + rewrite !fmap_app in Hnd. apply NoDup_app in Hnd as [Hnd _].
      apply NoDup_app in Hnd as (_ & Hdisj & _). intros Hk.
      apply (Hdisj k Hk). left.
Qed.

Lemma parent_keys_trans (p k k' : string) :
  p ∈ tests.parent_keys k -> k ∈ tests.parent_keys k' ->
  p ∈ tests.parent_keys k'.
Proof.
  intros Hp Hk. apply elem_of_parent_keys in Hk as (i0 & Hi0 & ->).
  apply elem_of_parent_keys in Hp as (i & Hi & ->).
  set (parts := tests.split "." k') in *.
  assert (Hsplit : tests.split "." (tests.join "." (take i0 parts))
                   = take i0 parts).
  { apply split_join.
    - destruct parts as [|part rest]; [cbn [length] in Hi0; lia|].
      destruct i0; [lia | discriminate].
    - apply Forall_take, split_parts_without_sep. }
  rewrite Hsplit in Hi |- *. rewrite length_take in Hi.
  apply elem_of_parent_keys. exists i. fold parts. split; [lia|].
  rewrite take_take. f_equal. f_equal. lia.
Qed.

Lemma exploded_start (d0 : list (string * nat)) (ls0 : gmap nat (list string))
    (pairs : list (string * string)) :
  loaded pairs (d0, ls0) -> exploded d0 ls0 pairs [] (d0, ls0).
Proof.
  intros (Hok & Hcont & _). unfold exploded. cbn [fst snd] in *.
  split_and!; try done.
  - intros k l Hkl. destruct (Hcont k l Hkl) as [Hne Hiff].
    split; [exact Hne|]. intros t Ht. exists k.
    split; [apply Hiff, Ht | left; reflexivity].
  - intros p v t Hin. inversion Hin.
Qed.

Lemma exploded_extend (d0 : list (string * nat))
    (ls0 : gmap nat (list string)) (pairs : list (string * string))
    (done : list (string * nat))
    (st : list (string * nat) * gmap nat (list string))
    (k p : string) (v : nat) :
  exploded d0 ls0 pairs done st ->
  (k, v) ∈ d0 -> p ∈ tests.parent_keys k ->
  exploded d0 ls0 pairs (done ++ [(p, v)]) (tests.extend_item p v st).
Proof.
  intros (Hok & Hsub & Hmono & Hsound & Hdone) Hkv Hp.
  unfold tests.extend_item.
  destruct (tests.getitem p st.1 st.2) as [[l d'] ls'] eqn:Hget.
  destruct (getitem_spec _ _ _ _ _ _ Hok Hget)
    as (Hok' & Hin & Hkeep & Hnew & Hread & _).
  assert (Hv : ∀ t, t ∈ tests.read st.2 v -> below pairs p t).
  { intros t Ht.
    destruct (proj2 (Hsound k v (Hsub _ Hkv)) t Ht) as (k' & Hk' & [->|Hk]).
    - exists k'. split; [exact Hk' | right; exact Hp].
    - exists k'. split; [exact Hk'|]. right.
      exact (parent_keys_trans _ _ _ Hp Hk). }
  assert (Hgrow : ∀ x t, t ∈ tests.read st.2 x ->
            t ∈ tests.read
                  (<[l := tests.read ls' l ++ tests.read ls' v]> ls') x).
  { intros x t Ht. destruct (decide (l = x)) as [<-|Hne].
    - rewrite read_insert, Hread. apply elem_of_app. left. exact Ht.
    - rewrite read_insert_ne by exact Hne. rewrite Hread. exact Ht. }
  unfold exploded. cbn [fst snd]. split_and!.
  - apply dict_ok_insert, Hok'.
  - intros kv H. apply Hkeep, Hsub, H.
  - intros x t Ht. apply Hgrow, Hmono, Ht.
  - intros k0 l0 Hkl. destruct (decide (l = l0)) as [Heq|Hne].
    + subst l0.
      assert (k0 = p) as -> by exact (dict_ok_inj _ _ _ _ _ Hok' Hkl Hin).
      rewrite read_insert, !Hread. split.
      * intros H. apply app_eq_nil in H as [_ H].
        exact (proj1 (Hsound k v (Hsub _ Hkv)) H).
      * intros t Ht. apply elem_of_app in Ht as [Ht|Ht]; [|exact (Hv t Ht)].
        destruct (Hnew _ Hkl) as [Hold|[_ Hempty]].
        -- exact (proj2 (Hsound _ _ Hold) t Ht).
        -- rewrite Hempty in Ht. inversion Ht.
    + rewrite read_insert_ne by exact Hne. rewrite Hread.
      destruct (Hnew _ Hkl) as [Hold|[Heq _]]; [|congruence].
      exact (Hsound _ _ Hold).
  - intros p0 v0 t Hin0 Ht. apply elem_of_app in Hin0 as [Hin0|Hin0].
    + destruct (Hdone p0 v0 t Hin0 Ht) as (l0 & Hl0 & Ht0).
      exists l0. split; [apply Hkeep, Hl0 | apply Hgrow, Ht0].
    + apply list_elem_of_singleton in Hin0. injection Hin0 as -> ->.
      exists l. split; [exact Hin|].
      rewrite read_insert, !Hread. apply elem_of_app. right.
      apply Hmono, Ht.
Qed.

Lemma exploded_loop (d0 : list (string * nat)) (ls0 : gmap nat (list string))
    (pairs : list (string * string)) (items : list (string * nat)) :
  ∀ (done : list (string * nat))
    (st : list (string * nat) * gmap nat (list string)),
    exploded d0 ls0 pairs done st ->
    (∀ kv, kv ∈ items -> kv ∈ d0) ->
    ∃ done',
      exploded d0 ls0 pairs done'
        (foldl (fun st kv =>
                  foldl (fun st parentkey =>
                           tests.extend_item parentkey kv.2 st)
                        st (tests.parent_keys kv.1)) st items)
      ∧ (∀ op, op ∈ done -> op ∈ done')
      ∧ ∀ k v p, (k, v) ∈ items -> p ∈ tests.parent_keys k ->
                 (p, v) ∈ done'.
Proof.
  induction items as [|[k v] items IH]; intros done st Hst Hsub.
  - exists done. split; [exact Hst|]. split; [auto|].
    intros k v p H. inversion H.
  - cbn [foldl fst snd].
    assert (Hinner : ∀ (ps : list string) done st,
              exploded d0 ls0 pairs done st ->
              (∀ p, p ∈ ps -> p ∈ tests.parent_keys k) ->
              exploded d0 ls0 pairs (done ++ ((fun p => (p, v)) <$> ps))
                (foldl (fun st parentkey => tests.extend_item parentkey v st)
                       st ps)).
    { clear -Hsub. induction ps as [|p ps IHps]; intros done st Hst Hps.
      - cbn. rewrite app_nil_r. exact Hst.
      - cbn [foldl fmap list_fmap]. rewrite (cons_middle (p, v)), app_assoc.
        apply IHps.
        + apply (exploded_extend _ _ _ _ _ k); [exact Hst | |].
          * apply Hsub. left.
          * apply Hps. left.
        + intros p' Hp'. apply Hps. right. exact Hp'. }
    specialize (Hinner (tests.parent_keys k) done st Hst (fun p H => H)).
    destruct (IH _ _ Hinner) as (done' & Hst' & Hkeep & Hall).
    { intros kv Hkv. apply Hsub. right. exact Hkv. }
    exists done'. split; [exact Hst'|]. split.
    + intros op Hop. apply Hkeep, elem_of_app. left. exact Hop.
    + intros k1 v1 p Hin Hp. apply elem_of_cons in Hin as [Heq|Hin].
      * injection Heq as -> ->. apply Hkeep, elem_of_app. right.
        apply list_elem_of_fmap. exists p. split; [reflexivity | exact Hp].
      * exact (Hall k1 v1 p Hin Hp).
Qed.

(** What [explode] makes of a [retdict] that holds [pairs]. *)
Lemma explode_spec (pairs : list (string * string))
    (st : list (string * nat) * gmap nat (list string)) :
  loaded pairs st ->
  let final := tests.explode st in
  NoDup final.1.*1
  ∧ (∀ k l, (k, l) ∈ final.1 -> tests.read final.2 l ≠ [])
  ∧ ∀ k t, (∃ l, (k, l) ∈ final.1 ∧ t ∈ tests.read final.2 l)
           ↔ below pairs k t.
Proof.
  intros Hst. destruct st as [d0 ls0]. unfold tests.explode. cbn [fst snd].
  rewrite copy_items by (exact (proj1 (proj1 Hst))). cbn [app].
  destruct (exploded_loop d0 ls0 pairs d0 [] (d0, ls0)
              (exploded_start _ _ _ Hst) (fun kv H => H))
    as (done & (Hok & Hsub & Hmono & Hsound & Hdone) & _ & Hall).
  set (final := foldl _ _ d0) in *. cbn zeta. split; [exact (proj1 Hok)|].
  split; [intros k l Hkl; exact (proj1 (Hsound k l Hkl))|].
  intros k t. split.
  - intros (l & Hkl & Ht). exact (proj2 (Hsound k l Hkl) t Ht).
  - intros (k' & Hk' & Hk).
    destruct Hst as (_ & Hcont & Hkeys). cbn [fst snd] in *.
    pose proof (Hkeys _ _ Hk') as Hkey.
    apply list_elem_of_fmap in Hkey as ([k1 l'] & Hk1 & Hin).
    cbn in Hk1. subst k1.
    assert (Ht : t ∈ tests.read ls0 l') by (apply (Hcont k' l' Hin), Hk').
    destruct Hk as [->|Hk].
    + exists l'. split; [apply Hsub, Hin | apply Hmono, Ht].
    + exact (Hdone k l' t (Hall k' l' k Hin Hk) Ht).
Qed.

Lemma elem_of_flat_tests (table : list (string * list string))
    (k t : string) :
  (k, t) ∈ flat_tests table ↔ ∃ ts, (k, ts) ∈ table ∧ t ∈ ts.
Proof.
  unfold flat_tests. rewrite list_elem_of_bind. split.
  - intros ([k0 ts] & Hin & Hkv). cbn [fst snd] in Hin.
    apply list_elem_of_fmap in Hin as (t0 & [= -> ->] & Ht).
    exists ts. split; assumption.
  - intros (ts & Hkv & Ht). exists (k, ts). split; [|exact Hkv].
    cbn [fst snd]. apply list_elem_of_fmap. exists t. split; [reflexivity|].
    exact Ht.
Qed.

(** [get_db_test_list] when the backend and ['common'] are keys of the
    table. *)
Lemma get_db_test_list_spec
    (db_test_list : list (string * list (string * list string)))
    (entry_points : list (string * string)) (b : string)
    (be_tests common_tests : list (string * list string)) :
  tests.lookup_key b db_test_list = Some be_tests ->
  tests.lookup_key "common" db_test_list = Some common_tests ->
  ∃ d, tests.get_db_test_list db_test_list entry_points (Some b)
       = tests.Return d
       ∧ NoDup d.*1
       ∧ (∀ k v, (k, v) ∈ d -> v ≠ [])
       ∧ ∀ k t, (∃ v, (k, v) ∈ d ∧ t ∈ v)
                ↔ below (flat_tests common_tests ++ flat_tests be_tests
                         ++ entry_points) k t.
Proof.
  intros Hbe Hcommon. unfold tests.get_db_test_list.
  cbn [mbind option_bind]. rewrite Hbe, Hcommon.
  rewrite !load_tests_flat, <- !foldl_app.
  set (pairs := flat_tests common_tests ++ flat_tests be_tests
                ++ entry_points).
  set (st := foldl _ _ _).
  assert (Hst : loaded pairs st).
  { apply (loaded_appends pairs [] ([], ∅)). unfold loaded. cbn [fst snd].
    split.
    - split_and!; [constructor | constructor |].
      intros kv H. inversion H.
    - split; [intros k l H; inversion H | intros k t H; inversion H]. }
  destruct (explode_spec pairs st Hst) as (Hnd & Hne & Hiff).
  eexists. split; [reflexivity|]. split_and!.
  - rewrite <- list_fmap_compose. exact Hnd.
  - intros k v Hkv.
    apply list_elem_of_fmap in Hkv as ([k0 l] & [= -> ->] & Hin).
    exact (Hne k0 l Hin).
  - intros k t. rewrite <- Hiff. split.
    + intros (v & Hkv & Ht).
      apply list_elem_of_fmap in Hkv as ([k0 l] & [= -> ->] & Hin).
      exists l. split; assumption.
    + intros (l & Hin & Ht). exists (tests.read (tests.explode st).2 l).
      split; [|exact Ht]. apply list_elem_of_fmap. exists (k, l).
      split; [reflexivity | exact Hin].
Qed.

(** X26: [get_db_test_list] raises ConfigurationError unless the current
    backend and ['common'] are keys of the table.  Otherwise it returns a
    dict, without a key twice and without an empty list, that lists a module
    under a key exactly when the module belongs to that key, or to a key of
    which it is a dotted prefix, in the tests of ['common'], of the backend
    or of the entry points: a key of the table whose list is empty is not in
    the dict, and the list objects that [retdict] and [final_retdict] share
    add no module that does not belong there. *)
Theorem test_list_gathers_the_subtrees
    (db_test_list : list (string * list (string * list string)))
    (entry_points : list (string * string)) (BACKEND : option string) :
  match BACKEND ≫= (fun b => tests.lookup_key b db_test_list),
        tests.lookup_key "common" db_test_list with
  | Some be_tests, Some common_tests =>
      ∃ d, tests.get_db_test_list db_test_list entry_points BACKEND
           = tests.Return d
           ∧ NoDup d.*1
           ∧ (∀ k v, (k, v) ∈ d -> v ≠ [])
           ∧ ∀ k t, (∃ v, (k, v) ∈ d ∧ t ∈ v)
                    ↔ below (flat_tests common_tests ++ flat_tests be_tests
                             ++ entry_points) k t
  | _, _ =>
      ∃ message, tests.get_db_test_list db_test_list entry_points BACKEND
                 = tests.ConfigurationError message
  end.
Proof.
  destruct BACKEND as [b|]; cbn [mbind option_bind].
  - destruct (tests.lookup_key b db_test_list) as [be_tests|] eqn:Hbe.
    + destruct (tests.lookup_key "common" db_test_list) as [common_tests|]
        eqn:Hcommon.
      * exact (get_db_test_list_spec _ entry_points _ _ _ Hbe Hcommon).
      * unfold tests.get_db_test_list. cbn [mbind option_bind].
        rewrite Hbe, Hcommon. eexists. reflexivity.
    + unfold tests.get_db_test_list. cbn [mbind option_bind]. rewrite Hbe.
      destruct (tests.lookup_key "common" db_test_list);
        eexists; reflexivity.
  - destruct (tests.lookup_key "common" db_test_list); eexists; reflexivity.
Qed.

(** X27: the keys of the dict that [get_db_test_list] returns are names
    that [get_db_test_names] returns. *)
Theorem test_list_keys_are_test_names
    (db_test_list : list (string * list (string * list string)))
    (entry_points : list (string * string)) (BACKEND : option string)
    (d : list (string * list string)) :
  tests.get_db_test_list db_test_list entry_points BACKEND = tests.Return d ->
  ∀ k, k ∈ d.*1 -> k ∈ tests.get_db_test_names db_test_list entry_points.
Proof.
  intros Hd k Hk.
  destruct BACKEND as [b|]; [|discriminate].
  destruct (tests.lookup_key b db_test_list) as [be_tests|] eqn:Hbe;
    [|unfold tests.get_db_test_list in Hd; cbn [mbind option_bind] in Hd;
      rewrite Hbe in Hd; discriminate].
  destruct (tests.lookup_key "common" db_test_list) as [common_tests|]
    eqn:Hcommon;
    [|unfold tests.get_db_test_list in Hd; cbn [mbind option_bind] in Hd;
      rewrite Hbe, Hcommon in Hd; discriminate].
  destruct (get_db_test_list_spec _ entry_points _ _ _ Hbe Hcommon)
    as (d' & Hd' & _ & Hne & Hiff).
  rewrite Hd' in Hd. injection Hd as ->.
  apply list_elem_of_fmap in Hk as ([k0 v] & -> & Hkv). cbn [fst].
  destruct v as [|t v]; [destruct (Hne _ _ Hkv eq_refl)|].
  destruct (proj1 (Hiff k0 t)) as (k' & Hk' & Hk).
  { exists (t :: v). split; [exact Hkv | left]. }
  assert (Hret : k' ∈ tests.retlist db_test_list entry_points).
  { unfold tests.retlist.
    assert (Htable : ∀ name table, tests.lookup_key name db_test_list
                                   = Some table ->
              (k', t) ∈ flat_tests table ->
              k' ∈ db_test_list ≫= fun backend => backend.2.*1).
    { intros name table Hlook Hin. apply list_elem_of_bind.
      exists (name, table). split; [|exact (lookup_key_Some _ _ _ Hlook)].
      cbn [snd]. apply elem_of_flat_tests in Hin as (ts & Hin & _).
      apply list_elem_of_fmap. exists (k', ts). split; [reflexivity|].
      exact Hin. }
    apply elem_of_app in Hk' as [Hk'|Hk']; [|apply elem_of_app in Hk'
                                              as [Hk'|Hk']].
    - apply elem_of_app. left. exact (Htable _ _ Hcommon Hk').
    - apply elem_of_app. left. exact (Htable _ _ Hbe Hk').
    - apply elem_of_app. right. apply list_elem_of_fmap.
      exists (k', t). split; [reflexivity | exact Hk']. }
  apply elem_of_test_names. destruct Hk as [->|Hk]; [left; exact Hret|].
  right. apply elem_of_parent_keys in Hk as (i & Hi & ->).
  exists k', i. auto.
Qed.

Lemma test_list_keys_are_test_names_witness :
  tests.get_db_test_list nested_tests [("plugin.x", "plugin_tests")]
    (Some "django")
  = tests.Return [("a", ["t_a"; "t_abc"; "t_ab"; "t_abc"]);
                  ("a.b.c", ["t_abc"]);
                  ("a.b", ["t_ab"; "t_abc"]);
                  ("plugin.x", ["plugin_tests"]);
                  ("plugin", ["plugin_tests"])]
  ∧ Forall (fun k => k ∈ tests.get_db_test_names nested_tests
                           [("plugin.x", "plugin_tests")])
           ["a"; "a.b.c"; "a.b"; "plugin.x"; "plugin"].
Proof.
  assert (Hrun : tests.get_db_test_list nested_tests
                   [("plugin.x", "plugin_tests")] (Some "django")
                 = tests.Return [("a", ["t_a"; "t_abc"; "t_ab"; "t_abc"]);
                                 ("a.b.c", ["t_abc"]);
                                 ("a.b", ["t_ab"; "t_abc"]);
                                 ("plugin.x", ["plugin_tests"]);
                                 ("plugin", ["plugin_tests"])])
    by (vm_compute; reflexivity).
  split; [exact Hrun|]. apply Forall_forall. intros k Hk.
  exact (test_list_keys_are_test_names _ _ _ _ Hrun k Hk).
Defined.
